(* ===== verification/_CoqProject ===== *)
-Q . S2P
Prelude.v
Defs.v
Uri.v
Caps.v
RefCaps.v
Adap.v
SerHelper.v
SerRoundtrip.v
TagProps.v
Framing.v
SockAdap.v
Reader.v
DispState.v
RefSock.v
Disp.v
DispInv.v
DispFrame.v
DispOps.v
DispSafe.v
DispSpec.v
DispCalls.v
DispAuth.v
DispLoop.v
SockPoll.v
SockPollSpec.v
PollRun.v
BeepPoll.v
BeepPollSpec.v
Service.v
PollApi.v
Scenario.v
PollScenario.v
SockConn.v
CliState.v
Cli.v
CliSpec.v
CliCalls.v
ClientThreads.v
ClientLife.v
ClientClose.v
Peers.v
EndToEnd.v
ClientScenario.v
ClientRaces.v
StrMap.v
AgentState.v
Agent.v
Monitor.v
MonitorPeer.v
AgentSpec.v
AgentRun.v
AgentClose.v
AgentLife.v
AgentScenario.v
CApi.v
CApiSpec.v
CApiScenario.v
DispType.v
Mailbox.v
Legible.v
MailboxOps.v
MailboxRun.v
MailboxScenario.v
Roles.v
Announce.v
Voice.v
MonitorLog.v
MonitorRun.v
ServiceMonitor.v
Told.v
ServiceMailbox.v
MailboxService.v
MonitorScenario.v
DispTypeScenario.v
Deviations.v
