(* ===== verification/Prelude.v ===== *)
(** * flora: a verification development

    flora (yodaos-project) is a message bus between processes: clients connect to a
    service over unix or TCP sockets, post messages to the subscribers of a name, call
    methods that other clients declare, and get the replies. This library models the
    program's C++ code in [src/src] and [src/include] and proves what makes it correct.

    ** The program and its parts

    The service is a dispatcher ([disp.cc]) and any number of polls. A poll
    ([sock-poll.cc], [beep-sock-poll.h]) owns a listening socket and a thread that
    accepts connections, reads from them into a socket adapter ([sock-adap.cc]) and
    puts every complete message ([ser-helper.cc] over the Caps library) in the
    dispatcher's queue; the dispatcher's own thread takes the queue in batches, handles
    the commands and writes the answers to the adapters. A client ([cli.cc] over
    [sock-conn.cc]) sends requests and has a receive thread that answers the calls that
    wait, runs callbacks and notices the end of the connection. The agent
    ([flora-agent.cc]) keeps a client connected and repeats its subscriptions. The C
    interface wraps the client, the agent, the polls and the dispatcher. The monitor tool
    ([monitor/main.cc]) shows the clients the dispatcher announces to it.

    ** Conventions

    Stateful code is in the state monad [M] of this file, whose results include
    undefined behaviour as a value ([ub]); [wp] is the weakest precondition that
    excludes it and [wlp] the one that does not; [rels R m] says that every step of [m]
    moves along the preorder [R]. Machine integers are [Z] with the
    wrap-around of the unsigned types and of conversions written out ([u32], [i32],
    [u64]); the signed counters of calls are undefined where they overflow
    ([SignedOverflow]). Threads are labelled steps: one step
    is one critical section, one handler, or the code between two points where another
    thread may interfere; a wait on a condition variable is a place that says whether
    it was notified. Code that is not in the repository is a class of operations with a
    class of laws: the Caps library ([CapsOps], [CapsLaws], [CapsHandles]), the URI
    parser ([UriParser]), and of the system the sockets ([SockOS], [SockConnect],
    [PollOS], [FdLimit]) and the clock ([SteadyClock]). Each has a reference instance
    by which the theorems are applied to concrete runs.

    ** The files

    - Shared: [Prelude] (integers, bytes, the monad and its rules, step relations,
      lists, memory), [Defs] (the constants of the headers), [Uri], [StrMap] (iterating a
      [std::map] with string keys).
    - Messages: [Caps] (the interface), [RefCaps] (its instance), [SerHelper]
      (RequestSerializer, ResponseSerializer, RequestParser, ResponseParser,
      TagHelper), [SerRoundtrip] and [TagProps] (decoding what was encoded), [Framing]
      (cutting a byte stream into messages).
    - Adapters: [Adap] ([adap.h] as a class with laws), [SockAdap] ([sock-adap.cc], which
      discharges them), [Reader] ([SocketPoll::do_read] over any adapter and any sink of
      frames), [RefSock] (instances).
    - Dispatcher: [DispState] and [Disp] ([disp.h], [disp.cc], one definition per member
      function), [DispInv] (its invariant), [DispFrame] (what no handler changes),
      [DispOps] and [DispSafe] (the handlers keep the invariant), [DispSpec],
      [DispCalls] and [DispAuth] (what each handler does), [DispType] (the numbers of the
      pending calls),
      [DispLoop] (the thread and the queue, with the polls' steps as labels),
      [Deviations] (runs of clients that are not orderly).
    - Polls: [SockPoll] ([sock-poll.cc]; the overridden members are a [vtable]),
      [SockPollSpec] (what a class must promise for its members, and that the socket
      poll does), [PollRun] (the thread, [start] and [stop]), [BeepPoll] and
      [BeepPollSpec] (the keepalive poll), [Service] (all polls with the dispatcher),
      [PollApi] ([poll.cc] and the dispatcher's C functions).
    - Client: [SockConn], [CliState] and [Cli] ([cli.h], [cli.cc]), [CliSpec] (its
      operations), [CliCalls] (calls, replies and a close in any order),
      [ClientThreads] (the threads of [connect], [recv_loop], [keepalive_loop] and
      [close] with their waits and joins), [ClientLife] (their invariant),
      [ClientClose] (their end), [ClientRaces] (their races), [CApi] and [CApiSpec] (the C
      functions and [Client::connect]).
    - Agent: [AgentState] and [Agent], [AgentSpec] (its invariant), [AgentRun] (what it
      does with messages), [AgentClose] (two ways in which closing it hangs), [AgentLife]
      (reconnecting and closing, whatever the other threads do).
    - The two sides together: [Peers] and [EndToEnd].
    - What is written to a connection, in any run: [Roles] (the class [CalmInv] of the
      invariants that only the messages of clients and monitors disturb, with one lemma
      per handler of [disp.cc]), [Announce] (the handlers that announce clients),
      [Legible] (the messages every client accepts) and [Voice] (an instance of
      [CalmInv]: only such messages are written).
    - Mailboxes: [Mailbox] (the specification: what a connection is to be sent of the
      posts, from the accepted events alone), [MailboxOps] (what each handler of
      [disp.cc] does to it), [MailboxRun] (the dispatcher's runs), [Told] (what a client
      makes of the messages written to it), [ServiceMailbox] (the service's runs).
    - Monitors: [Monitor] ([monitor/main.cc]), [MonitorPeer] (what a monitor's client
      makes of the messages written to it), [MonitorLog] (what the dispatcher writes to
      a monitor, another instance of [CalmInv]), [MonitorRun] and [ServiceMonitor] (the
      dispatcher's and the service's runs).
    - Concrete runs: [Scenario], [PollScenario], [ClientScenario], [AgentScenario],
      [CApiScenario], [DispTypeScenario], [MailboxScenario], [MailboxService],
      [MonitorScenario].

    ** What the theorems show

    - The service. [service_refines]: polls of both classes and the dispatcher, in any
      interleaving with orderly clients, never reach undefined behaviour, and the
      dispatcher's side of every run is a run of its own transition system; so
      [service_safe], [no_lost_wakeup] and the lemma [commands_fifo], proved of that
      system, hold of it. [call_numbers]: in any run at all the pending calls have distinct
      numbers. [pass_equivalent], [release_closes_all], [keepalive_exact] and the lemmas
      [start_exact] and [new_poll_exact]: what the polls do; [overdue_ends_poll]: how the
      keepalive poll ends by itself.
    - Messages. [request_roundtrip], [response_roundtrip] and the lemma [encoding_bounds]; the reader
      and the client's receive loop hand over exactly the messages of the stream
      ([reads_reassemble], [received_refines_split]).
    - The handlers. [post_delivers], [call_forwarded], [reply_routed], [auth_accepted],
      [subscribe_exact], [methods_exact], [discard_exact], and the lemma [names_unique].
    - From client to client. [publish_end_to_end], [call_end_to_end],
      [reply_end_to_end]: one message, from the arguments of the sender's function to the
      receiver's callback. [mailbox_exact] and [posts_told]: all posts of a run; every
      connection has been sent exactly its mailbox, and its client's callback is told of
      exactly that.
    - Monitors. [monitor_shows_clients]: in any run of the service the list a monitor
      keeps is the registered clients; [screen_up_to_date]: the tool shows it.
    - The client. [calls_safe], [callbacks_once], [call_outcomes], [connect_outcome],
      [close_joins], and the races its code has: [auth_races] and [call_close_race].
    - The agent. [agent_synced]; [woken_reconnects] and [close_returns], against the list
      of the clients published in the run; and two ways in which closing it hangs
      ([close_in_callback_hangs], [close_while_connecting_waits]).
    - The C interface. [result_lifecycle], and two defects: [c_reply_code] and, as a
      lemma, [callback_handles].

    "Orderly" is defined where it is used ([DispatcherThread.orderly],
    [Service.orderly], [CallProtocol.orderly], [AgentSpec.orderly]): it excludes what
    [Deviations] shows to go wrong, such as a negative command, a second
    authentication, or a connection deleted while its first authentication is queued; and
    calls beyond the 2^31 - 1 that their counters can number.

    ** Fuel

    Loops that are not structural take fuel, and a theorem says how much is enough:
    [Reader.read_fuel] for the frames of one read and the length of the buffer for
    [Cli.handle_received] (every round consumes at least a header), the number of
    pending calls for [discard_loop], the members of the message for
    [parse_monitor_list_all]. [LoopBound] marks the exhausted fuel of [do_read], which
    [service_refines] excludes. The steps of [run] are counted by [run_steps]: a pass
    over the descriptors takes at most [FD_SETSIZE] + 1. The threads of a closing client
    take at most [delay] steps once its connection is shut ([close_joins]); [run] and
    [Agent::close] at most as many as there are clients and seven more ([close_returns]).

    ** Not modelled

    - Spurious wake-ups of the client's condition variables, a second [connect] of one
      client, a client closed by a thread while its calls are in progress together with
      its own [connect] ([CliCalls] and [ClientThreads] are separate systems over the same
      operations), and the address reuse of freed objects. One [do_read] of a poll is one
      step, so the race of its buffer with a [close] from the dispatcher's thread is not
      seen.
    - Empty callbacks: the function given to a call is taken to be callable. [iclose] calls
      it without the test that [handle_cmd_after_auth] makes.
    - Two threads that run one agent at once. The agent knows its client by the
      requests it makes and the results it gets; what these do is [CliSpec].
    - A keepalive poll that is started again after a stop: its list of active
      connections is not cleared, so [service_refines] asks that it is empty then. The
      references this list holds are not counted among the owners of a connection: what
      the dispatcher sees of one ends with the table's entry.
    - Memory exhaustion and the failure of [mmap] and of thread creation.
    - [file-log.h] and the debug counters (logging only), the monitor tool's command line
      and its wait for a key, the Android and JNI bindings, the examples and the tests
      (programs that use the library), and the build scripts. *)
From Stdlib Require Export ZArith Lia.
From Stdlib Require Strings.Byte.
From stdpp Require Export base numbers option list gmap strings.

Declare Scope flora_scope.
Delimit Scope flora_scope with flora.
Open Scope flora_scope.
Open Scope Z_scope.

Create HintDb flora.
Create Rewrite HintDb flora.

(** ** Machine integers

    [uint32_t], [int32_t] and [uint64_t] values are kept as [Z]; the wrap-around
    of the C++ conversions is written out. *)

Definition two32 : Z := 4294967296.
Definition two31 : Z := 2147483648.
Definition two64 : Z := 18446744073709551616.

Definition u32 (z : Z) : Z := z mod two32.
Definition u64 (z : Z) : Z := z mod two64.
Definition i32 (z : Z) : Z :=
  if bool_decide (u32 z < two31) then u32 z else u32 z - two32.

Definition is_u32 (z : Z) : Prop := 0 <= z < two32.
Definition is_i32 (z : Z) : Prop := - two31 <= z < two31.
Definition is_u64 (z : Z) : Prop := 0 <= z < two64.

Ltac unfold_ints :=
  unfold is_u32, is_i32, is_u64, i32, u32, u64, two31, two32, two64 in *.

Ltac int_lia :=
  unfold_ints; repeat case_bool_decide; Z.div_mod_to_equations; lia.

Lemma u32_small z : is_u32 z -> u32 z = z.
Proof. intros. apply Z.mod_small. done. Qed.

Lemma u64_small z : is_u64 z -> u64 z = z.
Proof. intros. apply Z.mod_small. done. Qed.

Lemma i32_small z : is_i32 z -> i32 z = z.
Proof. int_lia. Qed.

Lemma u32_range z : is_u32 (u32 z).
Proof. int_lia. Qed.

Lemma i32_range z : is_i32 (i32 z).
Proof. int_lia. Qed.

Lemma u32_u32 z : u32 (u32 z) = u32 z.
Proof. apply u32_small, u32_range. Qed.

Lemma u64_u64 z : u64 (u64 z) = u64 z.
Proof. int_lia. Qed.

Lemma i32_u32 z : i32 (u32 z) = i32 z.
Proof. unfold i32. by rewrite u32_u32. Qed.

Lemma u32_i32 z : u32 (i32 z) = u32 z.
Proof. int_lia. Qed.

Lemma i32_nonneg z : 0 <= z < two31 -> i32 z = z.
Proof. int_lia. Qed.

Lemma u32_nonneg z : 0 <= z < two31 -> u32 z = z.
Proof. int_lia. Qed.

#[export] Hint Resolve u32_range i32_range : flora.
#[export] Hint Rewrite u32_u32 u64_u64 i32_u32 u32_i32 : flora.

(** A bit test of the form [x & mask] used as a condition. *)
Definition has_flag (flags mask : Z) : bool := negb (Z.land flags mask =? 0).

(** ** Bytes and C strings *)

Abbreviation byte := Corelib.Init.Byte.byte.
Abbreviation bytes := (list Corelib.Init.Byte.byte).

#[export] Instance byte_eq_dec : EqDecision byte := Strings.Byte.byte_eq_dec.

(** [std::string::c_str()] as a C string: what a callee that looks for the
    terminating NUL sees of a [std::string]. *)
Fixpoint c_str (s : string) : string :=
  match s with
  | EmptyString => EmptyString
  | String a r => if bool_decide (a = Ascii.zero) then EmptyString else String a (c_str r)
  end.

Definition no_nul (s : string) : Prop := c_str s = s.

Lemma c_str_no_nul s : no_nul (c_str s).
Proof.
  unfold no_nul. induction s as [|a r IH]; [done|].
  simpl. case_bool_decide; [done|]. simpl. rewrite bool_decide_false by done. by rewrite IH.
Qed.

#[export] Instance no_nul_dec s : Decision (no_nul s) := decide (c_str s = s).
#[export] Hint Resolve c_str_no_nul : flora.

(** ** Undefined behaviour as a result

    Code that dereferences a dangling pointer or indexes a table out of range has
    no C++ meaning; the model stops there with the reason. *)
Inductive ub : Type :=
  | NullDeref        (** a null [shared_ptr] or pointer is dereferenced *)
  | DanglingInfo     (** an [AdapterInfo *] whose map entry was erased is dereferenced *)
  | UseAfterFree     (** an [Adapter *] kept as an integer outlives its object *)
  | HandlerIndex     (** a handler table is indexed outside its bounds *)
  | BadWriteSize     (** the size -1 of a failed serialisation is handed to [write] *)
  | FdSetRange       (** [FD_SET] on a descriptor outside [0, FD_SETSIZE) *)
  | BufferOverflow   (** [strcpy] of a path longer than [sun_path] *)
  | InvalidIterator  (** an iterator whose element was erased is dereferenced *)
  | BadVarArg        (** [va_arg] of another type than the argument's *)
  | StdTerminate     (** [std::terminate]: a joinable thread is assigned to *)
  | SignedOverflow   (** a signed integer is incremented beyond its type *)
  | LoopBound.       (** no behaviour of the program: the model's bound on a loop is too small *)

#[export] Instance ub_eq_dec : EqDecision ub.
Proof. solve_decision. Defined.

Inductive outcome (A : Type) : Type :=
  | Done (a : A)
  | Undef (u : ub).
Arguments Done {A} a.
Arguments Undef {A} u.

(** The state monad of the components' operations. *)
Definition M (S A : Type) : Type := S -> outcome (A * S).

#[export] Instance M_ret {S} : MRet (M S) := fun A a s => Done (a, s).
#[export] Instance M_bind {S} : MBind (M S) := fun A B f m s =>
  match m s with
  | Done (a, s') => f a s'
  | Undef u => Undef u
  end.

Definition get {S} : M S S := fun s => Done (s, s).
Definition gets {S A} (f : S -> A) : M S A := fun s => Done (f s, s).
Definition modify {S} (f : S -> S) : M S unit := fun s => Done (tt, f s).
Definition undefined {S A} (u : ub) : M S A := fun _ => Undef u.

(** [if (b) m;] *)
Definition when {S} (b : bool) (m : M S unit) : M S unit :=
  if b then m else mret tt.

(** A loop over a container that the body does not change. *)
Fixpoint for_each {S A} (l : list A) (f : A -> M S unit) : M S unit :=
  match l with
  | [] => mret tt
  | x :: r => f x ;; for_each r f
  end.

(** ** Weakest preconditions

    [wpx E m Q s]: from [s], [m] either returns with [Q] or stops with a reason
    that [E] allows. [wp] allows none, so it includes the absence of undefined
    behaviour. *)
Definition wpx {S A} (E : ub -> Prop) (m : M S A) (Q : A -> S -> Prop) (s : S) : Prop :=
  match m s with
  | Done (a, s') => Q a s'
  | Undef u => E u
  end.

Abbreviation wp := (wpx (fun _ => False)).
Abbreviation wlp := (wpx (fun _ => True)).

Section WP.
Context {S : Type} (E : ub -> Prop).

Lemma wpx_ret {A} (a : A) (Q : A -> S -> Prop) s : Q a s -> wpx E (mret a) Q s.
Proof. done. Qed.

Lemma wpx_bind {A B} (m : M S A) (f : A -> M S B) (Q : B -> S -> Prop) s :
  wpx E m (fun a s' => wpx E (f a) Q s') s -> wpx E (m ≫= f) Q s.
Proof.
  unfold wpx. change ((m ≫= f) s) with
    (match m s with Done (a, s') => f a s' | Undef u => Undef u end).
  destruct (m s) as [[a s']|u]; done.
Qed.

Lemma wpx_gets {A} (f : S -> A) (Q : A -> S -> Prop) s : Q (f s) s -> wpx E (gets f) Q s.
Proof. done. Qed.

Lemma wpx_get (Q : S -> S -> Prop) s : Q s s -> wpx E get Q s.
Proof. done. Qed.

Lemma wpx_modify (f : S -> S) (Q : unit -> S -> Prop) s : Q tt (f s) -> wpx E (modify f) Q s.
Proof. done. Qed.

Lemma wpx_undefined {A} u (Q : A -> S -> Prop) s : E u -> wpx E (undefined u) Q s.
Proof. done. Qed.

Lemma wpx_mono {A} (m : M S A) (Q Q' : A -> S -> Prop) s :
  wpx E m Q s -> (forall a s', Q a s' -> Q' a s') -> wpx E m Q' s.
Proof. unfold wpx. destruct (m s) as [[a s']|u]; auto. Qed.

Lemma wpx_when b (m : M S unit) (Q : unit -> S -> Prop) s :
  (b = true -> wpx E m Q s) -> (b = false -> Q tt s) -> wpx E (when b m) Q s.
Proof. destruct b; [auto|]. intros _ H. by apply wpx_ret, H. Qed.

(** The rule for a loop, by an invariant on the elements still to visit. *)
Lemma wpx_for_each {A} (I : list A -> S -> Prop) (l : list A) (f : A -> M S unit) s
  (Q : unit -> S -> Prop) :
  I l s ->
  (forall x r s', I (x :: r) s' -> wpx E (f x) (fun _ s'' => I r s'') s') ->
  (forall s', I [] s' -> Q tt s') ->
  wpx E (for_each l f) Q s.
Proof.
  intros HI Hstep Hend. revert s HI. induction l as [|x r IH]; intros s HI.
  - by apply wpx_ret, Hend.
  - simpl. apply wpx_bind. eapply wpx_mono; [by apply Hstep|]. intros [] s'. apply IH.
Qed.

(** The rule for a loop whose invariant does not look at the elements. *)
Lemma wpx_for_each_inv {A} (I : S -> Prop) (l : list A) (f : A -> M S unit) s :
  I s ->
  (forall x s', x ∈ l -> I s' -> wpx E (f x) (fun _ s'' => I s'') s') ->
  wpx E (for_each l f) (fun _ s' => I s') s.
Proof.
  intros HI Hstep.
  apply (wpx_for_each (fun r s' => r ⊆ l /\ I s')); [done| |by intros ? []].
  intros x r s' [Hsub Hs']. eapply wpx_mono; [apply Hstep; [apply Hsub; left|done]|].
  intros; split; [|done]. intros y Hy. apply Hsub. by right.
Qed.
End WP.

Lemma wpx_weaken {S A} (E E' : ub -> Prop) (m : M S A) (Q : A -> S -> Prop) s :
  wpx E m Q s -> (forall u, E u -> E' u) -> wpx E' m Q s.
Proof. unfold wpx. destruct (m s) as [[a s']|u]; auto. Qed.

Lemma wpx_and {S A} (E : ub -> Prop) (m : M S A) (Q1 Q2 : A -> S -> Prop) s :
  wpx E m Q1 s -> wpx E m Q2 s -> wpx E m (fun a s' => Q1 a s' /\ Q2 a s') s.
Proof. unfold wpx. destruct (m s) as [[a s']|u]; auto. Qed.

Lemma wp_done {S A} (m : M S A) (Q : A -> S -> Prop) s :
  wp m Q s -> exists a s', m s = Done (a, s') /\ Q a s'.
Proof. unfold wpx. destruct (m s) as [[a s']|u]; [eauto|done]. Qed.

Lemma wlp_done {S A} (m : M S A) (Q : A -> S -> Prop) s a s' :
  wlp m Q s -> m s = Done (a, s') -> Q a s'.
Proof. unfold wpx. intros H Hm. by rewrite Hm in H. Qed.

(** One symbolic step of an operation: peel the head of the program. *)
Ltac wstep :=
  lazymatch goal with
  | |- wpx _ (mbind _ _) _ _ => apply wpx_bind
  | |- wpx _ (mret _) _ _ => apply wpx_ret
  | |- wpx _ (gets _) _ _ => apply wpx_gets
  | |- wpx _ get _ _ => apply wpx_get
  | |- wpx _ (modify _) _ _ => apply wpx_modify
  | |- wpx _ (when _ _) _ _ => apply wpx_when; intros ?
  end.
Ltac wsteps := cbn beta iota; repeat (wstep; cbn beta iota).

(** ** Operations that only move the state along a preorder *)
Definition rels {S A} (R : S -> S -> Prop) (m : M S A) : Prop := forall s, wlp m (fun _ s' => R s s') s.

Section Rels.
Context {S : Type} (R : S -> S -> Prop) `{!PreOrder R}.

Lemma rels_ret {A} (a : A) : rels R (mret a).
Proof. intros s. apply wpx_ret. reflexivity. Qed.

Lemma rels_undefined {A} u : rels (A:=A) R (undefined u).
Proof. done. Qed.

Lemma rels_gets {A} (f : S -> A) : rels R (gets f).
Proof. intros s. apply wpx_gets. reflexivity. Qed.

Lemma rels_modify (f : S -> S) : (forall s, R s (f s)) -> rels R (modify f).
Proof. intros Hf s. by apply wpx_modify. Qed.

Lemma rels_bind {A B} (m : M S A) (f : A -> M S B) : rels R m -> (forall a, rels R (f a)) -> rels R (m ≫= f).
Proof.
  intros Hm Hf s. apply wpx_bind. eapply wpx_mono; [apply Hm|]. intros a s1 H1.
  eapply wpx_mono; [apply Hf|]. intros b s2 H2. by transitivity s1.
Qed.

Lemma rels_when b (m : M S unit) : rels R m -> rels R (when b m).
Proof. destruct b; [done|]. intros _. apply rels_ret. Qed.

Lemma rels_for_each {A} (l : list A) (f : A -> M S unit) : (forall x, rels R (f x)) -> rels R (for_each l f).
Proof. intros Hf. induction l as [|x l IH]; [apply rels_ret|]. simpl. by apply rels_bind. Qed.
End Rels.

Create HintDb rels.
#[export] Hint Resolve rels_ret rels_undefined rels_gets rels_bind rels_when rels_for_each : rels.

(** Decides the tests between constants at the head of a program. *)
Ltac closed_ifs :=
  repeat match goal with
    | |- context [if bool_decide (?a = ?b) then _ else _] =>
        first
          [ rewrite (bool_decide_true (a = b)) by reflexivity
          | rewrite (bool_decide_false (a = b)) by (vm_compute; discriminate) ]
    end;
  cbv iota.

(** ** Step relations *)
Section Steps.
Context {S : Type} (R : S -> S -> Prop).

Inductive steps : S -> S -> Prop :=
  | steps_refl s : steps s s
  | steps_step s1 s2 s3 : R s1 s2 -> steps s2 s3 -> steps s1 s3.

Lemma steps_invariant (I : S -> Prop) :
  (forall s s', I s -> R s s' -> I s') -> forall s s', steps s s' -> I s -> I s'.
Proof. intros HR s s' Hs. induction Hs; eauto. Qed.

Lemma steps_trans s1 s2 s3 : steps s1 s2 -> steps s2 s3 -> steps s1 s3.
Proof. induction 1; eauto using steps. Qed.

Lemma steps_snoc s1 s2 s3 : steps s1 s2 -> R s2 s3 -> steps s1 s3.
Proof. intros H12 H23. eapply steps_trans; [exact H12|]. econstructor; [exact H23|constructor]. Qed.
End Steps.

(** ** Lists *)

Lemma take_app_exact {A} (l k : list A) n : n = length l -> take n (l ++ k) = l.
Proof. intros ->. by rewrite take_app_length. Qed.

Lemma drop_app_exact {A} (l k : list A) n : n = length l -> drop n (l ++ k) = k.
Proof. intros ->. by rewrite drop_app_length. Qed.

(** Induction on the length of a list. *)
Lemma length_ind {A} (Q : list A -> Prop) :
  (forall l, (forall l', (length l' < length l)%nat -> Q l') -> Q l) -> forall l, Q l.
Proof.
  intros H l. remember (length l) as n eqn:Hn. revert l Hn.
  induction n as [n IH] using lt_wf_ind. intros l ->. apply H.
  intros l' Hl'. by eapply IH.
Qed.

(** A filter that removes nothing another filter keeps. *)
Lemma filter_filter_in {A} (P Q : A -> Prop) `{!forall x, Decision (P x), !forall x, Decision (Q x)}
    (l : list A) :
  (forall x, x ∈ l -> P x -> Q x) -> filter P (filter Q l) = filter P l.
Proof.
  induction l as [|x l IH]; intros HPQ; [done|]. rewrite !filter_cons.
  rewrite <- IH by (intros; apply HPQ; [by right|done]).
  destruct (decide (Q x)) as [Hq|Hq]; [by rewrite filter_cons|].
  destruct (decide (P x)) as [Hp|Hp]; [|done]. contradict Hq. apply HPQ; [by left|done].
Qed.

(** A filter that keeps everything, and one that keeps nothing. *)
Lemma filter_all {A} (P : A -> Prop) `{!forall x, Decision (P x)} (l : list A) : Forall P l -> filter P l = l.
Proof. induction 1 as [|x l Hx _ IH]; [done|]. by rewrite filter_cons, decide_True, IH. Qed.

Lemma filter_none {A} (P : A -> Prop) `{!forall x, Decision (P x)} (l : list A) :
  Forall (fun x => ~ P x) l -> filter P l = [].
Proof. induction 1 as [|x l Hx _ IH]; [done|]. by rewrite filter_cons, decide_False, IH. Qed.

(** A list whose elements have distinct keys. *)
Section Keys.
Context {A K : Type} (key : A -> K).

Lemma NoDup_fmap_filter (Q : A -> Prop) `{!forall x, Decision (Q x)} (l : list A) :
  NoDup (key <$> l) -> NoDup (key <$> filter Q l).
Proof.
  induction l as [|x l IH]; [done|]. intros [Hx Hl]%NoDup_cons. rewrite filter_cons.
  destruct (decide (Q x)); [|by apply IH]. apply NoDup_cons. split; [|by apply IH].
  intros (y & Hy & Hin)%list_elem_of_fmap. apply Hx, list_elem_of_fmap. exists y. split; [done|].
  by apply list_elem_of_filter in Hin as [_ ?].
Qed.

Lemma key_unique l x y : NoDup (key <$> l) -> x ∈ l -> y ∈ l -> key x = key y -> x = y.
Proof.
  intros Hn [i Hi]%list_elem_of_lookup [j Hj]%list_elem_of_lookup He.
  assert (i = j) as ->; [|congruence].
  eapply (NoDup_lookup _ _ _ (key x) Hn); rewrite list_lookup_fmap; [by rewrite Hi|by rewrite Hj, He].
Qed.
End Keys.

(** ** Raw memory

    A buffer obtained from [mmap] is the list of its bytes. *)
Definition mem_read (mem : bytes) (off n : nat) : bytes := take n (drop off mem).
Definition mem_write (mem : bytes) (off : nat) (bs : bytes) : bytes :=
  take off mem ++ bs ++ drop (off + length bs) mem.

Lemma mem_write_length mem off bs :
  (off + length bs <= length mem)%nat -> length (mem_write mem off bs) = length mem.
Proof. intros. unfold mem_write. rewrite !length_app, length_take, length_drop. lia. Qed.

Lemma mem_read_length mem off n :
  (off + n <= length mem)%nat -> length (mem_read mem off n) = n.
Proof. intros. unfold mem_read. rewrite length_take, length_drop. lia. Qed.

(** Appending at [off + n] extends what is read from [off]. *)
Lemma mem_read_write_append mem off n bs :
  (off + n + length bs <= length mem)%nat ->
  mem_read (mem_write mem (off + n) bs) off (n + length bs) = mem_read mem off n ++ bs.
Proof.
  intros. unfold mem_read, mem_write.
  rewrite drop_app_le by (rewrite length_take; lia).
  rewrite take_app, length_drop, length_take.
  rewrite (take_ge (drop off _)) by (rewrite length_drop, length_take; lia).
  rewrite skipn_firstn_comm. f_equal; [f_equal; lia|].
  replace (n + length bs - (min (off + n) (length mem) - off))%nat with (length bs) by lia.
  by rewrite take_app_length.
Qed.

Lemma mem_read_split mem off n k :
  (k <= n)%nat -> mem_read mem off n = mem_read mem off k ++ mem_read mem (off + k) (n - k).
Proof.
  intros. unfold mem_read. rewrite <- drop_drop.
  rewrite <- (take_drop k (take n (drop off mem))) at 1.
  rewrite take_take, Nat.min_l by done. f_equal.
  by rewrite skipn_firstn_comm.
Qed.

Lemma mem_read_write_same mem bs :
  (length bs <= length mem)%nat -> mem_read (mem_write mem 0 bs) 0 (length bs) = bs.
Proof. intros. unfold mem_read, mem_write. rewrite drop_0, take_0, app_nil_l. apply take_app_length. Qed.
