(* ===== verification/Defs.v ===== *)
(** * Constants of the protocol and of the public headers

    [src/defs.h] (protocol version, command numbers, sizes), [include/flora-cli.h]
    and [include/flora-svc.h] (result codes, flags, message types) and
    [src/sock-adap.h] (frame header size, adapter result codes). *)
From S2P Require Import Prelude.

(** ** src/defs.h *)
Definition FLORA_VERSION : Z := 4.

(** client to server *)
Definition CMD_AUTH_REQ : Z := 0.
Definition CMD_SUBSCRIBE_REQ : Z := 1.
Definition CMD_UNSUBSCRIBE_REQ : Z := 2.
Definition CMD_POST_REQ : Z := 3.
Definition CMD_REPLY_REQ : Z := 4.
Definition CMD_DECLARE_METHOD_REQ : Z := 5.
Definition CMD_REMOVE_METHOD_REQ : Z := 6.
Definition CMD_CALL_REQ : Z := 7.
Definition CMD_PING_REQ : Z := 8.

(** server to client *)
Definition CMD_AUTH_RESP : Z := 101.
Definition CMD_POST_RESP : Z := 102.
Definition CMD_REPLY_RESP : Z := 103.
Definition CMD_CALL_RESP : Z := 104.
Definition CMD_MONITOR_RESP : Z := 105.
Definition CMD_PONG_RESP : Z := 106.

Definition MSG_HANDLER_COUNT : Z := 9.

Definition MONITOR_LIST_ALL : Z := 0.
Definition MONITOR_LIST_ADD : Z := 1.
Definition MONITOR_LIST_REMOVE : Z := 2.
Definition MONITOR_SUB_ALL : Z := 3.
Definition MONITOR_SUB_ADD : Z := 4.
Definition MONITOR_SUB_REMOVE : Z := 5.
Definition MONITOR_DECL_ALL : Z := 6.
Definition MONITOR_DECL_ADD : Z := 7.
Definition MONITOR_DECL_REMOVE : Z := 8.
Definition MONITOR_POST : Z := 9.
Definition MONITOR_CALL : Z := 10.
Definition MONITOR_SUBTYPE_NUM : Z := 11.

Definition DEFAULT_MSG_BUF_SIZE : Z := 32768.
Definition CLEAR_SUBSCRIPTION_TIME_THRESHOLD : Z := 10.
Definition CLEAR_SUBSCRIPTION_THRESHOLD : Z := 50.

(** ** include/flora-cli.h *)
Definition FLORA_CLI_SUCCESS : Z := 0.
Definition FLORA_CLI_EAUTH : Z := -1.
Definition FLORA_CLI_EINVAL : Z := -2.
Definition FLORA_CLI_ECONN : Z := -3.
Definition FLORA_CLI_ETIMEOUT : Z := -4.
Definition FLORA_CLI_ENEXISTS : Z := -5.
Definition FLORA_CLI_EDUPID : Z := -6.
Definition FLORA_CLI_EINSUFF_BUF : Z := -7.
Definition FLORA_CLI_ECLOSED : Z := -8.
Definition FLORA_CLI_EDEADLOCK : Z := -9.
Definition FLORA_CLI_EMONITOR : Z := -10.

Definition FLORA_CALL_RETCODE_NORESP : Z := -2000000000.

Definition FLORA_MSGTYPE_INSTANT : Z := 0.
Definition FLORA_MSGTYPE_PERSIST : Z := 1.
Definition FLORA_NUMBER_OF_MSGTYPE : Z := 2.

Definition FLORA_CLI_FLAG_MONITOR : Z := 1.
Definition FLORA_CLI_FLAG_MONITOR_DETAIL_SUB : Z := 2.
Definition FLORA_CLI_FLAG_MONITOR_DETAIL_DECL : Z := 4.
Definition FLORA_CLI_FLAG_MONITOR_DETAIL_POST : Z := 8.
Definition FLORA_CLI_FLAG_MONITOR_DETAIL_CALL : Z := 16.
Definition FLORA_CLI_FLAG_KEEPALIVE : Z := 32.

Definition FLORA_CLI_DEFAULT_BEEP_INTERVAL : Z := 50000.
Definition FLORA_CLI_DEFAULT_NORESP_TIMEOUT : Z := 100000.

(** ** include/flora-agent.h *)
Definition FLORA_AGENT_CONFIG_URI : Z := 0.
Definition FLORA_AGENT_CONFIG_BUFSIZE : Z := 1.
Definition FLORA_AGENT_CONFIG_RECONN_INTERVAL : Z := 2.
Definition FLORA_AGENT_CONFIG_MONITOR : Z := 3.
Definition FLORA_AGENT_CONFIG_KEEPALIVE : Z := 4.

(** ** include/flora-svc.h *)
Definition FLORA_POLL_SUCCESS : Z := 0.
Definition FLORA_POLL_ALREADY_START : Z := -1.
Definition FLORA_POLL_SYSERR : Z := -2.
Definition FLORA_POLL_INVAL : Z := -3.
Definition FLORA_POLL_UNSUPP : Z := -4.
Definition FLORA_POLL_OPT_KEEPALIVE_TIMEOUT : Z := 1.
Definition FLORA_DISP_FLAG_MONITOR : Z := 1.

(** ** src/sock-adap.h *)
Definition HEADER_SIZE : Z := 8.
Definition SOCK_ADAPTER_SUCCESS : Z := 0.
Definition SOCK_ADAPTER_ECLOSED : Z := -10001.
Definition SOCK_ADAPTER_ENOMORE : Z := -10002.
Definition SOCK_ADAPTER_EPROTO : Z := -10003.
Definition SOCK_ADAPTER_ENOBUF : Z := -10004.

(** ** src/disp.cc *)
Definition DEFAULT_CALL_TIMEOUT : Z := 200.
