(* ===== verification/Uri.v ===== *)
(** * Parsed URIs

    The parts of a [Uri] that the client, the polls and the agent use. The parser
    ([uri.h] of aife-mutils) is not part of the repository. *)
From S2P Require Import Prelude.

Record Uri := mkUri {
  scheme : string;
  path : string;
  host : string;
  port : Z;
  fragment : string
}.

(** [Uri::parse]; [None] when it returns false. *)
Class UriParser := { uri_parse : string -> option Uri }.
