(* ===== verification/Caps.v ===== *)
(** * The [Caps] message library, as the interface flora relies on

    [Caps] (the aife-mutils package) is not part of the repository: its type and
    its operations are the fields of the class [CapsOps], and what flora relies
    on is the class [CapsLaws]. Every definition that uses a [Caps] object takes
    these as arguments. [RefCaps.v] gives an instance of both.

    A read operation advances the object's cursor, so it returns the object's
    next state; [None] is a result other than [CAPS_SUCCESS]. *)
From S2P Require Import Prelude Defs.

(** [CAPS_FLAG_NET_BYTEORDER], the only serialisation flag flora passes (caps.h). *)
Class CapsFlags := { CAPS_FLAG_NET_BYTEORDER : Z }.

Class CapsOps (caps : Type) := {
  caps_new : caps;                              (** [Caps::new_instance] *)
  caps_write_i32 : Z -> caps -> caps;           (** [write(int32_t)] *)
  caps_write_u32 : Z -> caps -> caps;           (** [write(uint32_t)] *)
  caps_write_u64 : Z -> caps -> caps;           (** [write(uint64_t)] *)
  caps_write_str : string -> caps -> caps;      (** [write] of a C string or a [std::string] *)
  caps_write_caps : option caps -> caps -> caps; (** [write] of a nested message *)
  caps_read_i32 : caps -> option Z * caps;
  caps_read_u32 : caps -> option Z * caps;
  caps_read_u64 : caps -> option Z * caps;
  caps_read_str : caps -> option string * caps;
  caps_read_caps : caps -> option (option caps) * caps;
  (** [serialize(data, size, flags)]: the returned length (negative: an error)
      and the bytes left in [data]. *)
  caps_serialize : caps -> Z -> Z -> Z * bytes;
  caps_parse : bytes -> option caps;            (** [Caps::parse] *)
  caps_binary_info : bytes -> option (Z * Z)    (** version and length of the header *)
}.

(** ** The abstract content of a message *)
#[warnings="-register-all"]
Inductive cval : Type :=
  | CInt (z : Z)                        (** a 32-bit integer, as its unsigned value *)
  | CLong (z : Z)                       (** a 64-bit integer, as its unsigned value *)
  | CStr (s : string)
  | CCaps (sub : option (list cval)).   (** a nested message, or a null one *)

(** What flora relies on. [caps_content] is everything written to the object,
    [caps_rest] what is still to be read from it. *)
Class CapsLaws (caps : Type) `{!CapsOps caps} := {
  caps_content : caps -> list cval;
  caps_rest : caps -> list cval;

  content_new : caps_content caps_new = [];
  content_write_i32 z c : caps_content (caps_write_i32 z c) = caps_content c ++ [CInt (u32 z)];
  content_write_u32 z c : caps_content (caps_write_u32 z c) = caps_content c ++ [CInt (u32 z)];
  content_write_u64 z c : caps_content (caps_write_u64 z c) = caps_content c ++ [CLong (u64 z)];
  content_write_str s c :
    no_nul s -> caps_content (caps_write_str s c) = caps_content c ++ [CStr s];
  content_write_caps o c :
    caps_content (caps_write_caps o c) = caps_content c ++ [CCaps (caps_content <$> o)];

  (** reading the next member in its own type succeeds and consumes it *)
  read_i32_int c z t : caps_rest c = CInt z :: t ->
    exists c', caps_read_i32 c = (Some (i32 z), c') /\ caps_rest c' = t;
  read_u32_int c z t : caps_rest c = CInt z :: t ->
    exists c', caps_read_u32 c = (Some (u32 z), c') /\ caps_rest c' = t;
  read_u64_long c z t : caps_rest c = CLong z :: t ->
    exists c', caps_read_u64 c = (Some (u64 z), c') /\ caps_rest c' = t;
  read_str_str c s t : caps_rest c = CStr s :: t ->
    exists c', caps_read_str c = (Some s, c') /\ caps_rest c' = t;
  read_caps_null c t : caps_rest c = CCaps None :: t ->
    exists c', caps_read_caps c = (Some None, c') /\ caps_rest c' = t;
  read_caps_sub c l t : caps_rest c = CCaps (Some l) :: t ->
    exists sub c', caps_read_caps c = (Some (Some sub), c') /\ caps_rest c' = t /\
      caps_content sub = l /\ caps_rest sub = l;

  (** reading past the end fails and stays there *)
  read_i32_end c : caps_rest c = [] ->
    exists c', caps_read_i32 c = (None, c') /\ caps_rest c' = [];
  read_u32_end c : caps_rest c = [] ->
    exists c', caps_read_u32 c = (None, c') /\ caps_rest c' = [];
  read_caps_end c : caps_rest c = [] ->
    exists c', caps_read_caps c = (None, c') /\ caps_rest c' = [];

  (** no read gives back a member, and reading a nested message consumes one *)
  read_u32_length c o c' : caps_read_u32 c = (o, c') ->
    (length (caps_rest c') <= length (caps_rest c))%nat;
  read_caps_consumes c o c' : caps_read_caps c = (Some o, c') ->
    S (length (caps_rest c')) = length (caps_rest c);

  (** [serialize] returns an [int32_t] *)
  serialize_i32 c flags size r b : caps_serialize c flags size = (r, b) -> is_i32 r;

  (** a serialised message that fits is parsed back with the same content,
      unread, whatever the byte order; its header announces its length *)
  serialize_parse c flags size r b : caps_serialize c flags size = (r, b) -> 0 <= r <= size ->
    Z.of_nat (length b) = r /\
    exists c', caps_parse b = Some c' /\ caps_content c' = caps_content c /\
      caps_rest c' = caps_content c;
  serialize_header c flags size r b : caps_serialize c flags size = (r, b) -> 0 <= r <= size ->
    HEADER_SIZE <= r /\ exists v, caps_binary_info b = Some (v, r)
}.

(** A message of a few integers is small. *)
Definition is_number (v : cval) : Prop :=
  match v with CInt z => is_u32 z | CLong z => is_u64 z | _ => False end.

Class CapsSmall (caps : Type) `{!CapsOps caps, !CapsLaws caps} := {
  serialize_small c flags size :
    Forall is_number (caps_content c) -> (length (caps_content c) <= 16)%nat ->
    4096 <= size -> 0 <= (caps_serialize c flags size).1 <= size
}.

(** What the two receive buffers rely on: the header is read from the first
    [HEADER_SIZE] bytes, and nothing shorter than a header parses. *)
Class CapsFraming (caps : Type) `{!CapsOps caps} := {
  binary_info_prefix b t : HEADER_SIZE <= Z.of_nat (length b) ->
    caps_binary_info (b ++ t) = caps_binary_info b;
  binary_info_length b v n : caps_binary_info b = Some (v, n) -> is_u32 n;
  parse_header b c : caps_parse b = Some c -> HEADER_SIZE <= Z.of_nat (length b)
}.

(** ** Reading a message: the parser monad

    The state is the [Caps] object and the caller's variables [σ] that the
    function receives by reference. [PFail] is the early [return -1], [PFuel] a
    loop that used up the fuel given to it. *)
Inductive pres (A : Type) : Type :=
  | POk (a : A)
  | PFail
  | PUndef (u : ub)
  | PFuel.
Arguments POk {A} a.
Arguments PFail {A}.
Arguments PUndef {A} u.
Arguments PFuel {A}.

Section Parser.
Context {caps : Type} `{!CapsOps caps}.

Definition P (σ A : Type) : Type := caps * σ -> pres A * (caps * σ).

#[export] Instance P_ret {σ} : MRet (P σ) := fun A a s => (POk a, s).
#[export] Instance P_bind {σ} : MBind (P σ) := fun A B f p s =>
  match p s with
  | (POk a, s') => f a s'
  | (PFail, s') => (PFail, s')
  | (PUndef u, s') => (PUndef u, s')
  | (PFuel, s') => (PFuel, s')
  end.

(** [if (caps->read(v) != CAPS_SUCCESS) return -1;] *)
Definition rd {σ A} (op : caps -> option A * caps) : P σ A :=
  fun '(c, σ0) =>
    let '(o, c') := op c in
    (match o with Some a => POk a | None => PFail end, (c', σ0)).

(** [caps->read(v)] whose result the code inspects itself *)
Definition rd_try {σ A} (op : caps -> option A * caps) : P σ (option A) :=
  fun '(c, σ0) => let '(o, c') := op c in (POk o, (c', σ0)).

(** [if (caps->read(v) != CAPS_SUCCESS) v = d;] *)
Definition rd_default {σ A} (op : caps -> option A * caps) (d : A) : P σ A :=
  o ← rd_try op; mret (default d o).

(** an assignment to a variable of the caller *)
Definition assign {σ} (f : σ -> σ) : P σ unit := fun '(c, σ0) => (POk tt, (c, f σ0)).

(** the variables of the caller, as they are *)
Definition vars {σ} : P σ σ := fun s => (POk s.2, s).

Definition fail_parse {σ A} : P σ A := fun s => (PFail, s).

(** reads through a nested message [sub], which may be null *)
Definition on_sub {σ A} (sub : option caps) (p : P σ A) : P σ A :=
  fun '(c, σ0) =>
    match sub with
    | None => (PUndef NullDeref, (c, σ0))
    | Some s => let '(r, (_, σ')) := p (s, σ0) in (r, (c, σ'))
    end.

(** A parser without a loop never runs out of fuel. *)
Definition no_loop {σ A} (p : P σ A) : Prop := forall s, (p s).1 <> PFuel.

Lemma no_loop_ret {σ A} (a : A) : no_loop (σ:=σ) (mret a).
Proof. done. Qed.

Lemma no_loop_bind {σ A B} (p : P σ A) (f : A -> P σ B) :
  no_loop p -> (forall a, no_loop (f a)) -> no_loop (p ≫= f).
Proof.
  intros Hp Hf s. specialize (Hp s). unfold mbind, P_bind.
  destruct (p s) as [[a| | |] s'] eqn:E; try done. apply Hf.
Qed.

Lemma no_loop_rd {σ A} (op : caps -> option A * caps) : no_loop (σ:=σ) (rd op).
Proof. intros [c s]. simpl. by destruct (op c) as [[|] ?]. Qed.

Lemma no_loop_on_sub {σ A} sub (p : P σ A) : no_loop p -> no_loop (on_sub sub p).
Proof.
  intros Hp [c s]. destruct sub as [sub|]; simpl; [|done].
  specialize (Hp (sub, s)). by destruct (p (sub, s)) as [? [? ?]].
Qed.

(** A parser that follows no nested message has no undefined behaviour. *)
Definition no_undef {σ A} (p : P σ A) : Prop := forall s u, (p s).1 <> PUndef u.

Lemma no_undef_ret {σ A} (a : A) : no_undef (σ:=σ) (mret a).
Proof. done. Qed.

Lemma no_undef_bind {σ A B} (p : P σ A) (f : A -> P σ B) :
  no_undef p -> (forall a, no_undef (f a)) -> no_undef (p ≫= f).
Proof.
  intros Hp Hf s u. specialize (Hp s). unfold mbind, P_bind.
  destruct (p s) as [[a| | |] s'] eqn:E; try done; [apply Hf|]. naive_solver.
Qed.

Lemma no_undef_rd {σ A} (op : caps -> option A * caps) : no_undef (σ:=σ) (rd op).
Proof. intros [c s] u. simpl. by destruct (op c) as [[|] ?]. Qed.

Lemma no_undef_rd_default {σ A} (op : caps -> option A * caps) d :
  no_undef (σ:=σ) (rd_default op d).
Proof. apply no_undef_bind; [|done]. intros [c s] u. simpl. by destruct (op c). Qed.

Context `{!CapsLaws caps}.

(** The parsed value, with the object left at its end, under [Q]. *)
Definition parses {σ A} (p : P σ A) (c : caps) (s : σ) (Q : A -> caps -> σ -> Prop) : Prop :=
  exists a c' s', p (c, s) = (POk a, (c', s')) /\ Q a c' s'.

Lemma parses_ret {σ A} (a : A) c (s : σ) (Q : A -> caps -> σ -> Prop) :
  Q a c s -> parses (mret a) c s Q.
Proof. intros. by exists a, c, s. Qed.

Lemma parses_bind {σ A B} (p : P σ A) (f : A -> P σ B) c (s : σ) Q :
  parses p c s (fun a c' s' => parses (f a) c' s' Q) -> parses (p ≫= f) c s Q.
Proof.
  intros (a & c' & s' & Hp & b & c'' & s'' & Hf & HQ). exists b, c'', s''. split; [|done].
  unfold mbind, P_bind. by rewrite Hp.
Qed.

Lemma parses_assign {σ} (f : σ -> σ) c (s : σ) (Q : unit -> caps -> σ -> Prop) :
  Q tt c (f s) -> parses (assign f) c s Q.
Proof. intros. by exists tt, c, (f s). Qed.

Lemma parses_vars {σ} c (s : σ) (Q : σ -> caps -> σ -> Prop) :
  Q s c s -> parses vars c s Q.
Proof. intros. by exists s, c, s. Qed.

Lemma parses_rd {σ A} (op : caps -> option A * caps) c (s : σ) Q :
  (exists a c', op c = (Some a, c') /\ Q a c' s) -> parses (rd op) c s Q.
Proof. intros (a & c' & Hop & HQ). exists a, c', s. split; [|done]. simpl. by rewrite Hop. Qed.

Lemma parses_i32 {σ} c z t (s : σ) Q :
  caps_rest c = CInt z :: t -> (forall c', caps_rest c' = t -> Q (i32 z) c' s) ->
  parses (rd caps_read_i32) c s Q.
Proof. intros (c' & Hr & Ht)%read_i32_int HQ. apply parses_rd. eauto. Qed.

Lemma parses_u32 {σ} c z t (s : σ) Q :
  caps_rest c = CInt z :: t -> (forall c', caps_rest c' = t -> Q (u32 z) c' s) ->
  parses (rd caps_read_u32) c s Q.
Proof. intros (c' & Hr & Ht)%read_u32_int HQ. apply parses_rd. eauto. Qed.

Lemma parses_u64 {σ} c z t (s : σ) Q :
  caps_rest c = CLong z :: t -> (forall c', caps_rest c' = t -> Q (u64 z) c' s) ->
  parses (rd caps_read_u64) c s Q.
Proof. intros (c' & Hr & Ht)%read_u64_long HQ. apply parses_rd. eauto. Qed.

Lemma parses_str {σ} c x t (s : σ) Q :
  caps_rest c = CStr x :: t -> (forall c', caps_rest c' = t -> Q x c' s) ->
  parses (rd caps_read_str) c s Q.
Proof. intros (c' & Hr & Ht)%read_str_str HQ. apply parses_rd. eauto. Qed.

(** The nested message read back has the content of the one written. *)
Lemma parses_caps {σ} c (o : option caps) t (s : σ) Q :
  caps_rest c = CCaps (caps_content <$> o) :: t ->
  (forall o' c', caps_content <$> o' = caps_content <$> o -> caps_rest c' = t -> Q o' c' s) ->
  parses (rd caps_read_caps) c s Q.
Proof.
  intros Hc HQ. apply parses_rd. destruct o as [sub|]; simpl in Hc.
  - apply read_caps_sub in Hc as (sub' & c' & Hr & Ht & Hsub & _).
    exists (Some sub'), c'. split; [done|]. apply HQ; [|done]. simpl. by rewrite Hsub.
  - apply read_caps_null in Hc as (c' & Hr & Ht). exists None, c'. split; [done|]. by apply HQ.
Qed.

Lemma parses_try {σ A} (op : caps -> option A * caps) c (s : σ) Q :
  (exists o c', op c = (o, c') /\ Q o c' s) -> parses (rd_try op) c s Q.
Proof. intros (o & c' & Hop & HQ). exists o, c', s. split; [|done]. simpl. by rewrite Hop. Qed.

Lemma parses_default_i32 {σ} c z t d (s : σ) Q :
  caps_rest c = CInt z :: t -> (forall c', caps_rest c' = t -> Q (i32 z) c' s) ->
  parses (rd_default caps_read_i32 d) c s Q.
Proof.
  intros (c' & Hr & Ht)%read_i32_int HQ. apply parses_bind, parses_try.
  eexists _, c'. split; [done|]. by apply parses_ret, HQ.
Qed.

Lemma parses_default_u32 {σ} c z t d (s : σ) Q :
  caps_rest c = CInt z :: t -> (forall c', caps_rest c' = t -> Q (u32 z) c' s) ->
  parses (rd_default caps_read_u32 d) c s Q.
Proof.
  intros (c' & Hr & Ht)%read_u32_int HQ. apply parses_bind, parses_try.
  eexists _, c'. split; [done|]. by apply parses_ret, HQ.
Qed.

Lemma parses_default_i32_end {σ} c d (s : σ) Q :
  caps_rest c = [] -> (forall c', caps_rest c' = [] -> Q d c' s) ->
  parses (rd_default caps_read_i32 d) c s Q.
Proof.
  intros (c' & Hr & Ht)%read_i32_end HQ. apply parses_bind, parses_try.
  eexists _, c'. split; [done|]. by apply parses_ret, HQ.
Qed.

Lemma parses_default_u32_end {σ} c d (s : σ) Q :
  caps_rest c = [] -> (forall c', caps_rest c' = [] -> Q d c' s) ->
  parses (rd_default caps_read_u32 d) c s Q.
Proof.
  intros (c' & Hr & Ht)%read_u32_end HQ. apply parses_bind, parses_try.
  eexists _, c'. split; [done|]. by apply parses_ret, HQ.
Qed.

Lemma parses_on_sub {σ A} (sub : caps) (p : P σ A) c (s : σ) (Q : A -> caps -> σ -> Prop) :
  parses p sub s (fun a _ s' => Q a c s') -> parses (on_sub (Some sub) p) c s Q.
Proof.
  intros (a & c' & s' & Hp & HQ). exists a, c, s'. split; [|done].
  simpl. by rewrite Hp.
Qed.
End Parser.

Arguments P caps σ A : clear implicits.

#[export] Hint Resolve no_loop_ret no_loop_bind no_loop_rd no_loop_on_sub : flora.
#[export] Hint Resolve no_undef_ret no_undef_bind no_undef_rd no_undef_rd_default : flora.

#[export] Hint Rewrite @content_new @content_write_i32 @content_write_u32
  @content_write_u64 @content_write_caps : flora.
#[export] Hint Rewrite @content_write_str using (auto with flora) : flora.

(** Runs the parser in the goal over the members known to be next. *)
Ltac parse_step :=
  first
    [ eapply parses_caps; [eassumption|intros ?o ?c ?Hcont ?Hrest]
    | eapply parses_i32; [eassumption|intros ?c ?Hrest]
    | eapply parses_u32; [eassumption|intros ?c ?Hrest]
    | eapply parses_u64; [eassumption|intros ?c ?Hrest]
    | eapply parses_str; [eassumption|intros ?c ?Hrest]
    | eapply parses_default_i32; [eassumption|intros ?c ?Hrest]
    | eapply parses_default_u32; [eassumption|intros ?c ?Hrest]
    | eapply parses_default_i32_end; [eassumption|intros ?c ?Hrest]
    | eapply parses_default_u32_end; [eassumption|intros ?c ?Hrest]
    | apply parses_bind
    | apply parses_ret
    | apply parses_assign
    | apply parses_vars
    | apply parses_on_sub ].
Ltac parse_steps := repeat (parse_step; cbn beta iota).
