(* ===== verification/RefCaps.v ===== *)
(** * A reference instance of the [Caps] interface

    A concrete message library with the interface and the laws of [Caps.v], used
    to evaluate the model on concrete inputs: a message is its list of members and
    the part still to be read. Its wire format is an 8-byte header (a magic byte,
    the byte-order flag, a version, the length) followed by tagged members. *)
From Stdlib Require Strings.Byte.
From S2P Require Import Prelude Defs Caps.

Record rcaps := mkRcaps { rc_content : list cval; rc_rest : list cval }.

#[export] Instance ref_flags : CapsFlags := {| CAPS_FLAG_NET_BYTEORDER := 128 |}.

(** ** Members as bytes *)
Definition byte_of_Z (z : Z) : byte :=
  match Strings.Byte.of_N (Z.to_N (z mod 256)) with Some b => b | None => Byte.x00 end.
Definition Z_of_byte (b : byte) : Z := Z.of_N (Strings.Byte.to_N b).

Fixpoint le_bytes (n : nat) (z : Z) : bytes :=
  match n with O => [] | S n => byte_of_Z z :: le_bytes n (z / 256) end.
Fixpoint le_Z (bs : bytes) : Z :=
  match bs with [] => 0 | b :: r => Z_of_byte b + 256 * le_Z r end.

(** Integers of any size, one byte per bit. *)
Fixpoint enc_pos (p : positive) : bytes :=
  match p with xH => [Byte.x00] | xO p => Byte.x01 :: enc_pos p | xI p => Byte.x02 :: enc_pos p end.
Definition enc_Z (z : Z) : bytes :=
  match z with Z0 => [Byte.x00] | Zpos p => Byte.x01 :: enc_pos p | Zneg p => Byte.x02 :: enc_pos p end.

Fixpoint enc_str (s : string) : bytes :=
  match s with
  | EmptyString => [Byte.x00]
  | String a r => Byte.x01 :: byte_of_Z (Z.of_N (Ascii.N_of_ascii a)) :: enc_str r
  end.

Fixpoint enc (v : cval) : bytes :=
  match v with
  | CInt z => Byte.x01 :: enc_Z z
  | CLong z => Byte.x02 :: enc_Z z
  | CStr s => Byte.x03 :: enc_str s
  | CCaps None => [Byte.x04]
  | CCaps (Some l) => Byte.x05 :: flat_map enc l ++ [Byte.x00]
  end.

Fixpoint dec_pos (bs : bytes) : option (positive * bytes) :=
  match bs with
  | Byte.x00 :: r => Some (xH, r)
  | Byte.x01 :: r => match dec_pos r with Some (p, r') => Some (xO p, r') | None => None end
  | Byte.x02 :: r => match dec_pos r with Some (p, r') => Some (xI p, r') | None => None end
  | _ => None
  end.

Definition dec_Z (bs : bytes) : option (Z * bytes) :=
  match bs with
  | Byte.x00 :: r => Some (Z0, r)
  | Byte.x01 :: r => match dec_pos r with Some (p, r') => Some (Zpos p, r') | None => None end
  | Byte.x02 :: r => match dec_pos r with Some (p, r') => Some (Zneg p, r') | None => None end
  | _ => None
  end.

Fixpoint dec_str (bs : bytes) : option (string * bytes) :=
  match bs with
  | Byte.x00 :: r => Some (EmptyString, r)
  | Byte.x01 :: b :: r =>
      match dec_str r with
      | Some (s, r') => Some (String (Ascii.ascii_of_N (Strings.Byte.to_N b)) s, r')
      | None => None
      end
  | _ => None
  end.

(** The members up to the end mark, and what follows it. *)
Fixpoint dec (fuel : nat) (bs : bytes) : option (list cval * bytes) :=
  match fuel with
  | O => None
  | S fuel =>
      match bs with
      | [] => None
      | Byte.x00 :: r => Some ([], r)
      | Byte.x01 :: r => '(z, r1) ← dec_Z r; '(l, r') ← dec fuel r1; Some (CInt z :: l, r')
      | Byte.x02 :: r => '(z, r1) ← dec_Z r; '(l, r') ← dec fuel r1; Some (CLong z :: l, r')
      | Byte.x03 :: r => '(s, r1) ← dec_str r; '(l, r') ← dec fuel r1; Some (CStr s :: l, r')
      | Byte.x04 :: r => '(l, r') ← dec fuel r; Some (CCaps None :: l, r')
      | Byte.x05 :: r => '(sub, r1) ← dec fuel r; '(l, r') ← dec fuel r1;
                    Some (CCaps (Some sub) :: l, r')
      | _ => None
      end
  end.

Definition body (l : list cval) : bytes := flat_map enc l ++ [Byte.x00].

Definition ref_serialize (c : rcaps) (flags size : Z) : Z * bytes :=
  let b := body (rc_content c) in
  let n := 8 + Z.of_nat (length b) in
  if bool_decide (n < two31) then
    (n, if bool_decide (n <= size)
        then [Byte.xca; byte_of_Z flags; Byte.x00; Byte.x01] ++ le_bytes 4 n ++ b else [])
  else (-1, []).

Definition ref_binary_info (b : bytes) : option (Z * Z) :=
  match b with
  | m :: _ :: _ :: v :: n0 :: n1 :: n2 :: n3 :: _ =>
      if bool_decide (m = Byte.xca) then Some (Z_of_byte v, le_Z [n0; n1; n2; n3]) else None
  | _ => None
  end.

Definition ref_parse (b : bytes) : option rcaps :=
  match ref_binary_info b with
  | Some (_, n) =>
      if bool_decide (n = Z.of_nat (length b)) then
        match dec (length b) (drop 8 b) with
        | Some (l, []) => Some (mkRcaps l l)
        | _ => None
        end
      else None
  | None => None
  end.

Definition ref_write (v : cval) (c : rcaps) : rcaps :=
  mkRcaps (rc_content c ++ [v]) (rc_rest c).

Definition ref_read {A} (f : cval -> option A) (c : rcaps) : option A * rcaps :=
  match rc_rest c with
  | v :: t => match f v with
              | Some a => (Some a, mkRcaps (rc_content c) t)
              | None => (None, c)
              end
  | [] => (None, c)
  end.

#[export] Instance ref_ops : CapsOps rcaps := {|
  caps_new := mkRcaps [] [];
  caps_write_i32 z := ref_write (CInt (u32 z));
  caps_write_u32 z := ref_write (CInt (u32 z));
  caps_write_u64 z := ref_write (CLong (u64 z));
  caps_write_str s := ref_write (CStr (c_str s));
  caps_write_caps o := ref_write (CCaps (rc_content <$> o));
  caps_read_i32 := ref_read (fun v => match v with CInt z => Some (i32 z) | _ => None end);
  caps_read_u32 := ref_read (fun v => match v with CInt z => Some (u32 z) | _ => None end);
  caps_read_u64 := ref_read (fun v => match v with CLong z => Some (u64 z) | _ => None end);
  caps_read_str := ref_read (fun v => match v with CStr s => Some s | _ => None end);
  caps_read_caps := ref_read (fun v =>
    match v with CCaps o => Some ((fun l => mkRcaps l l) <$> o) | _ => None end);
  caps_serialize := ref_serialize;
  caps_parse := ref_parse;
  caps_binary_info := ref_binary_info
|}.

(** ** The format is unambiguous *)

Lemma byte_of_Z_of_byte z : Z_of_byte (byte_of_Z z) = z mod 256.
Proof.
  unfold Z_of_byte, byte_of_Z. destruct (Strings.Byte.of_N _) as [b|] eqn:E.
  - apply Strings.Byte.to_of_N in E. rewrite E. Z.div_mod_to_equations. lia.
  - apply Strings.Byte.of_N_None_iff in E. Z.div_mod_to_equations. lia.
Qed.

Lemma Z_of_byte_range b : 0 <= Z_of_byte b < 256.
Proof. unfold Z_of_byte. pose proof (Strings.Byte.to_N_bounded b). lia. Qed.

Lemma le_Z_bytes n z : 0 <= z < 256 ^ Z.of_nat n -> le_Z (le_bytes n z) = z.
Proof.
  revert z. induction n as [|n IH]; intros z Hz.
  - simpl in *. lia.
  - cbn [le_bytes le_Z]. rewrite byte_of_Z_of_byte.
    rewrite Nat2Z.inj_succ, Z.pow_succ_r in Hz by lia.
    rewrite IH by (Z.div_mod_to_equations; nia). Z.div_mod_to_equations. lia.
Qed.

Lemma le_Z_range bs : 0 <= le_Z bs < 256 ^ Z.of_nat (length bs).
Proof.
  induction bs as [|b r IH]; [simpl; lia|].
  cbn [le_Z length]. rewrite Nat2Z.inj_succ, Z.pow_succ_r by lia.
  pose proof (Z_of_byte_range b). nia.
Qed.

Lemma dec_enc_pos p t : dec_pos (enc_pos p ++ t) = Some (p, t).
Proof. induction p as [p IH|p IH|]; simpl; by rewrite ?IH. Qed.

Lemma dec_enc_Z z t : dec_Z (enc_Z z ++ t) = Some (z, t).
Proof. destruct z; simpl; by rewrite ?dec_enc_pos. Qed.

Lemma byte_of_ascii a :
  Ascii.ascii_of_N (Strings.Byte.to_N (byte_of_Z (Z.of_N (Ascii.N_of_ascii a)))) = a.
Proof.
  replace (Strings.Byte.to_N _) with (Ascii.N_of_ascii a); [apply Ascii.ascii_N_embedding|].
  pose proof (byte_of_Z_of_byte (Z.of_N (Ascii.N_of_ascii a))) as H.
  pose proof (Ascii.N_ascii_bounded a). unfold Z_of_byte in H.
  rewrite Z.mod_small in H by lia. lia.
Qed.

Lemma dec_enc_str s t : dec_str (enc_str s ++ t) = Some (s, t).
Proof. induction s as [|a r IH]; simpl; [done|]. by rewrite IH, byte_of_ascii. Qed.

(** The size of a value, which bounds the fuel its decoding needs. *)
Fixpoint csize (v : cval) : nat :=
  match v with
  | CCaps (Some l) => S (S (list_sum (map csize l)))
  | _ => 1
  end.

Lemma enc_length v : (csize v <= length (enc v))%nat.
Proof.
  revert v. fix IH 1. intros [z|z|s|[l|]]; simpl; try lia.
  rewrite length_app. simpl.
  enough (list_sum (map csize l) <= length (flat_map enc l))%nat by lia.
  induction l as [|v l IHl]; simpl; [lia|]. rewrite length_app. specialize (IH v). lia.
Qed.

Lemma dec_enc l : forall fuel t, (list_sum (map csize l) < fuel)%nat ->
  dec fuel (flat_map enc l ++ Byte.x00 :: t) = Some (l, t).
Proof.
  enough (forall n l, (list_sum (map csize l) <= n)%nat -> forall fuel t,
    (list_sum (map csize l) < fuel)%nat ->
    dec fuel (flat_map enc l ++ Byte.x00 :: t) = Some (l, t)) by eauto.
  induction n as [|n IH]; intros l' Hn fuel t Hf; (destruct fuel as [|fuel]; [lia|]);
    (destruct l' as [|v l']; [done|]).
  { destruct v as [| | |[|]]; simpl in Hn; lia. }
  cbn [flat_map]. rewrite <- app_assoc.
  destruct v as [z|z|s|[sub|]]; cbn [map list_sum csize foldr] in Hn, Hf; cbn [enc app dec].
  - rewrite dec_enc_Z. cbn. rewrite IH by (unfold list_sum in *; lia). done.
  - rewrite dec_enc_Z. cbn. rewrite IH by (unfold list_sum in *; lia). done.
  - rewrite dec_enc_str. cbn. rewrite IH by (unfold list_sum in *; lia). done.
  - rewrite <- app_assoc. cbn [app]. rewrite IH by (unfold list_sum in *; lia).
    cbn. rewrite IH by (unfold list_sum in *; lia). done.
  - rewrite IH by (unfold list_sum in *; lia). done.
Qed.

Lemma body_fuel l : (list_sum (map csize l) < length (body l))%nat.
Proof.
  unfold body. rewrite length_app. simpl.
  enough (list_sum (map csize l) <= length (flat_map enc l))%nat by lia.
  induction l as [|v l IH]; simpl; [lia|]. rewrite length_app. pose proof (enc_length v). lia.
Qed.

Lemma ref_serialize_fits c flags size r b :
  ref_serialize c flags size = (r, b) -> 0 <= r <= size ->
  Z.of_nat (length b) = r /\ 8 <= r /\ ref_binary_info b = Some (1, r) /\
  drop 8 b = body (rc_content c).
Proof.
  unfold ref_serialize. case_bool_decide as Hn; [|intros; simplify_eq; lia].
  intros [= <- <-] [_ Hs]. rewrite bool_decide_true by done.
  set (n := 8 + Z.of_nat (length (body (rc_content c)))) in *.
  assert (le_Z (le_bytes 4 n) = n) as Hle by (apply le_Z_bytes; unfold two31 in *; lia).
  split; [simpl; lia|]. split; [lia|]. split; [|done].
  simpl. simpl in Hle. rewrite Hle. done.
Qed.

#[export] Instance ref_laws : CapsLaws rcaps.
Proof.
  unshelve econstructor; [exact rc_content|exact rc_rest|..].
  all: try solve [intros [content rest]; simpl; intros; simplify_eq; by eauto 10].
  all: try done.
  - intros s c Hs. simpl. by rewrite Hs.
  - intros [content rest] o c'. unfold caps_read_u32, ref_ops, ref_read. simpl.
    destruct rest as [|[| | |] ?]; simpl; intros; simplify_eq; simpl; lia.
  - intros [content rest] o c'. unfold caps_read_caps, ref_ops, ref_read. simpl.
    destruct rest as [|[| | |] ?]; simpl; intros; simplify_eq; done.
  - intros c flags size r b. unfold caps_serialize, ref_ops, ref_serialize.
    case_bool_decide; intros [= <- <-]; unfold_ints; lia.
  - intros c flags size r b Hser Hr.
    destruct (ref_serialize_fits _ _ _ _ _ Hser Hr) as (Hl & H8 & Hi & Hd).
    split; [done|]. exists (mkRcaps (rc_content c) (rc_content c)). split; [|done].
    unfold caps_parse, ref_ops, ref_parse. rewrite Hi, bool_decide_true by done.
    rewrite Hd. unfold body. rewrite dec_enc; [done|].
    pose proof (body_fuel (rc_content c)) as Hf. rewrite <- Hd, length_drop in Hf. lia.
  - intros c flags size r b Hser Hr.
    destruct (ref_serialize_fits _ _ _ _ _ Hser Hr) as (Hl & H8 & Hi & Hd).
    split; [unfold HEADER_SIZE; lia|]. by exists 1.
Defined.

#[export] Program Instance ref_framing : CapsFraming rcaps.
Next Obligation.
  intros b t Hb. unfold HEADER_SIZE in Hb.
  do 8 (destruct b as [|? b]; [simpl in Hb; lia|]). done.
Qed.
Next Obligation.
  intros b v n Hb. unfold caps_binary_info, ref_ops, ref_binary_info in Hb.
  do 8 (destruct b as [|? b]; [done|]). case_bool_decide; simplify_eq.
  match goal with |- is_u32 (le_Z ?l) => pose proof (le_Z_range l) as H end.
  simpl length in H. unfold is_u32, two32. change (256 ^ Z.of_nat 4) with 4294967296 in H. lia.
Qed.
Next Obligation.
  intros b c. unfold caps_parse, ref_ops, ref_parse, ref_binary_info, HEADER_SIZE.
  do 8 (destruct b as [|? b]; [done|]). intros _. simpl. lia.
Qed.

Example ref_round_trip :
  let c := caps_write_caps (Some (caps_write_str "ab" caps_new)) (caps_write_i32 (-7) caps_new) in
  ref_parse (ref_serialize c 0 100).2 = Some (mkRcaps (rc_content c) (rc_content c)).
Proof. vm_compute. done. Qed.

(** ** Numbers are encoded in few bytes *)

Lemma enc_pos_length p : forall n, Zpos p < 2 ^ Z.of_nat n -> (length (enc_pos p) <= n)%nat.
Proof.
  induction p as [p IH|p IH|]; intros [|n] Hn; try (simpl in Hn; lia);
    rewrite ?Nat2Z.inj_succ, ?Z.pow_succ_r in Hn by lia; simpl.
  - specialize (IH n). lia.
  - specialize (IH n). lia.
  - lia.
Qed.

Lemma enc_Z_length z : 0 <= z < two64 -> (length (enc_Z z) <= 65)%nat.
Proof.
  intros Hz. destruct z as [|p|p]; simpl; [lia| |lia].
  pose proof (enc_pos_length p 64). unfold two64 in Hz. change (2 ^ Z.of_nat 64) with two64 in *.
  unfold two64 in *. lia.
Qed.

#[export] Instance ref_small : CapsSmall rcaps.
Proof.
  split. intros c flags size Hc Hl Hs. change (caps_content c) with (rc_content c) in *.
  assert (length (flat_map enc (rc_content c)) <= 66 * length (rc_content c))%nat as Hb.
  { clear Hl. induction Hc as [|v l Hv Hl IH]; simpl; [lia|]. rewrite length_app.
    enough (length (enc v) <= 66)%nat by lia.
    destruct v as [z|z| |]; simpl in Hv; [..|done|done]; simpl;
      pose proof (enc_Z_length z); unfold is_u32, is_u64, two32, two64 in *; lia. }
  simpl. unfold ref_serialize, body. rewrite length_app. simpl.
  rewrite bool_decide_true by (unfold two31; lia). simpl. lia.
Qed.
