(* ===== verification/Adap.v ===== *)
(** * Adapters: the server's view of one connection ([src/adap.h])

    The class [Adapter] of the code is abstract: its data members are the record
    [Adapter] here and its virtual functions [write], [close] and [closed] are
    the fields of [AdapterImpl], on the state [S] of an implementation. The laws
    [AdapterLaws] are what the dispatcher relies on; [SockAdap.v] discharges them
    for the socket adapter. *)
From S2P Require Import Prelude Defs.

(** The address of an [Adapter] object: its identity, and, through
    [reinterpret_cast<intptr_t>], the key of the dispatcher's info maps. *)
Abbreviation aid := positive.

(** ** AdapterInfo *)
Record AdapterInfo := mkAdapterInfo {
  ai_id : Z;                       (** [uint32_t id] *)
  ai_pid : Z;                      (** [int32_t pid] *)
  ai_name : string;
  ai_declared_methods : gset string;
  ai_flags : Z                     (** [uint32_t flags] *)
}.

(** The constructor: [id = ++idseq]. The value of [pid] is indeterminate until
    [add_adapter] sets it; only the infos [add_adapter] fills are read. *)
Definition new_AdapterInfo (idseq : Z) : AdapterInfo * Z :=
  let idseq' := u32 (idseq + 1) in
  (mkAdapterInfo idseq' 0 EmptyString ∅ 0, idseq').

(** [declare_method]: false when the name was declared already. *)
Definition declare_method (name : string) (i : AdapterInfo) : bool * AdapterInfo :=
  (bool_decide (name ∉ ai_declared_methods i),
   mkAdapterInfo (ai_id i) (ai_pid i) (ai_name i)
     ({[name]} ∪ ai_declared_methods i) (ai_flags i)).

Definition remove_method (name : string) (i : AdapterInfo) : AdapterInfo :=
  mkAdapterInfo (ai_id i) (ai_pid i) (ai_name i)
    (ai_declared_methods i ∖ {[name]}) (ai_flags i).

Definition has_method (name : string) (i : AdapterInfo) : bool :=
  bool_decide (name ∈ ai_declared_methods i).

(** ** Adapter *)

(** [AdapterInfo *info] points into one of the dispatcher's two maps. *)
Inductive InfoPtr : Type :=
  | InAdapters (k : aid)   (** a node of [adapter_infos] *)
  | InMonitors (k : aid).  (** a node of [monitors] *)

#[export] Instance InfoPtr_eq_dec : EqDecision InfoPtr.
Proof. solve_decision. Defined.

Record Adapter (S : Type) := mkAdapter {
  serialize_flags : Z;
  info : option InfoPtr;   (** [None] is [nullptr] *)
  tag : Z;
  impl : S                 (** the implementation's own members *)
}.
Arguments mkAdapter {S}.
Arguments serialize_flags {S}.
Arguments info {S}.
Arguments tag {S}.
Arguments impl {S}.

Definition set_info {S} (p : option InfoPtr) (a : Adapter S) : Adapter S :=
  mkAdapter (serialize_flags a) p (tag a) (impl a).
Definition set_tag {S} (t : Z) (a : Adapter S) : Adapter S :=
  mkAdapter (serialize_flags a) (info a) t (impl a).
Definition set_impl {S} (x : S) (a : Adapter S) : Adapter S :=
  mkAdapter (serialize_flags a) (info a) (tag a) x.

(** ** The virtual functions the dispatcher calls *)
Class AdapterImpl (S : Type) := {
  adap_write : bytes -> S -> Z * S;   (** 0, -1 (socket error) or -2 (timeout) *)
  adap_close : S -> S;
  adap_closed : S -> bool;
  adap_sent : S -> list bytes         (** the messages handed to the connection so far *)
}.

Class AdapterLaws (S : Type) `{!AdapterImpl S} := {
  write_result d s r s' : adap_write d s = (r, s') -> r = 0 \/ r = -1 \/ r = -2;
  write_closed d s : adap_closed s = true -> adap_write d s = (-1, s);
  write_fails_closes d s r s' : adap_write d s = (r, s') -> r <> 0 -> adap_closed s' = true;
  write_ok d s s' : adap_write d s = (0, s') ->
    adap_closed s' = false /\ adap_sent s' = adap_sent s ++ [d];
  write_fails_sent d s r s' : adap_write d s = (r, s') -> r <> 0 -> adap_sent s' = adap_sent s;
  close_closed s : adap_closed (adap_close s) = true;
  close_sent s : adap_sent (adap_close s) = adap_sent s
}.

#[export] Hint Resolve close_closed : flora.

(** ** Lemmas *)

Lemma declare_method_fresh name i :
  (declare_method name i).1 = true <-> has_method name i = false.
Proof. unfold declare_method, has_method. simpl. rewrite bool_decide_eq_true, bool_decide_eq_false. done. Qed.

Lemma has_method_declare name name' i :
  has_method name (declare_method name' i).2 = bool_decide (name = name') || has_method name i.
Proof.
  unfold declare_method, has_method. simpl.
  apply eq_bool_prop_intro. rewrite orb_True, !bool_decide_spec. set_solver.
Qed.

Lemma has_method_remove name name' i :
  has_method name (remove_method name' i) = negb (bool_decide (name = name')) && has_method name i.
Proof.
  unfold remove_method, has_method. simpl.
  apply eq_bool_prop_intro. rewrite andb_True, negb_True, !bool_decide_spec. set_solver.
Qed.

Lemma write_keeps_closed {S} `{AdapterLaws S} d s r s' :
  adap_write d s = (r, s') -> adap_closed s = true -> adap_closed s' = true.
Proof. intros Hw Hc. rewrite write_closed in Hw by done. by simplify_eq. Qed.
