(* ===== verification/SerHelper.v ===== *)
(** * Message encoding and decoding ([src/ser-helper.h], [src/ser-helper.cc])

    One definition per function of [RequestSerializer], [ResponseSerializer],
    [RequestParser], [ResponseParser] and [TagHelper]. A serialiser returns the
    bytes it left in [data], of length the value it returns, or [None] for the
    return value -1. [const char *] parameters are C strings. *)
From stdpp Require Import pretty.
From S2P Require Import Prelude Defs Caps Adap.

(** [Response] of flora-cli.h. *)
Record Response (caps : Type) := mkResponse {
  rs_ret_code : Z;
  rs_data : option caps;
  rs_extra : string
}.
Arguments mkResponse {caps}.
Arguments rs_ret_code {caps}.
Arguments rs_data {caps}.
Arguments rs_extra {caps}.

(** [MonitorListItem] of flora-cli.h; its [tag] is never set by the parsers. *)
Record MonitorListItem := mkMonitorListItem {
  ml_id : Z;
  ml_pid : Z;
  ml_name : string;
  ml_flags : Z
}.

(** [MonitorSubscriptionItem], [MonitorPostInfo] and [MonitorCallInfo] are only
    passed to parsers that fail without touching them. *)

Notation "c ▷ f" := (f c) (at level 50, left associativity, only parsing) : flora_scope.

Section SerializeTo.
Context {caps : Type} `{!CapsOps caps}.

(** The common tail of every serialiser:
    [r = caps->serialize(data, size, flags); if (r < 0) return -1;
     if (r > size) return -1; return r;] *)
Definition serialize_to (size flags : Z) (c : caps) : option bytes :=
  let '(r, b) := caps_serialize c flags size in
  if bool_decide (r < 0) then None
  else if bool_decide (size < u32 r) then None
  else Some b.

(** The [int32_t] a serialiser returns. *)
Definition ret_code (r : option bytes) : Z :=
  match r with Some b => Z.of_nat (length b) | None => -1 end.

End SerializeTo.

Module RequestSerializer.
Section Ops.
Context {caps : Type} `{!CapsOps caps}.

Definition serialize_auth (version : Z) (extra : string) (pid flags size ser_flags : Z) :=
  caps_new ▷ caps_write_i32 CMD_AUTH_REQ ▷ caps_write_u32 version ▷ caps_write_str extra
    ▷ caps_write_i32 pid ▷ caps_write_u32 flags ▷ serialize_to size ser_flags.

Definition serialize_subscribe (name : string) (size flags : Z) :=
  caps_new ▷ caps_write_i32 CMD_SUBSCRIBE_REQ ▷ caps_write_str name ▷ serialize_to size flags.

Definition serialize_unsubscribe (name : string) (size flags : Z) :=
  caps_new ▷ caps_write_i32 CMD_UNSUBSCRIBE_REQ ▷ caps_write_str name ▷ serialize_to size flags.

Definition serialize_declare_method (name : string) (size flags : Z) :=
  caps_new ▷ caps_write_i32 CMD_DECLARE_METHOD_REQ ▷ caps_write_str name
    ▷ serialize_to size flags.

Definition serialize_remove_method (name : string) (size flags : Z) :=
  caps_new ▷ caps_write_i32 CMD_REMOVE_METHOD_REQ ▷ caps_write_str name
    ▷ serialize_to size flags.

Definition serialize_post (name : string) (msgtype : Z) (args : option caps) (size flags : Z) :=
  caps_new ▷ caps_write_i32 CMD_POST_REQ ▷ caps_write_u32 msgtype ▷ caps_write_str name
    ▷ caps_write_caps args ▷ serialize_to size flags.

Definition serialize_call (name : string) (args : option caps) (target : string)
    (id timeout size flags : Z) :=
  caps_new ▷ caps_write_i32 CMD_CALL_REQ ▷ caps_write_str name ▷ caps_write_str target
    ▷ caps_write_i32 id ▷ caps_write_u32 timeout ▷ caps_write_caps args
    ▷ serialize_to size flags.

Definition serialize_reply (id code : Z) (values : option caps) (size flags : Z) :=
  caps_new ▷ caps_write_i32 CMD_REPLY_REQ ▷ caps_write_i32 id ▷ caps_write_i32 code
    ▷ caps_write_caps values ▷ serialize_to size flags.

Definition serialize_ping (size flags : Z) :=
  caps_new ▷ caps_write_i32 CMD_PING_REQ ▷ serialize_to size flags.
End Ops.
End RequestSerializer.

Module ResponseSerializer.
Section Ops.
Context {caps : Type} `{!CapsOps caps}.

Definition serialize_auth (result version size flags : Z) :=
  caps_new ▷ caps_write_i32 CMD_AUTH_RESP ▷ caps_write_i32 result ▷ caps_write_u32 version
    ▷ serialize_to size flags.

Definition serialize_post (name : string) (msgtype : Z) (args : option caps) (tag : Z)
    (cliname : string) (size flags : Z) :=
  caps_new ▷ caps_write_i32 CMD_POST_RESP ▷ caps_write_u32 msgtype ▷ caps_write_str name
    ▷ caps_write_caps args ▷ caps_write_u64 tag ▷ caps_write_str cliname
    ▷ serialize_to size flags.

Definition serialize_call (name : string) (args : option caps) (id tag : Z)
    (cliname : string) (size flags : Z) :=
  caps_new ▷ caps_write_i32 CMD_CALL_RESP ▷ caps_write_i32 id ▷ caps_write_str name
    ▷ caps_write_caps args ▷ caps_write_u64 tag ▷ caps_write_str cliname
    ▷ serialize_to size flags.

(** [reply] is read only for the code [FLORA_CLI_SUCCESS], and may be null otherwise. *)
Definition serialize_reply (id rescode : Z) (reply : option (Response caps))
    (tag size flags : Z) : outcome (option bytes) :=
  let c := caps_new ▷ caps_write_i32 CMD_REPLY_RESP ▷ caps_write_i32 id
             ▷ caps_write_i32 rescode in
  if bool_decide (rescode = FLORA_CLI_SUCCESS) then
    match reply with
    | None => Undef NullDeref
    | Some r =>
        Done (c ▷ caps_write_i32 (rs_ret_code r) ▷ caps_write_caps (rs_data r)
                ▷ caps_write_str (c_str (rs_extra r))
                ▷ caps_write_u64 tag ▷ serialize_to size flags)
    end
  else Done (c ▷ caps_write_u64 tag ▷ serialize_to size flags).

Definition serialize_monitor_list_item (info : AdapterInfo) : caps :=
  caps_new ▷ caps_write_u32 (ai_id info) ▷ caps_write_i32 (ai_pid info)
    ▷ caps_write_str (ai_name info) ▷ caps_write_u32 (ai_flags info).

(** The iteration order of the map, by address, is left to [map_to_list]. *)
Definition serialize_monitor_list_all (infos : gmap aid AdapterInfo) (size flags : Z) :=
  let p := caps_new ▷ caps_write_i32 CMD_MONITOR_RESP ▷ caps_write_i32 MONITOR_LIST_ALL
             ▷ caps_write_i32 (i32 (Z.of_nat (length (map_to_list infos)))) in
  foldl (fun p i => caps_write_caps (Some (serialize_monitor_list_item i)) p)
    p (map_to_list infos).*2
    ▷ serialize_to size flags.

Definition serialize_monitor_list_add (info : AdapterInfo) (size flags : Z) :=
  caps_new ▷ caps_write_i32 CMD_MONITOR_RESP ▷ caps_write_i32 MONITOR_LIST_ADD
    ▷ caps_write_caps (Some (serialize_monitor_list_item info)) ▷ serialize_to size flags.

Definition serialize_monitor_list_remove (id size flags : Z) :=
  caps_new ▷ caps_write_i32 CMD_MONITOR_RESP ▷ caps_write_i32 MONITOR_LIST_REMOVE
    ▷ caps_write_u32 id ▷ serialize_to size flags.

(** The other monitor serialisers are stubs that return -1. *)
Definition serialize_monitor_sub_all (infos : gmap aid AdapterInfo) (size flags : Z)
  : option bytes := None.
Definition serialize_monitor_sub_add (id : Z) (name : string) (size flags : Z)
  : option bytes := None.
Definition serialize_monitor_sub_remove (id : Z) (name : string) (size flags : Z)
  : option bytes := None.
Definition serialize_monitor_decl_all (infos : gmap aid AdapterInfo) (size flags : Z)
  : option bytes := None.
Definition serialize_monitor_decl_add (id : Z) (name : string) (size flags : Z)
  : option bytes := None.
Definition serialize_monitor_decl_remove (id : Z) (name : string) (size flags : Z)
  : option bytes := None.
Definition serialize_monitor_post (from : Z) (name : string) (size flags : Z)
  : option bytes := None.
Definition serialize_monitor_call (from : Z) (name target : string) (err size flags : Z)
  : option bytes := None.

Definition serialize_pong (size flags : Z) :=
  caps_new ▷ caps_write_i32 CMD_PONG_RESP ▷ serialize_to size flags.
End Ops.
End ResponseSerializer.

(** ** Parsers

    The values parsed are returned; the variables of the caller that keep what
    was read before a failure are updated through setters. *)
Module RequestParser.
Section Ops.
Context {caps : Type} `{!CapsOps caps}.

Definition parse_auth {σ} : P caps σ (Z * string * Z * Z) :=
  version ← rd caps_read_u32;
  extra ← rd caps_read_str;
  pid ← rd_default caps_read_i32 0;
  flags ← rd_default caps_read_u32 0;
  mret (version, extra, pid, flags).

Definition parse_subscribe {σ} : P caps σ string := rd caps_read_str.
Definition parse_unsubscribe {σ} : P caps σ string := rd caps_read_str.
Definition parse_declare_method {σ} : P caps σ string := rd caps_read_str.
Definition parse_remove_method {σ} : P caps σ string := rd caps_read_str.

Definition parse_post {σ} : P caps σ (string * Z * option caps) :=
  msgtype ← rd caps_read_u32;
  name ← rd caps_read_str;
  args ← rd caps_read_caps;
  mret (name, msgtype, args).

Definition parse_call {σ} : P caps σ (string * option caps * string * Z * Z) :=
  name ← rd caps_read_str;
  target ← rd caps_read_str;
  id ← rd caps_read_i32;
  timeout ← rd caps_read_u32;
  args ← rd caps_read_caps;
  mret (name, args, target, id, timeout).

Definition parse_reply {σ} : P caps σ (Z * Z * option caps) :=
  id ← rd caps_read_i32;
  code ← rd caps_read_i32;
  values ← rd caps_read_caps;
  mret (id, code, values).
End Ops.
End RequestParser.

Module ResponseParser.
Section Ops.
Context {caps : Type} `{!CapsOps caps}.

Definition parse_auth {σ} : P caps σ (Z * Z) :=
  result ← rd caps_read_i32;
  version ← rd caps_read_u32;
  mret (result, version).

Definition parse_post {σ} (set_tag : Z -> σ -> σ) (set_cliname : string -> σ -> σ)
  : P caps σ (string * Z * option caps) :=
  msgtype ← rd caps_read_u32;
  name ← rd caps_read_str;
  args ← rd caps_read_caps;
  tag ← rd caps_read_u64;
  _ ← assign (set_tag tag);
  cliname ← rd caps_read_str;
  _ ← assign (set_cliname cliname);
  mret (name, msgtype, args).

Definition parse_call {σ} (set_tag : Z -> σ -> σ) (set_cliname : string -> σ -> σ)
  : P caps σ (string * option caps * Z) :=
  id ← rd caps_read_i32;
  name ← rd caps_read_str;
  args ← rd caps_read_caps;
  tag ← rd caps_read_u64;
  _ ← assign (set_tag tag);
  cliname ← rd caps_read_str;
  _ ← assign (set_cliname cliname);
  mret (name, args, id).

(** [reply] is the caller's [Response], filled only for [FLORA_CLI_SUCCESS]. *)
Definition parse_reply {σ} (set_tag : Z -> σ -> σ) (reply : Response caps)
  : P caps σ (Z * Z * Response caps) :=
  id ← rd caps_read_i32;
  rescode ← rd caps_read_i32;
  reply ← (if bool_decide (rescode = FLORA_CLI_SUCCESS) then
             code ← rd caps_read_i32;
             data ← rd caps_read_caps;
             extra ← rd caps_read_str;
             mret (mkResponse code data extra)
           else mret reply);
  tag ← rd caps_read_u64;
  _ ← assign (set_tag tag);
  mret (id, rescode, reply).

Definition read_list_item {σ} : P caps σ MonitorListItem :=
  id ← rd caps_read_u32;
  pid ← rd caps_read_i32;
  name ← rd caps_read_str;
  flags ← rd caps_read_u32;
  mret (mkMonitorListItem id pid name flags).

(** [while (true) { if (caps->read(sub) != CAPS_SUCCESS) break; ... }] *)
Fixpoint read_list_items {σ} (fuel : nat) (infos : list MonitorListItem)
  : P caps σ (list MonitorListItem) :=
  match fuel with
  | O => fun s => (PFuel, s)
  | S fuel =>
      o ← rd_try caps_read_caps;
      match o with
      | None => mret infos
      | Some sub => i ← on_sub sub read_list_item; read_list_items fuel (infos ++ [i])
      end
  end.

(** [infos] is empty at the start: its only caller passes a new vector. *)
Definition parse_monitor_list_all {σ} (fuel : nat) : P caps σ (list MonitorListItem) :=
  size ← rd caps_read_u32;
  if bool_decide (size = 0) then mret []
  else
    infos ← read_list_items fuel [];
    if bool_decide (Z.of_nat (length infos) = size) then mret infos else fail_parse.

Definition parse_monitor_list_add {σ} : P caps σ MonitorListItem :=
  sub ← rd caps_read_caps;
  on_sub sub read_list_item.

Definition parse_monitor_list_remove {σ} : P caps σ Z := rd caps_read_u32.

(** The other monitor parsers are stubs that return -1. *)
Definition parse_monitor_sub_all {σ} : P caps σ unit := fail_parse.
Definition parse_monitor_sub_add {σ} : P caps σ unit := fail_parse.
Definition parse_monitor_sub_remove {σ} : P caps σ unit := fail_parse.
Definition parse_monitor_decl_all {σ} : P caps σ unit := fail_parse.
Definition parse_monitor_decl_add {σ} : P caps σ unit := fail_parse.
Definition parse_monitor_decl_remove {σ} : P caps σ unit := fail_parse.
Definition parse_monitor_post {σ} : P caps σ unit := fail_parse.
Definition parse_monitor_call {σ} : P caps σ unit := fail_parse.
End Ops.
End ResponseParser.

Definition is_valid_msgtype (msgtype : Z) : bool :=
  bool_decide (msgtype < FLORA_NUMBER_OF_MSGTYPE).

(** ** TagHelper: the identity of a message's sender *)
Module TagHelper.
(** [sockaddr_in]: [sin_port] ([uint16_t]) and [sin_addr.s_addr] ([uint32_t]), as
    stored, that is, in network byte order. *)
Definition create_tcp (sin_port s_addr : Z) : Z :=
  Z.lor (u64 (Z.shiftl (Z.lor 2147483648 sin_port) 32)) s_addr.

Definition create_pid (pid : Z) : Z := pid.

(** 0: unix, 1: tcp *)
Definition type (tag : Z) : Z :=
  if negb (Z.land (Z.shiftr tag 32) 2147483648 =? 0) then 1 else 0.

Definition pid (tag : Z) : Z := i32 (Z.land tag 4294967295).

(** [inet_ntoa]: the four bytes of the address in memory order (little-endian host). *)
Definition inet_ntoa (s_addr : Z) : string :=
  let octet k := pretty (Z.land (Z.shiftr s_addr (8 * k)) 255) in
  (octet 0 +:+ "." +:+ octet 1 +:+ "." +:+ octet 2 +:+ "." +:+ octet 3)%string.

Definition ipaddr (tag : Z) : string := inet_ntoa (Z.land tag 4294967295).

Definition port (tag : Z) : Z := Z.land (Z.shiftr tag 32) 65535.

(** No decimal number printed here needs more than the 16 bytes of [buf]. *)
Definition to_string (tag : Z) : string :=
  if bool_decide (type tag = 0) then pretty (pid tag)
  else (ipaddr tag +:+ ":" +:+ pretty (port tag))%string.
End TagHelper.
