(* ===== verification/SerRoundtrip.v ===== *)
(** * Encoding and decoding are inverse: the protocol's messages

    The abstract messages of the protocol ([request], [response]), the function
    that encodes each with the serialiser the sender calls, and the function that
    decodes it with the parser the receiver's handler calls, after reading the
    command number. The theorems say that what was sent is what is received. *)
From S2P Require Import Prelude Defs Caps RefCaps Adap SerHelper.

(** ** Requests, client to server *)
Inductive request (A : Type) : Type :=
  | ReqAuth (version : Z) (extra : string) (pid flags : Z)
  | ReqSubscribe (name : string)
  | ReqUnsubscribe (name : string)
  | ReqPost (name : string) (msgtype : Z) (args : A)
  | ReqReply (id code : Z) (values : A)
  | ReqDeclareMethod (name : string)
  | ReqRemoveMethod (name : string)
  | ReqCall (name : string) (args : A) (target : string) (id timeout : Z)
  | ReqPing.
Arguments ReqAuth {A}.
Arguments ReqSubscribe {A}.
Arguments ReqUnsubscribe {A}.
Arguments ReqPost {A}.
Arguments ReqReply {A}.
Arguments ReqDeclareMethod {A}.
Arguments ReqRemoveMethod {A}.
Arguments ReqCall {A}.
Arguments ReqPing {A}.

(** ** Responses, server to client *)
Inductive response (A : Type) : Type :=
  | RespAuth (result version : Z)
  | RespPost (name : string) (msgtype : Z) (args : A) (tag : Z) (cliname : string)
  | RespCall (name : string) (args : A) (id tag : Z) (cliname : string)
  | RespReply (id rescode tag : Z) (reply : option (Z * A * string))
  | RespPong.
Arguments RespAuth {A}.
Arguments RespPost {A}.
Arguments RespCall {A}.
Arguments RespReply {A}.
Arguments RespPong {A}.

#[export] Instance request_fmap : FMap request := fun A B f r =>
  match r with
  | ReqAuth v e p fl => ReqAuth v e p fl
  | ReqSubscribe n => ReqSubscribe n
  | ReqUnsubscribe n => ReqUnsubscribe n
  | ReqPost n t a => ReqPost n t (f a)
  | ReqReply i c a => ReqReply i c (f a)
  | ReqDeclareMethod n => ReqDeclareMethod n
  | ReqRemoveMethod n => ReqRemoveMethod n
  | ReqCall n a tg i t => ReqCall n (f a) tg i t
  | ReqPing => ReqPing
  end.

#[export] Instance response_fmap : FMap response := fun A B f r =>
  match r with
  | RespAuth x v => RespAuth x v
  | RespPost n t a tg cl => RespPost n t (f a) tg cl
  | RespCall n a i tg cl => RespCall n (f a) i tg cl
  | RespReply i rc tg o => RespReply i rc tg ((fun '(c, a, e) => (c, f a, e)) <$> o)
  | RespPong => RespPong
  end.

(** The values a message can carry: machine integers and C strings. *)
Definition request_wf {A} (r : request A) : Prop :=
  match r with
  | ReqAuth v e p fl => is_u32 v /\ no_nul e /\ is_i32 p /\ is_u32 fl
  | ReqSubscribe n | ReqUnsubscribe n | ReqDeclareMethod n | ReqRemoveMethod n => no_nul n
  | ReqPost n t _ => no_nul n /\ is_u32 t
  | ReqReply i c _ => is_i32 i /\ is_i32 c
  | ReqCall n _ tg i t => no_nul n /\ no_nul tg /\ is_i32 i /\ is_u32 t
  | ReqPing => True
  end.

(** A reply carries a result exactly when its code is [FLORA_CLI_SUCCESS]. *)
Definition response_wf {A} (r : response A) : Prop :=
  match r with
  | RespAuth x v => is_i32 x /\ is_u32 v
  | RespPost n t _ tg cl => no_nul n /\ is_u32 t /\ is_u64 tg /\ no_nul cl
  | RespCall n _ i tg cl => no_nul n /\ is_i32 i /\ is_u64 tg /\ no_nul cl
  | RespReply i rc tg o =>
      is_i32 i /\ is_i32 rc /\ is_u64 tg /\
      match o with
      | Some (c, _, e) => rc = FLORA_CLI_SUCCESS /\ is_i32 c /\ no_nul e
      | None => rc <> FLORA_CLI_SUCCESS
      end
  | RespPong => True
  end.

Section Codec.
Context {caps : Type} `{!CapsOps caps}.

Definition encode_request (r : request (option caps)) (size flags : Z) : option bytes :=
  match r with
  | ReqAuth v e p fl => RequestSerializer.serialize_auth v e p fl size flags
  | ReqSubscribe n => RequestSerializer.serialize_subscribe n size flags
  | ReqUnsubscribe n => RequestSerializer.serialize_unsubscribe n size flags
  | ReqPost n t a => RequestSerializer.serialize_post n t a size flags
  | ReqReply i c v => RequestSerializer.serialize_reply i c v size flags
  | ReqDeclareMethod n => RequestSerializer.serialize_declare_method n size flags
  | ReqRemoveMethod n => RequestSerializer.serialize_remove_method n size flags
  | ReqCall n a tg i t => RequestSerializer.serialize_call n a tg i t size flags
  | ReqPing => RequestSerializer.serialize_ping size flags
  end.

(** The parser each handler of the dispatcher's table applies. *)
Definition decode_request : P caps unit (request (option caps)) :=
  cmd ← rd caps_read_i32;
  if bool_decide (cmd = CMD_AUTH_REQ) then
    '(v, e, p, fl) ← RequestParser.parse_auth; mret (ReqAuth v e p fl)
  else if bool_decide (cmd = CMD_SUBSCRIBE_REQ) then
    n ← RequestParser.parse_subscribe; mret (ReqSubscribe n)
  else if bool_decide (cmd = CMD_UNSUBSCRIBE_REQ) then
    n ← RequestParser.parse_unsubscribe; mret (ReqUnsubscribe n)
  else if bool_decide (cmd = CMD_POST_REQ) then
    '(n, t, a) ← RequestParser.parse_post; mret (ReqPost n t a)
  else if bool_decide (cmd = CMD_REPLY_REQ) then
    '(i, c, v) ← RequestParser.parse_reply; mret (ReqReply i c v)
  else if bool_decide (cmd = CMD_DECLARE_METHOD_REQ) then
    n ← RequestParser.parse_declare_method; mret (ReqDeclareMethod n)
  else if bool_decide (cmd = CMD_REMOVE_METHOD_REQ) then
    n ← RequestParser.parse_remove_method; mret (ReqRemoveMethod n)
  else if bool_decide (cmd = CMD_CALL_REQ) then
    '(n, a, tg, i, t) ← RequestParser.parse_call; mret (ReqCall n a tg i t)
  else if bool_decide (cmd = CMD_PING_REQ) then mret ReqPing
  else fail_parse.

Definition encode_response (r : response (option caps)) (size flags : Z)
  : outcome (option bytes) :=
  match r with
  | RespAuth x v => Done (ResponseSerializer.serialize_auth x v size flags)
  | RespPost n t a tg cl => Done (ResponseSerializer.serialize_post n t a tg cl size flags)
  | RespCall n a i tg cl => Done (ResponseSerializer.serialize_call n a i tg cl size flags)
  | RespReply i rc tg o =>
      ResponseSerializer.serialize_reply i rc
        ((fun '(c, a, e) => mkResponse c a e) <$> o) tg size flags
  | RespPong => Done (ResponseSerializer.serialize_pong size flags)
  end.

(** What a client decodes: [tag] and [sender_name] are its two variables. *)
Definition set_fst {A B} (x : A) (s : A * B) : A * B := (x, s.2).
Definition set_snd {A B} (y : B) (s : A * B) : A * B := (s.1, y).

Definition decode_response : P caps (Z * string) (response (option caps)) :=
  cmd ← rd caps_read_i32;
  if bool_decide (cmd = CMD_AUTH_RESP) then
    '(x, v) ← ResponseParser.parse_auth; mret (RespAuth x v)
  else if bool_decide (cmd = CMD_POST_RESP) then
    '(n, t, a) ← ResponseParser.parse_post set_fst set_snd;
    s ← vars; mret (RespPost n t a s.1 s.2)
  else if bool_decide (cmd = CMD_CALL_RESP) then
    '(n, a, i) ← ResponseParser.parse_call set_fst set_snd;
    s ← vars; mret (RespCall n a i s.1 s.2)
  else if bool_decide (cmd = CMD_REPLY_RESP) then
    '(i, rc, r) ← ResponseParser.parse_reply set_fst (mkResponse 0 None EmptyString);
    s ← vars;
    mret (RespReply i rc s.1
            (if bool_decide (rc = FLORA_CLI_SUCCESS)
             then Some (rs_ret_code r, rs_data r, rs_extra r) else None))
  else if bool_decide (cmd = CMD_PONG_RESP) then mret RespPong
  else fail_parse.

Context `{!CapsLaws caps}.

(** The message up to the identity of the objects nested in it. *)
Definition erase_request : request (option caps) -> request (option (list cval)) :=
  request_fmap _ _ (fun o => caps_content <$> o).
Definition erase_response : response (option caps) -> response (option (list cval)) :=
  response_fmap _ _ (fun o => caps_content <$> o).

Ltac unfold_parsers :=
  unfold RequestParser.parse_auth, RequestParser.parse_subscribe,
    RequestParser.parse_unsubscribe, RequestParser.parse_declare_method,
    RequestParser.parse_remove_method, RequestParser.parse_post, RequestParser.parse_call,
    RequestParser.parse_reply, ResponseParser.parse_auth, ResponseParser.parse_post,
    ResponseParser.parse_call, ResponseParser.parse_reply.

(** ** The common tail *)
Lemma serialize_to_Some size flags c b :
  is_u32 size -> serialize_to size flags c = Some b ->
  exists r, caps_serialize c flags size = (r, b) /\ 0 <= r <= size.
Proof.
  unfold serialize_to. intros Hs. destruct (caps_serialize c flags size) as [r b'] eqn:E.
  pose proof (serialize_i32 _ _ _ _ _ E).
  case_bool_decide; [done|]. case_bool_decide; [done|]. intros [= <-].
  exists r. split; [done|]. rewrite u32_small in * by int_lia. lia.
Qed.

Lemma serialize_to_parse size flags c b :
  is_u32 size -> serialize_to size flags c = Some b ->
  exists c', caps_parse b = Some c' /\ caps_content c' = caps_content c /\
    caps_rest c' = caps_content c.
Proof.
  intros Hs (r & Hser & Hr)%serialize_to_Some; [|done].
  eapply serialize_parse in Hser as [_ ?]; eauto.
Qed.

Lemma serialize_to_bounds size flags c b :
  is_u32 size -> serialize_to size flags c = Some b ->
  HEADER_SIZE <= Z.of_nat (length b) <= size /\
  exists v, caps_binary_info b = Some (v, Z.of_nat (length b)).
Proof.
  intros Hs (r & Hser & Hr)%serialize_to_Some; [|done].
  pose proof (serialize_parse _ _ _ _ _ Hser Hr) as [Hl _].
  pose proof (serialize_header _ _ _ _ _ Hser Hr) as [Hh ?].
  rewrite Hl. split; [lia|done].
Qed.

(** Every encoder ends in [serialize_to]. *)
Lemma encode_request_to r size flags :
  exists c, encode_request r size flags = serialize_to size flags c.
Proof. destruct r; simpl; by eexists. Qed.

Lemma encode_response_to r size flags o :
  encode_response r size flags = Done o -> exists c, o = serialize_to size flags c.
Proof.
  destruct r as [| | |? ? ? [[[??]?]|]|]; simpl; intros; simplify_eq; try by eexists.
  all: unfold ResponseSerializer.serialize_reply in *; simpl in *; case_bool_decide; simplify_eq;
    by eexists.
Qed.

(** C15. What a client encodes as a request is what the service decodes: the
    service's parse of the bytes succeeds, the command selects the parser of the
    same request, and every field arrives unchanged (nested messages up to the
    identity of the object that carries them), with nothing left unread. *)
Theorem request_roundtrip (r : request (option caps)) size flags b :
  request_wf r -> is_u32 size -> encode_request r size flags = Some b ->
  exists c r' c', caps_parse b = Some c /\ decode_request (c, tt) = (POk r', (c', tt)) /\
    erase_request r' = erase_request r /\ caps_rest c' = [].
Proof.
  intros Hwf Hs Henc.
  enough (exists c, caps_parse b = Some c /\ parses decode_request c tt (fun r' c' _ =>
    erase_request r' = erase_request r /\ caps_rest c' = [])) as (c & ? & r' & c' & [] & ?).
  { naive_solver. }
  destruct r; simpl in Hwf, Henc; destruct_and?;
    apply serialize_to_parse in Henc as (c & Hp & _ & Hrest); try done;
    exists c; (split; [done|]); autorewrite with flora in Hrest; simpl in Hrest;
    unfold decode_request.
  all: parse_step; parse_step.
  all: change (i32 (u32 ?x)) with x; closed_ifs; unfold_parsers; parse_steps.
  all: split; [|done]; unfold erase_request; simpl; autorewrite with flora;
    repeat rewrite ?u32_small, ?i32_small by done; congruence.
Qed.

(** C16. What the service encodes as a response is what the client decodes, the
    sender's tag and name landing in the client's two variables; the result of a
    call travels exactly when its code is success. *)
Theorem response_roundtrip (r : response (option caps)) vars0 size flags b :
  response_wf r -> is_u32 size -> encode_response r size flags = Done (Some b) ->
  exists c r' c' vars', caps_parse b = Some c /\
    decode_response (c, vars0) = (POk r', (c', vars')) /\
    erase_response r' = erase_response r /\ caps_rest c' = [].
Proof.
  intros Hwf Hs Henc.
  enough (exists c, caps_parse b = Some c /\ parses decode_response c vars0 (fun r' c' _ =>
    erase_response r' = erase_response r /\ caps_rest c' = []))
    as (c & ? & r' & c' & vars' & ?).
  { naive_solver. }
  destruct r as [| | |id rescode tag [[[code data] extra]|]|]; simpl in Hwf, Henc; destruct_and?;
    unfold ResponseSerializer.serialize_reply in Henc; subst;
    try rewrite bool_decide_true in Henc by done;
    try rewrite bool_decide_false in Henc by done;
    injection Henc as Henc;
    apply serialize_to_parse in Henc as (c & Hp & _ & Hrest); try done;
    exists c; (split; [done|]); autorewrite with flora in Hrest; simpl in Hrest;
    unfold decode_response.
  all: parse_step; parse_step.
  all: change (i32 (u32 ?x)) with x; closed_ifs; unfold_parsers; parse_steps.
  all: autorewrite with flora; rewrite ?i32_small by done.
  all: try (rewrite bool_decide_false by done).
  all: closed_ifs; parse_steps; autorewrite with flora.
  all: try (rewrite bool_decide_false by done); closed_ifs.
  all: split; [|done]; unfold erase_response, set_fst, set_snd; simpl; autorewrite with flora;
    repeat rewrite ?u32_small, ?i32_small, ?u64_small by done; congruence.
Qed.

(** Whatever fits in the buffer is framed: an encoded request or response is
    at least a header long, at most [size] bytes long, and its header announces
    exactly its length; nothing longer than the buffer is ever returned. *)
Theorem encoding_bounds size flags b :
  is_u32 size ->
  (exists r, encode_request r size flags = Some b) \/
  (exists r, encode_response r size flags = Done (Some b)) ->
  HEADER_SIZE <= Z.of_nat (length b) <= size /\
  exists v, caps_binary_info b = Some (v, Z.of_nat (length b)).
Proof.
  intros Hs [[r Hr]|[r Hr]].
  - destruct (encode_request_to r size flags) as [c Hc]. rewrite Hc in Hr.
    eauto using serialize_to_bounds.
  - apply encode_response_to in Hr as [c Hc]. eauto using serialize_to_bounds.
Qed.

(** An authentication message of an older client, which carries only the
    version and the name, is accepted: the process id and the flags default to 0. *)
Theorem parse_auth_legacy c version extra :
  caps_rest c = [CInt version; CStr extra] ->
  exists c', RequestParser.parse_auth (c, tt) = (POk (u32 version, extra, 0, 0), (c', tt)).
Proof.
  intros Hrest.
  enough (parses RequestParser.parse_auth c tt (fun r _ _ => r = (u32 version, extra, 0, 0)))
    as (r & c' & [] & ? & ->) by eauto.
  unfold RequestParser.parse_auth. parse_steps. done.
Qed.

(** ** The monitor list *)
Definition list_item (i : AdapterInfo) : MonitorListItem :=
  mkMonitorListItem (ai_id i) (ai_pid i) (ai_name i) (ai_flags i).

Definition info_wf (i : AdapterInfo) : Prop :=
  is_u32 (ai_id i) /\ is_i32 (ai_pid i) /\ no_nul (ai_name i) /\ is_u32 (ai_flags i).

Definition list_item_content (i : AdapterInfo) : list cval :=
  [CInt (u32 (ai_id i)); CInt (u32 (ai_pid i)); CStr (ai_name i); CInt (u32 (ai_flags i))].

Lemma content_list_item i :
  info_wf i -> caps_content (ResponseSerializer.serialize_monitor_list_item i)
    = list_item_content i.
Proof.
  intros (? & ? & ? & ?). unfold ResponseSerializer.serialize_monitor_list_item.
  by autorewrite with flora.
Qed.

Lemma content_list_items l p :
  Forall info_wf l ->
  caps_content (foldl (fun p i =>
      caps_write_caps (Some (ResponseSerializer.serialize_monitor_list_item i)) p) p l)
    = caps_content p ++ map (fun i => CCaps (Some (list_item_content i))) l.
Proof.
  intros Hl. revert p. induction Hl as [|i l Hi Hl IH]; intros p; simpl.
  - by rewrite app_nil_r.
  - rewrite IH. autorewrite with flora. simpl. rewrite content_list_item by done.
    by rewrite <- app_assoc.
Qed.

Lemma parses_list_item {σ} i sub (s : σ) (Q : MonitorListItem -> caps -> σ -> Prop) :
  info_wf i -> caps_rest sub = list_item_content i ->
  (forall c', Q (list_item i) c' s) ->
  parses ResponseParser.read_list_item sub s Q.
Proof.
  intros (? & ? & ? & ?) Hrest HQ. unfold list_item_content in Hrest.
  unfold ResponseParser.read_list_item. parse_steps. autorewrite with flora.
  rewrite !u32_small, i32_small by done. apply HQ.
Qed.

Lemma parses_list_items {σ} (l : list AdapterInfo) :
  forall fuel acc c (s : σ) (Q : list MonitorListItem -> caps -> σ -> Prop),
  Forall info_wf l -> (length l < fuel)%nat ->
  caps_rest c = map (fun i => CCaps (Some (list_item_content i))) l ->
  (forall c', caps_rest c' = [] -> Q (acc ++ map list_item l) c' s) ->
  parses (ResponseParser.read_list_items fuel acc) c s Q.
Proof.
  induction l as [|i l IH]; intros fuel acc c s Q Hl Hf Hc HQ;
    (destruct fuel as [|fuel]; [simpl in Hf; lia|]); simpl; apply parses_bind, parses_try.
  - apply read_caps_end in Hc as (c' & Hr & Hc'). exists None, c'. split; [done|].
    apply parses_ret. rewrite app_nil_r in HQ. by apply HQ.
  - inversion Hl as [|? ? Hi Hl']; subst.
    apply read_caps_sub in Hc as (sub & c' & Hr & Ht & _ & Hsub).
    exists (Some (Some sub)), c'. split; [done|].
    apply parses_bind, parses_on_sub. eapply parses_list_item; [done..|]. intros _.
    apply IH; [done|simpl in Hf; lia|done|].
    intros c'' Hc''. rewrite <- app_assoc. by apply HQ.
Qed.

Lemma parses_monitor_list_all {σ} (l : list AdapterInfo) fuel c (s : σ)
  (Q : list MonitorListItem -> caps -> σ -> Prop) :
  Forall info_wf l -> Z.of_nat (length l) < two31 -> (length l < fuel)%nat ->
  caps_rest c = CInt (u32 (Z.of_nat (length l)))
                  :: map (fun i => CCaps (Some (list_item_content i))) l ->
  (forall c', Q (map list_item l) c' s) ->
  parses (ResponseParser.parse_monitor_list_all fuel) c s Q.
Proof.
  intros Hl Hn Hf Hc HQ. unfold ResponseParser.parse_monitor_list_all.
  apply parses_bind. eapply parses_u32; [done|]. intros c1 Hc1.
  rewrite u32_u32, u32_nonneg by lia.
  case_bool_decide as Hz.
  { destruct l; [|done]. apply parses_ret, HQ. }
  apply parses_bind. eapply parses_list_items; [done..|]. intros c2 _.
  rewrite app_nil_l, length_map, bool_decide_true by done. apply parses_ret, HQ.
Qed.

(** A monitor receives the list of connected clients as the service holds it:
    decoding the bytes of [serialize_monitor_list_all] yields one item per entry
    of the map, with the same id, process id, name and flags, and the loop over
    the items ends (any fuel above the number of entries is enough). *)
Theorem monitor_list_roundtrip (infos : gmap aid AdapterInfo) size flags b fuel :
  is_u32 size -> (forall k i, infos !! k = Some i -> info_wf i) ->
  Z.of_nat (length (map_to_list infos)) < two31 ->
  (length (map_to_list infos) < fuel)%nat ->
  ResponseSerializer.serialize_monitor_list_all infos size flags = Some b ->
  exists c, caps_parse b = Some c /\
    parses (cmd ← rd caps_read_i32; sub ← rd caps_read_u32;
            l ← ResponseParser.parse_monitor_list_all fuel; mret (cmd, sub, l)) c tt
      (fun '(cmd, sub, l) c' _ => cmd = CMD_MONITOR_RESP /\ sub = MONITOR_LIST_ALL /\
         l = map list_item (map_to_list infos).*2).
Proof.
  intros Hs Hwf Hn Hf Hser.
  assert (Forall info_wf (map_to_list infos).*2) as Hl.
  { apply Forall_fmap, Forall_forall. intros [k i] Hin. by apply (Hwf k), elem_of_map_to_list. }
  apply serialize_to_parse in Hser as (c & Hp & _ & Hrest); [|done]. exists c. split; [done|].
  rewrite content_list_items in Hrest by done. autorewrite with flora in Hrest.
  simpl in Hrest. rewrite <- (length_fmap snd) in Hrest, Hn, Hf.
  do 5 parse_step. eapply parses_monitor_list_all; [done..|].
  intros c'. by apply parses_ret.
Qed.

Lemma read_list_item_no_loop {σ} : no_loop (σ:=σ) ResponseParser.read_list_item.
Proof. unfold ResponseParser.read_list_item. eauto 10 with flora. Qed.

Lemma read_list_items_fuel {σ} fuel acc c (s : σ) :
  (length (caps_rest c) < fuel)%nat ->
  (ResponseParser.read_list_items fuel acc (c, s)).1 <> PFuel.
Proof.
  revert acc c s. induction fuel as [|fuel IH]; intros acc c s Hf; [lia|].
  simpl. unfold mbind at 1, P_bind at 1, rd_try.
  destruct (caps_read_caps c) as [[o|] c1] eqn:Hr; [|done].
  apply read_caps_consumes in Hr. unfold mbind, P_bind, on_sub.
  destruct o as [sub|]; [|done].
  pose proof (read_list_item_no_loop (sub, s)) as Hno.
  destruct (ResponseParser.read_list_item (sub, s)) as [[i| | |] [c2 s2]]; try done.
  apply IH. lia.
Qed.

(** The item loop of the client's parser always ends, whatever the service
    sends: fuel above the number of members left to read is never used up. *)
Theorem monitor_list_terminates {σ} fuel c (s : σ) :
  (length (caps_rest c) < fuel)%nat ->
  (ResponseParser.parse_monitor_list_all fuel (c, s)).1 <> PFuel.
Proof.
  intros Hf. unfold ResponseParser.parse_monitor_list_all.
  unfold mbind at 1, P_bind at 1, rd.
  destruct (caps_read_u32 c) as [[z|] c1] eqn:Hr; [|done].
  apply read_u32_length in Hr. case_bool_decide; [done|].
  pose proof (read_list_items_fuel fuel [] c1 s ltac:(lia)) as Hl. unfold mbind, P_bind.
  destruct (ResponseParser.read_list_items fuel [] (c1, s)) as [[l| | |] s2]; try done.
  by case_bool_decide.
Qed.
End Codec.

(** ** The theorems at concrete inputs, with the reference message library *)

Definition a_call : request (option rcaps) :=
  ReqCall "add" (Some (caps_write_i32 5 caps_new)) "calculator" 3 250.
Definition a_reply : response (option rcaps) :=
  RespReply 3 FLORA_CLI_SUCCESS 77 (Some (0, Some (caps_write_i32 8 caps_new), "calculator")).

Lemma request_roundtrip_witness :
  exists b c r' c', encode_request a_call 4096 0 = Some b /\ caps_parse b = Some c /\
    decode_request (c, tt) = (POk r', (c', tt)) /\ erase_request r' = erase_request a_call.
Proof.
  destruct (encode_request a_call 4096 0) as [b|] eqn:Hb; [|vm_compute in Hb; discriminate].
  destruct (request_roundtrip a_call 4096 0 b) as (c & r' & c' & Hp & Hd & He & _);
    [vm_compute; split_and!; done|split; done|exact Hb|].
  exists b, c, r', c'. auto.
Defined.

Lemma response_roundtrip_witness :
  exists b c r' c' v, encode_response a_reply 4096 0 = Done (Some b) /\ caps_parse b = Some c /\
    decode_response (c, (0, EmptyString)) = (POk r', (c', v)) /\
    erase_response r' = erase_response a_reply.
Proof.
  destruct (encode_response a_reply 4096 0) as [[b|]|] eqn:Hb; [|vm_compute in Hb; discriminate..].
  destruct (response_roundtrip a_reply (0, EmptyString) 4096 0 b) as (c & r' & c' & v & Hp & Hd & He & _);
    [vm_compute; split_and!; done|split; done|exact Hb|].
  exists b, c, r', c', v. auto.
Defined.

Lemma encoding_bounds_witness :
  exists b, encode_request a_call 4096 0 = Some b /\ HEADER_SIZE <= Z.of_nat (length b) <= 4096.
Proof.
  destruct (encode_request a_call 4096 0) as [b|] eqn:Hb; [|vm_compute in Hb; discriminate].
  exists b. split; [reflexivity|]. apply (encoding_bounds 4096 0 b); [split; done|].
  left. by exists a_call.
Defined.

Lemma parse_auth_legacy_witness :
  exists c', RequestParser.parse_auth (mkRcaps [] [CInt 3; CStr "old"], tt) =
    (POk (u32 3, "old", 0, 0), (c', tt)).
Proof. apply (parse_auth_legacy (mkRcaps [] [CInt 3; CStr "old"])). reflexivity. Defined.

Definition two_infos : gmap aid AdapterInfo :=
  <[4%positive := mkAdapterInfo 1 77 "alice" ∅ 0]> {[9%positive := mkAdapterInfo 2 78 "bob" ∅ 32]}.

Lemma monitor_list_roundtrip_witness :
  exists b (c : rcaps), ResponseSerializer.serialize_monitor_list_all two_infos 4096 0 = Some b /\
    caps_parse b = Some c.
Proof.
  destruct (ResponseSerializer.serialize_monitor_list_all (caps:=rcaps) two_infos 4096 0) as [b|] eqn:Hb;
    [|vm_compute in Hb; discriminate].
  destruct (monitor_list_roundtrip (caps:=rcaps) two_infos 4096 0 b 3) as (c & Hp & _).
  - split; done.
  - intros k i Hk. unfold two_infos in Hk. apply lookup_insert_Some in Hk as [[_ <-]|[_ Hk]];
      [|apply lookup_singleton_Some in Hk as [_ <-]]; vm_compute; split_and!; done.
  - vm_compute. reflexivity.
  - vm_compute. lia.
  - exact Hb.
  - exists b, c. auto.
Defined.

Lemma monitor_list_terminates_witness :
  (ResponseParser.parse_monitor_list_all 3
     (mkRcaps [] [CInt 7; CCaps None], tt)).1 <> PFuel.
Proof. apply (monitor_list_terminates 3 (mkRcaps [] [CInt 7; CCaps None])). vm_compute. lia. Defined.
