(* ===== verification/TagProps.v ===== *)
(** * The sender's tag ([TagHelper] of [src/ser-helper.h])

    A tag packs either a process id or a TCP peer's address and port in 64 bits.
    The accessors recover what was packed, and the two kinds never collide. *)
From stdpp Require Import pretty.
From S2P Require Import Prelude Defs SerHelper.

Lemma land_low x a n :
  0 <= n -> 0 <= a < 2 ^ n -> Z.land (Z.shiftl x n) a = 0.
Proof.
  intros Hn Ha. apply Z.bits_inj'. intros i Hi. rewrite Z.land_spec, Z.bits_0.
  destruct (Z.lt_ge_cases i n) as [Hlt|Hge].
  - by rewrite Z.shiftl_spec_low.
  - rewrite <- (Z.mod_small a (2 ^ n)) by done.
    rewrite Z.mod_pow2_bits_high by lia. apply andb_false_r.
Qed.

Lemma lor_shift x a n :
  0 <= n -> 0 <= a < 2 ^ n -> Z.lor (Z.shiftl x n) a = x * 2 ^ n + a.
Proof.
  intros Hn Ha. rewrite <- Z.add_nocarry_lor by (by apply land_low).
  by rewrite Z.shiftl_mul_pow2.
Qed.

Lemma shiftr_packed x a n :
  0 <= n -> 0 <= a < 2 ^ n -> Z.shiftr (x * 2 ^ n + a) n = x.
Proof.
  intros Hn Ha. rewrite Z.shiftr_div_pow2 by done.
  rewrite Z.div_add_l by lia. rewrite Z.div_small by done. lia.
Qed.

Lemma land_packed x a n :
  0 <= n -> 0 <= a < 2 ^ n -> Z.land (x * 2 ^ n + a) (Z.ones n) = a.
Proof.
  intros Hn Ha. rewrite Z.land_ones, Z.add_comm, Z.mod_add by lia. by apply Z.mod_small.
Qed.

(** The 64-bit value that [create_tcp] builds. *)
Lemma create_tcp_value p a :
  0 <= p < 65536 -> is_u32 a ->
  TagHelper.create_tcp p a = (32768 * 2 ^ 16 + p) * 2 ^ 32 + a.
Proof.
  intros Hp Ha. unfold TagHelper.create_tcp.
  change 2147483648 with (Z.shiftl 32768 16).
  rewrite (lor_shift 32768 p 16) by lia.
  rewrite u64_small by (rewrite Z.shiftl_mul_pow2 by lia; unfold is_u64, two64; lia).
  apply lor_shift; [lia|]. unfold is_u32, two32 in Ha. lia.
Qed.

Lemma create_tcp_range p a : 0 <= p < 65536 -> is_u32 a -> is_u64 (TagHelper.create_tcp p a).
Proof. intros Hp Ha. rewrite create_tcp_value by done. unfold is_u32, is_u64, two32, two64 in *. lia. Qed.

Lemma type_packed x a : is_u32 a -> 0 <= x < 2 ^ 32 ->
  TagHelper.type (x * 2 ^ 32 + a) = if bool_decide (x < 2 ^ 31) then 0 else 1.
Proof.
  intros Ha Hx. unfold TagHelper.type, is_u32, two32 in *.
  rewrite shiftr_packed by lia.
  assert (Z.land x 2147483648 = if bool_decide (x < 2 ^ 31) then 0 else 2147483648) as ->;
    [|by case_bool_decide].
  case_bool_decide.
  - rewrite Z.land_comm. change 2147483648 with (Z.shiftl 1 31). apply land_low; lia.
  - replace x with (Z.lor (Z.shiftl 1 31) (x - 2 ^ 31)) by (rewrite lor_shift; lia).
    rewrite Z.land_lor_distr_l, (Z.land_comm (x - _)).
    change 2147483648 with (Z.shiftl 1 31). rewrite Z.land_diag, land_low by lia. done.
Qed.

Lemma type_tcp p a : 0 <= p < 65536 -> is_u32 a -> TagHelper.type (TagHelper.create_tcp p a) = 1.
Proof.
  intros Hp Ha. rewrite create_tcp_value by done.
  rewrite type_packed by (unfold is_u32, two32 in *; lia). by rewrite bool_decide_false by lia.
Qed.

(** A TCP peer's tag gives back its kind, its address text and its port field,
    for every 16-bit port and 32-bit address; the port comes back exactly as
    [sin_port] holds it, that is, in network byte order. *)
Theorem tag_tcp_roundtrip p a :
  0 <= p < 65536 -> is_u32 a ->
  TagHelper.type (TagHelper.create_tcp p a) = 1 /\
  TagHelper.port (TagHelper.create_tcp p a) = p /\
  TagHelper.ipaddr (TagHelper.create_tcp p a) = TagHelper.inet_ntoa a.
Proof.
  intros Hp Ha. split; [by apply type_tcp|]. rewrite create_tcp_value by done. split.
  - unfold TagHelper.port, is_u32, two32 in *. rewrite shiftr_packed by lia.
    by apply (land_packed 32768 p 16).
  - unfold TagHelper.ipaddr. f_equal. apply (land_packed _ a 32); [lia|].
    unfold is_u32, two32 in Ha. lia.
Qed.

(** A process id's tag is of the unix kind and gives the process id back,
    so a unix client and a TCP client never share a tag. *)
Theorem tag_pid_roundtrip n :
  is_u32 n ->
  TagHelper.type (TagHelper.create_pid n) = 0 /\
  TagHelper.pid (TagHelper.create_pid n) = i32 n /\
  forall p a, 0 <= p < 65536 -> is_u32 a -> TagHelper.create_pid n <> TagHelper.create_tcp p a.
Proof.
  intros Hn. assert (TagHelper.type (TagHelper.create_pid n) = 0) as Ht.
  { unfold TagHelper.create_pid. replace n with (0 * 2 ^ 32 + n) by lia.
    by rewrite type_packed by (done || lia). }
  split; [done|]. split.
  - unfold TagHelper.pid, TagHelper.create_pid. f_equal.
    apply (land_packed 0 n 32); [lia|]. unfold is_u32, two32 in Hn. lia.
  - intros p a Hp Ha Heq. rewrite Heq in Ht.
    by rewrite type_tcp in Ht.
Qed.

Lemma tag_tcp_roundtrip_witness :
  TagHelper.type (TagHelper.create_tcp 36895 16777343) = 1 /\
  TagHelper.port (TagHelper.create_tcp 36895 16777343) = 36895 /\
  TagHelper.ipaddr (TagHelper.create_tcp 36895 16777343) = TagHelper.inet_ntoa 16777343.
Proof. apply tag_tcp_roundtrip; split; done. Defined.

Lemma tag_pid_roundtrip_witness :
  TagHelper.type (TagHelper.create_pid 4321) = 0 /\
  TagHelper.pid (TagHelper.create_pid 4321) = i32 4321 /\
  TagHelper.create_pid 4321 <> TagHelper.create_tcp 36895 16777343.
Proof.
  destruct (tag_pid_roundtrip 4321) as (H1 & H2 & H3); [split; done|].
  split; [exact H1|]. split; [exact H2|]. apply H3; split; done.
Defined.
