(* ===== verification/Framing.v ===== *)
(** * Framing: cutting a byte stream into messages, as a specification

    A connection is a stream of bytes; both ends cut it into messages by the
    length that each message's 8-byte header announces. [split] is the reference:
    the frames of a stream and what is left over. The two implementations, the
    server's [SocketAdapter] and the client's receive buffer, see the stream in
    arbitrary pieces and keep the left-over bytes in a buffer; they are proved
    against [split] in [SockAdap.v], [SockPoll.v] and [Cli.v]. *)
From S2P Require Import Prelude Defs Caps.

(** Why a stream cannot be continued. *)
Inductive frame_error : Type :=
  | BadHeader     (** [Caps::binary_info] failed *)
  | TooLong       (** the announced length exceeds the limit *)
  | BadMessage.   (** [Caps::parse] failed *)

(** The frames so far and either the incomplete rest or the error. *)
Inductive framing : Type :=
  | More (frames : list bytes) (rest : bytes)
  | Bad (frames : list bytes) (err : frame_error).

Definition add_frame (f : bytes) (r : framing) : framing :=
  match r with
  | More fs rest => More (f :: fs) rest
  | Bad fs e => Bad (f :: fs) e
  end.

Definition add_frames (fs : list bytes) (r : framing) : framing := foldr add_frame r fs.

Section Framing.
Context {caps : Type} `{!CapsOps caps}.

Fixpoint split_fuel (limit : Z) (fuel : nat) (b : bytes) : framing :=
  match fuel with
  | O => More [] b
  | S fuel =>
      if bool_decide (Z.of_nat (length b) < HEADER_SIZE) then More [] b
      else
        match caps_binary_info b with
        | None => Bad [] BadHeader
        | Some (_, n) =>
            if bool_decide (limit < n) then Bad [] TooLong
            else if bool_decide (Z.of_nat (length b) < n) then More [] b
            else
              let f := take (Z.to_nat n) b in
              match caps_parse f with
              | None => Bad [] BadMessage
              | Some _ => add_frame f (split_fuel limit fuel (drop (Z.to_nat n) b))
              end
        end
  end.

(** One unit of fuel per byte is enough: a frame has at least a header. *)
Definition split (limit : Z) (b : bytes) : framing := split_fuel limit (S (length b)) b.

(** A whole message: its header announces its length, and it parses. *)
Definition good_frame (limit : Z) (f : bytes) : Prop :=
  exists v n c, caps_binary_info f = Some (v, n) /\ n = Z.of_nat (length f) /\
    HEADER_SIZE <= n <= limit /\ caps_parse f = Some c.

Context `{!CapsFraming caps}.

Lemma parse_take_pos n b c : caps_parse (take n b) = Some c -> (8 <= n)%nat.
Proof.
  intros H%parse_header. rewrite length_take in H. unfold HEADER_SIZE in H. lia.
Qed.

Lemma split_fuel_enough limit f1 f2 b :
  (length b < f1)%nat -> (length b < f2)%nat -> split_fuel limit f1 b = split_fuel limit f2 b.
Proof.
  revert f2 b. induction f1 as [|f1 IH]; intros f2 b H1 H2; [lia|].
  destruct f2 as [|f2]; [lia|]. simpl.
  case_bool_decide; [done|]. destruct (caps_binary_info b) as [[v n]|]; [|done].
  do 2 (case_bool_decide; [done|]).
  destruct (caps_parse (take (Z.to_nat n) b)) eqn:Hp; [|done].
  apply parse_take_pos in Hp. f_equal.
  apply IH; rewrite length_drop; unfold HEADER_SIZE in *; lia.
Qed.

(** The equation of the specification. *)
Lemma split_eq limit b :
  split limit b =
    if bool_decide (Z.of_nat (length b) < HEADER_SIZE) then More [] b
    else
      match caps_binary_info b with
      | None => Bad [] BadHeader
      | Some (_, n) =>
          if bool_decide (limit < n) then Bad [] TooLong
          else if bool_decide (Z.of_nat (length b) < n) then More [] b
          else
            let f := take (Z.to_nat n) b in
            match caps_parse f with
            | None => Bad [] BadMessage
            | Some _ => add_frame f (split limit (drop (Z.to_nat n) b))
            end
      end.
Proof.
  unfold split at 1. simpl split_fuel at 1. case_bool_decide; [done|].
  destruct (caps_binary_info b) as [[v n]|]; [|done].
  do 2 (case_bool_decide; [done|]). cbn zeta.
  destruct (caps_parse (take (Z.to_nat n) b)) eqn:Hp; [|done].
  apply parse_take_pos in Hp. f_equal. unfold split.
  apply split_fuel_enough; rewrite ?length_drop; unfold HEADER_SIZE in *; lia.
Qed.

Lemma add_frames_app fs gs r : add_frames (fs ++ gs) r = add_frames fs (add_frames gs r).
Proof. apply foldr_app. Qed.

Lemma add_frames_more fs gs rest : add_frames fs (More gs rest) = More (fs ++ gs) rest.
Proof. induction fs as [|f fs IH]; simpl; [done|]. by rewrite IH. Qed.

Lemma add_frames_bad fs gs e : add_frames fs (Bad gs e) = Bad (fs ++ gs) e.
Proof. induction fs as [|f fs IH]; simpl; [done|]. by rewrite IH. Qed.

(** The two ways a stream is cut without an error. *)
Lemma split_more limit b fs rest :
  split limit b = More fs rest ->
  (fs = [] /\ rest = b) \/
  exists v n c gs, caps_binary_info b = Some (v, n) /\ HEADER_SIZE <= n <= limit /\
    n <= Z.of_nat (length b) /\ caps_parse (take (Z.to_nat n) b) = Some c /\
    split limit (drop (Z.to_nat n) b) = More gs rest /\ fs = take (Z.to_nat n) b :: gs.
Proof.
  intros Hb. rewrite split_eq in Hb. case_bool_decide as Hlen; [by left; simplify_eq|].
  destruct (caps_binary_info b) as [[v n]|] eqn:Hi; [|done].
  case_bool_decide as Hlim; [done|]. case_bool_decide as Hn; [by left; simplify_eq|].
  cbn zeta in Hb. destruct (caps_parse (take (Z.to_nat n) b)) as [c|] eqn:Hp; [|done].
  pose proof (parse_take_pos _ _ _ Hp).
  destruct (split limit (drop (Z.to_nat n) b)) as [gs r|] eqn:Hd; [|done].
  simpl in Hb. simplify_eq. right. exists v, n, c, gs. unfold HEADER_SIZE in *.
  split_and!; (done || lia).
Qed.

(** A stream read in two parts: cutting the first part, and then what it left
    followed by the second part, is cutting the whole. *)
Lemma split_app limit d b : forall fs rest,
  split limit b = More fs rest ->
  split limit (b ++ d) = add_frames fs (split limit (rest ++ d)).
Proof.
  induction b as [b IH] using length_ind. intros fs rest Hb.
  destruct (split_more _ _ _ _ Hb) as [[-> ->]|(v & n & c & gs & Hi & Hn & Hl & Hp & Hd & ->)];
    [done|].
  rewrite split_eq. unfold HEADER_SIZE in *.
  rewrite bool_decide_false by (rewrite length_app; lia).
  rewrite binary_info_prefix, Hi by (unfold HEADER_SIZE; lia).
  rewrite bool_decide_false by lia.
  rewrite bool_decide_false by (rewrite length_app; lia). cbn zeta.
  rewrite take_app_le, Hp, drop_app_le by lia. simpl. f_equal.
  apply IH; [rewrite length_drop; lia|done].
Qed.

Lemma split_incomplete limit b : forall fs rest,
  split limit b = More fs rest -> split limit rest = More [] rest.
Proof.
  induction b as [b IH] using length_ind. intros fs rest Hb.
  destruct (split_more _ _ _ _ Hb) as [[-> ->]|(v & n & c & gs & Hi & Hn & Hl & Hp & Hd & ->)];
    [done|].
  eapply IH; [|done]. rewrite length_drop. unfold HEADER_SIZE in *. lia.
Qed.

(** What is left over never fills a buffer of [limit] bytes. *)
Lemma split_rest_length limit b fs rest :
  HEADER_SIZE <= limit -> split limit b = More fs rest -> Z.of_nat (length rest) < limit.
Proof.
  intros Hlim Hb%split_incomplete. rewrite split_eq in Hb.
  case_bool_decide; [lia|]. destruct (caps_binary_info rest) as [[v n]|]; [|done].
  case_bool_decide; [done|]. case_bool_decide; [lia|]. cbn zeta in Hb.
  destruct (caps_parse _); [|done]. by destruct (split _ _).
Qed.

(** The frames are cut off the front of the stream, in order. *)
Lemma split_concat limit b : forall fs rest,
  split limit b = More fs rest -> b = concat fs ++ rest.
Proof.
  induction b as [b IH] using length_ind. intros fs rest Hb.
  destruct (split_more _ _ _ _ Hb) as [[-> ->]|(v & n & c & gs & Hi & Hn & Hl & Hp & Hd & ->)];
    [done|].
  apply IH in Hd; [|rewrite length_drop; unfold HEADER_SIZE in *; lia].
  simpl. by rewrite <- app_assoc, <- Hd, take_drop.
Qed.

Lemma split_good limit f b :
  good_frame limit f -> split limit (f ++ b) = add_frame f (split limit b).
Proof.
  intros (v & n & c & Hi & -> & Hn & Hp). rewrite split_eq.
  rewrite bool_decide_false by (rewrite length_app; lia).
  rewrite binary_info_prefix, Hi by lia. rewrite bool_decide_false by lia.
  rewrite bool_decide_false by (rewrite length_app; lia). cbn zeta.
  by rewrite Nat2Z.id, take_app_length, Hp, drop_app_length.
Qed.

(** A stream of whole messages is cut into exactly those messages. *)
Lemma split_good_frames limit fs :
  Forall (good_frame limit) fs -> split limit (concat fs) = More fs [].
Proof.
  induction 1 as [|f fs Hf Hfs IH]; simpl.
  - rewrite split_eq. by rewrite bool_decide_true.
  - by rewrite split_good, IH.
Qed.
End Framing.
