(* ===== verification/SockAdap.v ===== *)
(** * The socket adapter ([src/sock-adap.h], [src/sock-adap.cc])

    A [SocketAdapter] owns a receive buffer and the write side of one socket. The
    operating system's [read], [write] and [shutdown] on the socket are parameters
    (the class [SockOS]); everything the code computes with their results, the
    buffer arithmetic included, is here. [sent] records the buffers handed to
    successful [write] calls; it has no counterpart in the code. *)
From S2P Require Import Prelude Defs Caps Adap Framing.

(** ** The system calls on a socket *)
Class SockOS (os : Type) := {
  sys_read : Z -> os -> (bytes + Z) * os;    (** at most that many bytes, or [errno] *)
  sys_write : bytes -> os -> (Z + Z) * os;   (** the count written, or [errno] *)
  sys_shutdown : os -> os;
  sys_set_sndtimeo : Z -> Z -> os -> os;     (** [setsockopt(SO_SNDTIMEO)], sec and usec *)
  EAGAIN : Z
}.

Class SockLaws (os : Type) `{!SockOS os} := {
  sys_read_length n s d s' : sys_read n s = (inl d, s') ->
    Z.of_nat (length d) <= Z.max 0 n
}.

Module SocketAdapter.
Record t (os : Type) := mk {
  socketfd : Z;
  buffer : option bytes;       (** [None] after [close_nolock]; else [buf_size] bytes *)
  buf_size : Z;
  cur_size : Z;
  frame_begin : Z;
  sock : os;
  sent : list bytes
}.
Arguments mk {os}.
Arguments socketfd {os}.
Arguments buffer {os}.
Arguments buf_size {os}.
Arguments cur_size {os}.
Arguments frame_begin {os}.
Arguments sock {os}.
Arguments sent {os}.

Section Ops.
Context {caps : Type} `{!CapsOps caps} {os : Type} `{!SockOS os}.

Definition set_write_timeout (sock timeout : Z) (s : os) : os :=
  if bool_decide (sock < 0) then s else sys_set_sndtimeo (timeout / 1000) (timeout mod 1000 * 1000) s.

(** The constructor; [mmap] returns zeroed memory. *)
Definition new (fd bufsize wtimeout : Z) (s : os) : t os :=
  mk fd (Some (replicate (Z.to_nat bufsize) Byte.x00)) bufsize 0 0 (set_write_timeout fd wtimeout s) [].

Definition set_sock (s : os) (a : t os) : t os :=
  mk (socketfd a) (buffer a) (buf_size a) (cur_size a) (frame_begin a) s (sent a).

Definition read (a : t os) : Z * t os :=
  match buffer a with
  | None => (SOCK_ADAPTER_ECLOSED, a)
  | Some buf =>
      let '(r, s) := sys_read (u32 (buf_size a - cur_size a)) (sock a) in
      match r with
      | inr _ => (SOCK_ADAPTER_ECLOSED, set_sock s a)
      | inl d =>
          if bool_decide (d = []) then (SOCK_ADAPTER_ECLOSED, set_sock s a)
          else
            (SOCK_ADAPTER_SUCCESS,
             mk (socketfd a)
               (Some (mem_write buf (Z.to_nat (cur_size a)) d)) (buf_size a)
               (u32 (cur_size a + Z.of_nat (length d))) (frame_begin a) s (sent a))
      end
  end.

(** [nomore:] the incomplete frame moves to the start of the buffer. *)
Definition nomore (a : t os) (buf : bytes) (sz : Z) : t os :=
  mk (socketfd a)
    (Some (if bool_decide (frame_begin a < cur_size a)
           then mem_write buf 0 (mem_read buf (Z.to_nat (frame_begin a)) (Z.to_nat sz))
           else buf))
    (buf_size a) sz 0 (sock a) (sent a).

(** The frame handed out is [length] bytes at [buffer + frame_begin]. *)
Definition next_frame (a : t os) : Z * bytes * t os :=
  match buffer a with
  | None => (SOCK_ADAPTER_ECLOSED, [], a)
  | Some buf =>
      let sz := u32 (cur_size a - frame_begin a) in
      if bool_decide (sz < HEADER_SIZE) then (SOCK_ADAPTER_ENOMORE, [], nomore a buf sz)
      else
        match caps_binary_info (drop (Z.to_nat (frame_begin a)) buf) with
        | None => (SOCK_ADAPTER_EPROTO, [], a)
        | Some (_, length) =>
            if bool_decide (buf_size a < length) then (SOCK_ADAPTER_ENOBUF, [], a)
            else if bool_decide (sz < length) then (SOCK_ADAPTER_ENOMORE, [], nomore a buf sz)
            else
              (SOCK_ADAPTER_SUCCESS,
               mem_read buf (Z.to_nat (frame_begin a)) (Z.to_nat length),
               mk (socketfd a) (buffer a) (buf_size a) (cur_size a)
                 (u32 (frame_begin a + length)) (sock a) (sent a))
        end
  end.

Definition close_nolock (a : t os) : t os :=
  match buffer a with
  | None => a
  | Some _ =>
      mk (socketfd a) None (buf_size a) (cur_size a) (frame_begin a)
        (if bool_decide (0 <= socketfd a) then sys_shutdown (sock a) else sock a) (sent a)
  end.

(** [close] is [close_nolock] under [write_mutex]. *)
Definition close (a : t os) : t os := close_nolock a.

Definition closed (a : t os) : bool := bool_decide (buffer a = None).

(** Any count that [::write] returns, even a short one, is a success. *)
Definition write (data : bytes) (a : t os) : Z * t os :=
  match buffer a with
  | None => (-1, a)
  | Some _ =>
      let '(r, s) := sys_write data (sock a) in
      match r with
      | inr errno =>
          let a' := close_nolock (set_sock s a) in
          if bool_decide (errno = EAGAIN) then (-2, a') else (-1, a')
      | inl _ =>
          (0, mk (socketfd a) (buffer a) (buf_size a) (cur_size a)
                (frame_begin a) s (sent a ++ [data]))
      end
  end.

(** ** The adapter the dispatcher sees *)
#[global] Instance SocketAdapter_impl : AdapterImpl (t os) := {|
  adap_write := write;
  adap_close := close;
  adap_closed := closed;
  adap_sent := sent
|}.

#[global] Instance SocketAdapter_laws : AdapterLaws (t os).
Proof.
  split; simpl; unfold write, close, closed, close_nolock; intros.
  - destruct (buffer s); [|simplify_eq; auto].
    destruct (sys_write d (sock s)) as [[?|?] ?]; [|case_bool_decide]; simplify_eq; auto.
  - case_bool_decide as Hb; [|done]. by rewrite Hb.
  - destruct (buffer s) eqn:Hb; [|simplify_eq; by rewrite Hb].
    destruct (sys_write d (sock s)) as [[?|?] ?]; [by simplify_eq|].
    simpl in *. rewrite Hb in *. case_bool_decide; by simplify_eq.
  - destruct (buffer s) eqn:Hb; [|done].
    destruct (sys_write d (sock s)) as [[?|?] ?]; [|by case_bool_decide].
    simplify_eq. by rewrite bool_decide_false.
  - destruct (buffer s) eqn:Hb; [|by simplify_eq].
    destruct (sys_write d (sock s)) as [[?|?] ?]; [by simplify_eq|].
    simpl in *. rewrite Hb in *. case_bool_decide; by simplify_eq.
  - destruct (buffer s) eqn:Hb; [done|]. by rewrite Hb.
  - by destruct (buffer s).
Qed.

(** ** Well-formedness and the bytes waiting in the buffer *)
Record adap_wf (a : t os) (buf : bytes) : Prop := {
  wf_buffer : buffer a = Some buf;
  wf_length : Z.of_nat (length buf) = buf_size a;
  wf_limit : HEADER_SIZE <= buf_size a < two32;
  wf_begin : 0 <= frame_begin a <= cur_size a;
  wf_cur : cur_size a <= buf_size a
}.

Definition pending (a : t os) : bytes :=
  match buffer a with
  | None => []
  | Some buf => mem_read buf (Z.to_nat (frame_begin a)) (Z.to_nat (cur_size a - frame_begin a))
  end.

Lemma new_wf fd n wtimeout s :
  HEADER_SIZE <= n < two32 ->
  adap_wf (new fd n wtimeout s) (replicate (Z.to_nat n) Byte.x00).
Proof.
  intros Hn. unfold HEADER_SIZE in *.
  split; simpl; unfold HEADER_SIZE; rewrite ?length_replicate; (done || lia).
Qed.

Lemma pending_length a buf :
  adap_wf a buf -> Z.of_nat (length (pending a)) = cur_size a - frame_begin a.
Proof.
  intros [Hb Hl Hlim Hbeg Hcur]. unfold pending. rewrite Hb, mem_read_length; lia.
Qed.

Lemma wf_size a buf : adap_wf a buf -> u32 (cur_size a - frame_begin a) = cur_size a - frame_begin a.
Proof. intros []. apply u32_small. unfold is_u32. lia. Qed.

(** The bytes at [buffer + frame_begin] start with the pending ones. *)
Lemma pending_prefix a buf :
  adap_wf a buf ->
  exists t, drop (Z.to_nat (frame_begin a)) buf = pending a ++ t.
Proof.
  intros [Hb _ _ _ _]. unfold pending, mem_read. rewrite Hb.
  eexists. symmetry. apply take_drop.
Qed.

(** ** One operation *)

(** [read] appends what the socket delivered; it never writes past the buffer. *)
Lemma read_spec `{!SockLaws os} a buf r a' :
  adap_wf a buf -> read a = (r, a') ->
  (r = SOCK_ADAPTER_ECLOSED /\ adap_wf a' buf /\ pending a' = pending a) \/
  (r = SOCK_ADAPTER_SUCCESS /\ exists d s buf', d <> [] /\
     sys_read (buf_size a - cur_size a) (sock a) = (inl d, s) /\ sock a' = s /\
     adap_wf a' buf' /\ pending a' = pending a ++ d /\ frame_begin a' = frame_begin a /\
     buf_size a' = buf_size a /\ sent a' = sent a).
Proof.
  intros Hwf Hr. pose proof Hwf as [Hb Hl Hlim Hbeg Hcur]. unfold read in Hr. rewrite Hb in Hr.
  rewrite (u32_small (buf_size a - _)) in Hr by (unfold is_u32; lia).
  destruct (sys_read _ (sock a)) as [[d|e] s] eqn:Hsys.
  2: { left. simplify_eq. by split_and!. }
  case_bool_decide as Hd; [left; simplify_eq; by split_and!|].
  pose proof (sys_read_length _ _ _ _ Hsys) as Hlen. simplify_eq. right.
  split; [done|]. exists d, s, (mem_write buf (Z.to_nat (cur_size a)) d).
  assert (Z.of_nat (length d) <= buf_size a - cur_size a) by lia.
  rewrite u32_small by (unfold is_u32; lia).
  split_and!; try done.
  - split; simpl; try done; try lia. rewrite mem_write_length; lia.
  - unfold pending. simpl. rewrite Hb.
    replace (Z.to_nat (cur_size a)) with
      (Z.to_nat (frame_begin a) + Z.to_nat (cur_size a - frame_begin a))%nat by lia.
    rewrite <- mem_read_write_append by lia. f_equal. lia.
Qed.

(** [nomore] keeps the pending bytes and moves them to the start. *)
Lemma nomore_spec a buf :
  adap_wf a buf ->
  let a' := nomore a buf (cur_size a - frame_begin a) in
  exists buf', adap_wf a' buf' /\ pending a' = pending a /\ frame_begin a' = 0 /\
    buf_size a' = buf_size a /\ sock a' = sock a /\ sent a' = sent a.
Proof.
  intros Hwf. pose proof Hwf as [Hb Hl Hlim Hbeg Hcur]. unfold nomore. simpl.
  set (p := mem_read buf _ _).
  assert (length p = Z.to_nat (cur_size a - frame_begin a)) as Hp
    by (unfold p; rewrite mem_read_length; lia).
  assert (pending a = p) as -> by (unfold pending; by rewrite Hb).
  exists (if bool_decide (frame_begin a < cur_size a) then mem_write buf 0 p else buf).
  split_and!; try done; case_bool_decide.
  - split; simpl; try done; try lia. rewrite mem_write_length; lia.
  - split; simpl; try done; lia.
  - unfold pending. simpl. rewrite Z.sub_0_r, <- Hp. apply mem_read_write_same. lia.
  - unfold pending. simpl. rewrite Z.sub_0_r.
    replace (cur_size a - frame_begin a) with 0 in * by lia. by destruct p.
Qed.

(** What [next_frame] may answer on the pending bytes [p]: its return code, the
    frame, and the bytes then pending, with what that says of cutting [p]. *)
Inductive frame_step (limit : Z) (p : bytes) : Z -> bytes -> bytes -> Prop :=
  | step_nomore :
      split limit p = More [] p -> frame_step limit p SOCK_ADAPTER_ENOMORE [] p
  | step_header :
      split limit p = Bad [] BadHeader -> frame_step limit p SOCK_ADAPTER_EPROTO [] p
  | step_long :
      split limit p = Bad [] TooLong -> frame_step limit p SOCK_ADAPTER_ENOBUF [] p
  | step_frame n :
      0 <= n <= limit -> n <= Z.of_nat (length p) ->
      split limit p =
        match caps_parse (take (Z.to_nat n) p) with
        | None => Bad [] BadMessage
        | Some _ => add_frame (take (Z.to_nat n) p) (split limit (drop (Z.to_nat n) p))
        end ->
      frame_step limit p SOCK_ADAPTER_SUCCESS (take (Z.to_nat n) p) (drop (Z.to_nat n) p).

Context `{!CapsFraming caps}.

(** The header that the code reads in the buffer is the header of the pending bytes. *)
Lemma header_pending a buf :
  adap_wf a buf -> HEADER_SIZE <= Z.of_nat (length (pending a)) ->
  caps_binary_info (drop (Z.to_nat (frame_begin a)) buf) = caps_binary_info (pending a).
Proof.
  intros Hwf Hlen. destruct (pending_prefix a buf Hwf) as [t ->]. by apply binary_info_prefix.
Qed.

(** Handing out a frame moves [frame_begin] over it. *)
Lemma advance_spec a buf n :
  adap_wf a buf -> 0 <= n -> n <= Z.of_nat (length (pending a)) ->
  let a' := mk (socketfd a) (buffer a) (buf_size a) (cur_size a)
              (u32 (frame_begin a + n)) (sock a) (sent a) in
  adap_wf a' buf /\ pending a' = drop (Z.to_nat n) (pending a) /\
  mem_read buf (Z.to_nat (frame_begin a)) (Z.to_nat n) = take (Z.to_nat n) (pending a).
Proof.
  intros Hwf Hn Hlen a'. rewrite (pending_length a buf Hwf) in Hlen.
  pose proof Hwf as [Hb Hl Hlim Hbeg Hcur].
  assert (u32 (frame_begin a + n) = frame_begin a + n) as Hu
    by (apply u32_small; unfold is_u32; lia).
  split_and!.
  - subst a'. split; simpl; rewrite ?Hu; done || lia.
  - unfold pending, a'. simpl. rewrite Hb, Hu.
    rewrite (mem_read_split buf _ (Z.to_nat (cur_size a - frame_begin a)) (Z.to_nat n)) by lia.
    rewrite drop_app_exact by (rewrite mem_read_length; lia). f_equal; lia.
  - unfold pending. rewrite Hb. unfold mem_read. rewrite take_take. f_equal. lia.
Qed.

Lemma next_frame_spec a buf r f a' :
  adap_wf a buf -> next_frame a = (r, f, a') ->
  frame_step (buf_size a) (pending a) r f (pending a') /\
  (exists buf', adap_wf a' buf') /\ buf_size a' = buf_size a /\ sock a' = sock a /\
  sent a' = sent a /\ (r = SOCK_ADAPTER_ENOMORE -> frame_begin a' = 0).
Proof.
  intros Hwf Hr. pose proof (nomore_spec a buf Hwf) as (nb & Hnm & Hnp & Hn0 & Hnl & Hns & Hnt).
  pose proof (pending_length a buf Hwf) as Hlen. pose proof (wf_size a buf Hwf) as Hsz.
  unfold next_frame in Hr. rewrite (wf_buffer a buf Hwf), Hsz in Hr.
  pose proof (split_eq (buf_size a) (pending a)) as Hsplit. rewrite Hlen in Hsplit.
  case_bool_decide as Hh.
  { simplify_eq. rewrite Hnp. split_and!; eauto. by apply step_nomore. }
  rewrite (header_pending a buf) in Hr by (done || lia).
  destruct (caps_binary_info (pending a)) as [[v n]|] eqn:Hi.
  2: { simplify_eq. split_and!; eauto; [by apply step_header|done]. }
  case_bool_decide as Hlim. { simplify_eq. split_and!; eauto; [by apply step_long|done]. }
  case_bool_decide as Hn.
  { simplify_eq. rewrite Hnp. split_and!; eauto. by apply step_nomore. }
  apply binary_info_length in Hi. unfold is_u32 in Hi.
  edestruct (advance_spec a buf n Hwf) as (Hwf' & Hp' & Hf); [lia..|].
  rewrite (wf_buffer a buf Hwf), Hf in *. simplify_eq. simpl in *. rewrite Hp'.
  split_and!; eauto; [|done]. apply step_frame; done || lia.
Qed.

(** Reading neither writes to the connection nor closes it. *)
Definition only_read (a a' : t os) : Prop := sent a' = sent a /\ closed a' = closed a.

Lemma read_only a r a' : read a = (r, a') -> only_read a a'.
Proof.
  unfold read, only_read, closed. destruct (buffer a) eqn:Hb; [|intros [= _ <-]; by rewrite Hb].
  destruct (sys_read _ _) as [[d|] ?]; [case_bool_decide|]; intros [= _ <-]; simpl; rewrite ?Hb; by rewrite ?bool_decide_false.
Qed.

Lemma next_frame_only a r f a' : next_frame a = (r, f, a') -> only_read a a'.
Proof.
  unfold next_frame, nomore, only_read, closed. destruct (buffer a) eqn:Hb; [|intros [= _ _ <-]; by rewrite Hb].
  repeat case_match; intros [= _ _ <-]; simpl; rewrite ?Hb; by rewrite ?bool_decide_false.
Qed.

(** Closed, or with a well-formed buffer; on the descriptor [fd]. *)
Definition conn_ok (fd : Z) (a : t os) : Prop :=
  socketfd a = fd /\ (buffer a = None \/ exists buf, adap_wf a buf).

Lemma read_conn `{!SockLaws os} fd a r a' : conn_ok fd a -> read a = (r, a') -> conn_ok fd a'.
Proof.
  intros [Hfd Ha] Hr. split.
  - unfold read in Hr. destruct (buffer a); [|by simplify_eq].
    destruct (sys_read _ _) as [[d|] ?]; [case_bool_decide|]; by simplify_eq.
  - destruct Ha as [Hn|[buf Hw]]; [left; unfold read in Hr; rewrite Hn in Hr; by simplify_eq|].
    right. destruct (read_spec a buf r a' Hw Hr) as [(_ & ? & _)|(_ & ? & ? & ? & _ & _ & _ & ? & _)]; eauto.
Qed.

Lemma next_frame_conn fd a r f a' : conn_ok fd a -> next_frame a = (r, f, a') -> conn_ok fd a'.
Proof.
  intros [Hfd Ha] Hr. split.
  - unfold next_frame in Hr. destruct (buffer a); [|by simplify_eq].
    repeat case_match; by simplify_eq.
  - destruct Ha as [Hn|[buf Hw]]; [left; unfold next_frame in Hr; rewrite Hn in Hr; by simplify_eq|].
    right. by apply (next_frame_spec a buf r f a' Hw).
Qed.

Lemma write_conn fd d a : conn_ok fd a -> conn_ok fd (write d a).2.
Proof.
  unfold conn_ok, write, close_nolock. intros [Hfd [Hn|[buf Hw]]]; [rewrite Hn; auto|].
  rewrite (wf_buffer _ _ Hw). destruct (sys_write d (sock a)) as [[?|?] s]; simpl.
  - split; [done|]. right. exists buf. destruct Hw. by split; simpl.
  - case_bool_decide; simpl; rewrite (wf_buffer _ _ Hw); simpl; auto.
Qed.

Lemma close_conn fd a : conn_ok fd a -> conn_ok fd (close a).
Proof.
  unfold conn_ok, close, close_nolock. intros [Hfd _]. destruct (buffer a) eqn:Hb; simpl; auto.
Qed.

(** [close] is final, and keeps the adapter's identity on the socket. *)
Lemma close_spec a :
  closed (close a) = true /\ socketfd (close a) = socketfd a /\ sent (close a) = sent a.
Proof. unfold closed, close, close_nolock. destruct (buffer a) eqn:Hb; simpl; rewrite ?Hb; done. Qed.
End Ops.
End SocketAdapter.
