(* ===== verification/Reader.v ===== *)
(** * Reading messages off a connection ([SocketPoll::do_read], [src/sock-poll.cc])

    One readable socket makes [do_read] read once and hand every whole message in
    the adapter's buffer to the dispatcher's [put]. The dispatcher is behind the
    interface [FrameSink]; [Disp.v] gives its instance. The theorems show that this
    refines [Framing.split]: whatever pieces the stream arrives in, the dispatcher
    gets exactly the messages of the stream, in order. *)
From S2P Require Import Prelude Defs Caps Adap Framing SockAdap.

(** ** What the poll needs of the dispatcher *)
Class FrameSink (D : Type) := {
  sink_put : aid -> bytes -> D -> bool * D     (** [Dispatcher::put(data, size, sender)] *)
}.

(** [put] accepts exactly the byte strings that parse as a message. *)
Class FrameSinkLaws (D caps : Type) `{!CapsOps caps, !FrameSink D} := {
  sink_put_parses id f d c : caps_parse f = Some c -> (sink_put id f d).1 = true;
  sink_put_fails id f d : caps_parse f = None -> sink_put id f d = (false, d)
}.

Module Reader.
Import SocketAdapter.

Section Ops.
Context {caps : Type} `{!CapsOps caps} {os : Type} `{!SockOS os}.
Context {D : Type} `{!FrameSink D}.

(** [while (true) { r = adap->next_frame(frame); ... }] *)
Fixpoint frames_loop (fuel : nat) (id : aid) (a : t os) (d : D) : option (bool * t os * D) :=
  match fuel with
  | O => None
  | S fuel =>
      let '(r, frame, a') := next_frame a in
      if bool_decide (r = SOCK_ADAPTER_SUCCESS) then
        let '(ok, d') := sink_put id frame d in
        if ok then frames_loop fuel id a' d' else Some (false, a', d')
      else if bool_decide (r = SOCK_ADAPTER_ENOMORE) then Some (true, a', d)
      else Some (false, a', d)
  end.

Definition do_read (fuel : nat) (id : aid) (a : t os) (d : D) : option (bool * t os * D) :=
  let '(r, a') := read a in
  if negb (bool_decide (r = SOCK_ADAPTER_SUCCESS)) then Some (false, a', d)
  else frames_loop fuel id a' d.

(** The dispatcher after it was given the messages [fs]. *)
Definition deliver (id : aid) (fs : list bytes) (d : D) : D :=
  foldl (fun d f => (sink_put id f d).2) d fs.

(** The fuel that the loop of one call needs. *)
Definition read_fuel (a : t os) : nat := S (Z.to_nat (buf_size a)).

(** What is left after a call that returns true. *)
Definition drained (a a' : t os) (rest : bytes) : Prop :=
  (exists buf', adap_wf a' buf') /\ pending a' = rest /\ frame_begin a' = 0 /\
  buf_size a' = buf_size a /\ cur_size a' < buf_size a' /\ sent a' = sent a.

Context `{!CapsFraming caps, !SockLaws os, !FrameSinkLaws D caps}.

Lemma deliver_cons id f fs d : deliver id (f :: fs) d = deliver id fs (sink_put id f d).2.
Proof. done. Qed.

Lemma deliver_app id fs gs d : deliver id (fs ++ gs) d = deliver id gs (deliver id fs d).
Proof. apply foldl_app. Qed.

Lemma frames_loop_spec fuel id : forall a buf d,
  adap_wf a buf -> (length (pending a) < fuel)%nat ->
  match split (buf_size a) (pending a) with
  | More fs rest => exists a', frames_loop fuel id a d = Some (true, a', deliver id fs d) /\
      drained a a' rest /\ sock a' = sock a
  | Bad fs e => exists a', frames_loop fuel id a d = Some (false, a', deliver id fs d)
  end.
Proof.
  induction fuel as [|fuel IH]; intros a buf d Hwf Hfuel; [lia|]. simpl.
  destruct (next_frame a) as [[r f] a'] eqn:Hn.
  pose proof (next_frame_spec a buf r f a' Hwf Hn) as (Hstep & [buf' Hwf'] & Hl & Hk & Hs & H0).
  inversion Hstep as [Hsp Hr Hf Hp|Hsp Hr Hf Hp|Hsp Hr Hf Hp|n Hlim Hlen Hsp Hr Hf Hp];
    closed_ifs; rewrite Hsp; eauto.
  - rewrite <- Hr in H0. specialize (H0 eq_refl). exists a'. split_and!; try done.
    split_and!; eauto.
    pose proof (pending_length a' buf' Hwf') as Hpl. rewrite <- Hp, H0 in Hpl.
    assert (HEADER_SIZE <= buf_size a) as Hb by (destruct Hwf; lia).
    pose proof (split_rest_length _ _ _ _ Hb Hsp). lia.
  - destruct (caps_parse (take (Z.to_nat n) (pending a))) as [c|] eqn:Hparse.
    2: { rewrite (sink_put_fails id _ d Hparse). eauto. }
    pose proof (sink_put_parses id _ d c Hparse) as Hput.
    pose proof (parse_take_pos _ _ _ Hparse).
    destruct (sink_put id (take (Z.to_nat n) (pending a)) d) as [ok d'] eqn:Hpd.
    simpl in Hput. subst ok. rewrite Hp.
    specialize (IH a' buf' d' Hwf'). rewrite <- Hp, length_drop in IH. specialize (IH ltac:(lia)).
    rewrite Hl, Hp in *. destruct (split (buf_size a) (pending a')) as [fs rest|fs e]; simpl add_frame;
      cbn iota; rewrite deliver_cons, Hpd; simpl.
    + destruct IH as (a2 & -> & (? & ? & ? & ? & ? & ?) & ?). exists a2.
      unfold drained. split_and!; congruence || done || eauto.
    + destruct IH as [a2 ->]. by exists a2.
Qed.

(** A closed or failing socket ends the adapter; nothing is delivered. *)
Lemma do_read_closed fuel id a buf d r s :
  adap_wf a buf -> sys_read (buf_size a - cur_size a) (sock a) = (r, s) ->
  (r = inl [] \/ exists e, r = inr e) ->
  exists a', do_read fuel id a d = Some (false, a', d).
Proof.
  intros Hwf Hs Hr. unfold do_read. destruct (read a) as [r' a'] eqn:Hread.
  destruct (read_spec a buf r' a' Hwf Hread) as [(-> & _)|(-> & x & s' & _ & Hx & Hs' & _)].
  - by exists a'.
  - rewrite Hs in Hs'. destruct Hr as [->|[e ->]]; by simplify_eq.
Qed.

Lemma pending_fuel a buf : adap_wf a buf -> (length (pending a) < read_fuel a)%nat.
Proof.
  intros Hwf. pose proof (pending_length a buf Hwf). unfold read_fuel. destruct Hwf. lia.
Qed.

(** One read, as a step of the framing specification. *)
Lemma do_read_split id a buf d x s :
  adap_wf a buf -> sys_read (buf_size a - cur_size a) (sock a) = (inl x, s) -> x <> [] ->
  exists a', match split (buf_size a) (pending a ++ x) with
    | More fs rest =>
        do_read (read_fuel a) id a d = Some (true, a', deliver id fs d) /\
        drained a a' rest /\ sock a' = s
    | Bad fs e => do_read (read_fuel a) id a d = Some (false, a', deliver id fs d)
    end.
Proof.
  intros Hwf Hsys Hx. unfold do_read. destruct (read a) as [r a1] eqn:Hread.
  destruct (read_spec a buf r a1 Hwf Hread) as [(Hr & _)|(-> & x' & s' & buf' & Hx' & Hsys' & Hs &
    Hwf1 & Hp1 & _ & Hl & Ht)].
  { unfold read in Hread. rewrite (wf_buffer a buf Hwf) in Hread.
    rewrite u32_small, Hsys, bool_decide_false in Hread by (done || destruct Hwf; unfold is_u32; lia).
    by simplify_eq. }
  rewrite Hsys in Hsys'. simplify_eq. cbn [negb bool_decide].
  pose proof (pending_fuel a1 buf' Hwf1) as Hfuel. unfold read_fuel in *. rewrite Hl in Hfuel.
  pose proof (frames_loop_spec _ id a1 buf' d Hwf1 Hfuel) as Hloop. rewrite Hl, Hp1 in Hloop.
  change (bool_decide (SOCK_ADAPTER_SUCCESS = SOCK_ADAPTER_SUCCESS)) with true. cbn [negb].
  destruct (split (buf_size a) (pending a ++ x')) as [fs rest|fs e];
    destruct Hloop as [a2 Hloop]; exists a2; [|done].
  destruct Hloop as (-> & (Hw & Hp & Hf & Hb & Hc & Hsent) & Hk).
  unfold drained. split_and!; congruence || done || eauto.
Qed.

(** Whatever the connection's state, a call ends, on the same descriptor and in a
    good state again, and all it does to the dispatcher is to put messages. *)
Lemma only_read_trans (a b c : t os) : only_read a b -> only_read b c -> only_read a c.
Proof. intros [? ?] [? ?]. split; congruence. Qed.

Lemma frames_loop_conn fd fuel id : forall a d ok a' d',
  conn_ok fd a -> frames_loop fuel id a d = Some (ok, a', d') ->
  (conn_ok fd a' /\ only_read a a') /\ exists fs, d' = deliver id fs d.
Proof.
  induction fuel as [|fuel IH]; intros a d ok a' d' Ha Hl; [done|]. simpl in Hl.
  destruct (next_frame a) as [[r f] a1] eqn:Hn. pose proof (next_frame_conn _ _ _ _ _ Ha Hn) as Ha1.
  pose proof (next_frame_only _ _ _ _ Hn) as Ho1.
  destruct (bool_decide (r = SOCK_ADAPTER_SUCCESS)).
  - destruct (sink_put id f d) as [put d1] eqn:Hp.
    assert (forall fs, deliver id fs d1 = deliver id (f :: fs) d) as Hd.
    { intros fs. rewrite deliver_cons. by rewrite Hp. }
    destruct put; simplify_eq; [|split; [done|exists [f]; by rewrite <- Hd]].
    destruct (IH _ _ _ _ _ Ha1 Hl) as [[? ?] [fs ->]].
    split; [split; [done|by eapply only_read_trans]|]. by exists (f :: fs).
  - destruct (bool_decide _); simplify_eq; (split; [done|by exists []]).
Qed.

Lemma do_read_conn fd id a d :
  conn_ok fd a ->
  exists ok a' d', do_read (read_fuel a) id a d = Some (ok, a', d') /\
    (conn_ok fd a' /\ only_read a a') /\ exists fs, d' = deliver id fs d.
Proof.
  intros Ha. assert (exists ok a' d', do_read (read_fuel a) id a d = Some (ok, a', d')) as (ok & a' & d' & Hd).
  { destruct Ha as [_ [Hn|[buf Hw]]].
    { unfold do_read, read. rewrite Hn. simpl. by exists false, a, d. }
    destruct (sys_read (buf_size a - cur_size a) (sock a)) as [[x|e] s] eqn:Hs.
    2: { edestruct (do_read_closed (read_fuel a) id a buf d) as [a1 He]; eauto. }
    destruct (decide (x = [])) as [->|Hx].
    { edestruct (do_read_closed (read_fuel a) id a buf d) as [a1 He]; eauto. }
    destruct (do_read_split id a buf d x s Hw Hs Hx) as [a1 Hsp].
    destruct (split _ _); [destruct Hsp as [? _]|]; eauto. }
  exists ok, a', d'. split; [done|]. unfold do_read in Hd.
  destruct (read a) as [r a1] eqn:Hr. pose proof (read_conn _ _ _ _ Ha Hr) as Ha1.
  pose proof (read_only _ _ _ Hr) as Ho1. destruct (negb _).
  - simplify_eq. split; [done|]. by exists [].
  - destruct (frames_loop_conn _ _ _ _ _ _ _ _ Ha1 Hd) as [[? ?] ?]. split; [split; [done|by eapply only_read_trans]|done].
Qed.

(** One call of [do_read] refines the framing specification: with [x] the
    bytes the socket delivered, the dispatcher is handed exactly the whole
    messages of what was pending followed by [x], in order and once each; what is
    left stays pending at the start of the buffer, which is not full, so that the
    next read asks for at least one byte; and the connection is given up exactly
    when the specification finds the stream malformed. The fuel is always enough. *)
Theorem do_read_refines_split id a buf d x s :
  adap_wf a buf -> sys_read (buf_size a - cur_size a) (sock a) = (inl x, s) -> x <> [] ->
  exists a', match split (buf_size a) (pending a ++ x) with
    | More fs rest =>
        do_read (read_fuel a) id a d = Some (true, a', deliver id fs d) /\
        drained a a' rest /\ sock a' = s
    | Bad fs e => do_read (read_fuel a) id a d = Some (false, a', deliver id fs d)
    end.
Proof. apply do_read_split. Qed.

(** [n] successive calls, as [SocketPoll::run] makes them: after the first that returns
    false, the connection is given up. [None] would be a loop that does not end. *)
Fixpoint do_reads (n : nat) (id : aid) (a : t os) (d : D) : option (bool * t os * D) :=
  match n with
  | O => Some (true, a, d)
  | S n =>
      match do_read (read_fuel a) id a d with
      | Some (true, a', d') => do_reads n id a' d'
      | r => r
      end
  end.

(** The pieces that successive reads of a socket delivered. *)
Inductive received : os -> list bytes -> os -> Prop :=
  | received_nil s : received s [] s
  | received_cons n x xs s s' s'' :
      0 < n -> x <> [] -> sys_read n s = (inl x, s') -> received s' xs s'' -> received s (x :: xs) s''.

(** A read of the socket [s], of at least one byte, finds its end or fails. *)
Definition read_ends (s : os) : Prop :=
  exists n r s', 0 < n /\ sys_read n s = (r, s') /\ (r = inl [] \/ exists e, r = inr e).

(** What the framing specification says of [n] reads of the socket [s] that ended with
    [r], when [p] was pending: every piece was read and cut without an error; or the
    connection was given up, at a piece that makes the stream a bad one or at a read that
    ended, and the messages before that were delivered. *)
Definition reassembled (limit : Z) (n : nat) (id : aid) (p : bytes) (s : os) (d : D)
    (r : option (bool * t os * D)) : Prop :=
  exists chunks s' fs, received s chunks s' /\
  match r with
  | None => False
  | Some (true, a', d') =>
      length chunks = n /\ sock a' = s' /\ d' = deliver id fs d /\
      split limit (p ++ concat chunks) = More fs (pending a')
  | Some (false, _, d') =>
      d' = deliver id fs d /\
      ((length chunks <= n)%nat /\ (exists e, split limit (p ++ concat chunks) = Bad fs e) \/
       (length chunks < n)%nat /\ (exists rest, split limit (p ++ concat chunks) = More fs rest) /\ read_ends s')
  end.

(** A first piece that is cut without an error. *)
Lemma reassembled_cons limit n id p s x s1 fs rest d m r :
  0 < m -> x <> [] -> sys_read m s = (inl x, s1) -> split limit (p ++ x) = More fs rest ->
  reassembled limit n id rest s1 (deliver id fs d) r -> reassembled limit (S n) id p s d r.
Proof.
  intros Hm Hx Hr Hs (chunks & s' & gs & Hrec & Hres).
  assert (forall f, split limit (rest ++ concat chunks) = f ->
    split limit (p ++ concat (x :: chunks)) = add_frames fs f) as Happ.
  { intros f <-. simpl. by rewrite app_assoc, (split_app _ _ _ _ _ Hs). }
  exists (x :: chunks), s', (fs ++ gs). split; [by eapply received_cons|].
  destruct r as [[[[] a'] d']|]; [| |done].
  - destruct Hres as (<- & ? & -> & Hsp). rewrite deliver_app, (Happ _ Hsp), add_frames_more. by simpl.
  - destruct Hres as (-> & Hres). rewrite deliver_app. split; [done|]. simpl length.
    destruct Hres as [[Hl [e Hsp]]|(Hl & [rest' Hsp] & He)]; rewrite (Happ _ Hsp); [left|right].
    + rewrite add_frames_bad. split; [lia|by exists e].
    + rewrite add_frames_more. split_and!; [lia|by exists rest'|done].
Qed.

(** C17. Reassembly: over any number of reads, the messages the dispatcher gets are those
    of the whole stream received, in order and once each, however the network cut it into
    pieces, and the bytes still pending are the stream's incomplete end. The reads always
    return, and the connection is given up only where the stream received so far breaks the
    protocol or where the socket has ended or failed, after every whole message before that
    was delivered: never because a message is still incomplete or because the buffer is
    full. *)
Theorem reads_reassemble n id : forall a buf d,
  adap_wf a buf -> frame_begin a = 0 -> split (buf_size a) (pending a) = More [] (pending a) ->
  reassembled (buf_size a) n id (pending a) (sock a) d (do_reads n id a d).
Proof.
  induction n as [|n IH]; intros a buf d Hwf Hz Hinc; simpl.
  { exists [], (sock a), []. simpl. rewrite app_nil_r. by split_and!; [apply received_nil|..]. }
  assert (0 < buf_size a - cur_size a) as Hroom.
  { pose proof (pending_length a buf Hwf). destruct Hwf. pose proof (split_rest_length (buf_size a) _ _ _ ltac:(lia) Hinc). lia. }
  destruct (sys_read (buf_size a - cur_size a) (sock a)) as [r s] eqn:Hsys.
  assert ((r = inl [] \/ exists e, r = inr e) \/ exists x, r = inl x /\ x <> []) as [He|(x & -> & Hx)].
  { destruct r as [[|c x]|e]; [by left; left| |left; right; by exists e]. right. by exists (c :: x). }
  { destruct (do_read_closed (read_fuel a) id a buf d r s Hwf Hsys He) as [a1 ->].
    exists [], (sock a), []. simpl. rewrite app_nil_r. split_and!; [apply received_nil|done|]. right.
    split_and!; [lia|by eexists|by exists (buf_size a - cur_size a), r, s]. }
  destruct (do_read_split id a buf d x s Hwf Hsys Hx) as [a1 Hsp].
  destruct (split (buf_size a) (pending a ++ x)) as [fs rest|fs e] eqn:Hs; rewrite ?Hsp.
  - destruct Hsp as (-> & ([buf1 Hwf1] & Hp1 & Hz1 & Hl1 & _ & _) & <-).
    eapply reassembled_cons; [done..|]. rewrite <- Hp1, <- Hl1. apply (IH a1 buf1); [done..|].
    rewrite Hl1, Hp1. by eapply split_incomplete.
  - exists [x], s, fs. simpl. rewrite app_nil_r. split; [by eapply received_cons, received_nil|].
    split; [done|]. left. split; [lia|by exists e].
Qed.
End Ops.
End Reader.
