(* ===== verification/DispState.v ===== *)
(** * The dispatcher's state ([src/disp.h])

    The data members of [Dispatcher], the [Adapter] objects it shares with the
    polls, and what decides whether a [weak_ptr] still locks. The state is a
    record; the operations on it are in [Disp.v]. *)
From S2P Require Import Prelude Defs Caps Adap.

(** [CmdPacket]: a message and its sender; no message asks to erase the sender. *)
Abbreviation CmdPacket caps := (option caps * aid)%type.

(** [PendingCall]: a call forwarded to [target] and not answered yet. The time
    points of [steady_clock] are nanoseconds. *)
Record PendingCall := mkPendingCall {
  svrid : Z;
  cliid : Z;
  pc_sender : aid;
  pc_target : aid;
  discard_tp : Z
}.

(** The readings of [steady_clock::now()], the first, the second and so on. *)
Class SteadyClock := { steady_clock : nat -> Z }.

Class SteadyClockLaws `{!SteadyClock} := {
  steady_clock_mono i j : (i <= j)%nat -> steady_clock i <= steady_clock j
}.

Record Disp (caps S : Type) := mkDisp {
  subscriptions : gmap string (list aid);  (** [weak_ptr]s, in subscription order *)
  persist_msgs : gmap string (option caps);
  named_adapters : gmap string aid;  (** [shared_ptr]s *)
  buf_size : Z;
  cmd_packets : list (CmdPacket caps);  (** the queue, filled by the poll threads *)
  pending_cmds : list (CmdPacket caps);  (** [handle_cmds]' local list: the batch taken from the queue *)
  pending_calls : list PendingCall;  (** sorted by [discard_tp] *)
  reqseq : Z;  (** [int32_t] *)
  adapter_infos : gmap aid AdapterInfo;
  monitors : gmap aid AdapterInfo;
  disp_flags : Z;  (** [flags] *)
  handle_cmd_tp : Z;
  clear_sub_prio : Z;  (** [uint32_t] *)
  working : bool;
  idseq : Z;  (** the static [AdapterInfo::idseq] *)
  adapters : gmap aid (Adapter S);  (** the [Adapter] objects *)
  held : gset aid;  (** those the poll threads hold a [shared_ptr] to *)
  ticks : nat  (** the number of clock readings taken *)
}.
Arguments mkDisp {caps S}.
Arguments subscriptions {caps S}.
Arguments persist_msgs {caps S}.
Arguments named_adapters {caps S}.
Arguments buf_size {caps S}.
Arguments cmd_packets {caps S}.
Arguments pending_cmds {caps S}.
Arguments pending_calls {caps S}.
Arguments reqseq {caps S}.
Arguments adapter_infos {caps S}.
Arguments monitors {caps S}.
Arguments disp_flags {caps S}.
Arguments handle_cmd_tp {caps S}.
Arguments clear_sub_prio {caps S}.
Arguments working {caps S}.
Arguments idseq {caps S}.
Arguments adapters {caps S}.
Arguments held {caps S}.
Arguments ticks {caps S}.

Section State.
Context {caps S : Type}.

Definition set_subscriptions (v : gmap string (list aid)) (s : Disp caps S) : Disp caps S :=
  mkDisp v (persist_msgs s) (named_adapters s) (buf_size s) (cmd_packets s) (pending_cmds s)
    (pending_calls s) (reqseq s) (adapter_infos s) (monitors s) (disp_flags s)
    (handle_cmd_tp s) (clear_sub_prio s) (working s) (idseq s) (adapters s) (held s)
    (ticks s).
Definition set_persist_msgs (v : gmap string (option caps)) (s : Disp caps S) : Disp caps S :=
  mkDisp (subscriptions s) v (named_adapters s) (buf_size s) (cmd_packets s)
    (pending_cmds s) (pending_calls s) (reqseq s) (adapter_infos s) (monitors s)
    (disp_flags s) (handle_cmd_tp s) (clear_sub_prio s) (working s) (idseq s) (adapters s)
    (held s) (ticks s).
Definition set_named_adapters (v : gmap string aid) (s : Disp caps S) : Disp caps S :=
  mkDisp (subscriptions s) (persist_msgs s) v (buf_size s) (cmd_packets s) (pending_cmds s)
    (pending_calls s) (reqseq s) (adapter_infos s) (monitors s) (disp_flags s)
    (handle_cmd_tp s) (clear_sub_prio s) (working s) (idseq s) (adapters s) (held s)
    (ticks s).
Definition set_cmd_packets (v : list (CmdPacket caps)) (s : Disp caps S) : Disp caps S :=
  mkDisp (subscriptions s) (persist_msgs s) (named_adapters s) (buf_size s) v
    (pending_cmds s) (pending_calls s) (reqseq s) (adapter_infos s) (monitors s)
    (disp_flags s) (handle_cmd_tp s) (clear_sub_prio s) (working s) (idseq s) (adapters s)
    (held s) (ticks s).
Definition set_pending_cmds (v : list (CmdPacket caps)) (s : Disp caps S) : Disp caps S :=
  mkDisp (subscriptions s) (persist_msgs s) (named_adapters s) (buf_size s) (cmd_packets s)
    v (pending_calls s) (reqseq s) (adapter_infos s) (monitors s) (disp_flags s)
    (handle_cmd_tp s) (clear_sub_prio s) (working s) (idseq s) (adapters s) (held s)
    (ticks s).
Definition set_pending_calls (v : list PendingCall) (s : Disp caps S) : Disp caps S :=
  mkDisp (subscriptions s) (persist_msgs s) (named_adapters s) (buf_size s) (cmd_packets s)
    (pending_cmds s) v (reqseq s) (adapter_infos s) (monitors s) (disp_flags s)
    (handle_cmd_tp s) (clear_sub_prio s) (working s) (idseq s) (adapters s) (held s)
    (ticks s).
Definition set_reqseq (v : Z) (s : Disp caps S) : Disp caps S :=
  mkDisp (subscriptions s) (persist_msgs s) (named_adapters s) (buf_size s) (cmd_packets s)
    (pending_cmds s) (pending_calls s) v (adapter_infos s) (monitors s) (disp_flags s)
    (handle_cmd_tp s) (clear_sub_prio s) (working s) (idseq s) (adapters s) (held s)
    (ticks s).
Definition set_adapter_infos (v : gmap aid AdapterInfo) (s : Disp caps S) : Disp caps S :=
  mkDisp (subscriptions s) (persist_msgs s) (named_adapters s) (buf_size s) (cmd_packets s)
    (pending_cmds s) (pending_calls s) (reqseq s) v (monitors s) (disp_flags s)
    (handle_cmd_tp s) (clear_sub_prio s) (working s) (idseq s) (adapters s) (held s)
    (ticks s).
Definition set_monitors (v : gmap aid AdapterInfo) (s : Disp caps S) : Disp caps S :=
  mkDisp (subscriptions s) (persist_msgs s) (named_adapters s) (buf_size s) (cmd_packets s)
    (pending_cmds s) (pending_calls s) (reqseq s) (adapter_infos s) v (disp_flags s)
    (handle_cmd_tp s) (clear_sub_prio s) (working s) (idseq s) (adapters s) (held s)
    (ticks s).
Definition set_handle_cmd_tp (v : Z) (s : Disp caps S) : Disp caps S :=
  mkDisp (subscriptions s) (persist_msgs s) (named_adapters s) (buf_size s) (cmd_packets s)
    (pending_cmds s) (pending_calls s) (reqseq s) (adapter_infos s) (monitors s)
    (disp_flags s) v (clear_sub_prio s) (working s) (idseq s) (adapters s) (held s)
    (ticks s).
Definition set_clear_sub_prio (v : Z) (s : Disp caps S) : Disp caps S :=
  mkDisp (subscriptions s) (persist_msgs s) (named_adapters s) (buf_size s) (cmd_packets s)
    (pending_cmds s) (pending_calls s) (reqseq s) (adapter_infos s) (monitors s)
    (disp_flags s) (handle_cmd_tp s) v (working s) (idseq s) (adapters s) (held s) (ticks s).
Definition set_working (v : bool) (s : Disp caps S) : Disp caps S :=
  mkDisp (subscriptions s) (persist_msgs s) (named_adapters s) (buf_size s) (cmd_packets s)
    (pending_cmds s) (pending_calls s) (reqseq s) (adapter_infos s) (monitors s)
    (disp_flags s) (handle_cmd_tp s) (clear_sub_prio s) v (idseq s) (adapters s) (held s)
    (ticks s).
Definition set_idseq (v : Z) (s : Disp caps S) : Disp caps S :=
  mkDisp (subscriptions s) (persist_msgs s) (named_adapters s) (buf_size s) (cmd_packets s)
    (pending_cmds s) (pending_calls s) (reqseq s) (adapter_infos s) (monitors s)
    (disp_flags s) (handle_cmd_tp s) (clear_sub_prio s) (working s) v (adapters s) (held s)
    (ticks s).
Definition set_adapters (v : gmap aid (Adapter S)) (s : Disp caps S) : Disp caps S :=
  mkDisp (subscriptions s) (persist_msgs s) (named_adapters s) (buf_size s) (cmd_packets s)
    (pending_cmds s) (pending_calls s) (reqseq s) (adapter_infos s) (monitors s)
    (disp_flags s) (handle_cmd_tp s) (clear_sub_prio s) (working s) (idseq s) v (held s)
    (ticks s).
Definition set_held (v : gset aid) (s : Disp caps S) : Disp caps S :=
  mkDisp (subscriptions s) (persist_msgs s) (named_adapters s) (buf_size s) (cmd_packets s)
    (pending_cmds s) (pending_calls s) (reqseq s) (adapter_infos s) (monitors s)
    (disp_flags s) (handle_cmd_tp s) (clear_sub_prio s) (working s) (idseq s) (adapters s) v
    (ticks s).
Definition set_ticks (v : nat) (s : Disp caps S) : Disp caps S :=
  mkDisp (subscriptions s) (persist_msgs s) (named_adapters s) (buf_size s) (cmd_packets s)
    (pending_cmds s) (pending_calls s) (reqseq s) (adapter_infos s) (monitors s)
    (disp_flags s) (handle_cmd_tp s) (clear_sub_prio s) (working s) (idseq s) (adapters s)
    (held s) v.

(** ** Who keeps an adapter alive

    Every [shared_ptr] to an [Adapter]: the polls', the registered names', the
    pending calls' and the queued and current packets'. *)
Definition refs (s : Disp caps S) : list aid :=
  elements (held s) ++ (map_to_list (named_adapters s)).*2 ++
  (pc_sender <$> pending_calls s) ++ (pc_target <$> pending_calls s) ++
  (cmd_packets s).*2 ++ (pending_cmds s).*2.

(** [weak_ptr::lock()] does not return null. *)
Definition alive (s : Disp caps S) (a : aid) : bool := bool_decide (a ∈ refs s).

Lemma alive_spec s a :
  alive s a = true <->
  a ∈ held s \/ (exists n, named_adapters s !! n = Some a) \/
  (exists pc, pc ∈ pending_calls s /\ (pc_sender pc = a \/ pc_target pc = a)) \/
  (exists c, (c, a) ∈ cmd_packets s) \/ (exists c, (c, a) ∈ pending_cmds s).
Proof.
  unfold alive, refs. rewrite bool_decide_eq_true, !elem_of_app, elem_of_elements.
  assert (forall l : list (CmdPacket caps), a ∈ l.*2 <-> exists c, (c, a) ∈ l) as Hq.
  { intros l. rewrite list_elem_of_fmap. split.
    - intros ([c b] & -> & ?). by exists c.
    - intros [c ?]. by exists (c, a). }
  rewrite !Hq. split.
  - intros [?|[H|[H|[H|[?|?]]]]]; [by left|..|by auto 6|by auto 6].
    + apply list_elem_of_fmap in H as ([n b] & -> & H%elem_of_map_to_list). right; left. by exists n.
    + apply list_elem_of_fmap in H as (pc & -> & H). do 2 right; left. exists pc. auto.
    + apply list_elem_of_fmap in H as (pc & -> & H). do 2 right; left. exists pc. auto.
  - intros [?|[[n H]|[(pc & H & [<-|<-])|[?|?]]]]; [by auto|..|by auto 7|by auto 7].
    + right; left. apply list_elem_of_fmap. exists (n, a). by rewrite elem_of_map_to_list.
    + right; right; left. by apply list_elem_of_fmap_2.
    + do 3 right; left. by apply list_elem_of_fmap_2.
Qed.
End State.
