(* ===== verification/RefSock.v ===== *)
(** * A reference socket and clock

    Concrete instances of the operating-system interface, used to evaluate the
    model: a socket is the pieces it will deliver, what was written to it and
    whether a write times out; the clock advances by one millisecond a reading. *)
From S2P Require Import Prelude Defs Caps RefCaps Adap SockAdap DispState.

Record rsock := mkRsock {
  rs_incoming : list bytes;
  rs_outgoing : list bytes;
  rs_blocked : bool
}.

#[export] Instance ref_sock : SockOS rsock := {|
  sys_read n s :=
    match rs_incoming s with
    | [] => (inl [], s)
    | x :: r =>
        let k := Z.to_nat n in
        (inl (take k x),
         mkRsock (if bool_decide (drop k x = []) then r else drop k x :: r) (rs_outgoing s) (rs_blocked s))
    end;
  sys_write b s :=
    if rs_blocked s then (inr 11, s)
    else (inl (Z.of_nat (length b)), mkRsock (rs_incoming s) (rs_outgoing s ++ [b]) (rs_blocked s));
  sys_shutdown s := s;
  sys_set_sndtimeo _ _ s := s;
  EAGAIN := 11
|}.

#[export] Instance ref_sock_laws : SockLaws rsock.
Proof.
  split. intros n s d s'. simpl. destruct (rs_incoming s) as [|x r]; intros Heq; simplify_eq.
  - simpl. lia.
  - rewrite length_take. lia.
Qed.

#[export] Instance ref_clock : SteadyClock := {| steady_clock n := 1000000000 + Z.of_nat n * 1000000 |}.

#[export] Instance ref_clock_laws : SteadyClockLaws.
Proof. split. simpl. lia. Qed.

(** A connection over [s] that the poll has just accepted. *)
Definition connection (fd flags : Z) (s : rsock) : Adapter (SocketAdapter.t rsock) :=
  mkAdapter flags None 0 (SocketAdapter.new fd 16 800 s).

Definition quiet : rsock := mkRsock [] [] false.
