(* ===== verification/Disp.v ===== *)
(** * The dispatcher's operations ([src/disp.cc])

    One definition per member function, in the state monad on [Disp]. Logging is
    left out. A [shared_ptr] that the code follows without a check is followed
    with [deref]; a raw [Adapter *] with [deref_raw]; [AdapterInfo *] members with
    [deref_info]. *)
From S2P Require Import Prelude Defs Caps Adap Reader SerHelper.
From S2P Require Export DispState.

Module Dispatcher.
Section Ops.
Context {caps : Type} `{!CapsOps caps, !CapsFlags} {S : Type} `{!AdapterImpl S, !SteadyClock}.

Abbreviation MD := (M (Disp caps S)).

(** ** Following pointers *)

(** [*adapter] for a [shared_ptr] *)
Definition deref (a : aid) : MD (Adapter S) := fun s =>
  match adapters s !! a with
  | Some x => Done (x, s)
  | None => Undef UseAfterFree
  end.

(** [*adapter] for an [Adapter *] kept in a map *)
Definition deref_raw (a : aid) : MD (Adapter S) := fun s =>
  if alive s a then deref a s else Undef UseAfterFree.

Definition upd_adapter (a : aid) (f : Adapter S -> Adapter S) : MD unit :=
  modify (fun s => set_adapters (alter f a (adapters s)) s).

(** [*info] for a pointer into one of the two maps *)
Definition read_info (p : InfoPtr) : MD AdapterInfo := fun s =>
  match match p with
        | InAdapters k => adapter_infos s !! k
        | InMonitors k => monitors s !! k
        end with
  | Some i => Done (i, s)
  | None => Undef DanglingInfo
  end.

Definition write_info (p : InfoPtr) (i : AdapterInfo) : MD unit :=
  modify (fun s =>
    match p with
    | InAdapters k => set_adapter_infos (<[k := i]> (adapter_infos s)) s
    | InMonitors k => set_monitors (<[k := i]> (monitors s)) s
    end).

(** [*adapter->info], the pointer unchecked *)
Definition deref_info (x : Adapter S) : MD AdapterInfo :=
  match info x with
  | None => undefined NullDeref
  | Some p => read_info p
  end.

(** [adapter->write(buffer, c)], [adapter->close()] *)
Definition write_adapter (a : aid) (b : bytes) : MD Z :=
  x ← deref a;
  let '(r, i) := adap_write b (impl x) in
  upd_adapter a (set_impl i) ;; mret r.

Definition close_adapter (a : aid) : MD unit :=
  x ← deref a;
  upd_adapter a (set_impl (adap_close (impl x))).

Definition now : MD Z :=
  n ← gets ticks;
  modify (set_ticks (Datatypes.S n)) ;;
  mret (steady_clock n).

(** [RequestParser::parse_...(msg_caps, ...) != 0] is [None]. *)
Definition parse {A} (p : P caps unit A) (c : caps) : MD (option A) :=
  match (p (c, tt)).1 with
  | POk a => mret (Some a)
  | PFail | PFuel => mret None
  | PUndef u => undefined u
  end.

(** ** Construction, queueing and closing *)

(** The constructor. *)
Definition new (f bufsize : Z) : Disp caps S :=
  mkDisp ∅ ∅ ∅
    (if bool_decide (DEFAULT_MSG_BUF_SIZE < bufsize) then bufsize else DEFAULT_MSG_BUF_SIZE)
    [] [] [] 0 ∅ ∅ f 0 0 false 0 ∅ ∅ 0.

Definition push_packet (p : CmdPacket caps) (s : Disp caps S) : Disp caps S :=
  set_cmd_packets (cmd_packets s ++ [p]) s.

(** [put]: the message is parsed before it is queued. *)
Definition put (data : bytes) (sender : aid) (s : Disp caps S) : bool * Disp caps S :=
  match caps_parse data with
  | None => (false, s)
  | Some c => (true, push_packet (Some c, sender) s)
  end.

Definition erase_adapter (adapter : aid) : MD unit :=
  x ← deref adapter;
  match info x with
  | None => mret tt
  | Some _ => modify (push_packet (None, adapter))
  end.

(** ** Messages to the monitors *)

(** [write_monitor_list_remove(id, monitor)] *)
Definition write_monitor_list_remove_one (id : Z) (monitor : aid) : MD unit :=
  x ← deref_raw monitor;
  size ← gets buf_size;
  match ResponseSerializer.serialize_monitor_list_remove id size (serialize_flags x) with
  | None => mret tt
  | Some b => write_adapter monitor b ;; mret tt
  end.

(** [write_monitor_list_remove(id)] *)
Definition write_monitor_list_remove (id : Z) : MD unit :=
  ms ← gets monitors;
  for_each (map_to_list ms).*1 (write_monitor_list_remove_one id).

(** [write_monitor_list_add(newitem, monitor)] *)
Definition write_monitor_list_add_one (newitem monitor : aid) : MD unit :=
  n ← deref newitem;
  i ← deref_info n;
  x ← deref_raw monitor;
  size ← gets buf_size;
  match ResponseSerializer.serialize_monitor_list_add i size (serialize_flags x) with
  | None => mret tt
  | Some b => write_adapter monitor b ;; mret tt
  end.

(** [write_monitor_list_add(newitem)] *)
Definition write_monitor_list_add (newitem : aid) : MD unit :=
  ms ← gets monitors;
  for_each (map_to_list ms).*1 (write_monitor_list_add_one newitem).

Definition write_monitor_list (adapter : aid) : MD unit :=
  x ← deref adapter;
  infos ← gets adapter_infos;
  size ← gets buf_size;
  match ResponseSerializer.serialize_monitor_list_all infos size (serialize_flags x) with
  | None => mret tt
  | Some b => write_adapter adapter b ;; mret tt
  end.

Definition write_monitor_data (flags : Z) (adapter : aid) : MD unit :=
  when (has_flag flags FLORA_CLI_FLAG_MONITOR) (write_monitor_list adapter).

(** ** Erasing an adapter *)

(** [clear_sub_gabages]: the dead subscribers, and the names without any. *)
Definition clear_sub_gabages : MD unit :=
  modify (fun s =>
    set_subscriptions
      (omap (fun l => match filter (fun a => alive s a = true) l with
                      | [] => None
                      | l' => Some l'
                      end) (subscriptions s)) s).

Definition check_subscriptions : MD unit :=
  nowtp ← now;
  tp ← gets handle_cmd_tp;
  if bool_decide (CLEAR_SUBSCRIPTION_TIME_THRESHOLD <= Z.quot (nowtp - tp) 1000000000) then
    clear_sub_gabages ;; modify (set_clear_sub_prio 0) ;; modify (set_handle_cmd_tp nowtp)
  else
    modify (fun s => set_clear_sub_prio (u32 (clear_sub_prio s + 1)) s) ;;
    prio ← gets clear_sub_prio;
    when (bool_decide (CLEAR_SUBSCRIPTION_THRESHOLD <= prio))
      (clear_sub_gabages ;; modify (set_clear_sub_prio 0) ;; modify (set_handle_cmd_tp nowtp)).

Definition do_erase_adapter (sender : aid) : MD unit :=
  x ← deref sender;
  match info x with
  | None => mret tt
  | Some p =>
      i ← read_info p;
      when (bool_decide (ai_name i <> EmptyString))
        (modify (fun s => set_named_adapters (delete (ai_name i) (named_adapters s)) s)) ;;
      (if has_flag (ai_flags i) FLORA_CLI_FLAG_MONITOR then
         modify (fun s => set_monitors (delete sender (monitors s)) s)
       else
         write_monitor_list_remove (ai_id i) ;;
         modify (fun s => set_adapter_infos (delete sender (adapter_infos s)) s)) ;;
      check_subscriptions
  end.

(** ** Authentication *)

(** [new_AdapterInfo]: the constructor advances the static counter. *)
Definition new_info : MD AdapterInfo :=
  n ← gets idseq;
  let '(i, n') := new_AdapterInfo n in
  modify (set_idseq n') ;; mret i.

Definition add_adapter (name : string) (flags pid : Z) (adapter : aid) : MD bool :=
  named ← gets named_adapters;
  if bool_decide (name <> EmptyString /\ is_Some (named !! name)) then mret false
  else
    when (bool_decide (name <> EmptyString))
      (modify (set_named_adapters (<[name := adapter]> named))) ;;
    i ← new_info;
    infos ← gets adapter_infos;
    when (bool_decide (infos !! adapter = None))
      (modify (set_adapter_infos
         (<[adapter := mkAdapterInfo (ai_id i) pid name (ai_declared_methods i) flags]> infos)) ;;
       upd_adapter adapter (set_info (Some (InAdapters adapter)))) ;;
    mret true.

Definition add_monitor (name : string) (flags : Z) (adapter : aid) : MD unit :=
  i ← new_info;
  ms ← gets monitors;
  when (bool_decide (ms !! adapter = None))
    (modify (set_monitors
       (<[adapter := mkAdapterInfo (ai_id i) (ai_pid i) name (ai_declared_methods i) flags]> ms)) ;;
     upd_adapter adapter (set_info (Some (InMonitors adapter)))).

(** The result code of an authentication, and what it registers. *)
Definition auth_result (version : Z) (extra : string) (pid flags : Z) (sender : aid) : MD Z :=
  if bool_decide (version < 3) then mret FLORA_CLI_EAUTH
  else
    x ← deref sender;
    when (bool_decide (tag x = 0)) (upd_adapter sender (set_tag (TagHelper.create_pid (u32 pid)))) ;;
    if has_flag flags FLORA_CLI_FLAG_MONITOR then
      df ← gets disp_flags;
      if negb (has_flag df FLORA_DISP_FLAG_MONITOR) then mret FLORA_CLI_EAUTH
      else add_monitor extra flags sender ;; mret FLORA_CLI_SUCCESS
    else
      ok ← add_adapter extra flags pid sender;
      mret (if ok : bool then FLORA_CLI_SUCCESS else FLORA_CLI_EDUPID).

Definition handle_auth_req (msg_caps : caps) (sender : aid) : MD bool :=
  r ← parse RequestParser.parse_auth msg_caps;
  match r with
  | None => mret false
  | Some (version, extra, pid, flags) =>
      result ← auth_result version extra pid flags sender;
      x ← deref sender;
      size ← gets buf_size;
      match ResponseSerializer.serialize_auth result FLORA_VERSION size (serialize_flags x) with
      | None => mret false
      | Some b =>
          write_adapter sender b ;;
          if bool_decide (result = FLORA_CLI_SUCCESS) then
            write_monitor_data flags sender ;;
            when (negb (has_flag flags FLORA_CLI_FLAG_MONITOR)) (write_monitor_list_add sender) ;;
            mret true
          else mret false
      end
  end.

(** ** Subscriptions *)

Definition handle_subscribe_req (msg_caps : caps) (sender : aid) : MD bool :=
  x ← deref sender;
  if bool_decide (info x = None) then mret false
  else
    r ← parse RequestParser.parse_subscribe msg_caps;
    match r with
    | None => mret false
    | Some name =>
        if bool_decide (name = EmptyString) then mret false
        else
          subs ← gets subscriptions;
          let l := default [] (subs !! name) in
          modify (set_subscriptions (<[name := l]> subs)) ;;
          (** the sender is alive, so a subscriber that locks to it is the sender *)
          if bool_decide (sender ∈ l) then mret true
          else
            modify (set_subscriptions (<[name := l ++ [sender]]> subs)) ;;
            persist ← gets persist_msgs;
            match persist !! name with
            | None => mret true
            | Some data =>
                x ← deref sender;
                size ← gets buf_size;
                match ResponseSerializer.serialize_post (c_str name) FLORA_MSGTYPE_PERSIST data 0
                        EmptyString size (serialize_flags x) with
                | None => mret true
                | Some b =>
                    when (bool_decide (b <> [])) (write_adapter sender b ;; mret tt) ;; mret true
                end
            end
    end.

Definition handle_unsubscribe_req (msg_caps : caps) (sender : aid) : MD bool :=
  x ← deref sender;
  if bool_decide (info x = None) then mret false
  else
    r ← parse RequestParser.parse_unsubscribe msg_caps;
    match r with
    | None => mret false
    | Some name =>
        if bool_decide (name = EmptyString) then mret false
        else
          subs ← gets subscriptions;
          match subs !! name with
          | None => mret true
          | Some l =>
              s ← get;
              let l' := filter (fun a => alive s a = true /\ a <> sender) l in
              modify (set_subscriptions
                (if bool_decide (l' = []) then delete name subs else <[name := l']> subs)) ;;
              mret true
          end
    end.

(** ** Methods *)

Definition handle_declare_method (msg_caps : caps) (sender : aid) : MD bool :=
  x ← deref sender;
  match info x with
  | None => mret false
  | Some p =>
      r ← parse RequestParser.parse_declare_method msg_caps;
      match r with
      | None => mret false
      | Some name =>
          if bool_decide (name = EmptyString) then mret false
          else
            i ← read_info p;
            let '(fresh, i') := declare_method name i in
            write_info p i' ;; mret fresh
      end
  end.

Definition handle_remove_method (msg_caps : caps) (sender : aid) : MD bool :=
  x ← deref sender;
  match info x with
  | None => mret false
  | Some p =>
      r ← parse RequestParser.parse_remove_method msg_caps;
      match r with
      | None => mret false
      | Some name =>
          if bool_decide (name = EmptyString) then mret false
          else
            i ← read_info p;
            write_info p (remove_method name i) ;; mret true
      end
  end.

(** ** Posting *)

Definition write_post_msg_to_adapters (name : string) (type : Z) (args : option caps)
    (tag flags : Z) (adapters : list aid) (sender_name : string) : MD unit :=
  size ← gets buf_size;
  match ResponseSerializer.serialize_post (c_str name) type args tag sender_name size flags with
  | None => mret tt
  | Some b =>
      for_each adapters (fun a =>
        s ← get;
        when (alive s a) (write_adapter a b ;; mret tt))
  end.

(** The loop over the subscribers: the list that stays, and its two halves by
    byte order. *)
Fixpoint partition_adapters (l : list aid) : MD (list aid * list aid * list aid) :=
  match l with
  | [] => mret ([], [], [])
  | a :: r =>
      s ← get;
      if negb (alive s a) then partition_adapters r
      else
        x ← deref a;
        if adap_closed (impl x) then partition_adapters r
        else
          '(kept, nobo, bo) ← partition_adapters r;
          if bool_decide (serialize_flags x = CAPS_FLAG_NET_BYTEORDER)
          then mret (a :: kept, nobo, a :: bo)
          else mret (a :: kept, a :: nobo, bo)
  end.

Definition post_msg (name : string) (type : Z) (args : option caps) (sender : aid) : MD bool :=
  if negb (is_valid_msgtype type) then mret false
  else
    x ← deref sender;
    i ← deref_info x;
    let cli_name := c_str (ai_name i) in
    if bool_decide (name = EmptyString) then mret false
    else
      subs ← gets subscriptions;
      match subs !! name with
      | None => mret tt
      | Some l =>
          '(kept, nobo_adapters, bo_adapters) ← partition_adapters l;
          when (bool_decide (nobo_adapters <> []))
            (write_post_msg_to_adapters name type args (tag x) 0 nobo_adapters cli_name) ;;
          when (bool_decide (bo_adapters <> []))
            (write_post_msg_to_adapters name type args (tag x) CAPS_FLAG_NET_BYTEORDER
               bo_adapters cli_name) ;;
          modify (set_subscriptions
            (if bool_decide (kept = []) then delete name subs else <[name := kept]> subs))
      end ;;
      when (bool_decide (type = FLORA_MSGTYPE_PERSIST))
        (modify (fun s => set_persist_msgs (<[name := args]> (persist_msgs s)) s)) ;;
      mret true.

Definition handle_post_req (msg_caps : caps) (sender : aid) : MD bool :=
  x ← deref sender;
  if bool_decide (info x = None) then mret false
  else
    r ← parse RequestParser.parse_post msg_caps;
    match r with
    | None => mret false
    | Some (name, msgtype, args) => post_msg name msgtype args sender
    end.

(** ** Calls *)

(** [emplace] before the first call that is not due earlier. *)
Fixpoint insert_call (pc : PendingCall) (l : list PendingCall) : list PendingCall :=
  match l with
  | [] => [pc]
  | x :: r => if bool_decide (discard_tp pc <= discard_tp x) then pc :: l
              else x :: insert_call pc r
  end.

Definition add_pending_call (svrid cliid : Z) (sender target : aid) (timeout : Z) : MD unit :=
  let timeout := if bool_decide (timeout = 0) then DEFAULT_CALL_TIMEOUT else timeout in
  t ← now;
  modify (fun s => set_pending_calls
    (insert_call (mkPendingCall svrid cliid sender target (t + timeout * 1000000))
       (pending_calls s)) s).

(** [it == end() || !it->second->info->has_method(name)] is [None]. *)
Definition find_callee (named : gmap string aid) (target name : string) : MD (option aid) :=
  match named !! target with
  | None => mret None
  | Some t =>
      y ← deref t;
      i ← deref_info y;
      mret (if has_method name i then Some t else None)
  end.

(** [++reqseq], an [int32_t] *)
Definition next_svrid : MD Z :=
  n ← gets reqseq;
  if bool_decide (n + 1 < two31) then modify (set_reqseq (n + 1)) ;; mret (n + 1)
  else undefined SignedOverflow.

Definition handle_call_req (msg_caps : caps) (sender : aid) : MD bool :=
  x ← deref sender;
  if bool_decide (info x = None) then mret false
  else
    r ← parse RequestParser.parse_call msg_caps;
    match r with
    | None => mret false
    | Some (name, args, target, cliid, timeout) =>
        named ← gets named_adapters;
        size ← gets buf_size;
        callee ← find_callee named target name;
        match callee with
        | None =>
            match ResponseSerializer.serialize_reply cliid FLORA_CLI_ENEXISTS None 0 size
                    (serialize_flags x) with
            | Undef u => undefined u
            | Done None => mret false
            | Done (Some b) => write_adapter sender b ;; mret true
            end
        | Some t =>
            svrid ← next_svrid;
            add_pending_call svrid cliid sender t timeout ;;
            i ← deref_info x;
            y ← deref t;
            match ResponseSerializer.serialize_call (c_str name) args svrid (tag x)
                    (c_str (ai_name i)) size (serialize_flags y) with
            | None => mret false
            | Some b => write_adapter t b ;; mret true
            end
        end
    end.

(** [svrid == svrid && target == sender] *)
Definition answers (id : Z) (sender : aid) (pc : PendingCall) : bool :=
  bool_decide (svrid pc = id) && bool_decide (pc_target pc = sender).

(** The first pending call that the test accepts, and the calls without it. *)
Fixpoint find_call (p : PendingCall -> bool) (l : list PendingCall)
  : option (PendingCall * list PendingCall) :=
  match l with
  | [] => None
  | x :: r => if p x then Some (x, r)
              else match find_call p r with
                   | None => None
                   | Some (y, r') => Some (y, x :: r')
                   end
  end.

Definition handle_reply_req (msg_caps : caps) (sender : aid) : MD bool :=
  x ← deref sender;
  match info x with
  | None => mret false
  | Some p =>
      r ← parse RequestParser.parse_reply msg_caps;
      match r with
      | None => mret false
      | Some (id, ret_code, data) =>
          calls ← gets pending_calls;
          match find_call (answers id sender) calls with
          | None => mret true
          | Some (pc, rest) =>
              y ← deref (pc_sender pc);
              if adap_closed (impl y) then mret true
              else
                i ← read_info p;
                size ← gets buf_size;
                match ResponseSerializer.serialize_reply (cliid pc) FLORA_CLI_SUCCESS
                        (Some (mkResponse ret_code data (ai_name i))) (tag x) size
                        (serialize_flags y) with
                | Undef u => undefined u
                | Done None => mret false
                | Done (Some b) =>
                    write_adapter (pc_sender pc) b ;;
                    modify (set_pending_calls rest) ;;
                    mret true
                end
          end
      end
  end.

(** The size -1 of a failed serialisation is not checked before [write]. *)
Definition pending_call_timeout (pc : PendingCall) : MD unit :=
  x ← deref (pc_sender pc);
  size ← gets buf_size;
  match ResponseSerializer.serialize_reply (cliid pc) FLORA_CLI_ETIMEOUT None 0 size
          (serialize_flags x) with
  | Undef u => undefined u
  | Done None => undefined BadWriteSize
  | Done (Some b) => write_adapter (pc_sender pc) b ;; mret tt
  end.

(** [while (!pending_calls.empty())]: one unit of fuel per pending call. *)
Fixpoint discard_loop (fuel : nat) (tp : Z) : MD unit :=
  match fuel with
  | O => mret tt
  | Datatypes.S fuel =>
      calls ← gets pending_calls;
      match calls with
      | [] => mret tt
      | pc :: _ =>
          if bool_decide (tp < discard_tp pc) then mret tt
          else
            pending_call_timeout pc ;;
            modify (fun s => set_pending_calls (tail (pending_calls s)) s) ;;
            discard_loop fuel tp
      end
  end.

Definition discard_pending_calls : MD unit :=
  tp ← now;
  calls ← gets pending_calls;
  discard_loop (length calls) tp.

(** ** Keep-alive *)

Definition handle_ping_req (msg_caps : caps) (sender : aid) : MD bool :=
  x ← deref sender;
  if bool_decide (info x = None) then mret false
  else
    size ← gets buf_size;
    match ResponseSerializer.serialize_pong size (serialize_flags x) with
    | None => mret false
    | Some b => write_adapter sender b ;; mret true
    end.

(** ** One command *)

(** The handler table, in the order of the command numbers. *)
Definition msg_handlers : list (caps -> aid -> MD bool) :=
  [ handle_auth_req; handle_subscribe_req; handle_unsubscribe_req; handle_post_req;
    handle_reply_req; handle_declare_method; handle_remove_method; handle_call_req;
    handle_ping_req ].

(** [msg_handlers[cmd]] *)
Definition msg_handler (cmd : Z) : option (caps -> aid -> MD bool) :=
  if bool_decide (0 <= cmd) then msg_handlers !! Z.to_nat cmd else None.

Definition handle_cmd (msg_caps : option caps) (sender : aid) : MD unit :=
  match msg_caps with
  | None => do_erase_adapter sender
  | Some c =>
      x ← deref sender;
      monitor ← match info x with
                | None => mret false
                | Some p => i ← read_info p; mret (has_flag (ai_flags i) FLORA_CLI_FLAG_MONITOR)
                end;
      if monitor : bool then close_adapter sender
      else
        let '(o, c') := caps_read_i32 c in
        match o with
        | None => close_adapter sender
        | Some cmd =>
            if bool_decide (MSG_HANDLER_COUNT <= cmd) then close_adapter sender
            else
              match msg_handler cmd with
              | None => undefined HandlerIndex
              | Some handler =>
                  ok ← handler c' sender;
                  when (negb ok) (close_adapter sender) ;;
                  t ← now;
                  modify (set_handle_cmd_tp t)
              end
        end
  end.
End Ops.
End Dispatcher.

(** The poll's view of the dispatcher. *)
#[export] Instance disp_sink {caps} `{!CapsOps caps} {S} : FrameSink (Disp caps S) := {|
  sink_put id f s := Dispatcher.put f id s
|}.

#[export] Instance disp_sink_laws {caps} `{!CapsOps caps} {S} :
  FrameSinkLaws (Disp caps S) caps.
Proof. split; simpl; unfold Dispatcher.put; intros id f d; [intros c Hc|intros Hc]; by rewrite Hc. Qed.
