(* ===== verification/DispInv.v ===== *)
(** * The dispatcher's invariant

    [wf] is the well-formedness of the dispatcher's state, [inv] adds the packets
    still to be handled. Every handler preserves them and, under them, has no
    undefined behaviour. *)
From Stdlib Require Export Sorting.Sorted.
From S2P Require Import Prelude Defs Caps Adap Reader SerHelper Disp.
Import Dispatcher.

Section Inv.
Context {caps : Type} `{!CapsOps caps, !CapsFlags} {S : Type} `{!AdapterImpl S, !SteadyClock}.
Implicit Types (s : Disp caps S) (a : aid).

(** ** Well-formed states *)

(** The adapter's [info] is null or points to a live entry, its own. *)
Definition info_ok s a : Prop :=
  exists x, adapters s !! a = Some x /\
    match info x with
    | None => adapter_infos s !! a = None /\ monitors s !! a = None
    | Some (InAdapters k) => k = a /\ is_Some (adapter_infos s !! a)
    | Some (InMonitors k) => k = a /\ is_Some (monitors s !! a)
    end.

Definition earlier (p q : PendingCall) : Prop := discard_tp p <= discard_tp q.

Definition calls_ok s (l : list PendingCall) : Prop :=
  StronglySorted earlier l /\
  Forall (fun pc => is_Some (adapters s !! pc_sender pc) /\ is_Some (adapters s !! pc_target pc)) l.

Definition subs_ok (m : gmap string (list aid)) : Prop :=
  map_Forall (fun n l => n <> EmptyString /\ l <> [] /\ NoDup l) m.

Record wf s : Prop := {
  wf_buf : DEFAULT_MSG_BUF_SIZE <= buf_size s < two32;
  wf_infos a i : adapter_infos s !! a = Some i ->
    (info <$> adapters s !! a) = Some (Some (InAdapters a)) /\
    has_flag (ai_flags i) FLORA_CLI_FLAG_MONITOR = false;
  wf_monitors a i : monitors s !! a = Some i ->
    (info <$> adapters s !! a) = Some (Some (InMonitors a)) /\
    has_flag (ai_flags i) FLORA_CLI_FLAG_MONITOR = true;
  wf_named n a : named_adapters s !! n = Some a ->
    n <> EmptyString /\ exists i, adapter_infos s !! a = Some i /\ ai_name i = n;
  wf_calls : calls_ok s (pending_calls s);
  wf_subs : subs_ok (subscriptions s)
}.

(** [todo]: the packets of the batch that are not handled yet. An adapter that was
    erased sends nothing more, and until then it is what the queue and the maps
    say; every registration belongs to a connection that is open or whose erasure
    is queued. *)
Record inv s (todo : list (CmdPacket caps)) : Prop := {
  inv_wf : wf s;
  inv_batch p : p ∈ todo -> p ∈ pending_cmds s;
  inv_heap p : p ∈ pending_cmds s -> is_Some (adapters s !! p.2);
  inv_ok a : a ∈ held s \/ a ∈ (todo ++ cmd_packets s).*2 -> info_ok s a;
  inv_src a : a ∈ (todo ++ cmd_packets s).*2 ->
    a ∈ held s \/ (None, a) ∈ todo ++ cmd_packets s;
  inv_reg a : is_Some (adapter_infos s !! a) \/ is_Some (monitors s !! a) ->
    a ∈ held s \/ (None, a) ∈ todo ++ cmd_packets s;
  inv_erase pre a post : todo ++ cmd_packets s = pre ++ (None, a) :: post ->
    (a ∉ held s) /\ (a ∉ post.*2)
}.

(** ** Changes the invariant does not see *)

(** Only connections were written to or closed, or tags set. *)
Definition same_infos (m m' : gmap aid (Adapter S)) : Prop :=
  forall a, (info <$> m' !! a) = (info <$> m !! a).

Record keeps s s' : Prop := {
  keep_named : named_adapters s' = named_adapters s;
  keep_infos : adapter_infos s' = adapter_infos s;
  keep_monitors : monitors s' = monitors s;
  keep_held : held s' = held s;
  keep_queue : cmd_packets s' = cmd_packets s;
  keep_batch : pending_cmds s' = pending_cmds s;
  keep_buf : buf_size s' = buf_size s;
  keep_adapters : same_infos (adapters s) (adapters s')
}.

#[export] Instance same_infos_preorder : PreOrder same_infos.
Proof. split; intros ?; [done|]. intros y z H1 H2 a. by rewrite H2. Qed.

Lemma same_infos_alter m a f :
  (forall x, info (f x) = info x) -> same_infos m (alter f a m).
Proof.
  intros Hf b. destruct (decide (a = b)) as [->|Hn].
  - rewrite lookup_alter_eq. destruct (m !! b); simpl; [|done]. by rewrite Hf.
  - by rewrite lookup_alter_ne.
Qed.

Lemma same_infos_some m m' a : same_infos m m' -> is_Some (m !! a) -> is_Some (m' !! a).
Proof. intros Hs [x Hx]. specialize (Hs a). rewrite Hx in Hs. destruct (m' !! a); [done|discriminate]. Qed.

Lemma same_infos_lookup m m' a x :
  same_infos m m' -> m !! a = Some x -> exists y, m' !! a = Some y /\ info y = info x.
Proof.
  intros Hs Hx. specialize (Hs a). rewrite Hx in Hs. destruct (m' !! a) as [y|]; [|done].
  exists y. split; [done|]. by simplify_eq/=.
Qed.

Lemma info_ok_keeps s s' a : keeps s s' -> info_ok s a -> info_ok s' a.
Proof.
  intros K (x & Hx & Hi). destruct (same_infos_lookup _ _ _ _ (keep_adapters _ _ K) Hx) as (y & Hy & Hxy).
  exists y. split; [done|]. by rewrite Hxy, (keep_infos _ _ K), (keep_monitors _ _ K).
Qed.

Lemma calls_ok_same s s' l : same_infos (adapters s) (adapters s') -> calls_ok s l -> calls_ok s' l.
Proof.
  intros Hm [Hs Hl]. split; [done|]. eapply Forall_impl; [done|].
  intros pc []. split; by eapply same_infos_some.
Qed.

Lemma inv_keeps s s' todo :
  inv s todo -> keeps s s' -> calls_ok s' (pending_calls s') -> subs_ok (subscriptions s') ->
  inv s' todo.
Proof.
  intros [[Hb Hi Hm Hn Hc Hs] Hbt Hh Ho Hsrc Hr He] K Hc' Hs'.
  pose proof (info_ok_keeps s s') as Hio.
  destruct K as [Kn Ki Km Kh Kq Kb Kf Ka] eqn:HK.
  split; [split|..]; rewrite ?Kn, ?Ki, ?Km, ?Kh, ?Kq, ?Kb, ?Kf; auto.
  - intros a i Hai. rewrite Ka. eauto.
  - intros a i Hai. rewrite Ka. eauto.
  - intros p Hp. eapply same_infos_some; eauto.
Qed.

Lemma inv_todo_tail s c a todo : inv s ((Some c, a) :: todo) -> inv s todo.
Proof.
  intros [Hw Hbt Hh Ho Hsrc Hr He]. split; [done|..].
  - intros p Hp. apply Hbt. by right.
  - done.
  - intros b [?|Hb]; [by apply Ho; left|]. apply Ho. right. simpl. by right.
  - intros b Hb. edestruct (Hsrc b) as [|Hx]; [simpl; by right|by left|].
    simpl in Hx. apply elem_of_cons in Hx as [?|?]; [done|by right].
  - intros b Hb. edestruct (Hr b) as [|Hx]; [done|by left|].
    simpl in Hx. apply elem_of_cons in Hx as [?|?]; [done|by right].
  - intros pre b post Hp. apply (He ((Some c, a) :: pre)). simpl. by rewrite Hp.
Qed.

#[export] Instance keeps_preorder : PreOrder keeps.
Proof.
  split.
  - intros s. by split.
  - intros s1 s2 s3 [] []. split; first [congruence | etrans; eauto].
Qed.

Lemma keeps_alter s a f :
  (forall x, info (f x) = info x) -> keeps s (set_adapters (alter f a (adapters s)) s).
Proof. intros Hf. split; try done. by apply same_infos_alter. Qed.

(** Writing to a connection, closing it or tagging it. *)
Lemma inv_alter s a f todo :
  (forall x, info (f x) = info x) -> inv s todo -> inv (set_adapters (alter f a (adapters s)) s) todo.
Proof.
  intros Hf Hi. eapply inv_keeps; [done|by apply keeps_alter|..]; destruct Hi as [[]]; [|done].
  eapply calls_ok_same; [|done]. by apply same_infos_alter.
Qed.

(** A state that differs only in the members the invariant does not mention. *)
Lemma inv_other s s' todo :
  inv s todo -> keeps s s' -> pending_calls s' = pending_calls s ->
  subscriptions s' = subscriptions s -> inv s' todo.
Proof.
  intros Hi K Hc Hs. eapply inv_keeps; [done|done|rewrite Hc|rewrite Hs]; destruct Hi as [[]]; [|done].
  eapply calls_ok_same; [|done]. apply K.
Qed.

Lemma inv_alive s todo a : inv s todo -> alive s a = true -> is_Some (adapters s !! a).
Proof.
  intros [[Hb Hi Hm Hn [_ Hc] Hs] Hbt Hh Ho Hsrc Hr He].
  assert (info_ok s a -> is_Some (adapters s !! a)) as Hio by (intros (x & -> & _); done).
  rewrite alive_spec.
  intros [?|[[n Hna]|[(pc & Hpc & Ha)|[[c Hq]|[c Hq]]]]].
  - auto.
  - apply Hn in Hna as (_ & i & Hai & _). apply Hi in Hai as [Hai _].
    destruct (adapters s !! a); [done|discriminate].
  - rewrite Forall_forall in Hc. apply Hc in Hpc as []. by destruct Ha as [<-|<-].
  - apply Hio, Ho. right. apply list_elem_of_fmap. exists (c, a). split; [done|].
    apply elem_of_app. by right.
  - by apply (Hh (c, a)).
Qed.

(** The sender of the packet being handled. *)
Lemma inv_sender s c a todo : inv s ((c, a) :: todo) -> info_ok s a.
Proof. intros Hi. apply (inv_ok _ _ Hi). right. simpl. by left. Qed.

Lemma sender_alive s c a todo : inv s ((c, a) :: todo) -> alive s a = true.
Proof.
  intros Hi. apply alive_spec. do 4 right. exists c. apply (inv_batch _ _ Hi). by left.
Qed.

(** ** Rules for the primitive operations *)
Lemma wp_deref a x (Q : Adapter S -> Disp caps S -> Prop) s :
  adapters s !! a = Some x -> Q x s -> wp (deref a) Q s.
Proof. unfold wpx, deref. by intros ->. Qed.

Lemma wp_deref_raw a x (Q : Adapter S -> Disp caps S -> Prop) s :
  alive s a = true -> adapters s !! a = Some x -> Q x s -> wp (deref_raw a) Q s.
Proof. unfold wpx, deref_raw, deref. by intros -> ->. Qed.

Lemma wp_read_info p i (Q : AdapterInfo -> Disp caps S -> Prop) s :
  match p with InAdapters k => adapter_infos s !! k | InMonitors k => monitors s !! k end = Some i ->
  Q i s -> wp (read_info p) Q s.
Proof. unfold wpx, read_info. by intros ->. Qed.

Lemma wp_now (Q : Z -> Disp caps S -> Prop) s :
  Q (steady_clock (ticks s)) (set_ticks (Datatypes.S (ticks s)) s) -> wp now Q s.
Proof. done. Qed.

Lemma wp_upd_adapter a f (Q : unit -> Disp caps S -> Prop) s :
  Q tt (set_adapters (alter f a (adapters s)) s) -> wp (upd_adapter a f) Q s.
Proof. done. Qed.

Lemma wp_write_adapter a x b (Q : Z -> Disp caps S -> Prop) s :
  adapters s !! a = Some x ->
  Q (adap_write b (impl x)).1
    (set_adapters (alter (set_impl (adap_write b (impl x)).2) a (adapters s)) s) ->
  wp (write_adapter a b) Q s.
Proof.
  intros Hx HQ. unfold write_adapter. apply wpx_bind, (wp_deref a x); [done|].
  by destruct (adap_write b (impl x)).
Qed.

Lemma wp_close_adapter a x (Q : unit -> Disp caps S -> Prop) s :
  adapters s !! a = Some x ->
  Q tt (set_adapters (alter (set_impl (adap_close (impl x))) a (adapters s)) s) ->
  wp (close_adapter a) Q s.
Proof. intros Hx HQ. unfold close_adapter. by apply wpx_bind, (wp_deref a x). Qed.

Lemma wp_parse {A} (p : P caps unit A) c (Q : option A -> Disp caps S -> Prop) s :
  no_undef p -> (forall o, Q o s) -> wp (parse p c) Q s.
Proof.
  intros Hp HQ. unfold parse. specialize (Hp (c, tt)). unfold wpx.
  destruct (p (c, tt)) as [[a| |u|] ?]; simpl in *; try apply HQ. by destruct (Hp u).
Qed.
End Inv.
