(* ===== verification/DispFrame.v ===== *)
(** * What no handler changes

    The queue, the batch, the polls' references and the flag [working] belong to
    the threads, not to the handlers: every operation of the dispatcher leaves
    them as they are, on every path. *)
From S2P Require Import Prelude Defs Caps Adap Reader SerHelper Disp.
Import Dispatcher.

Section Frame.
Context {caps : Type} `{!CapsOps caps, !CapsFlags} {S : Type} `{!AdapterImpl S, !SteadyClock}.
Implicit Types (s : Disp caps S) (a : aid).

(** What the dispatcher does to a connection: it writes to it and closes it. *)
Inductive touched : S -> S -> Prop :=
  | touched_refl x : touched x x
  | touched_write b x y : touched x y -> touched x (adap_write b y).2
  | touched_close x y : touched x y -> touched x (adap_close y).

#[export] Instance touched_preorder : PreOrder touched.
Proof. split; [constructor|]. intros x y z Hxy Hyz. induction Hyz; eauto using touched. Qed.

(** No [Adapter] appears or disappears, and each is only written to and closed. *)
Definition same_impls (m m' : gmap aid (Adapter S)) : Prop :=
  forall a, option_Forall2 touched (impl <$> m !! a) (impl <$> m' !! a).

#[export] Instance same_impls_preorder : PreOrder same_impls.
Proof.
  split; [intros m a; by destruct (impl <$> m !! a); constructor|].
  intros m1 m2 m3 H12 H23 a. specialize (H12 a). specialize (H23 a).
  destruct H12; inversion H23; simplify_eq; constructor. by etrans.
Qed.

Lemma same_impls_alter m a (f : Adapter S -> Adapter S) :
  (forall x, m !! a = Some x -> touched (impl x) (impl (f x))) -> same_impls m (alter f a m).
Proof.
  intros Hf b. destruct (decide (a = b)) as [<-|Hn].
  - rewrite lookup_alter_eq. destruct (m !! a); constructor; auto.
  - by rewrite lookup_alter_ne.
Qed.

Definition same_shared s s' : Prop :=
  cmd_packets s' = cmd_packets s /\ pending_cmds s' = pending_cmds s /\ held s' = held s /\
  working s' = working s /\ buf_size s' = buf_size s /\ same_impls (adapters s) (adapters s').

#[export] Instance same_shared_preorder : PreOrder same_shared.
Proof.
  split; [by intros s; split_and!|]. intros s1 s2 s3 (?&?&?&?&?&?) (?&?&?&?&?&?).
  unfold same_shared. split_and!; [congruence..|by etrans].
Qed.

(** An update of the other members. *)
Lemma same_shared_other s s' :
  cmd_packets s' = cmd_packets s -> pending_cmds s' = pending_cmds s -> held s' = held s ->
  working s' = working s -> buf_size s' = buf_size s -> adapters s' = adapters s ->
  same_shared s s'.
Proof. intros. unfold same_shared. split_and!; try done. by replace (adapters s') with (adapters s). Qed.

Definition stable {A} (m : M (Disp caps S) A) : Prop :=
  forall s, wlp m (fun _ s' => same_shared s s') s.

Lemma stable_ret {A} (x : A) : stable (mret x).
Proof. done. Qed.

Lemma stable_bind {A B} (m : M (Disp caps S) A) (f : A -> M (Disp caps S) B) :
  stable m -> (forall x, stable (f x)) -> stable (m ≫= f).
Proof.
  intros Hm Hf s. apply wpx_bind. eapply wpx_mono; [apply Hm|]. intros x s' Hs.
  eapply wpx_mono; [apply Hf|]. intros y s'' Hs'. etrans; [exact Hs|exact Hs'].
Qed.

Lemma stable_gets {A} (f : Disp caps S -> A) : stable (gets f).
Proof. done. Qed.

Lemma stable_get : stable get.
Proof. done. Qed.

Lemma stable_undefined {A} u : stable (A:=A) (undefined u).
Proof. done. Qed.

Lemma stable_modify f : (forall s, same_shared s (f s)) -> stable (modify f).
Proof. intros Hf s. apply Hf. Qed.

Lemma stable_when b m : stable m -> stable (when b m).
Proof. by destruct b. Qed.

Lemma stable_for_each {A} (l : list A) f : (forall x, stable (f x)) -> stable (for_each l f).
Proof. intros Hf. induction l; [apply stable_ret|]. by apply stable_bind. Qed.

Lemma stable_deref a : stable (deref a).
Proof. intros s. unfold deref, wpx. by destruct (adapters s !! a). Qed.

Lemma stable_deref_raw a : stable (deref_raw a).
Proof. intros s. unfold deref_raw, deref, wpx. by destruct (alive s a), (adapters s !! a). Qed.

Lemma stable_read_info p : stable (read_info p).
Proof. intros s. unfold read_info, wpx. destruct p as [k|k]; [by destruct (adapter_infos s !! k)|by destruct (monitors s !! k)]. Qed.

Lemma stable_write_info p i : stable (write_info p i).
Proof. apply stable_modify. intros s. by destruct p; apply same_shared_other. Qed.

Lemma stable_upd_adapter a f : (forall x, impl (f x) = impl x) -> stable (upd_adapter a f).
Proof.
  intros Hf. apply stable_modify. intros s. unfold same_shared. split_and!; try done.
  apply same_impls_alter. intros x _. by rewrite Hf.
Qed.

(** Storing what was done to a connection. *)
Lemma same_shared_touch s a x y :
  adapters s !! a = Some x -> touched (impl x) y ->
  same_shared s (set_adapters (alter (set_impl y) a (adapters s)) s).
Proof.
  intros Hx Ht. unfold same_shared. split_and!; try done.
  apply same_impls_alter. intros z Hz. by simplify_eq.
Qed.
End Frame.

Create HintDb stable.
#[export] Hint Resolve stable_deref stable_deref_raw stable_read_info stable_write_info : stable.

(** Peels the program; [eauto] closes the calls of operations already done. *)
Ltac stable_step :=
  first
    [ apply stable_ret
    | apply stable_gets
    | apply stable_get
    | apply stable_undefined
    | solve [auto with stable nocore]
    | apply stable_bind; [|intros ?]
    | apply stable_when
    | apply stable_for_each; intros ?
    | apply stable_upd_adapter; done
    | apply stable_modify; intros ?; by apply same_shared_other
    | case_match ].
Ltac stable_tac := repeat stable_step.

Section Ops.
Context {caps : Type} `{!CapsOps caps, !CapsFlags} {S : Type} `{!AdapterImpl S, !SteadyClock}.
Abbreviation stab := (stable (caps:=caps) (S:=S)).

Lemma stable_deref_info x : stab (deref_info x).
Proof. unfold deref_info. stable_tac. Qed.

#[local] Hint Resolve stable_deref_info : stable.

Lemma stable_write_adapter a b : stab (write_adapter a b).
Proof.
  intros s. unfold write_adapter. wstep. unfold deref, wpx at 1.
  destruct (adapters s !! a) as [x|] eqn:Hx; [|done].
  destruct (adap_write b (impl x)) as [r i] eqn:Hw. unfold upd_adapter. wsteps.
  eapply same_shared_touch; [done|].
  replace i with (adap_write b (impl x)).2 by by rewrite Hw. apply touched_write, touched_refl.
Qed.

Lemma stable_close_adapter a : stab (close_adapter a).
Proof.
  intros s. unfold close_adapter. wstep. unfold deref, wpx at 1.
  destruct (adapters s !! a) as [x|] eqn:Hx; [|done]. unfold upd_adapter. wsteps.
  eapply same_shared_touch; [done|]. apply touched_close, touched_refl.
Qed.

Lemma stable_now : stab now.
Proof. unfold now. stable_tac. Qed.

Lemma stable_parse {A} (p : P caps unit A) c : stab (parse p c).
Proof. unfold parse. stable_tac. Qed.
#[local] Hint Resolve stable_write_adapter stable_close_adapter stable_now stable_parse : stable.

Lemma stable_list_remove id : stab (write_monitor_list_remove id).
Proof. unfold write_monitor_list_remove, write_monitor_list_remove_one. stable_tac. Qed.

Lemma stable_list_add a : stab (write_monitor_list_add a).
Proof. unfold write_monitor_list_add, write_monitor_list_add_one. stable_tac. Qed.

Lemma stable_monitor_data flags a : stab (write_monitor_data flags a).
Proof. unfold write_monitor_data, write_monitor_list. stable_tac. Qed.

Lemma stable_check_subscriptions : stab check_subscriptions.
Proof. unfold check_subscriptions, clear_sub_gabages. stable_tac. Qed.
#[local] Hint Resolve stable_list_remove stable_list_add stable_monitor_data
  stable_check_subscriptions : stable.

Lemma stable_do_erase a : stab (do_erase_adapter a).
Proof. unfold do_erase_adapter. stable_tac. Qed.

Lemma stable_auth c a : stab (handle_auth_req c a).
Proof.
  unfold handle_auth_req, auth_result, add_adapter, add_monitor, new_info. stable_tac.
Qed.

Lemma stable_subscribe c a : stab (handle_subscribe_req c a).
Proof. unfold handle_subscribe_req. stable_tac. Qed.

Lemma stable_unsubscribe c a : stab (handle_unsubscribe_req c a).
Proof. unfold handle_unsubscribe_req. stable_tac. Qed.

Lemma stable_declare c a : stab (handle_declare_method c a).
Proof. unfold handle_declare_method. stable_tac. Qed.

Lemma stable_remove c a : stab (handle_remove_method c a).
Proof. unfold handle_remove_method. stable_tac. Qed.

Lemma stable_partition l : stab (partition_adapters l).
Proof. induction l; simpl; stable_tac. Qed.

Lemma stable_write_post name type args tg flags l sender : stab
  (write_post_msg_to_adapters name type args tg flags l sender).
Proof. unfold write_post_msg_to_adapters. stable_tac. Qed.
#[local] Hint Resolve stable_partition stable_write_post : stable.

Lemma stable_post c a : stab (handle_post_req c a).
Proof. unfold handle_post_req, post_msg. stable_tac. Qed.

Lemma stable_call c a : stab (handle_call_req c a).
Proof. unfold handle_call_req, find_callee, add_pending_call. stable_tac. Qed.

Lemma stable_reply c a : stab (handle_reply_req c a).
Proof. unfold handle_reply_req. stable_tac. Qed.

Lemma stable_ping c a : stab (handle_ping_req c a).
Proof. unfold handle_ping_req. stable_tac. Qed.

Lemma stable_timeout pc : stab (pending_call_timeout pc).
Proof. unfold pending_call_timeout. stable_tac. Qed.
#[local] Hint Resolve stable_timeout : stable.

Lemma stable_discard : stab discard_pending_calls.
Proof.
  unfold discard_pending_calls. stable_tac.
  match goal with |- stable (discard_loop ?n ?t) => generalize n, t end.
  intros n. induction n; intros t; simpl; stable_tac.
Qed.

Lemma stable_msg_handler cmd h c a : msg_handler cmd = Some h -> stab (h c a).
Proof.
  unfold msg_handler. case_bool_decide; [|done]. unfold msg_handlers.
  destruct (Z.to_nat cmd) as [|[|[|[|[|[|[|[|[|n]]]]]]]]]; simpl; intros Hh; simplify_eq.
  - apply stable_auth.
  - apply stable_subscribe.
  - apply stable_unsubscribe.
  - apply stable_post.
  - apply stable_reply.
  - apply stable_declare.
  - apply stable_remove.
  - apply stable_call.
  - apply stable_ping.
Qed.

Lemma stable_handle_cmd o a : stab (handle_cmd o a).
Proof.
  unfold handle_cmd. destruct o; [|apply stable_do_erase]. stable_tac.
  by eapply stable_msg_handler.
Qed.
End Ops.
