(* ===== verification/DispOps.v ===== *)
(** * The dispatcher's handlers preserve its invariant *)
From S2P Require Import Prelude Defs Caps Adap Reader SerHelper Disp DispInv.
Import Dispatcher.

Section Ops.
Context {caps : Type} `{!CapsOps caps, !CapsFlags} {S : Type} `{!AdapterImpl S, !SteadyClock}.
Implicit Types (s : Disp caps S) (a : aid).

(** ** Writing *)

Lemma wp_write_inv s a b todo (Q : Z -> Disp caps S -> Prop) :
  inv s todo -> is_Some (adapters s !! a) -> (forall r s', inv s' todo -> keeps s s' ->
    pending_calls s' = pending_calls s -> Q r s') ->
  wp (write_adapter a b) Q s.
Proof.
  intros Hi [x Hx] HQ. eapply wp_write_adapter; [done|]. apply HQ; [|by apply keeps_alter|done].
  by apply inv_alter.
Qed.

Lemma write_post_inv name type args tag flags l sender_name s todo :
  inv s todo ->
  wp (write_post_msg_to_adapters name type args tag flags l sender_name)
    (fun _ s' => inv s' todo /\ keeps s s' /\ pending_calls s' = pending_calls s) s.
Proof.
  intros Hi. unfold write_post_msg_to_adapters. wsteps.
  assert (inv s todo /\ keeps s s /\ pending_calls s = pending_calls s) as Hrefl
    by (split; [done|split; reflexivity]).
  destruct (ResponseSerializer.serialize_post _ _ _ _ _ _ _) as [b|];
    [|by apply wpx_ret].
  apply (wpx_for_each_inv _ (fun s' => inv s' todo /\ keeps s s' /\
    pending_calls s' = pending_calls s)); [done|].
  intros a s1 _ (Hi1 & K1 & Hp1). do 3 wstep; [|done]. wstep.
  eapply wp_write_inv; [done|by eapply inv_alive|].
  intros r s2 Hi2 K2 Hp2. apply wpx_ret. split; [done|split; [by etrans|congruence]].
Qed.

(** ** The subscribers of a name *)

(** The subscriber still exists and its connection is open. *)
Definition open_subscriber s a : bool :=
  alive s a &&
  match adapters s !! a with Some x => negb (adap_closed (impl x)) | None => false end.

Definition net_order s a : bool :=
  match adapters s !! a with
  | Some x => bool_decide (serialize_flags x = CAPS_FLAG_NET_BYTEORDER)
  | None => false
  end.

Definition open_subscribers s (l : list aid) : list aid := filter (fun a => open_subscriber s a = true) l.

Lemma wp_partition s l (Q : list aid * list aid * list aid -> Disp caps S -> Prop) :
  (forall a, alive s a = true -> is_Some (adapters s !! a)) ->
  (let kept := open_subscribers s l in
   Q (kept, filter (fun a => net_order s a = false) kept,
      filter (fun a => net_order s a = true) kept) s) ->
  wp (partition_adapters l) Q s.
Proof.
  intros Hal. revert Q. induction l as [|a l IH]; intros Q HQ; simpl; [done|].
  wsteps. unfold open_subscribers in *. rewrite filter_cons in HQ.
  destruct (alive s a) eqn:Ha; simpl.
  2: { apply IH. by rewrite decide_False in HQ by (unfold open_subscriber; by rewrite Ha). }
  destruct (Hal a Ha) as [x Hx]. wsteps. eapply wp_deref; [done|].
  assert (open_subscriber s a = negb (adap_closed (impl x))) as Ho
    by (unfold open_subscriber; by rewrite Ha, Hx).
  rewrite Ho in HQ. destruct (adap_closed (impl x)).
  { apply IH. by rewrite decide_False in HQ by done. }
  rewrite decide_True in HQ by done. wsteps. apply IH. cbn zeta in *.
  rewrite !filter_cons in HQ.
  assert (net_order s a = bool_decide (serialize_flags x = CAPS_FLAG_NET_BYTEORDER)) as Hn
    by (unfold net_order; by rewrite Hx).
  rewrite Hn in HQ. case_bool_decide; wsteps;
    [rewrite decide_False, decide_True in HQ by done
    |rewrite decide_True, decide_False in HQ by done]; done.
Qed.

Lemma subs_ok_set m n l :
  subs_ok m -> n <> EmptyString -> NoDup l ->
  subs_ok (if bool_decide (l = []) then delete n m else <[n := l]> m).
Proof.
  intros Hm Hn Hl. case_bool_decide; [by apply map_Forall_delete|].
  by apply map_Forall_insert_2.
Qed.

Lemma subs_ok_filter m n l (P : aid -> Prop) `{!forall a, Decision (P a)} :
  subs_ok m -> m !! n = Some l ->
  subs_ok (if bool_decide (filter P l = []) then delete n m else <[n := filter P l]> m).
Proof.
  intros Hm Hl. destruct (Hm n l Hl) as (Hn & _ & Hd). apply subs_ok_set; [done..|].
  by apply NoDup_filter.
Qed.

(** Setting the subscriptions to well-formed ones. *)
Lemma inv_set_subs s m todo : inv s todo -> subs_ok m -> inv (set_subscriptions m s) todo.
Proof. intros Hi Hm. eapply inv_keeps; [done|by split|by apply Hi|done]. Qed.

Lemma inv_subs s todo : inv s todo -> subs_ok (subscriptions s).
Proof. intros Hi. apply Hi. Qed.

Section Handling.
Context (c0 : caps) (a : aid) (todo : list (CmdPacket caps)).

Lemma sender_deref s : inv s ((Some c0, a) :: todo) -> exists x, adapters s !! a = Some x.
Proof. intros (x & Hx & _)%inv_sender. by exists x. Qed.

(** A sender that has an [info] has its entry. *)
Lemma sender_info s x p (Q : AdapterInfo -> Disp caps S -> Prop) :
  inv s ((Some c0, a) :: todo) -> adapters s !! a = Some x -> info x = Some p ->
  (forall i, (p = InAdapters a /\ adapter_infos s !! a = Some i \/
              p = InMonitors a /\ monitors s !! a = Some i) -> Q i s) ->
  wp (read_info p) Q s.
Proof.
  intros (y & Hy & Hp)%inv_sender Hx Hpx HQ. simplify_eq. rewrite Hpx in Hp.
  destruct p; destruct Hp as [-> [i Hi]]; eapply wp_read_info; eauto.
Qed.

Lemma handle_ping_inv s c :
  inv s ((Some c0, a) :: todo) ->
  wp (handle_ping_req c a) (fun _ s' => inv s' ((Some c0, a) :: todo)) s.
Proof.
  intros Hi. destruct (sender_deref s Hi) as [x Hx]. unfold handle_ping_req.
  wsteps. eapply wp_deref; [done|]. case_bool_decide; wsteps; [done|].
  destruct (ResponseSerializer.serialize_pong _ _); wsteps; [|done].
  eapply wp_write_inv; [done|done|]. intros. by wsteps.
Qed.

Lemma handle_unsubscribe_inv s c :
  inv s ((Some c0, a) :: todo) ->
  wp (handle_unsubscribe_req c a) (fun _ s' => inv s' ((Some c0, a) :: todo)) s.
Proof.
  intros Hi. destruct (sender_deref s Hi) as [x Hx]. unfold handle_unsubscribe_req.
  wsteps. eapply wp_deref; [done|]. case_bool_decide; wsteps; [done|].
  apply wp_parse; [apply no_undef_rd|]. intros [name|]; wsteps; [|done].
  case_bool_decide; wsteps; [done|].
  destruct (subscriptions s !! name) as [l|] eqn:Hl; wsteps; [|done].
  apply inv_set_subs; [done|]. eapply subs_ok_filter; [by eapply inv_subs|done].
Qed.

Lemma handle_subscribe_inv s c :
  inv s ((Some c0, a) :: todo) ->
  wp (handle_subscribe_req c a) (fun _ s' => inv s' ((Some c0, a) :: todo)) s.
Proof.
  intros Hi. destruct (sender_deref s Hi) as [x Hx]. unfold handle_subscribe_req.
  wsteps. eapply wp_deref; [done|]. case_bool_decide; wsteps; [done|].
  apply wp_parse; [apply no_undef_rd|]. intros [name|]; wsteps; [|done].
  case_bool_decide as Hname; wsteps; [done|].
  pose proof (inv_subs _ _ Hi) as Hsubs.
  set (l := default [] (subscriptions s !! name)).
  assert (NoDup l) as Hnd.
  { subst l. destruct (subscriptions s !! name) as [l|] eqn:Hl; simpl; [|constructor].
    by apply Hsubs in Hl as (_ & _ & ?). }
  case_bool_decide as Hin; wsteps.
  { apply inv_set_subs; [done|]. apply map_Forall_insert_2; [|done].
    split_and!; [done| |done]. intros Hl. rewrite Hl in Hin. by apply not_elem_of_nil in Hin. }
  set (s1 := set_subscriptions _ _).
  assert (inv s1 ((Some c0, a) :: todo)) as Hi1.
  { apply (inv_set_subs s); [done|]. apply map_Forall_insert_2; [|done]. split_and!; [done| |].
    - by destruct l.
    - apply NoDup_app. split_and!; [done| |by apply NoDup_singleton].
      intros b Hb ->%list_elem_of_singleton. done. }
  destruct (persist_msgs _ !! name) as [data|]; wsteps; [|done].
  eapply wp_deref; [done|]. wsteps.
  destruct (ResponseSerializer.serialize_post _ _ _ _ _ _ _) as [b|]; wsteps; [|done|done].
  eapply (wp_write_inv s1); [done|by exists x|]. intros. by wsteps.
Qed.

(** Changing the declared methods of an entry. *)
Lemma inv_write_info s p i i' T :
  inv s T ->
  (match p with InAdapters k => adapter_infos s !! k | InMonitors k => monitors s !! k end) = Some i ->
  ai_name i' = ai_name i -> ai_flags i' = ai_flags i ->
  wp (write_info p i') (fun _ s' => inv s' T) s.
Proof.
  intros [[Hb Hi Hm Hn Hc Hs] Hbt Hh Ho Hsrc Hr He] Hp Hname Hflags.
  unfold write_info. wsteps. destruct p as [k|k].
  - split; [split|..]; simpl; auto.
    + intros b j [[-> <-]|[Hne Hj]]%lookup_insert_Some; [|auto].
      rewrite Hflags. auto.
    + intros n b Hnb. destruct (Hn n b Hnb) as (? & j & Hj & Hjn). split; [done|].
      destruct (decide (k = b)) as [->|]; [|exists j; by rewrite lookup_insert_ne].
      exists i'. rewrite lookup_insert_eq. split; [done|]. congruence.
    + intros b Hb'. destruct (Ho b Hb') as (y & Hy & Hyi). exists y. split; [done|]. simpl.
      destruct (info y) as [[k'|k']|]; [..|destruct Hyi as [Hyi ?]]; rewrite ?lookup_insert_is_Some'; [naive_solver..|].
      split; [|done]. rewrite lookup_insert_ne; [done|]. intros ->. by rewrite Hyi in Hp.
    + intros b. rewrite lookup_insert_is_Some'. intros [[<-|?]|?]; apply Hr; eauto.
  - split; [split|..]; simpl; auto.
    + intros b j [[-> <-]|[Hne Hj]]%lookup_insert_Some; [|auto].
      rewrite Hflags. auto.
    + intros b Hb'. destruct (Ho b Hb') as (y & Hy & Hyi). exists y. split; [done|]. simpl.
      destruct (info y) as [[k'|k']|]; [..|destruct Hyi as [? Hyi]]; rewrite ?lookup_insert_is_Some'; [naive_solver..|].
      split; [done|]. rewrite lookup_insert_ne; [done|]. intros ->. by rewrite Hyi in Hp.
    + intros b. rewrite lookup_insert_is_Some'. intros [?|[<-|?]]; apply Hr; eauto.
Qed.

Lemma handle_declare_inv s c :
  inv s ((Some c0, a) :: todo) ->
  wp (handle_declare_method c a) (fun _ s' => inv s' ((Some c0, a) :: todo)) s.
Proof.
  intros Hi. destruct (sender_deref s Hi) as [x Hx]. unfold handle_declare_method.
  wsteps. eapply wp_deref; [done|]. destruct (info x) as [p|] eqn:Hp; wsteps; [|done].
  apply wp_parse; [apply no_undef_rd|]. intros [name|]; wsteps; [|done].
  case_bool_decide; wsteps; [done|]. eapply sender_info; [done..|].
  intros i Hpi. simpl. wsteps. eapply wpx_mono.
  - eapply (inv_write_info s p i); [done| |done|done]. by destruct Hpi as [[-> ?]|[-> ?]].
  - intros. by wsteps.
Qed.

Lemma handle_remove_inv s c :
  inv s ((Some c0, a) :: todo) ->
  wp (handle_remove_method c a) (fun _ s' => inv s' ((Some c0, a) :: todo)) s.
Proof.
  intros Hi. destruct (sender_deref s Hi) as [x Hx]. unfold handle_remove_method.
  wsteps. eapply wp_deref; [done|]. destruct (info x) as [p|] eqn:Hp; wsteps; [|done].
  apply wp_parse; [apply no_undef_rd|]. intros [name|]; wsteps; [|done].
  case_bool_decide; wsteps; [done|]. eapply sender_info; [done..|].
  intros i Hpi. wsteps. eapply wpx_mono.
  - eapply (inv_write_info s p i); [done| |done|done]. by destruct Hpi as [[-> ?]|[-> ?]].
  - intros. by wsteps.
Qed.

(** ** Posting *)

Lemma sender_deref_info s x (Q : AdapterInfo -> Disp caps S -> Prop) :
  inv s ((Some c0, a) :: todo) -> adapters s !! a = Some x -> info x <> None ->
  (forall i, Q i s) -> wp (deref_info x) Q s.
Proof.
  intros Hi Hx Hp HQ. unfold deref_info. destruct (info x) as [p|] eqn:Hpx; [|done].
  eapply sender_info; [done..|]. auto.
Qed.

Lemma write_post_when s b name type args tag flags l sender_name (Q : unit -> Disp caps S -> Prop) T :
  inv s T ->
  (forall s', inv s' T -> keeps s s' -> Q tt s') ->
  wp (when b (write_post_msg_to_adapters name type args tag flags l sender_name)) Q s.
Proof.
  intros Hi HQ. destruct b; simpl.
  - eapply wpx_mono; [by apply write_post_inv|]. intros [] s' (? & ? & ?). auto.
  - apply HQ; done.
Qed.

Lemma handle_post_inv s c :
  inv s ((Some c0, a) :: todo) ->
  wp (handle_post_req c a) (fun _ s' => inv s' ((Some c0, a) :: todo)) s.
Proof.
  intros Hi. destruct (sender_deref s Hi) as [x Hx]. unfold handle_post_req.
  wsteps. eapply wp_deref; [done|]. case_bool_decide as Hinfo; wsteps; [done|].
  apply wp_parse; [unfold RequestParser.parse_post; auto 10 with flora|].
  intros [[[name msgtype] args]|]; wsteps; [|done].
  unfold post_msg. destruct (is_valid_msgtype msgtype); simpl; wsteps; [|done].
  eapply wp_deref; [done|]. wsteps. eapply sender_deref_info; [done..|]. intros i.
  case_bool_decide as Hname; wsteps; [done|].
  assert (forall s', inv s' ((Some c0, a) :: todo) -> wp
    (when (bool_decide (msgtype = FLORA_MSGTYPE_PERSIST))
       (modify (fun s : Disp caps S => set_persist_msgs (<[name:=args]> (persist_msgs s)) s)) ;;
     mret true) (fun _ s'' => inv s'' ((Some c0, a) :: todo)) s') as Hend.
  { intros s' Hi'. wsteps; [|done]. eapply inv_other; [done|by split|done..]. }
  destruct (subscriptions s !! name) as [l|] eqn:Hl; [|apply wpx_ret; by apply Hend].
  pose proof (inv_subs _ _ Hi) as Hsubs.
  apply wpx_bind, wp_partition; [by intros; eapply inv_alive|].
  apply wpx_bind. eapply write_post_when; [done|]. intros s1 Hi1 K1.
  apply wpx_bind. eapply write_post_when; [done|]. intros s2 Hi2 K2. wstep.
  apply Hend, inv_set_subs; [done|]. unfold open_subscribers. by eapply subs_ok_filter.
Qed.

(** ** Calls *)

Lemma insert_call_sorted pc l :
  StronglySorted earlier l -> StronglySorted earlier (insert_call pc l).
Proof.
  unfold earlier. induction 1 as [|x l Hl IH Hx]; simpl; [repeat constructor|].
  case_bool_decide as Hle; constructor; try done.
  - by constructor.
  - constructor; [done|]. eapply Forall_impl; [done|]. simpl. lia.
  - clear Hl. rewrite Forall_forall in Hx |- *. intros y Hy.
    assert (y = pc \/ y ∈ l) as [->|?]; [|lia|auto].
    clear -Hy. induction l as [|z l IH]; simpl in Hy.
    + left. by apply list_elem_of_singleton in Hy.
    + case_bool_decide; apply elem_of_cons in Hy as [->|Hy]; [by left|by right|by right; left|].
      destruct (IH Hy); [by left|by right; right].
Qed.

Lemma insert_call_perm pc l : insert_call pc l ≡ₚ pc :: l.
Proof.
  induction l as [|x l IH]; simpl; [done|]. case_bool_decide; [done|]. rewrite IH. constructor.
Qed.

Lemma calls_ok_insert s pc l :
  calls_ok s l -> is_Some (adapters s !! pc_sender pc) -> is_Some (adapters s !! pc_target pc) ->
  calls_ok s (insert_call pc l).
Proof.
  intros [Hs Hl] H1 H2. split; [by apply insert_call_sorted|].
  rewrite insert_call_perm. by constructor.
Qed.

Lemma find_call_spec P (l : list PendingCall) pc rest :
  find_call P l = Some (pc, rest) ->
  exists l1 l2, l = l1 ++ pc :: l2 /\ rest = l1 ++ l2 /\ P pc = true /\
    Forall (fun q => P q = false) l1.
Proof.
  revert rest. induction l as [|x l IH]; intros rest; simpl; [done|].
  destruct (P x) eqn:Hx; [intros; simplify_eq; by exists [], rest|].
  destruct (find_call P l) as [[y r]|]; [|done]. intros [= -> <-].
  destruct (IH r eq_refl) as (l1 & l2 & -> & -> & ? & ?).
  exists (x :: l1), l2. split_and!; [done..|by constructor].
Qed.

Lemma find_call_none P (l : list PendingCall) :
  find_call P l = None <-> Forall (fun q => P q = false) l.
Proof.
  induction l as [|x l IH]; simpl; [by split|]. rewrite Forall_cons, <- IH.
  destruct (P x); [naive_solver|]. destruct (find_call P l) as [[]|]; naive_solver.
Qed.

Lemma StronglySorted_remove {A} (R : A -> A -> Prop) (l1 l2 : list A) x :
  StronglySorted R (l1 ++ x :: l2) -> StronglySorted R (l1 ++ l2).
Proof.
  induction l1 as [|y l1 IH]; simpl; intros Hs; inversion Hs as [|? ? Hl Hy]; subst; [done|].
  constructor; [auto|]. rewrite Forall_app, Forall_cons in *. naive_solver.
Qed.

Lemma find_call_first P (l1 l2 : list PendingCall) pc :
  P pc = true -> Forall (fun q => P q = false) l1 -> find_call P (l1 ++ pc :: l2) = Some (pc, l1 ++ l2).
Proof. intros Hp. induction 1 as [|x l Hx _ IH]; simpl; [by rewrite Hp|]. by rewrite Hx, IH. Qed.

(** A call is recorded before those that are due later or at the same time. *)
Definition recorded pc (l l' : list PendingCall) : Prop :=
  exists l1 l2, l = l1 ++ l2 /\ l' = l1 ++ pc :: l2 /\
    Forall (fun q => discard_tp q < discard_tp pc) l1 /\ Forall (fun q => discard_tp pc <= discard_tp q) l2.

Lemma insert_call_recorded pc l : StronglySorted earlier l -> recorded pc l (insert_call pc l).
Proof.
  induction 1 as [|x l Hs (l1 & l2 & Hl & Hi & H1 & H2) Hx]; simpl; [by exists [], []|].
  case_bool_decide as Ht.
  - exists [], (x :: l). split_and!; try done. constructor; [done|]. eapply Forall_impl; [exact Hx|].
    unfold earlier. lia.
  - exists (x :: l1), l2. subst l. rewrite Hi. split_and!; try done. constructor; [lia|done].
Qed.

Lemma calls_ok_remove s l1 pc l2 : calls_ok s (l1 ++ pc :: l2) -> calls_ok s (l1 ++ l2).
Proof.
  intros [Hs Hl]. split; [by eapply StronglySorted_remove|].
  rewrite Forall_app, Forall_cons in *. naive_solver.
Qed.

Lemma inv_set_calls s l T : inv s T -> calls_ok s l -> inv (set_pending_calls l s) T.
Proof. intros Hi Hl. eapply inv_keeps; [done|by split|done|by apply Hi]. Qed.

Lemma inv_calls s T : inv s T -> calls_ok s (pending_calls s).
Proof. intros Hi. apply Hi. Qed.

(** A registered name belongs to a client with its entry. *)
Lemma named_info s T n b : inv s T -> named_adapters s !! n = Some b ->
  exists y i, adapters s !! b = Some y /\ info y = Some (InAdapters b) /\
    adapter_infos s !! b = Some i /\ ai_name i = n /\ n <> EmptyString.
Proof.
  intros Hi Hn. apply (wf_named _ (inv_wf _ _ Hi)) in Hn as (Hne & i & Hbi & Hin).
  pose proof Hbi as [Hb _]%(wf_infos _ (inv_wf _ _ Hi)).
  destruct (adapters s !! b) as [y|]; [|discriminate]. simplify_eq/=. eauto 10.
Qed.

Lemma wp_find_callee s T target name (Q : option aid -> Disp caps S -> Prop) :
  inv s T ->
  (forall o, (forall t, o = Some t -> exists y i, named_adapters s !! target = Some t /\
     adapters s !! t = Some y /\ adapter_infos s !! t = Some i /\ has_method name i = true) ->
   Q o s) ->
  wp (find_callee (named_adapters s) target name) Q s.
Proof.
  intros Hi HQ. unfold find_callee.
  destruct (named_adapters s !! target) as [t|] eqn:Ht; wsteps; [|by apply HQ].
  destruct (named_info _ _ _ _ Hi Ht) as (y & i & Hy & Hyi & Hii & _).
  eapply wp_deref; [done|]. wsteps. unfold deref_info. rewrite Hyi.
  eapply wp_read_info; [done|]. wsteps. apply HQ. intros t'.
  destruct (has_method name i) eqn:Hm; [|done]. intros [= <-]. eauto 10.
Qed.

Lemma wp_next_svrid s (Q : Z -> Disp caps S -> Prop) :
  reqseq s + 1 < two31 -> Q (reqseq s + 1) (set_reqseq (reqseq s + 1) s) -> wp next_svrid Q s.
Proof. intros Hn HQ. unfold next_svrid. wsteps. rewrite bool_decide_true by done. by wsteps. Qed.

Lemma handle_call_inv s c :
  inv s ((Some c0, a) :: todo) -> reqseq s + 1 < two31 ->
  wp (handle_call_req c a) (fun _ s' => inv s' ((Some c0, a) :: todo)) s.
Proof.
  intros Hi Hn. destruct (sender_deref s Hi) as [x Hx]. unfold handle_call_req.
  wsteps. eapply wp_deref; [done|]. case_bool_decide as Hinfo; wsteps; [done|].
  apply wp_parse; [unfold RequestParser.parse_call; auto 10 with flora|].
  intros [[[[[name args] target] cli] timeout]|]; wsteps; [|done].
  eapply wp_find_callee; [done|]. intros [t|] Ht.
  - destruct (Ht t eq_refl) as (y & i & _ & Hy & _). wsteps. apply wp_next_svrid; [done|]. unfold add_pending_call. wsteps.
    apply wp_now. wsteps. set (s1 := set_pending_calls _ _).
    assert (inv s1 ((Some c0, a) :: todo)) as Hi1.
    { apply inv_set_calls; [by eapply inv_other; [done|by split|done..]|].
      apply calls_ok_insert; simpl; eauto. eapply (calls_ok_same s); [done|]. by eapply inv_calls. }
    eapply (sender_deref_info s1); [done..|]. intros j. wsteps. eapply wp_deref; [done|].
    destruct (ResponseSerializer.serialize_call _ _ _ _ _ _ _); wsteps; [|done].
    eapply (wp_write_inv s1); [done|by exists y|]. intros. by wsteps.
  - unfold ResponseSerializer.serialize_reply. closed_ifs.
    destruct (serialize_to _ _ _); wsteps; [|done].
    eapply wp_write_inv; [done|done|]. intros. by wsteps.
Qed.

Lemma handle_reply_inv s c :
  inv s ((Some c0, a) :: todo) ->
  wp (handle_reply_req c a) (fun _ s' => inv s' ((Some c0, a) :: todo)) s.
Proof.
  intros Hi. destruct (sender_deref s Hi) as [x Hx]. unfold handle_reply_req.
  wsteps. eapply wp_deref; [done|]. destruct (info x) as [p|] eqn:Hp; wsteps; [|done].
  apply wp_parse; [unfold RequestParser.parse_reply; auto 10 with flora|].
  intros [[[id code] data]|]; wsteps; [|done].
  destruct (find_call _ _) as [[pc rest]|] eqn:Hf; wsteps; [|done].
  apply find_call_spec in Hf as (l1 & l2 & Hl & -> & _).
  pose proof (inv_calls _ _ Hi) as Hcalls. rewrite Hl in Hcalls.
  assert (is_Some (adapters s !! pc_sender pc)) as [y Hy].
  { destruct Hcalls as [_ Hc]. rewrite Forall_app, Forall_cons in Hc. naive_solver. }
  eapply wp_deref; [done|]. destruct (adap_closed (impl y)); wsteps; [done|].
  eapply sender_info; [done..|]. intros i _. wsteps.
  unfold ResponseSerializer.serialize_reply. closed_ifs.
  destruct (serialize_to _ _ _); wsteps; [|done].
  eapply wp_write_inv; [done|done|]. intros r s1 Hi1 K1 Hp1. wsteps.
  apply inv_set_calls; [done|]. eapply calls_ok_same; [apply K1|]. by eapply calls_ok_remove.
Qed.
End Handling.

(** ** Monitors *)

Lemma queued_alive s T a : inv s T -> (None, a) ∈ T ++ cmd_packets s -> alive s a = true.
Proof.
  intros Hi [Ht|Hq]%elem_of_app; apply alive_spec; do 3 right.
  - right. exists None. by apply (inv_batch _ _ Hi).
  - left. by exists None.
Qed.

(** The raw pointers kept in [monitors] are valid. *)
Lemma monitor_alive s T m : inv s T -> is_Some (monitors s !! m) -> alive s m = true.
Proof.
  intros Hi Hm. destruct (inv_reg _ _ Hi m (or_intror Hm)) as [Hh|Hq].
  - apply alive_spec. by left.
  - by eapply queued_alive.
Qed.

Lemma wp_each_monitor s T (f : aid -> M (Disp caps S) unit) (Q : unit -> Disp caps S -> Prop) :
  inv s T ->
  (forall m s', inv s' T -> keeps s s' -> is_Some (monitors s' !! m) ->
     wp (f m) (fun _ s'' => inv s'' T /\ keeps s' s'') s') ->
  (forall s', inv s' T -> keeps s s' -> Q tt s') ->
  wp (for_each (map_to_list (monitors s)).*1 f) Q s.
Proof.
  intros Hi Hf HQ. eapply wpx_mono.
  - apply (wpx_for_each_inv _ (fun s' => inv s' T /\ keeps s s')); [by split|].
    intros m s' Hm [Hi' K]. eapply wpx_mono.
    + apply Hf; [done..|]. rewrite (keep_monitors _ _ K).
      apply list_elem_of_fmap in Hm as ([m' i] & -> & Hm). apply elem_of_map_to_list in Hm.
      by exists i.
    + intros [] s'' [? ?]. split; [done|by etrans].
  - intros [] s' []. auto.
Qed.

Lemma wp_deref_monitor s T m (Q : Adapter S -> Disp caps S -> Prop) :
  inv s T -> is_Some (monitors s !! m) -> (forall x, adapters s !! m = Some x -> Q x s) ->
  wp (deref_raw m) Q s.
Proof.
  intros Hi Hm HQ. pose proof (monitor_alive _ _ _ Hi Hm) as Ha.
  destruct (inv_alive _ _ _ Hi Ha) as [x Hx]. eapply wp_deref_raw; eauto.
Qed.

Lemma wp_list_remove_inv s T id (Q : unit -> Disp caps S -> Prop) :
  inv s T -> (forall s', inv s' T -> keeps s s' -> Q tt s') -> wp (write_monitor_list_remove id) Q s.
Proof.
  intros Hi HQ. unfold write_monitor_list_remove. wsteps.
  eapply wp_each_monitor; [done| |done]. intros m s' Hi' K Hm.
  unfold write_monitor_list_remove_one. wsteps. eapply wp_deref_monitor; [done..|].
  intros x Hx. wsteps.
  destruct (ResponseSerializer.serialize_monitor_list_remove _ _ _); wsteps; [|done].
  eapply wp_write_inv; [done|done|]. intros. by wsteps.
Qed.

Lemma wp_list_add_inv s T a (Q : unit -> Disp caps S -> Prop) :
  inv s T -> info_ok s a -> (info <$> adapters s !! a) <> Some None ->
  (forall s', inv s' T -> keeps s s' -> Q tt s') -> wp (write_monitor_list_add a) Q s.
Proof.
  intros Hi Ha Hn HQ. unfold write_monitor_list_add. wsteps.
  eapply wp_each_monitor; [done| |done]. intros m s' Hi' K Hm.
  unfold write_monitor_list_add_one. wsteps.
  destruct (info_ok_keeps _ _ _ K Ha) as (y & Hy & Hyi).
  eapply wp_deref; [done|]. wsteps.
  assert (exists i, wp (deref_info y) (fun j s'' => j = i /\ s'' = s') s') as [i Hd].
  { unfold deref_info. pose proof (keep_adapters _ _ K a) as Hk. rewrite Hy in Hk.
    destruct (info y) as [[k|k]|] eqn:Hp.
    - destruct Hyi as [-> [i Hii]]. exists i. by eapply wp_read_info.
    - destruct Hyi as [-> [i Hii]]. exists i. by eapply wp_read_info.
    - destruct Hn. rewrite <- Hk. simpl. by rewrite Hp. }
  eapply wpx_mono; [done|]. intros j s'' [-> ->]. wsteps.
  eapply wp_deref_monitor; [done..|]. intros x Hx. wsteps.
  destruct (ResponseSerializer.serialize_monitor_list_add _ _ _); wsteps; [|done].
  eapply wp_write_inv; [done|by exists x|]. intros. by wsteps.
Qed.

Lemma wp_monitor_data_inv s T flags a (Q : unit -> Disp caps S -> Prop) :
  inv s T -> is_Some (adapters s !! a) ->
  (forall s', inv s' T -> keeps s s' -> Q tt s') -> wp (write_monitor_data flags a) Q s.
Proof.
  intros Hi [x Hx] HQ. unfold write_monitor_data. wsteps; [|by apply HQ].
  unfold write_monitor_list. wsteps. eapply wp_deref; [done|]. wsteps.
  destruct (ResponseSerializer.serialize_monitor_list_all _ _ _); wsteps; [|by apply HQ].
  eapply wp_write_inv; [done|by exists x|]. intros. wsteps. by apply HQ.
Qed.

(** ** Erasing *)

Lemma inv_erased s a todo :
  inv s ((None, a) :: todo) -> adapter_infos s !! a = None -> monitors s !! a = None -> inv s todo.
Proof.
  intros [Hw Hbt Hh Ho Hsrc Hr He] Hai Ham.
  destruct (He [] a (todo ++ cmd_packets s) eq_refl) as [Hah Haq].
  split; [done| |done|..].
  - intros p Hp. apply Hbt. by right.
  - intros b [?|Hb]; [by apply Ho; left|]. apply Ho. right. simpl. by right.
  - intros b Hb. edestruct (Hsrc b) as [|Hx]; [simpl; by right|by left|].
    simpl in Hx. apply elem_of_cons in Hx as [[= ->]|?]; [done|by right].
  - intros b Hb. edestruct (Hr b) as [|Hx]; [done|by left|].
    simpl in Hx. apply elem_of_cons in Hx as [[= ->]|?]; [|by right].
    rewrite Hai, Ham in Hb. by destruct Hb as [[]|[]].
  - intros pre b post Hp. apply (He ((None, a) :: pre)). simpl. by rewrite Hp.
Qed.

Lemma inv_del_name s n T : inv s T -> inv (set_named_adapters (delete n (named_adapters s)) s) T.
Proof.
  intros [[Hb Hi Hm Hn Hc Hs] Hbt Hh Ho Hsrc Hr He]. split; [split|..]; simpl; auto.
  intros m b [_ Hmb]%lookup_delete_Some. auto.
Qed.

(** Deleting the entry of an adapter that the rest of the packets do not mention. *)
Lemma inv_del_info s a todo :
  inv s ((None, a) :: todo) -> (forall n, named_adapters s !! n <> Some a) ->
  monitors s !! a = None -> inv (set_adapter_infos (delete a (adapter_infos s)) s) todo.
Proof.
  intros [[Hb Hi Hm Hn Hc Hs] Hbt Hh Ho Hsrc Hr He] Hna Ham.
  destruct (He [] a (todo ++ cmd_packets s) eq_refl) as [Hah Haq].
  assert (forall b, b ∈ held s \/ b ∈ (todo ++ cmd_packets s).*2 -> a <> b) as Hne.
  { intros b [?|?] ->; done. }
  split; [split|..]; simpl; auto.
  - intros b i [_ Hbi]%lookup_delete_Some. auto.
  - intros n b Hnb. destruct (Hn n b Hnb) as (? & i & ? & ?). split; [done|].
    exists i. rewrite lookup_delete_ne; [done|]. intros ->. by destruct (Hna n).
  - intros p Hp. apply Hbt. by right.
  - intros b Hbb. destruct (Ho b) as (y & Hy & Hyi).
    { destruct Hbb; [by left|right; simpl; by right]. }
    exists y. split; [done|]. simpl. rewrite lookup_delete_ne by auto. done.
  - intros b Hbb. edestruct (Hsrc b) as [|Hx]; [simpl; by right|by left|].
    simpl in Hx. apply elem_of_cons in Hx as [[= ->]|?]; [|by right].
    by destruct (Hne a (or_intror Hbb)).
  - intros b Hbb. assert (a <> b) as Hab.
    { intros ->. rewrite lookup_delete_eq, Ham in Hbb. by destruct Hbb as [[]|[]]. }
    rewrite lookup_delete_ne in Hbb by done. edestruct (Hr b) as [|Hx]; [done|by left|].
    simpl in Hx. apply elem_of_cons in Hx as [[= ->]|?]; [done|by right].
  - intros pre b post Hp. apply (He ((None, a) :: pre)). simpl. by rewrite Hp.
Qed.

Lemma inv_del_monitor s a todo :
  inv s ((None, a) :: todo) -> adapter_infos s !! a = None ->
  inv (set_monitors (delete a (monitors s)) s) todo.
Proof.
  intros [[Hb Hi Hm Hn Hc Hs] Hbt Hh Ho Hsrc Hr He] Hai.
  destruct (He [] a (todo ++ cmd_packets s) eq_refl) as [Hah Haq].
  assert (forall b, b ∈ held s \/ b ∈ (todo ++ cmd_packets s).*2 -> a <> b) as Hne.
  { intros b [?|?] ->; done. }
  split; [split|..]; simpl; auto.
  - intros b i [_ Hbi]%lookup_delete_Some. auto.
  - intros p Hp. apply Hbt. by right.
  - intros b Hbb. destruct (Ho b) as (y & Hy & Hyi).
    { destruct Hbb; [by left|right; simpl; by right]. }
    exists y. split; [done|]. simpl. rewrite lookup_delete_ne by auto. done.
  - intros b Hbb. edestruct (Hsrc b) as [|Hx]; [simpl; by right|by left|].
    simpl in Hx. apply elem_of_cons in Hx as [[= ->]|?]; [|by right].
    by destruct (Hne a (or_intror Hbb)).
  - intros b Hbb. assert (a <> b) as Hab.
    { intros ->. rewrite lookup_delete_eq, Hai in Hbb. by destruct Hbb as [[]|[]]. }
    rewrite lookup_delete_ne in Hbb by done. edestruct (Hr b) as [|Hx]; [done|by left|].
    simpl in Hx. apply elem_of_cons in Hx as [[= ->]|?]; [done|by right].
  - intros pre b post Hp. apply (He ((None, a) :: pre)). simpl. by rewrite Hp.
Qed.

Lemma subs_ok_clear s m :
  subs_ok m ->
  subs_ok (omap (fun l => match filter (fun a => alive s a = true) l with
                          | [] => None
                          | l' => Some l'
                          end) m).
Proof.
  intros Hm n l. rewrite lookup_omap. destruct (m !! n) as [k|] eqn:Hk; simpl; [|done].
  destruct (Hm n k Hk) as (Hn & _ & Hd). pose proof (NoDup_filter (fun a => alive s a = true) k Hd).
  destruct (filter _ k) eqn:Hf; [done|]. intros [= <-]. done.
Qed.

Lemma wp_check_subscriptions_inv s T :
  inv s T -> wp check_subscriptions (fun _ s' => inv s' T /\ keeps s s') s.
Proof.
  intros Hi. unfold check_subscriptions, clear_sub_gabages. wsteps. apply wp_now. wsteps.
  assert (forall s1, inv s1 T -> keeps s s1 -> wp
     (modify (fun s : Disp caps S => set_subscriptions (omap (fun l =>
        match filter (fun a => alive s a = true) l with [] => None | l' => Some l' end)
          (subscriptions s)) s) ;;
      modify (set_clear_sub_prio 0) ;; modify (set_handle_cmd_tp (steady_clock (ticks s))))
     (fun _ s' => inv s' T /\ keeps s s') s1) as Hclear.
  { intros s1 Hi1 K1. wsteps. split.
    - eapply inv_other; [eapply inv_set_subs; [done|]|by split|done..].
      apply subs_ok_clear. by eapply inv_subs.
    - etrans; [done|]. by split. }
  case_bool_decide.
  - apply Hclear; [eapply inv_other; [done|by split|done..]|by split].
  - do 5 wstep; [|split; [eapply inv_other; [done|by split|done..]|by split]].
    apply Hclear; [eapply inv_other; [done|by split|done..]|by split].
Qed.

Lemma do_erase_inv s a todo :
  inv s ((None, a) :: todo) -> wp (do_erase_adapter a) (fun _ s' => inv s' todo) s.
Proof.
  intros Hi. destruct (inv_sender _ _ _ _ Hi) as (x & Hx & Hp). unfold do_erase_adapter.
  apply wpx_bind. eapply wp_deref; [done|]. destruct (info x) as [[k|k]|].
  3: { wsteps. by apply (inv_erased s a); destruct Hp. }
  all: destruct Hp as [-> [i Hai]]; apply wpx_bind; eapply wp_read_info; [done|].
  all: apply wpx_bind; set (s1 := set_named_adapters (delete (ai_name i) (named_adapters s)) s).
  - pose proof (wf_infos _ (inv_wf _ _ Hi) a i Hai) as [Hxa ->]. rewrite Hx in Hxa.
    assert (forall s1, inv s1 ((None, a) :: todo) -> keeps (set_named_adapters (named_adapters s1) s) s1 ->
      (forall n, named_adapters s1 !! n <> Some a) -> wp
      ((write_monitor_list_remove (ai_id i) ;;
        modify (fun s : Disp caps S => set_adapter_infos (delete a (adapter_infos s)) s)) ;;
       check_subscriptions) (fun _ s' => inv s' todo) s1) as Hrest.
    { intros s2 Hi2 K2 Hn2. do 2 apply wpx_bind. eapply wp_list_remove_inv; [done|].
      intros s3 Hi3 K3. wstep. eapply wpx_mono; [apply wp_check_subscriptions_inv|by intros ? ? []].
      apply inv_del_info; [done|by rewrite (keep_named _ _ K3)|].
      rewrite (keep_monitors _ _ K3), (keep_monitors _ _ K2). simpl.
      destruct (monitors s !! a) as [j|] eqn:Hj; [|done].
      apply (wf_monitors _ (inv_wf _ _ Hi)) in Hj as [Hj _]. rewrite Hx in Hj. congruence. }
    assert (forall n, named_adapters s !! n = Some a -> n = ai_name i /\ n <> EmptyString) as Hna.
    { intros n (Hne & j & Hj & <-)%(wf_named _ (inv_wf _ _ Hi)). by simplify_eq. }
    apply wpx_when; [intros _; wstep|intros He%bool_decide_eq_false]; apply Hrest.
    + by apply inv_del_name.
    + by split.
    + intros n Hn. simpl in Hn. apply lookup_delete_Some in Hn as [? Hn]. by apply Hna in Hn as [-> _].
    + done.
    + by split.
    + intros n [-> ?]%Hna. by destruct He.
  - pose proof (wf_monitors _ (inv_wf _ _ Hi) a i Hai) as [Hxa ->]. rewrite Hx in Hxa.
    assert (adapter_infos s !! a = None) as Hnone.
    { destruct (adapter_infos s !! a) as [j|] eqn:Hj; [|done].
      apply (wf_infos _ (inv_wf _ _ Hi)) in Hj as [Hj _]. rewrite Hx in Hj. congruence. }
    apply wpx_when; [intros _; wstep|intros _]; do 2 wstep;
      (eapply wpx_mono; [apply wp_check_subscriptions_inv|by intros ? ? []]);
      apply inv_del_monitor; [by apply inv_del_name|done..].
Qed.

(** ** Authentication *)

(** Registering the sender, whose [info] is null, in one of the two maps. *)
Lemma inv_add_info s c a todo i named :
  inv s ((Some c, a) :: todo) -> (info <$> adapters s !! a) = Some None ->
  has_flag (ai_flags i) FLORA_CLI_FLAG_MONITOR = false ->
  (named = named_adapters s \/
   (ai_name i <> EmptyString /\ named_adapters s !! ai_name i = None /\
    named = <[ai_name i := a]> (named_adapters s))) ->
  inv (set_adapters (alter (set_info (Some (InAdapters a))) a (adapters s))
        (set_adapter_infos (<[a := i]> (adapter_infos s)) (set_named_adapters named s)))
    ((Some c, a) :: todo).
Proof.
  intros Hi0 Hxa Hfl Hnamed. pose proof (inv_sender _ _ _ _ Hi0) as (x & Hx & Hp).
  rewrite Hx in Hxa. injection Hxa as Hxn. rewrite Hxn in Hp. destruct Hp as [Hai Ham].
  destruct Hi0 as [[Hb Hi Hm Hn [Hc1 Hc2] Hs] Hbt Hh Ho Hsrc Hr He].
  assert (forall b, is_Some (adapters s !! b) ->
    is_Some (alter (set_info (Some (InAdapters a))) a (adapters s) !! b)) as Hal
    by (intros b; by rewrite lookup_alter_is_Some).
  assert (forall n b, named_adapters s !! n = Some b -> b <> a) as Hna.
  { intros n b (_ & j & Hj & _)%Hn ->. congruence. }
  split; [split|..]; simpl; auto.
  - intros b j [[<- <-]|[Hne Hj]]%lookup_insert_Some.
    + rewrite lookup_alter_eq, Hx. done.
    + rewrite lookup_alter_ne by done. auto.
  - intros b j Hj. rewrite lookup_alter_ne by congruence. auto.
  - intros n b Hnb. destruct Hnamed as [->|(Hne & Hfree & ->)].
    + pose proof (Hna n b Hnb). rewrite lookup_insert_ne by done. auto.
    + apply lookup_insert_Some in Hnb as [[<- <-]|[Hnn Hnb]].
      * split; [done|]. exists i. by rewrite lookup_insert_eq.
      * pose proof (Hna n b Hnb). rewrite lookup_insert_ne by done. auto.
  - split; [done|]. eapply Forall_impl; [done|]. intros pc []. split; apply Hal; done.
  - intros b Hbb. destruct (Ho b Hbb) as (y & Hy & Hyi). destruct (decide (a = b)) as [<-|Hne].
    + exists (set_info (Some (InAdapters a)) x). simpl. rewrite lookup_alter_eq, Hx.
      split; [done|]. simpl. rewrite lookup_insert_eq. eauto.
    + exists y. simpl. rewrite lookup_alter_ne, lookup_insert_ne by done. done.
  - intros b. rewrite lookup_insert_is_Some'. intros [[<-|?]|?]; [|apply Hr; eauto..].
    apply Hsrc. simpl. by left.
Qed.

Lemma inv_add_monitor s c a todo i :
  inv s ((Some c, a) :: todo) -> (info <$> adapters s !! a) = Some None ->
  has_flag (ai_flags i) FLORA_CLI_FLAG_MONITOR = true ->
  inv (set_adapters (alter (set_info (Some (InMonitors a))) a (adapters s))
        (set_monitors (<[a := i]> (monitors s)) s)) ((Some c, a) :: todo).
Proof.
  intros Hi0 Hxa Hfl. pose proof (inv_sender _ _ _ _ Hi0) as (x & Hx & Hp).
  rewrite Hx in Hxa. injection Hxa as Hxn. rewrite Hxn in Hp. destruct Hp as [Hai Ham].
  destruct Hi0 as [[Hb Hi Hm Hn [Hc1 Hc2] Hs] Hbt Hh Ho Hsrc Hr He].
  assert (forall b, is_Some (adapters s !! b) ->
    is_Some (alter (set_info (Some (InMonitors a))) a (adapters s) !! b)) as Hal
    by (intros b; by rewrite lookup_alter_is_Some).
  split; [split|..]; simpl; auto.
  - intros b j Hj. rewrite lookup_alter_ne by congruence. auto.
  - intros b j [[<- <-]|[Hne Hj]]%lookup_insert_Some.
    + rewrite lookup_alter_eq, Hx. done.
    + rewrite lookup_alter_ne by done. auto.
  - split; [done|]. eapply Forall_impl; [done|]. intros pc []. split; apply Hal; done.
  - intros b Hbb. destruct (Ho b Hbb) as (y & Hy & Hyi). destruct (decide (a = b)) as [<-|Hne].
    + exists (set_info (Some (InMonitors a)) x). simpl. rewrite lookup_alter_eq, Hx.
      split; [done|]. simpl. rewrite lookup_insert_eq. eauto.
    + exists y. simpl. rewrite lookup_alter_ne, lookup_insert_ne by done. done.
  - intros b. rewrite lookup_insert_is_Some'. intros [?|[<-|?]]; [apply Hr; eauto| |apply Hr; eauto].
    apply Hsrc. simpl. by left.
Qed.

Section Auth.
Context (c0 : caps) (a : aid) (todo : list (CmdPacket caps)).
Abbreviation T := ((Some c0, a) :: todo).

(** The second half of [add_adapter]: a fresh entry for the sender. *)
Lemma wp_new_entry s name flags pid (Q : bool -> Disp caps S -> Prop) :
  adapter_infos s !! a = None ->
  (forall j, j = mkAdapterInfo (u32 (idseq s + 1)) pid name ∅ flags ->
     Q true (set_idseq (u32 (idseq s + 1))
       (set_adapters (alter (set_info (Some (InAdapters a))) a (adapters s))
         (set_adapter_infos (<[a := j]> (adapter_infos s)) s)))) ->
  wp (i ← new_info;
      infos ← gets adapter_infos;
      when (bool_decide (infos !! a = None))
        (modify (set_adapter_infos
           (<[a := mkAdapterInfo (ai_id i) pid name (ai_declared_methods i) flags]> infos)) ;;
         upd_adapter a (set_info (Some (InAdapters a)))) ;;
      mret true) Q s.
Proof.
  intros Ha HQ. unfold new_info. do 3 wstep. simpl. do 5 wstep. rewrite bool_decide_true by done.
  simpl. wsteps. unfold upd_adapter. wsteps. by apply HQ.
Qed.

Lemma wp_add_adapter_inv s name flags pid (Q : bool -> Disp caps S -> Prop) :
  inv s T -> (info <$> adapters s !! a) = Some None ->
  has_flag flags FLORA_CLI_FLAG_MONITOR = false ->
  (forall s', inv s' T -> (info <$> adapters s' !! a) = Some None -> Q false s') ->
  (forall s', inv s' T -> (info <$> adapters s' !! a) = Some (Some (InAdapters a)) -> Q true s') ->
  wp (add_adapter name flags pid a) Q s.
Proof.
  intros Hi Hxa Hfl HF HT. pose proof (inv_sender _ _ _ _ Hi) as (x & Hx & Hp).
  rewrite Hx in Hxa. injection Hxa as Hxn. rewrite Hxn in Hp. destruct Hp as [Hai Ham].
  unfold add_adapter. wsteps. case_bool_decide as Hused; [wstep|do 2 wstep; try wstep].
  { apply HF; [done|]. by rewrite Hx, <- Hxn. }
  - apply bool_decide_eq_true in H1. apply wp_new_entry; [done|]. intros j Hj. apply HT.
    + eapply inv_other; [eapply (inv_add_info s _ _ _ j (<[name := a]> (named_adapters s)))
        |by split|done..]; [done|by rewrite Hx, <- Hxn|by rewrite Hj|].
      right. rewrite Hj. split_and!; [done| |done].
      destruct (named_adapters s !! name) eqn:Hnn; [|done]. by destruct Hused.
    + simpl. by rewrite lookup_alter_eq, Hx.
  - apply wp_new_entry; [done|]. intros j Hj. apply HT.
    + eapply inv_other; [eapply (inv_add_info s _ _ _ j (named_adapters s))
        |by split|done..]; [done|by rewrite Hx, <- Hxn|by rewrite Hj|by left].
    + simpl. by rewrite lookup_alter_eq, Hx.
Qed.

Lemma wp_add_monitor_inv s name flags (Q : unit -> Disp caps S -> Prop) :
  inv s T -> (info <$> adapters s !! a) = Some None ->
  has_flag flags FLORA_CLI_FLAG_MONITOR = true ->
  (forall s', inv s' T -> (info <$> adapters s' !! a) = Some (Some (InMonitors a)) -> Q tt s') ->
  wp (add_monitor name flags a) Q s.
Proof.
  intros Hi Hxa Hfl HT. pose proof (inv_sender _ _ _ _ Hi) as (x & Hx & Hp).
  rewrite Hx in Hxa. injection Hxa as Hxn. rewrite Hxn in Hp. destruct Hp as [Hai Ham].
  unfold add_monitor, new_info. wsteps. simpl. wsteps.
  2: { match goal with H : bool_decide _ = _ |- _ => by rewrite bool_decide_true in H end. }
  unfold upd_adapter. wsteps. simpl. set (e := mkAdapterInfo _ _ _ _ _).
  apply HT; [|simpl; by rewrite lookup_alter_eq, Hx].
  eapply inv_other; [eapply (inv_add_monitor s _ _ _ e)|by split|done..];
    [done|by rewrite Hx, <- Hxn|done].
Qed.

(** The sender authenticates for the first time. *)
Lemma wp_auth_result_inv s version extra pid flags (Q : Z -> Disp caps S -> Prop) :
  inv s T -> (info <$> adapters s !! a) = Some None ->
  (forall r s', inv s' T -> (r = FLORA_CLI_SUCCESS -> (info <$> adapters s' !! a) <> Some None) ->
     Q r s') ->
  wp (auth_result version extra pid flags a) Q s.
Proof.
  intros Hi Hxa HQ. destruct (sender_deref _ _ _ _ Hi) as [x Hx].
  unfold auth_result. case_bool_decide; [by wsteps; apply HQ|].
  apply wpx_bind. eapply wp_deref; [done|]. apply wpx_bind.
  enough (forall s1, inv s1 T -> (info <$> adapters s1 !! a) = Some None -> wp
    (if has_flag flags FLORA_CLI_FLAG_MONITOR then
       df ← gets disp_flags;
       if negb (has_flag df FLORA_DISP_FLAG_MONITOR) then mret FLORA_CLI_EAUTH
       else add_monitor extra flags a ;; mret FLORA_CLI_SUCCESS
     else
       ok ← add_adapter extra flags pid a;
       mret (if ok : bool then FLORA_CLI_SUCCESS else FLORA_CLI_EDUPID)) Q s1) as Hgo.
  { wstep; [unfold upd_adapter; wstep|]; apply Hgo; try done.
    - by apply inv_alter.
    - simpl. rewrite lookup_alter_eq, Hx. rewrite Hx in Hxa. done. }
  intros s1 Hi1 Hxa1. destruct (has_flag flags FLORA_CLI_FLAG_MONITOR) eqn:Hfl.
  - wsteps. destruct (has_flag _ FLORA_DISP_FLAG_MONITOR); simpl; [|by wsteps; apply HQ].
    wstep. apply wp_add_monitor_inv; [done..|]. intros s2 Hi2 Hx2. wsteps. apply HQ; [done|].
    by rewrite Hx2.
  - wsteps. apply wp_add_adapter_inv; [done..| |]; intros s2 Hi2 Hx2; wsteps; apply HQ; try done.
    by rewrite Hx2.
Qed.

Lemma handle_auth_inv s c :
  inv s T -> (info <$> adapters s !! a) = Some None ->
  wp (handle_auth_req c a) (fun _ s' => inv s' T) s.
Proof.
  intros Hi Hxa. unfold handle_auth_req. wsteps.
  apply wp_parse; [unfold RequestParser.parse_auth; auto 10 with flora|].
  intros [[[[version extra] pid] flags]|]; wsteps; [|done].
  apply wp_auth_result_inv; [done..|]. intros r s1 Hi1 Hr.
  destruct (sender_deref _ _ _ _ Hi1) as [x Hx]. wsteps. eapply wp_deref; [done|]. wsteps.
  destruct (ResponseSerializer.serialize_auth _ _ _ _); wsteps; [|done].
  eapply wp_write_inv; [done|by exists x|]. intros r2 s2 Hi2 K2 _.
  case_bool_decide as Hok; wsteps; [|done].
  pose proof (keep_adapters _ _ K2 a) as Hka.
  destruct (sender_deref _ _ _ _ Hi2) as [y Hy].
  eapply wp_monitor_data_inv; [done|by exists y|]. intros s3 Hi3 K3. wsteps; [|done].
  eapply wp_list_add_inv; [done|by eapply inv_sender| |intros s4 Hi4 _; by wsteps].
  rewrite (keep_adapters _ _ K3 a), Hka. by apply Hr.
Qed.
End Auth.
End Ops.
