(* ===== verification/DispSafe.v ===== *)
(** * One command and the timeouts: safety and exactness

    Handling a command preserves the invariant and has no undefined behaviour,
    and discarding the pending calls removes exactly those that are due, each of
    whose callers is told. *)
From S2P Require Import Prelude Defs Caps RefCaps Adap Reader SerHelper Disp DispInv DispOps.
Import Dispatcher.

Section Safe.
Context {caps : Type} `{!CapsOps caps, !CapsFlags} {S : Type} `{!AdapterImpl S, !SteadyClock}.
Implicit Types (s : Disp caps S) (a : aid).

(** ** One command *)

(** What the service relies on of a client that is not a monitor: its command
    numbers are not negative, it authenticates while it is not registered, and the
    clients make no more calls than [reqseq] can number. *)
Definition packet_ok s (p : CmdPacket caps) : Prop :=
  match p with
  | (None, _) => True
  | (Some c, a) => forall cmd c', caps_read_i32 c = (Some cmd, c') ->
      0 <= cmd /\ (cmd = CMD_AUTH_REQ -> (info <$> adapters s !! a) = Some None) /\
      (cmd = CMD_CALL_REQ -> reqseq s + 1 < two31)
  end.

Lemma wp_close_inv s T a (Q : unit -> Disp caps S -> Prop) :
  inv s T -> is_Some (adapters s !! a) -> (forall s', inv s' T -> Q tt s') ->
  wp (close_adapter a) Q s.
Proof. intros Hi [x Hx] HQ. eapply wp_close_adapter; [done|]. by apply HQ, inv_alter. Qed.

(** The handlers, by number. *)
Lemma msg_handler_inv s c0 a todo cmd c :
  inv s ((Some c0, a) :: todo) -> 0 <= cmd < MSG_HANDLER_COUNT ->
  (cmd = CMD_AUTH_REQ -> (info <$> adapters s !! a) = Some None) ->
  (cmd = CMD_CALL_REQ -> reqseq s + 1 < two31) ->
  exists h, msg_handler cmd = Some h /\
    wp (h c a) (fun _ s' => inv s' ((Some c0, a) :: todo)) s.
Proof.
  intros Hi Hc Hauth Hcall. unfold MSG_HANDLER_COUNT in Hc.
  assert (cmd = 0 \/ cmd = 1 \/ cmd = 2 \/ cmd = 3 \/ cmd = 4 \/ cmd = 5 \/ cmd = 6 \/ cmd = 7 \/
    cmd = 8) as Hcases by lia.
  unfold msg_handler. rewrite bool_decide_true by lia.
  destruct Hcases as [->|[->|[->|[->|[->|[->|[->|[->| ->]]]]]]]]; (eexists; split; [reflexivity|]).
  - apply handle_auth_inv; [done|by apply Hauth].
  - by apply handle_subscribe_inv.
  - by apply handle_unsubscribe_inv.
  - by apply handle_post_inv.
  - by apply handle_reply_inv.
  - by apply handle_declare_inv.
  - by apply handle_remove_inv.
  - apply handle_call_inv; [done|by apply Hcall].
  - by apply handle_ping_inv.
Qed.

Lemma handle_cmd_inv s p todo :
  inv s (p :: todo) -> packet_ok s p -> wp (handle_cmd p.1 p.2) (fun _ s' => inv s' todo) s.
Proof.
  destruct p as [[c|] a]; intros Hi Hok; simpl; [|by apply do_erase_inv].
  destruct (inv_sender _ _ _ _ Hi) as (x & Hx & Hp). wsteps. eapply wp_deref; [done|]. wsteps.
  assert (forall mon : bool, wp (if mon then close_adapter a
    else let '(o, c') := caps_read_i32 c in
      match o with
      | None => close_adapter a
      | Some cmd =>
          if bool_decide (MSG_HANDLER_COUNT <= cmd) then close_adapter a
          else match msg_handler cmd with
               | None => undefined HandlerIndex
               | Some handler =>
                   ok ← handler c' a;
                   when (negb ok) (close_adapter a) ;; t ← now; modify (set_handle_cmd_tp t)
               end
      end) (fun _ s' => inv s' todo) s) as Hrest.
  { assert (wp (close_adapter a) (fun _ s' => inv s' todo) s) as Hclose.
    { eapply wp_close_inv; [by eapply inv_todo_tail|by exists x|done]. }
    intros [|]; [done|]. simpl in Hok. destruct (caps_read_i32 c) as [[cmd|] c'] eqn:Hr; [|done].
    destruct (Hok cmd c' eq_refl) as (Hpos & Hauth & Hcall). case_bool_decide; [done|].
    destruct (msg_handler_inv s c a todo cmd c' Hi) as (h & -> & Hh); [lia|done..|].
    wstep. eapply wpx_mono; [done|]. intros ok s1 Hi1. wstep.
    assert (forall s2, inv s2 todo -> wp (t ← now; modify (set_handle_cmd_tp t))
      (fun _ s' => inv s' todo) s2) as Hend.
    { intros s2 Hi2. wstep. apply wp_now. wstep. eapply inv_other; [done|by split|done..]. }
    pose proof (inv_todo_tail _ _ _ _ Hi1) as Hi1'. destruct (sender_deref _ _ _ _ Hi1) as [y Hy].
    wstep; [|by apply Hend]. eapply wp_close_inv; [done|by exists y|]. intros. by apply Hend. }
  destruct (info x) as [[k|k]|]; [..|wsteps; apply (Hrest false)];
    destruct Hp as [-> [i Hai]]; wsteps; (eapply wp_read_info; [done|]); wsteps; apply Hrest.
Qed.

(** A command, on the invariant. *)
Lemma handle_cmd_done s p todo :
  inv s (p :: todo) -> packet_ok s p ->
  exists s', handle_cmd p.1 p.2 s = Done (tt, s') /\ inv s' todo.
Proof.
  intros Hi Hok. destruct (wp_done _ _ _ (handle_cmd_inv _ _ _ Hi Hok)) as ([] & s' & ? & ?). eauto.
Qed.

(** Handling one command never runs into undefined behaviour (no null or
    dangling [info], no freed adapter, no handler index out of range) and
    preserves the dispatcher's invariant, whatever the message says, as long as
    its command number is not negative and the sender authenticates at most once. *)
Theorem handle_cmd_safe s p todo :
  inv s (p :: todo) -> packet_ok s p ->
  exists s', handle_cmd p.1 p.2 s = Done (tt, s') /\ inv s' todo.
Proof. apply handle_cmd_done. Qed.

(** ** Timeouts *)
Context `{!CapsLaws caps, !CapsSmall caps}.

(** A reply without a result always fits in the dispatcher's buffer. *)
Lemma error_reply_fits size flags id code :
  DEFAULT_MSG_BUF_SIZE <= size < two32 -> code <> FLORA_CLI_SUCCESS ->
  exists b, ResponseSerializer.serialize_reply id code None 0 size flags = Done (Some b).
Proof.
  intros Hs Hcode. unfold ResponseSerializer.serialize_reply.
  rewrite bool_decide_false by done. unfold serialize_to. set (c := caps_write_u64 0 _).
  assert (caps_content c = [CInt (u32 CMD_REPLY_RESP); CInt (u32 id); CInt (u32 code);
    CLong (u64 0)]) as Hc by (subst c; by autorewrite with flora).
  pose proof (serialize_small c flags size) as Hsm. rewrite Hc in Hsm.
  unfold DEFAULT_MSG_BUF_SIZE in Hs.
  destruct (caps_serialize c flags size) as [r b] eqn:Hser. simpl in Hsm.
  assert (0 <= r <= size) as Hr.
  { apply Hsm; [|lia..]. repeat constructor; simpl; int_lia. }
  rewrite bool_decide_false by lia.
  rewrite bool_decide_false by (rewrite u32_small by (unfold is_u32; lia); lia).
  by exists b.
Qed.

(** The reply that tells a caller of the timeout. *)
Definition timeout_reply (size flags cliid : Z) : bytes :=
  match ResponseSerializer.serialize_reply cliid FLORA_CLI_ETIMEOUT None 0 size flags with
  | Done (Some b) => b
  | _ => []
  end.

Lemma timeout_reply_fits size flags id :
  DEFAULT_MSG_BUF_SIZE <= size < two32 ->
  ResponseSerializer.serialize_reply id FLORA_CLI_ETIMEOUT None 0 size flags =
    Done (Some (timeout_reply size flags id)).
Proof.
  intros Hs. unfold timeout_reply.
  by destruct (error_reply_fits size flags id FLORA_CLI_ETIMEOUT Hs) as [b ->].
Qed.

(** One caller is told. *)
Definition tell_timeout (size : Z) (m : gmap aid (Adapter S)) (pc : PendingCall) : gmap aid (Adapter S) :=
  alter (fun x => set_impl (adap_write (timeout_reply size (serialize_flags x) (cliid pc)) (impl x)).2 x)
    (pc_sender pc) m.

Lemma wp_timeout s pc (Q : unit -> Disp caps S -> Prop) :
  DEFAULT_MSG_BUF_SIZE <= buf_size s < two32 -> is_Some (adapters s !! pc_sender pc) ->
  Q tt (set_adapters (tell_timeout (buf_size s) (adapters s) pc) s) ->
  wp (pending_call_timeout pc) Q s.
Proof.
  intros Hb [x Hx] HQ. unfold pending_call_timeout. wstep. eapply wp_deref; [done|]. do 2 wstep.
  rewrite timeout_reply_fits by done. wstep. eapply wp_write_adapter; [done|]. wstep.
  enough (alter (set_impl (adap_write (timeout_reply (buf_size s) (serialize_flags x) (cliid pc))
      (impl x)).2) (pc_sender pc) (adapters s) = tell_timeout (buf_size s) (adapters s) pc) as ->
    by done.
  apply map_eq. intros b. unfold tell_timeout. destruct (decide (pc_sender pc = b)) as [<-|].
  - by rewrite !lookup_alter_eq, Hx.
  - by rewrite !lookup_alter_ne.
Qed.

Lemma tell_timeout_same_infos size m pc : same_infos m (tell_timeout size m pc).
Proof. by apply same_infos_alter. Qed.

Definition due (tp : Z) (pc : PendingCall) : Prop := discard_tp pc <= tp.
#[export] Instance due_dec tp pc : Decision (due tp pc) := decide (discard_tp pc <= tp).

Lemma wp_discard_loop tp (Q : unit -> Disp caps S -> Prop) : forall l fuel s T,
  inv s T -> pending_calls s = l -> (length l <= fuel)%nat ->
  (forall s', inv s' T -> s' = set_pending_calls (filter (fun pc => ~ due tp pc) l)
       (set_adapters (foldl (tell_timeout (buf_size s)) (adapters s) (filter (due tp) l)) s) ->
     Q tt s') ->
  wp (discard_loop fuel tp) Q s.
Proof.
  intros l. induction l as [|pc l IH]; intros fuel s T Hi Hl Hf HQ.
  { assert (Q tt s) by (apply HQ; [done|destruct s; simpl in *; by subst]).
    destruct fuel; simpl; [by wsteps|]. wsteps. rewrite Hl. by wsteps. }
  destruct fuel as [|fuel]; simpl in Hf; [lia|]. simpl. wsteps. rewrite Hl.
  pose proof (inv_calls _ _ Hi) as Hc. rewrite Hl in Hc. pose proof Hc as [Hs Hsome].
  apply Forall_cons in Hsome as [[Hsome _] Hrest]. apply StronglySorted_inv in Hs as [Hs Hle].
  case_bool_decide as Hd.
  - apply wpx_ret, HQ; [done|].
    assert (filter (due tp) (pc :: l) = [] /\ filter (fun pc => ~ due tp pc) (pc :: l) = pc :: l)
      as [-> ->]; [|destruct s; simpl in *; by subst].
    assert (Forall (fun pc => ~ due tp pc) (pc :: l)) as Hnd.
    { constructor; [unfold due; lia|]. eapply Forall_impl; [exact Hle|]. unfold earlier, due. simpl. lia. }
    split.
    + clear -Hnd. induction Hnd; [done|]. by rewrite filter_cons_False.
    + clear -Hnd. induction Hnd; [done|]. rewrite filter_cons_True by done. by f_equal.
  - rewrite (filter_cons_True (due tp)), (filter_cons_False (fun pc => ~ due tp pc)) in HQ
      by (unfold due; lia).
    wstep. apply wp_timeout; [apply Hi|done|]. do 2 wstep. cbn beta.
    eapply IH; [|simpl; by rewrite Hl|lia|].
    + eapply inv_keeps; [exact Hi| |simpl; rewrite Hl|apply Hi].
      * split; try done. apply tell_timeout_same_infos.
      * eapply calls_ok_same; [apply tell_timeout_same_infos|].
        change (l) with ([] ++ l). by eapply calls_ok_remove.
    + intros s' Hi' ->. apply HQ; [done|]. done.
Qed.

(** The loop that discards calls, as a split of the list. *)
Lemma discard_calls_spec s T :
  inv s T ->
  let tp := steady_clock (ticks s) in
  let calls := pending_calls s in
  exists s', discard_pending_calls s = Done (tt, s') /\ inv s' T /\
    s' = set_pending_calls (filter (fun pc => ~ due tp pc) calls)
          (set_adapters (foldl (tell_timeout (buf_size s)) (adapters s) (filter (due tp) calls))
            (set_ticks (Datatypes.S (ticks s)) s)).
Proof.
  intros Hi tp calls. enough (wp discard_pending_calls (fun _ s' => inv s' T /\
    s' = set_pending_calls (filter (fun pc => ~ due tp pc) calls)
          (set_adapters (foldl (tell_timeout (buf_size s)) (adapters s) (filter (due tp) calls))
            (set_ticks (Datatypes.S (ticks s)) s))) s) as Hw.
  { destruct (wp_done _ _ _ Hw) as ([] & s' & ? & ?). by exists s'. }
  unfold discard_pending_calls.
  wstep. apply wp_now. do 2 wstep. eapply wp_discard_loop; [|done|done|].
  - eapply inv_other; [done|by split|done..].
  - intros s' Hi' ->. done.
Qed.

(** C31. Timeouts are exact: [discard_pending_calls] drops exactly the calls whose
    deadline has passed at the clock reading it takes, keeps the others in order,
    writes to each dropped call's caller, earliest deadline first, the reply
    [FLORA_CLI_ETIMEOUT] with that caller's own call id, and changes nothing else. *)
Theorem discard_exact s T :
  inv s T ->
  let tp := steady_clock (ticks s) in
  let calls := pending_calls s in
  exists s', discard_pending_calls s = Done (tt, s') /\ inv s' T /\
    s' = set_pending_calls (filter (fun pc => ~ due tp pc) calls)
          (set_adapters (foldl (tell_timeout (buf_size s)) (adapters s) (filter (due tp) calls))
            (set_ticks (Datatypes.S (ticks s)) s)).
Proof. apply discard_calls_spec. Qed.
End Safe.
