(* ===== verification/DispSpec.v ===== *)
(** * What the dispatcher's handlers do: publish and subscribe *)
From S2P Require Import Prelude Defs Caps RefCaps Adap Reader SerHelper Disp DispInv DispOps.
Import Dispatcher.

Section Spec.
Context {caps : Type} `{!CapsOps caps, !CapsFlags} {S : Type} `{!AdapterImpl S, !SteadyClock}.
Implicit Types (s : Disp caps S) (a : aid).

(** The registration of an adapter, if it has one. *)
Definition info_of s a : option AdapterInfo :=
  match adapters s !! a with
  | Some x =>
      match info x with
      | Some (InAdapters k) => adapter_infos s !! k
      | Some (InMonitors k) => monitors s !! k
      | None => None
      end
  | None => None
  end.

(** The message [c] is a request that [p] parses as [r]. *)
Definition request {A} (p : P caps unit A) (c : caps) (r : A) : Prop := (p (c, tt)).1 = POk r.

Lemma wp_request {A} (p : P caps unit A) c r (Q : option A -> Disp caps S -> Prop) s :
  request p c r -> Q (Some r) s -> wp (parse p c) Q s.
Proof. intros Hr HQ. unfold parse. by rewrite Hr. Qed.

Lemma info_of_some s a i :
  info_of s a = Some i ->
  exists x p, adapters s !! a = Some x /\ info x = Some p /\
    (forall s' (Q : AdapterInfo -> Disp caps S -> Prop), adapter_infos s' = adapter_infos s ->
      monitors s' = monitors s -> Q i s' -> wp (read_info p) Q s').
Proof.
  unfold info_of. destruct (adapters s !! a) as [x|]; [|done].
  destruct (info x) as [p|] eqn:Hp; [|done]. intros Hi. exists x, p. split_and!; try done.
  intros s' Q H1 H2 HQ. destruct p; eapply wp_read_info; [by rewrite H1|done|by rewrite H2|done].
Qed.

(** ** Delivering one message to several connections *)

(** What an adapter becomes when the bytes, if any, are written to it. *)
Definition receive (ob : option bytes) (x : Adapter S) : Adapter S :=
  match ob with
  | Some b => set_impl (adap_write b (impl x)).2 x
  | None => x
  end.

(** A message that is written reaches a connection that stays open. *)
Definition open (x : Adapter S) : Prop := adap_closed (impl x) = false.

Lemma receive_open `{!AdapterLaws S} d (x : Adapter S) :
  open (receive (Some d) x) ->
  open x /\ adap_sent (impl (receive (Some d) x)) = adap_sent (impl x) ++ [d].
Proof.
  unfold open. simpl. destruct (adap_write d (impl x)) as [r i] eqn:Hw. simpl. intros Ho.
  assert (adap_closed (impl x) = false) as Hx.
  { destruct (adap_closed (impl x)) eqn:Hc; [|done]. pose proof (write_keeps_closed _ _ _ _ Hw Hc). congruence. }
  split; [done|]. destruct (decide (r = 0)) as [->|Hr].
  - by apply write_ok in Hw as [_ ?].
  - apply write_fails_closes in Hw; [congruence|done].
Qed.

(** The adapters of [l] have received [f], the others are as they were. *)
Definition delivered (l : list aid) (f : Adapter S -> Adapter S) (m m' : gmap aid (Adapter S)) : Prop :=
  forall b, m' !! b = (if bool_decide (b ∈ l) then f <$> m !! b else m !! b).

Lemma wp_deliver_all b l (Q : unit -> Disp caps S -> Prop) : forall s,
  NoDup l -> (forall a, a ∈ l -> alive s a = true /\ is_Some (adapters s !! a)) ->
  (forall m, delivered l (receive (Some b)) (adapters s) m -> Q tt (set_adapters m s)) ->
  wp (for_each l (fun a => s' ← get; when (alive s' a) (write_adapter a b ;; mret tt))) Q s.
Proof.
  induction l as [|a l IH]; intros s Hnd Hl HQ; simpl.
  { apply wpx_ret. replace s with (set_adapters (adapters s) s) by (by destruct s). apply HQ.
    intros b'. by rewrite bool_decide_false by apply not_elem_of_nil. }
  apply NoDup_cons in Hnd as [Ha Hnd]. destruct (Hl a) as [Hal [x Hx]]; [by left|].
  do 2 wstep. wstep. rewrite Hal. simpl. wstep. eapply wp_write_adapter; [done|]. wstep.
  set (m1 := alter _ a (adapters s)). apply IH; [done| |].
  - intros b' Hb'. destruct (Hl b') as [? [y Hy]]; [by right|]. split; [done|]. simpl. subst m1.
    rewrite lookup_alter_ne; [by exists y|]. intros ->. done.
  - intros m Hm. apply (HQ m). intros b'. rewrite (Hm b'). simpl. subst m1.
    destruct (decide (a = b')) as [<-|Hne].
    + rewrite bool_decide_false by done. rewrite bool_decide_true by (by left).
      rewrite lookup_alter_eq, Hx. done.
    + rewrite lookup_alter_ne by done. by rewrite (bool_decide_ext (b' ∈ l) (b' ∈ a :: l))
        by (rewrite elem_of_cons; naive_solver).
Qed.

Lemma wp_write_post name type args tg flags l sender_name (Q : unit -> Disp caps S -> Prop) s :
  NoDup l -> (forall a, a ∈ l -> alive s a = true /\ is_Some (adapters s !! a)) ->
  (forall m, delivered l (receive (ResponseSerializer.serialize_post (c_str name) type args tg
       sender_name (buf_size s) flags)) (adapters s) m -> Q tt (set_adapters m s)) ->
  wp (when (bool_decide (l <> []))
       (write_post_msg_to_adapters name type args tg flags l sender_name)) Q s.
Proof.
  intros Hnd Hl HQ.
  assert (forall f, (forall y, f y = y) -> (forall m, delivered l f (adapters s) m ->
    Q tt (set_adapters m s)) -> Q tt s) as Hid.
  { intros f Hf HQ'. replace s with (set_adapters (adapters s) s) by (by destruct s). apply HQ'.
    intros b. case_bool_decide; [|done]. destruct (adapters s !! b); simpl; [by rewrite Hf|done]. }
  case_bool_decide as Hne; simpl.
  - unfold write_post_msg_to_adapters. do 2 wstep.
    destruct (ResponseSerializer.serialize_post _ _ _ _ _ _ _) as [b|].
    + by apply wp_deliver_all.
    + apply wpx_ret. by eapply Hid.
  - apply wpx_ret. destruct l as [|a l]; [|by contradict Hne].
    replace s with (set_adapters (adapters s) s) by (by destruct s). apply HQ. intros b.
    by rewrite bool_decide_false by apply not_elem_of_nil.
Qed.

(** ** A sender that is not registered gets nothing done *)

Lemma unregistered_noop s a x cmd h c :
  adapters s !! a = Some x -> info x = None -> msg_handler cmd = Some h -> cmd <> CMD_AUTH_REQ ->
  h c a s = Done (false, s).
Proof.
  intros Hx Hi Hh Hc. unfold msg_handler in Hh. case_bool_decide; [|done]. unfold msg_handlers in Hh.
  assert (Z.to_nat cmd <> 0%nat) by (unfold CMD_AUTH_REQ in *; lia).
  destruct (Z.to_nat cmd) as [|[|[|[|[|[|[|[|[|n]]]]]]]]]; simpl in Hh; simplify_eq;
    unfold handle_subscribe_req, handle_unsubscribe_req, handle_post_req, handle_reply_req,
      handle_declare_method, handle_remove_method, handle_call_req, handle_ping_req, deref,
      mbind, M_bind, mret, M_ret; rewrite Hx; rewrite ?Hi; try done; by rewrite bool_decide_true.
Qed.

(** ** A handler, as a command *)

Lemma run_done {A} (m : M (Disp caps S) A) r s s' :
  wp m (fun r' s'' => r' = r /\ s'' = s') s -> m s = Done (r, s').
Proof. intros Hw. by destruct (wp_done _ _ _ Hw) as (? & ? & ? & -> & ->). Qed.

(** [a] is a registered client (not a monitor) of the connection [x]. *)
Definition registered s a x i : Prop :=
  adapters s !! a = Some x /\ info_of s a = Some i /\ has_flag (ai_flags i) FLORA_CLI_FLAG_MONITOR = false.

(** What [handle_cmd] does after the handler. *)
Definition stamp s : Disp caps S := set_handle_cmd_tp (steady_clock (ticks s)) (set_ticks (Datatypes.S (ticks s)) s).

Definition close_conn (x : Adapter S) : Adapter S := set_impl (adap_close (impl x)) x.

Lemma handle_cmd_result s cm c' a x i cmd h ok s' :
  registered s a x i -> caps_read_i32 cm = (Some cmd, c') -> cmd < MSG_HANDLER_COUNT ->
  msg_handler cmd = Some h -> h c' a s = Done (ok, s') -> (ok = false -> is_Some (adapters s' !! a)) ->
  handle_cmd (Some cm) a s =
    Done (tt, stamp (if ok : bool then s' else set_adapters (alter close_conn a (adapters s')) s')).
Proof.
  intros (Hx & Hinf & Hmon) Hr Hc Hh Hd Hy.
  destruct (info_of_some _ _ _ Hinf) as (x' & p & Hx' & Hp & Hread). simplify_eq.
  apply run_done. unfold handle_cmd. wstep. eapply wp_deref; [done|]. rewrite Hp.
  do 2 wstep. apply Hread; [done..|]. wstep. rewrite Hmon, Hr. rewrite bool_decide_false by lia. rewrite Hh.
  wstep. unfold wpx at 1. rewrite Hd. unfold now. destruct ok; [by wsteps|].
  destruct (Hy eq_refl) as [y Hy']. wstep. eapply wp_close_adapter; [done|]. wsteps. split; [done|].
  replace (alter close_conn a (adapters s')) with (alter (set_impl (adap_close (impl y))) a (adapters s')); [done|].
  apply map_eq. intros b. destruct (decide (a = b)) as [<-|]; [by rewrite !lookup_alter_eq, Hy'|by rewrite !lookup_alter_ne].
Qed.

Lemma handle_cmd_handled s cm c' a x i cmd h s' :
  registered s a x i -> caps_read_i32 cm = (Some cmd, c') -> cmd < MSG_HANDLER_COUNT ->
  msg_handler cmd = Some h -> h c' a s = Done (true, s') ->
  handle_cmd (Some cm) a s = Done (tt, stamp s').
Proof. intros. by eapply (handle_cmd_result _ _ _ _ _ _ _ _ true). Qed.

Context (c0 : caps) (a : aid) (todo : list (CmdPacket caps)).

(** ** Posting *)

(** Who gets a message posted under [name]. *)
Definition recipients s name : list aid :=
  open_subscribers s (default [] (subscriptions s !! name)).

(** The message as each recipient gets it. *)
Definition post_to (size : Z) name type args tg sender_name (y : Adapter S) : Adapter S :=
  receive (ResponseSerializer.serialize_post (c_str name) type args tg (c_str sender_name) size
    (if bool_decide (serialize_flags y = CAPS_FLAG_NET_BYTEORDER)
     then CAPS_FLAG_NET_BYTEORDER else 0)) y.

(** The subscriptions once the dead and closed subscribers of [name] are dropped. *)
Definition prune s name : gmap string (list aid) :=
  match subscriptions s !! name with
  | None => subscriptions s
  | Some _ => if bool_decide (recipients s name = []) then delete name (subscriptions s)
              else <[name := recipients s name]> (subscriptions s)
  end.

Definition persisted (type : Z) (name : string) (args : option caps) (m : gmap string (option caps)) :=
  if bool_decide (type = FLORA_MSGTYPE_PERSIST) then <[name := args]> m else m.

Lemma open_subscriber_alive s b : open_subscriber s b = true -> alive s b = true /\ is_Some (adapters s !! b).
Proof.
  unfold open_subscriber. rewrite andb_true_iff. destruct (adapters s !! b); [|by intros []].
  intros []. eauto.
Qed.

Lemma delivered_halves s kept f g h m m' :
  delivered (filter (fun b => net_order s b = false) kept) f (adapters s) m ->
  delivered (filter (fun b => net_order s b = true) kept) g m m' ->
  (forall b y, adapters s !! b = Some y -> h y = (if net_order s b then g y else f y)) ->
  delivered kept h (adapters s) m'.
Proof.
  intros Hm Hm' Hh b. rewrite (Hm' b), (Hm b). specialize (Hh b).
  repeat case_bool_decide;
    repeat match goal with H : context [_ ∈ filter _ _] |- _ => rewrite list_elem_of_filter in H end;
    destruct (adapters s !! b) as [y|]; simpl; try done; try rewrite (Hh y eq_refl);
    destruct (net_order s b); naive_solver.
Qed.

(** The state after a post. *)
Definition posted s name type (args : option caps) (x : Adapter S) i s' : Prop :=
  exists m, delivered (recipients s name) (post_to (buf_size s) name type args (tag x) (ai_name i)) (adapters s) m /\
    s' = set_persist_msgs (persisted type name args (persist_msgs s))
           (set_subscriptions (prune s name) (set_adapters m s)).

(** The end of a post. *)
Lemma wp_post_end s name type (args : option caps) :
  wp (when (bool_decide (type = FLORA_MSGTYPE_PERSIST))
       (modify (fun s : Disp caps S => set_persist_msgs (<[name:=args]> (persist_msgs s)) s)) ;;
     mret true) (fun ok s' => ok = true /\ s' = set_persist_msgs (persisted type name args (persist_msgs s)) s) s.
Proof. unfold persisted. case_bool_decide; simpl; wsteps; [done|]. split; [done|]. by destruct s. Qed.

(** Posting, as an exact change of the state. *)
Lemma handle_post_delivers s c x i name type args :
  inv s ((Some c0, a) :: todo) -> adapters s !! a = Some x -> info_of s a = Some i ->
  request RequestParser.parse_post c (name, type, args) ->
  name <> EmptyString -> is_valid_msgtype type = true ->
  exists m, delivered (recipients s name)
      (post_to (buf_size s) name type args (tag x) (ai_name i)) (adapters s) m /\
    handle_post_req c a s =
      Done (true, set_persist_msgs (persisted type name args (persist_msgs s))
                    (set_subscriptions (prune s name) (set_adapters m s))).
Proof.
  intros Hi Hx Hinf Hreq Hname Htype.
  enough (wp (handle_post_req c a) (fun ok s' => ok = true /\ posted s name type args x i s') s) as Hw.
  { destruct (wp_done _ _ _ Hw) as (? & s' & Hd & -> & m & Hm & ->). by exists m. }
  destruct (info_of_some _ _ _ Hinf) as (x' & p & Hx' & Hp & Hread). simplify_eq.
  unfold handle_post_req. wstep. eapply wp_deref; [done|]. rewrite bool_decide_false by congruence.
  wstep. eapply wp_request; [done|]. unfold post_msg. rewrite Htype. cbn [negb].
  wstep. eapply wp_deref; [done|]. wstep. unfold deref_info. rewrite Hp. apply Hread; [done..|].
  rewrite bool_decide_false by done. do 3 wstep.
  match goal with |- context [when (bool_decide (type = _)) ?m ;; mret true] =>
    set (last := (when (bool_decide (type = FLORA_MSGTYPE_PERSIST)) m ;; mret true)) end.
  assert (forall m, delivered (recipients s name)
      (post_to (buf_size s) name type args (tag x) (ai_name i)) (adapters s) m ->
    wp last (fun ok s' => ok = true /\ posted s name type args x i s')
      (set_subscriptions (prune s name) (set_adapters m s))) as Hend.
  { intros m Hm. eapply wpx_mono; [apply wp_post_end|]. intros ok s' [-> ->]. split; [done|]. by exists m. }
  unfold prune, recipients in *. destruct (subscriptions s !! name) as [l|] eqn:Hl; simpl in *.
  2: { apply wpx_ret. replace s with (set_subscriptions (subscriptions s) (set_adapters (adapters s) s))
         at 1 by (by destruct s).
       apply Hend. intros b. by rewrite bool_decide_false by apply not_elem_of_nil. }
  pose proof (inv_subs _ _ Hi name l Hl) as (_ & _ & Hnd).
  assert (NoDup (open_subscribers s l)) as Hnd' by by apply NoDup_filter.
  assert (forall P `{!forall b, Decision (P b)} b, b ∈ filter P (open_subscribers s l) ->
    alive s b = true /\ is_Some (adapters s !! b)) as Hopen.
  { intros P ? b [_ [Hb _]%list_elem_of_filter]%list_elem_of_filter. by apply open_subscriber_alive. }
  wstep. apply wp_partition; [by intros; eapply inv_alive|]. cbn zeta. wstep.
  apply wp_write_post; [by apply NoDup_filter|by apply Hopen|]. intros m1 Hm1. wstep.
  apply wp_write_post; [by apply NoDup_filter| |].
  { intros b Hb. destruct (Hopen _ _ b Hb) as [? Hs]. split; [done|]. simpl. rewrite (Hm1 b).
    destruct (bool_decide (b ∈ _)); [by apply fmap_is_Some|done]. }
  intros m2 Hm2. wstep. apply (Hend m2). eapply delivered_halves; [done..|].
  intros b y Hy. unfold post_to, net_order. rewrite Hy. simpl.
  by destruct (bool_decide (serialize_flags y = _)).
Qed.

(** C25. Posting delivers to exactly the open subscribers of the name: each of them
    gets the message once, with the sender's tag and name, in its own byte order;
    no other connection is touched; subscribers that are gone are dropped (and the
    name with them when none is left); a persistent message becomes the one kept
    for the name; nothing else of the dispatcher changes. *)
Theorem post_delivers s c x i name type args :
  inv s ((Some c0, a) :: todo) -> adapters s !! a = Some x -> info_of s a = Some i ->
  request RequestParser.parse_post c (name, type, args) ->
  name <> EmptyString -> is_valid_msgtype type = true ->
  exists m, delivered (recipients s name)
      (post_to (buf_size s) name type args (tag x) (ai_name i)) (adapters s) m /\
    handle_post_req c a s =
      Done (true, set_persist_msgs (persisted type name args (persist_msgs s))
                    (set_subscriptions (prune s name) (set_adapters m s))).
Proof. apply handle_post_delivers. Qed.

(** ** Subscribing *)

Lemma alter_at (m : gmap aid (Adapter S)) b f x :
  m !! b = Some x -> alter f b m = <[b := f x]> m.
Proof.
  intros Hx. apply map_eq. intros b'. destruct (decide (b = b')) as [<-|].
  - by rewrite lookup_alter_eq, lookup_insert_eq, Hx.
  - by rewrite lookup_alter_ne, lookup_insert_ne.
Qed.

(** Writing, as an exact change of the state. *)
Lemma wp_write_receive s b d (Q : Z -> Disp caps S -> Prop) :
  is_Some (adapters s !! b) ->
  (forall r, Q r (set_adapters (alter (receive (Some d)) b (adapters s)) s)) ->
  wp (write_adapter b d) Q s.
Proof.
  intros [x Hx] HQ. eapply wp_write_adapter; [done|]. specialize (HQ (adap_write d (impl x)).1).
  rewrite (alter_at _ _ _ x Hx) in HQ. by rewrite (alter_at _ _ _ x Hx).
Qed.

Lemma set_adapters_id s : set_adapters (adapters s) s = s.
Proof. by destruct s. Qed.

Definition subscribers s name : list aid := default [] (subscriptions s !! name).

(** What a new subscriber of [name] is sent at once. *)
Definition greeting s name (y : Adapter S) : Adapter S :=
  match persist_msgs s !! name with
  | None => y
  | Some data =>
      match ResponseSerializer.serialize_post (c_str name) FLORA_MSGTYPE_PERSIST data 0 EmptyString
              (buf_size s) (serialize_flags y) with
      | Some b => if bool_decide (b <> []) then receive (Some b) y else y
      | None => y
      end
  end.

(** C29. Subscribing puts the sender at the end of the name's subscribers, once
    however often it subscribes, and a new subscriber, and nobody else, is sent
    the message kept for the name; nothing else of the dispatcher changes. *)
Theorem subscribe_exact s c i name :
  inv s ((Some c0, a) :: todo) -> info_of s a = Some i ->
  request RequestParser.parse_subscribe c name -> name <> EmptyString ->
  let l := subscribers s name in
  handle_subscribe_req c a s =
    Done (true,
      if bool_decide (a ∈ l) then set_subscriptions (<[name := l]> (subscriptions s)) s
      else set_adapters (alter (greeting s name) a (adapters s))
             (set_subscriptions (<[name := l ++ [a]]> (subscriptions s)) s)).
Proof.
  intros Hi Hinf Hreq Hname l. destruct (info_of_some _ _ _ Hinf) as (x & p & Hx & Hp & _).
  apply run_done. unfold handle_subscribe_req.
  wstep. eapply wp_deref; [done|]. rewrite bool_decide_false by congruence.
  wstep. eapply wp_request; [done|]. rewrite bool_decide_false by done. do 4 wstep.
  change (default [] (subscriptions s !! name)) with l. destruct (bool_decide (a ∈ l)); [by wsteps|]. do 4 wstep. cbn [persist_msgs set_subscriptions].
  rewrite (alter_at _ _ _ x Hx). unfold greeting.
  destruct (persist_msgs s !! name) as [data|].
  2: { wstep. by rewrite (insert_id (adapters s) a x Hx). }
  wstep. eapply wp_deref; [done|]. do 2 wstep. cbn [buf_size set_subscriptions].
  destruct (ResponseSerializer.serialize_post _ _ _ _ _ _ _) as [b|].
  2: { wstep. by rewrite (insert_id (adapters s) a x Hx). }
  destruct (bool_decide (b <> [])).
  - wstep. cbn [when]. wstep. apply wp_write_receive; [by exists x|]. intros _. do 2 wstep.
    split; [done|]. simpl. by rewrite (alter_at _ _ _ x).
  - wstep. cbn [when]. do 2 wstep. by rewrite (insert_id (adapters s) a x Hx).
Qed.

(** Unsubscribing removes the sender from the name's subscribers (and those
    that no longer exist, and the name with its last subscriber), keeps the other
    subscribers in order, and changes nothing else. *)
Theorem unsubscribe_exact s c i name :
  inv s ((Some c0, a) :: todo) -> info_of s a = Some i ->
  request RequestParser.parse_unsubscribe c name -> name <> EmptyString ->
  exists s', handle_unsubscribe_req c a s = Done (true, s') /\
    s' = set_subscriptions (subscriptions s') s /\
    (a ∉ subscribers s' name) /\
    (forall b, b <> a -> alive s b = true -> (b ∈ subscribers s' name <-> b ∈ subscribers s name)) /\
    sublist (subscribers s' name) (subscribers s name) /\
    (forall n, n <> name -> subscriptions s' !! n = subscriptions s !! n).
Proof.
  intros Hi Hinf Hreq Hname. destruct (info_of_some _ _ _ Hinf) as (x & p & Hx & Hp & _).
  enough (wp (handle_unsubscribe_req c a) (fun ok s' => ok = true /\
    s' = set_subscriptions (subscriptions s') s /\
    (a ∉ subscribers s' name) /\
    (forall b, b <> a -> alive s b = true -> (b ∈ subscribers s' name <-> b ∈ subscribers s name)) /\
    sublist (subscribers s' name) (subscribers s name) /\
    (forall n, n <> name -> subscriptions s' !! n = subscriptions s !! n)) s) as Hw.
  { destruct (wp_done _ _ _ Hw) as (? & s' & ? & -> & ?). by exists s'. }
  unfold handle_unsubscribe_req.
  wstep. eapply wp_deref; [done|]. rewrite bool_decide_false by congruence.
  wstep. eapply wp_request; [done|]. rewrite bool_decide_false by done. do 2 wstep.
  unfold subscribers. destruct (subscriptions s !! name) as [l|] eqn:Hl; wsteps.
  2: { rewrite Hl. simpl. split_and!; try done; [by destruct s|apply not_elem_of_nil]. }
  set (l' := filter _ l). simpl.
  assert (default [] ((if bool_decide (l' = []) then delete name (subscriptions s)
    else <[name:=l']> (subscriptions s)) !! name) = l') as ->.
  { case_bool_decide as Hn; [by rewrite lookup_delete_eq, Hn|by rewrite lookup_insert_eq]. }
  subst l'. split_and!; try done.
  - rewrite list_elem_of_filter. naive_solver.
  - intros b Hb Hal. rewrite list_elem_of_filter. naive_solver.
  - apply sublist_filter.
  - intros n Hn. case_bool_decide; [by rewrite lookup_delete_ne|by rewrite lookup_insert_ne].
Qed.

(** ** Methods *)

Definition set_info_of s a (i : AdapterInfo) : Disp caps S :=
  match adapters s !! a with
  | Some x =>
      match info x with
      | Some (InAdapters k) => set_adapter_infos (<[k := i]> (adapter_infos s)) s
      | Some (InMonitors k) => set_monitors (<[k := i]> (monitors s)) s
      | None => s
      end
  | None => s
  end.

(** C30. Declaring a method succeeds exactly when the client has not declared it
    yet, and a removal always does (so the connection is closed on a double
    declaration only); afterwards the client has exactly the methods it should. *)
Theorem methods_exact s c i name :
  inv s ((Some c0, a) :: todo) -> info_of s a = Some i -> name <> EmptyString ->
  (request RequestParser.parse_declare_method c name ->
     handle_declare_method c a s =
       Done (negb (has_method name i), set_info_of s a (declare_method name i).2)) /\
  (request RequestParser.parse_remove_method c name ->
     handle_remove_method c a s = Done (true, set_info_of s a (remove_method name i))) /\
  (forall m, has_method m (declare_method name i).2 = bool_decide (m = name) || has_method m i) /\
  (forall m, has_method m (remove_method name i) = negb (bool_decide (m = name)) && has_method m i).
Proof.
  intros Hi Hinf Hname. destruct (info_of_some _ _ _ Hinf) as (x & p & Hx & Hp & Hread).
  split_and!; [intros Hreq..| |]; [| |intros; apply has_method_declare|intros; apply has_method_remove].
  - apply run_done. unfold handle_declare_method.
    wstep. eapply wp_deref; [done|]. rewrite Hp. wstep. eapply wp_request; [done|].
    rewrite bool_decide_false by done. wstep. apply Hread; [done..|].
    unfold declare_method at 1. unfold write_info. do 3 wstep. unfold has_method, set_info_of.
    rewrite Hx, Hp. split; [|by destruct p].
    by rewrite bool_decide_not.
  - apply run_done. unfold handle_remove_method.
    wstep. eapply wp_deref; [done|]. rewrite Hp. wstep. eapply wp_request; [done|].
    rewrite bool_decide_false by done. wstep. apply Hread; [done..|].
    unfold write_info. do 3 wstep. unfold set_info_of. rewrite Hx, Hp. split; [done|by destruct p].
Qed.
End Spec.
