(* ===== verification/DispCalls.v ===== *)
(** * What the dispatcher's handlers do: method calls *)
From S2P Require Import Prelude Defs Caps RefCaps Adap Reader SerHelper Disp DispInv DispOps.
From S2P Require Import DispSafe DispSpec.
Import Dispatcher.

Section Calls.
Context {caps : Type} `{!CapsOps caps, !CapsFlags} {S : Type} `{!AdapterImpl S, !SteadyClock}.
Implicit Types (s : Disp caps S) (a t : aid).

(** The client that a call to [target] of the method [name] goes to. *)
Definition call_target s (target name : string) : option aid :=
  match named_adapters s !! target with
  | Some t =>
      match info_of s t with
      | Some i => if has_method name i then Some t else None
      | None => None
      end
  | None => None
  end.

Lemma wp_callee s T target name (Q : option aid -> Disp caps S -> Prop) :
  inv s T -> Q (call_target s target name) s ->
  wp (find_callee (named_adapters s) target name) Q s.
Proof.
  intros Hi HQ. unfold find_callee, call_target in *.
  destruct (named_adapters s !! target) as [t|] eqn:Ht; [|by wsteps].
  destruct (named_info _ _ _ _ Hi Ht) as (y & i & Hy & Hyi & Hii & _).
  unfold info_of in HQ. rewrite Hy, Hyi, Hii in HQ.
  wstep. eapply wp_deref; [done|]. wstep. unfold deref_info. rewrite Hyi.
  eapply wp_read_info; [done|]. by wstep.
Qed.

Lemma call_target_some s T target name t :
  inv s T -> call_target s target name = Some t -> exists y, adapters s !! t = Some y.
Proof.
  unfold call_target. intros Hi. destruct (named_adapters s !! target) as [t'|] eqn:Ht; [|done].
  destruct (named_info _ _ _ _ Hi Ht) as (y & i & Hy & _).
  destruct (info_of s t') as [j|]; [|done]. destruct (has_method name j); [|done].
  intros [= <-]. eauto.
Qed.

(** The deadline of a call made when the clock shows [t]. *)
Definition deadline (t timeout : Z) : Z :=
  t + (if bool_decide (timeout = 0) then DEFAULT_CALL_TIMEOUT else timeout) * 1000000.

Section Handling.
Context (c0 : caps) (a : aid) (todo : list (CmdPacket caps)).

(** The call as the dispatcher records it. *)
Definition call_record s (cli timeout : Z) t : PendingCall :=
  mkPendingCall (reqseq s + 1) cli a t (deadline (steady_clock (ticks s)) timeout).

(** A call to a name that nobody holds, or to a method its holder has not
    declared, is answered to the caller at once with [FLORA_CLI_ENEXISTS] and the
    caller's own call id, and leaves no trace in the dispatcher. *)
Theorem call_unroutable `{!CapsLaws caps, !CapsSmall caps} s c x i name args target cli timeout :
  inv s ((Some c0, a) :: todo) -> adapters s !! a = Some x -> info_of s a = Some i ->
  request RequestParser.parse_call c (name, args, target, cli, timeout) ->
  call_target s target name = None ->
  exists b,
    ResponseSerializer.serialize_reply cli FLORA_CLI_ENEXISTS None 0 (buf_size s) (serialize_flags x) =
      Done (Some b) /\
    handle_call_req c a s = Done (true, set_adapters (alter (receive (Some b)) a (adapters s)) s).
Proof.
  intros Hi Hx Hinf Hreq Ht. destruct (info_of_some _ _ _ Hinf) as (x' & p & Hx' & Hp & _).
  simplify_eq. destruct (error_reply_fits (buf_size s) (serialize_flags x) cli FLORA_CLI_ENEXISTS)
    as [b Hb]; [apply Hi|done|].
  exists b. split; [done|]. apply run_done. unfold handle_call_req.
  wstep. eapply wp_deref; [done|]. rewrite bool_decide_false by congruence.
  wstep. eapply wp_request; [done|]. wsteps. eapply wp_callee; [done|]. rewrite Ht, Hb.
  wstep. apply wp_write_receive; [by exists x|]. intros _. by wstep.
Qed.

(** A call that is routed, as an exact change of the state. *)
Lemma handle_call_forwards s c x y i name args target cli timeout t :
  inv s ((Some c0, a) :: todo) -> adapters s !! a = Some x -> info_of s a = Some i ->
  request RequestParser.parse_call c (name, args, target, cli, timeout) ->
  call_target s target name = Some t -> adapters s !! t = Some y -> reqseq s + 1 < two31 ->
  let pc := call_record s cli timeout t in
  let s1 := set_pending_calls (insert_call pc (pending_calls s))
              (set_ticks (Datatypes.S (ticks s)) (set_reqseq (svrid pc) s)) in
  handle_call_req c a s =
    match ResponseSerializer.serialize_call (c_str name) args (svrid pc) (tag x) (c_str (ai_name i))
            (buf_size s) (serialize_flags y) with
    | Some b => Done (true, set_adapters (alter (receive (Some b)) t (adapters s)) s1)
    | None => Done (false, s1)
    end.
Proof.
  intros Hi Hx Hinf Hreq Ht Hy Hn pc s1. destruct (info_of_some _ _ _ Hinf) as (x' & p & Hx' & Hp & Hread).
  simplify_eq.
  enough (wp (handle_call_req c a) (fun ok s' =>
    match ResponseSerializer.serialize_call (c_str name) args (svrid pc) (tag x) (c_str (ai_name i))
            (buf_size s) (serialize_flags y) with
    | Some b => ok = true /\ s' = set_adapters (alter (receive (Some b)) t (adapters s)) s1
    | None => ok = false /\ s' = s1
    end) s) as Hw.
  { destruct (wp_done _ _ _ Hw) as (ok & s' & -> & Hs').
    destruct (ResponseSerializer.serialize_call _ _ _ _ _ _ _); by destruct Hs' as [-> ->]. }
  unfold handle_call_req.
  wstep. eapply wp_deref; [done|]. rewrite bool_decide_false by congruence.
  wstep. eapply wp_request; [done|]. wsteps. eapply wp_callee; [done|]. rewrite Ht.
  wstep. apply wp_next_svrid; [done|]. wsteps. unfold add_pending_call. cbn zeta. wstep. apply wp_now. do 2 wstep.
  unfold deref_info. rewrite Hp. apply Hread; [done..|]. wstep. eapply wp_deref; [done|].
  change (buf_size s) with (buf_size s1) at 2.
  destruct (ResponseSerializer.serialize_call _ _ _ _ _ _ _) as [b|].
  - wstep. apply wp_write_receive; [by exists y|]. intros _. wstep. by split.
  - wstep. by split.
Qed.

(** C26. A call to a declared method is forwarded: it is recorded under the next
    service id with the caller, the callee, the caller's id and its deadline (the
    timeout the caller gave, or 200 ms for none), behind exactly the pending calls that
    are due before it; the callee gets the call with the service id, the caller's tag and
    name, and nobody else gets anything; and when the message does not fit, nothing is
    sent, the recorded call is left to time out and the caller's connection is closed. *)
Theorem call_forwarded s c x y i name args target cli timeout t :
  inv s ((Some c0, a) :: todo) -> registered s a x i -> caps_read_i32 c0 = (Some CMD_CALL_REQ, c) ->
  request RequestParser.parse_call c (name, args, target, cli, timeout) ->
  call_target s target name = Some t -> adapters s !! t = Some y -> reqseq s + 1 < two31 ->
  let pc := call_record s cli timeout t in
  exists calls, recorded pc (pending_calls s) calls /\
    handle_cmd (Some c0) a s = Done (tt, stamp
      (set_adapters
        (match ResponseSerializer.serialize_call (c_str name) args (svrid pc) (tag x) (c_str (ai_name i))
                 (buf_size s) (serialize_flags y) with
         | Some b => alter (receive (Some b)) t (adapters s)
         | None => alter close_conn a (adapters s)
         end)
        (set_pending_calls calls (set_ticks (Datatypes.S (ticks s)) (set_reqseq (reqseq s + 1) s))))).
Proof.
  intros Hi Hreg Hr Hq Ht Hy Hn pc. pose proof Hreg as (Hx & Hinf & _).
  exists (insert_call pc (pending_calls s)). split; [apply insert_call_recorded, (inv_calls _ _ Hi)|].
  pose proof (handle_call_forwards s c x y i _ _ _ _ _ t Hi Hx Hinf Hq Ht Hy Hn) as Hd. cbv zeta in Hd.
  destruct (ResponseSerializer.serialize_call _ _ _ _ _ _ _) as [b|].
  - apply (handle_cmd_result s c0 c a x i CMD_CALL_REQ handle_call_req true _ Hreg Hr eq_refl eq_refl Hd). done.
  - apply (handle_cmd_result s c0 c a x i CMD_CALL_REQ handle_call_req false _ Hreg Hr eq_refl eq_refl Hd).
    intros _. by exists x.
Qed.

(** ** Replies *)

(** The bytes of a successful reply, as [reply] has them. *)
Definition reply_message (size flags cli tg code : Z) (data : option caps) (name : string) :=
  ResponseSerializer.serialize_reply cli FLORA_CLI_SUCCESS (Some (mkResponse code data name)) tg
    size flags.

(** A reply that is matched, as an exact change of the state. *)
Lemma handle_reply_routes s c x y i id code data l1 pc l2 b :
  inv s ((Some c0, a) :: todo) -> adapters s !! a = Some x -> info_of s a = Some i ->
  request RequestParser.parse_reply c (id, code, data) ->
  pending_calls s = l1 ++ pc :: l2 -> svrid pc = id -> pc_target pc = a ->
  Forall (fun q => ~ (svrid q = id /\ pc_target q = a)) l1 ->
  adapters s !! pc_sender pc = Some y -> adap_closed (impl y) = false ->
  reply_message (buf_size s) (serialize_flags y) (cliid pc) (tag x) code data (ai_name i) =
    Done (Some b) ->
  handle_reply_req c a s =
    Done (true, set_pending_calls (l1 ++ l2)
      (set_adapters (alter (receive (Some b)) (pc_sender pc) (adapters s)) s)).
Proof.
  intros Hi Hx Hinf Hreq Hl Hid Hta Hno Hy Hcl Hb. unfold reply_message in Hb.
  destruct (info_of_some _ _ _ Hinf) as (x' & p & Hx' & Hp & Hread). simplify_eq.
  apply run_done. unfold handle_reply_req.
  wstep. eapply wp_deref; [done|]. rewrite Hp. wstep. eapply wp_request; [done|]. wsteps.
  rewrite Hl, find_call_first; unfold answers; [|by rewrite !bool_decide_true|].
  2: { eapply Forall_impl; [exact Hno|]. intros q Hq. apply andb_false_iff. rewrite !bool_decide_eq_false.
       destruct (decide (svrid q = svrid pc)); naive_solver. }
  wstep. eapply wp_deref; [done|]. rewrite Hcl. wstep. apply Hread; [done..|].
  wsteps. rewrite Hb. wstep. apply wp_write_receive; [by exists y|]. intros _. by wsteps.
Qed.

(** A reply that matches no pending call of
    the sender, or whose caller has gone, changes nothing at all. *)
Lemma handle_reply_ignored s c x i id code data :
  inv s ((Some c0, a) :: todo) -> adapters s !! a = Some x -> info_of s a = Some i ->
  request RequestParser.parse_reply c (id, code, data) ->
  (forall pc, pc ∈ pending_calls s -> svrid pc = id -> pc_target pc = a ->
     exists y, adapters s !! pc_sender pc = Some y /\ adap_closed (impl y) = true) ->
  handle_reply_req c a s = Done (true, s).
Proof.
  intros Hi Hx Hinf Hreq Hno.
  destruct (info_of_some _ _ _ Hinf) as (x' & p & Hx' & Hp & Hread). simplify_eq.
  apply run_done. unfold handle_reply_req.
  wstep. eapply wp_deref; [done|]. rewrite Hp. wstep. eapply wp_request; [done|]. wsteps.
  destruct (find_call _ _) as [[pc rest]|] eqn:Hf; [|by wstep].
  pose proof (find_call_spec _ _ _ _ Hf) as (l1 & l2 & Hl & Hr & Hans & _).
  unfold answers in Hans. apply andb_true_iff in Hans as [H1%bool_decide_eq_true H2%bool_decide_eq_true].
  destruct (Hno pc) as (y & Hy & Hcl); [rewrite Hl; set_solver|done..|].
  wstep. eapply wp_deref; [done|]. rewrite Hcl. by wstep.
Qed.

(** C27. A reply is matched against the pending calls by service id and callee. When
    one matches, the first in deadline order, and its caller is still connected, the
    caller gets the return code, the data and the callee's name under the caller's own
    id, and that one call is no longer pending. When none matches (a wrong id, a call
    already answered or timed out, or a call made to somebody else), or the caller has
    gone, nothing changes at all. *)
Theorem reply_routed s c x i id code data :
  inv s ((Some c0, a) :: todo) -> adapters s !! a = Some x -> info_of s a = Some i ->
  request RequestParser.parse_reply c (id, code, data) ->
  (forall l1 pc l2 y b,
     pending_calls s = l1 ++ pc :: l2 -> svrid pc = id -> pc_target pc = a ->
     Forall (fun q => ~ (svrid q = id /\ pc_target q = a)) l1 ->
     adapters s !! pc_sender pc = Some y -> adap_closed (impl y) = false ->
     reply_message (buf_size s) (serialize_flags y) (cliid pc) (tag x) code data (ai_name i) = Done (Some b) ->
     handle_reply_req c a s =
       Done (true, set_pending_calls (l1 ++ l2)
         (set_adapters (alter (receive (Some b)) (pc_sender pc) (adapters s)) s))) /\
  ((forall pc, pc ∈ pending_calls s -> svrid pc = id -> pc_target pc = a ->
     exists y, adapters s !! pc_sender pc = Some y /\ adap_closed (impl y) = true) ->
   handle_reply_req c a s = Done (true, s)).
Proof. intros Hi Hx Hinf Hq. split; [intros; by eapply handle_reply_routes|by eapply handle_reply_ignored]. Qed.
End Handling.

(** ** A call and its reply *)

(** A call and its reply: once a call was forwarded (from the state [s]), the
    callee's reply with the service id it was given reaches the caller under the
    id the caller chose, with the code and data of the reply and the callee's
    registered name, and the pending calls are again those before the call. *)
Theorem call_reply_roundtrip s s2 a t c1 c' todo' cli timeout x y i code data b :
  Forall (fun q => svrid q <> reqseq s + 1) (pending_calls s) ->
  recorded (call_record a s cli timeout t) (pending_calls s) (pending_calls s2) ->
  inv s2 ((Some c1, t) :: todo') -> adapters s2 !! t = Some x -> info_of s2 t = Some i ->
  request RequestParser.parse_reply c' (reqseq s + 1, code, data) ->
  adapters s2 !! a = Some y -> adap_closed (impl y) = false ->
  reply_message (buf_size s2) (serialize_flags y) cli (tag x) code data (ai_name i) = Done (Some b) ->
  handle_reply_req c' t s2 =
    Done (true, set_pending_calls (pending_calls s)
      (set_adapters (alter (receive (Some b)) a (adapters s2)) s2)).
Proof.
  intros Hfresh (l1 & l2 & Hl & Hl' & _) Hi Hx Hinf Hreq Hy Hcl Hb. rewrite Hl in *.
  apply (handle_reply_routes c1 t todo' s2 c' x y i (reqseq s + 1) code data l1 (call_record a s cli timeout t) l2 b); try done.
  apply Forall_app in Hfresh as [Hf _]. eapply Forall_impl; [exact Hf|]. simpl. tauto.
Qed.
End Calls.
