(* ===== verification/DispAuth.v ===== *)
(** * What the dispatcher's handlers do: registration *)
From S2P Require Import Prelude Defs Caps RefCaps Adap Reader SerHelper Disp DispInv DispOps.
From S2P Require Import DispSafe DispSpec DispCalls.
Import Dispatcher.

Section Auth.
Context {caps : Type} `{!CapsOps caps, !CapsFlags} {S : Type} `{!AdapterImpl S, !SteadyClock}.
Implicit Types (s : Disp caps S) (a : aid).

(** The answer to an authentication. *)
Definition auth_code s (version : Z) (extra : string) (flags : Z) : Z :=
  if bool_decide (version < 3) then FLORA_CLI_EAUTH
  else if has_flag flags FLORA_CLI_FLAG_MONITOR then
    if has_flag (disp_flags s) FLORA_DISP_FLAG_MONITOR then FLORA_CLI_SUCCESS else FLORA_CLI_EAUTH
  else if bool_decide (extra <> EmptyString /\ is_Some (named_adapters s !! extra))
  then FLORA_CLI_EDUPID else FLORA_CLI_SUCCESS.

(** The tag a client of a unix socket gets. *)
Definition tagged (version pid : Z) (x : Adapter S) : Adapter S :=
  if bool_decide (version < 3) then x
  else if bool_decide (tag x = 0) then set_tag (TagHelper.create_pid (u32 pid)) x else x.

(** The entry of a newly registered adapter. *)
Definition new_entry s (extra : string) (pid flags : Z) : AdapterInfo :=
  mkAdapterInfo (u32 (idseq s + 1)) pid extra ∅ flags.

Section Handling.
Context `{!CapsLaws caps, !CapsSmall caps} (c0 : caps) (a : aid) (todo : list (CmdPacket caps)).

Lemma auth_reply_fits size flags result :
  DEFAULT_MSG_BUF_SIZE <= size < two32 ->
  exists b, ResponseSerializer.serialize_auth result FLORA_VERSION size flags = Some b.
Proof.
  intros Hs. unfold ResponseSerializer.serialize_auth, serialize_to. set (c := caps_write_u32 _ _).
  assert (caps_content c = [CInt (u32 CMD_AUTH_RESP); CInt (u32 result); CInt (u32 FLORA_VERSION)])
    as Hc by (subst c; by autorewrite with flora).
  pose proof (serialize_small c flags size) as Hsm. rewrite Hc in Hsm.
  unfold DEFAULT_MSG_BUF_SIZE in Hs.
  destruct (caps_serialize c flags size) as [r b] eqn:Hser. simpl in Hsm.
  assert (0 <= r <= size) as Hr.
  { apply Hsm; [|lia..]. repeat constructor; simpl; int_lia. }
  rewrite bool_decide_false by lia.
  rewrite bool_decide_false by (rewrite u32_small by (unfold is_u32; lia); lia).
  by exists b.
Qed.

Lemma alter_tagged s x version pid :
  adapters s !! a = Some x -> bool_decide (version < 3) = false ->
  (if bool_decide (tag x = 0)
   then set_adapters (alter (set_tag (TagHelper.create_pid (u32 pid))) a (adapters s)) s else s) =
  set_adapters (alter (tagged version pid) a (adapters s)) s.
Proof.
  intros Hx Hv. rewrite !(alter_at _ _ _ x Hx). unfold tagged. rewrite Hv.
  destruct (bool_decide (tag x = 0)); [done|].
  by rewrite (insert_id (adapters s) a x Hx), set_adapters_id.
Qed.

(** A refused authentication (too old a protocol, a monitor where monitors are
    not supported, a name somebody holds) is answered with its reason, registers
    nothing, and makes the handler return false, which closes the connection. *)
Theorem auth_refused s c x version extra pid flags :
  inv s ((Some c0, a) :: todo) -> adapters s !! a = Some x ->
  request RequestParser.parse_auth c (version, extra, pid, flags) ->
  auth_code s version extra flags <> FLORA_CLI_SUCCESS ->
  exists b, ResponseSerializer.serialize_auth (auth_code s version extra flags) FLORA_VERSION
      (buf_size s) (serialize_flags x) = Some b /\
    handle_auth_req c a s =
      Done (false, set_adapters
        (alter (fun y => receive (Some b) (tagged version pid y)) a (adapters s)) s).
Proof.
  intros Hi Hx Hreq Hcode.
  destruct (auth_reply_fits (buf_size s) (serialize_flags x) (auth_code s version extra flags)) as [b Hb];
    [apply Hi|].
  exists b. split; [done|]. apply run_done. unfold handle_auth_req.
  wstep. eapply wp_request; [done|]. wsteps.
  set (s1 := set_adapters (alter (tagged version pid) a (adapters s)) s).
  assert (wp (auth_result version extra pid flags a)
    (fun r s' => r = auth_code s version extra flags /\ s' = s1) s) as Hr.
  { unfold auth_result, auth_code in *. destruct (bool_decide (version < 3)) eqn:Hv.
    { wstep. split; [done|]. subst s1. rewrite (alter_at _ _ _ x Hx). unfold tagged. rewrite Hv.
      by rewrite (insert_id (adapters s) a x Hx), set_adapters_id. }
    wstep. eapply wp_deref; [done|]. wstep.
    assert (forall Q : unit -> Disp caps S -> Prop, Q tt s1 -> wp (when (bool_decide (tag x = 0))
      (upd_adapter a (set_tag (TagHelper.create_pid (u32 pid))))) Q s) as Htag.
    { intros Q HQ. subst s1. rewrite <- (alter_tagged s x) in HQ by done.
      by destruct (bool_decide (tag x = 0)). }
    apply Htag. destruct (has_flag flags FLORA_CLI_FLAG_MONITOR).
    - wsteps. change (disp_flags s1) with (disp_flags s). by destruct (has_flag _ _).
    - wsteps. unfold add_adapter. wsteps. change (named_adapters s1) with (named_adapters s).
      destruct (bool_decide (extra <> EmptyString /\ _)); [by wsteps|done]. }
  eapply wpx_mono; [exact Hr|]. intros r s' [-> ->].
  assert (adapters s1 !! a = Some (tagged version pid x)) as Hx1
    by (subst s1; simpl; by rewrite lookup_alter_eq, Hx).
  wstep. eapply wp_deref; [done|]. wsteps. change (buf_size s1) with (buf_size s).
  assert (serialize_flags (tagged version pid x) = serialize_flags x) as ->
    by (unfold tagged; by repeat case_match).
  rewrite Hb. wstep. apply wp_write_receive; [by exists (tagged version pid x)|]. intros _.
  rewrite bool_decide_false by done. wstep. split; [done|]. subst s1. simpl.
  by rewrite !(alter_at _ _ _ x Hx), (alter_at _ _ _ (tagged version pid x)), insert_insert_eq
    by (by rewrite lookup_insert_eq).
Qed.

Lemma auth_result_accepted s version extra pid flags :
  inv s ((Some c0, a) :: todo) -> (info <$> adapters s !! a) = Some None ->
  has_flag flags FLORA_CLI_FLAG_MONITOR = false ->
  auth_code s version extra flags = FLORA_CLI_SUCCESS ->
  wp (auth_result version extra pid flags a) (fun r s' => r = FLORA_CLI_SUCCESS /\
    (info <$> adapters s' !! a) = Some (Some (InAdapters a)) /\
    adapter_infos s' = <[a := new_entry s extra pid flags]> (adapter_infos s) /\
    named_adapters s' = (if bool_decide (extra <> EmptyString) then <[extra := a]> (named_adapters s)
       else named_adapters s) /\ monitors s' = monitors s) s.
Proof.
  intros Hi Hxa Hfl Hcode. pose proof (inv_sender _ _ _ _ Hi) as (x & Hx & Hp).
  rewrite Hx in Hxa. injection Hxa as Hxn. rewrite Hxn in Hp. destruct Hp as [Hai Ham].
  unfold auth_code in Hcode. rewrite Hfl in Hcode. unfold auth_result.
  destruct (bool_decide (version < 3)); [done|]. wstep. eapply wp_deref; [done|].
  rewrite Hfl.
  destruct (bool_decide (extra <> EmptyString /\ _)) eqn:Hused; [done|].
  enough (forall s1 x1, named_adapters s1 = named_adapters s -> adapter_infos s1 = adapter_infos s ->
    monitors s1 = monitors s -> idseq s1 = idseq s -> adapters s1 !! a = Some x1 ->
    wp (ok ← add_adapter extra flags pid a;
        mret (if ok : bool then FLORA_CLI_SUCCESS else FLORA_CLI_EDUPID))
     (fun r s' => r = FLORA_CLI_SUCCESS /\
    (info <$> adapters s' !! a) = Some (Some (InAdapters a)) /\
    adapter_infos s' = <[a := new_entry s extra pid flags]> (adapter_infos s) /\
    named_adapters s' = (if bool_decide (extra <> EmptyString) then <[extra := a]> (named_adapters s)
       else named_adapters s) /\ monitors s' = monitors s) s1) as Hgo.
  { wstep. wstep; [unfold upd_adapter; wstep|]; eapply Hgo; try done. simpl.
    by rewrite lookup_alter_eq, Hx. }
  intros s1 x1 Hn1 Hi1 Hm1 Hid1 Hx1. wstep. unfold add_adapter. wsteps. rewrite Hn1, Hused.
  destruct (bool_decide (extra <> EmptyString)) eqn:He; cbn [when]; wstep; wstep;
    (apply wp_new_entry; [by simpl; rewrite Hi1|]); intros j ->; wstep; simpl;
    rewrite lookup_alter_eq, Hx1, Hi1, Hid1; by rewrite ?Hn1.
Qed.

(** C28. An accepted authentication of a client registers it, and only it: its
    entry has the name, process id and flags it gave, a fresh id and no method;
    its name, when it has one, leads to it; the handler returns true; no other
    registration, of a client or of a monitor, changes. *)
Theorem auth_accepted s c version extra pid flags :
  inv s ((Some c0, a) :: todo) -> (info <$> adapters s !! a) = Some None ->
  request RequestParser.parse_auth c (version, extra, pid, flags) ->
  has_flag flags FLORA_CLI_FLAG_MONITOR = false ->
  auth_code s version extra flags = FLORA_CLI_SUCCESS ->
  exists s', handle_auth_req c a s = Done (true, s') /\
    inv s' ((Some c0, a) :: todo) /\
    info_of s' a = Some (new_entry s extra pid flags) /\
    adapter_infos s' = <[a := new_entry s extra pid flags]> (adapter_infos s) /\
    named_adapters s' =
      (if bool_decide (extra <> EmptyString) then <[extra := a]> (named_adapters s)
       else named_adapters s) /\
    monitors s' = monitors s.
Proof.
  intros Hi Hxa Hreq Hfl Hcode. set (e := new_entry s extra pid flags).
  enough (wp (handle_auth_req c a) (fun ok s' => ok = true /\ inv s' ((Some c0, a) :: todo) /\
    info_of s' a = Some e /\ adapter_infos s' = <[a := e]> (adapter_infos s) /\
    named_adapters s' = (if bool_decide (extra <> EmptyString) then <[extra := a]> (named_adapters s)
       else named_adapters s) /\ monitors s' = monitors s) s) as Hw.
  { destruct (wp_done _ _ _ Hw) as (ok & s' & ? & -> & ?). by exists s'. }
  unfold handle_auth_req. wstep. eapply wp_request; [done|]. wsteps.
  assert (wp (auth_result version extra pid flags a) (fun r s' => r = FLORA_CLI_SUCCESS /\
    inv s' ((Some c0, a) :: todo) /\ (info <$> adapters s' !! a) = Some (Some (InAdapters a)) /\
    adapter_infos s' = <[a := e]> (adapter_infos s) /\
    named_adapters s' = (if bool_decide (extra <> EmptyString) then <[extra := a]> (named_adapters s)
       else named_adapters s) /\ monitors s' = monitors s) s) as Hr.
  { eapply wpx_mono; [apply wpx_and; [eapply wp_auth_result_inv;
        [exact Hi|exact Hxa|intros r s' Hi' _; exact Hi']|by apply auth_result_accepted]|].
    intros r s' [? (? & ? & ? & ? & ?)]. by split_and!. }
  eapply wpx_mono; [exact Hr|]. intros r s1 (-> & Hi1 & Hx1 & Ha1 & Hn1 & Hm1).
  destruct (sender_deref _ _ _ _ Hi1) as [x Hx]. wstep. eapply wp_deref; [done|]. wsteps.
  destruct (auth_reply_fits (buf_size s1) (serialize_flags x) FLORA_CLI_SUCCESS) as [b ->]; [apply Hi1|].
  wstep. eapply wp_write_inv; [done|by exists x|]. intros _ s2 Hi2 K2 _.
  rewrite bool_decide_true by done. rewrite Hfl. cbn [negb when]. wstep.
  destruct (sender_deref _ _ _ _ Hi2) as [y Hy].
  eapply wp_monitor_data_inv; [done|by exists y|]. intros s3 Hi3 K3. wstep.
  pose proof (keep_adapters _ _ K2 a) as Hk2. pose proof (keep_adapters _ _ K3 a) as Hk3.
  eapply wp_list_add_inv; [done|by eapply inv_sender|by rewrite Hk3, Hk2, Hx1|].
  intros s4 Hi4 K4. wstep. pose proof (keep_adapters _ _ K4 a) as Hk4.
  assert (keeps s1 s4) as K by (do 2 (etrans; [eassumption|]); done).
  rewrite (keep_infos _ _ K), (keep_named _ _ K), (keep_monitors _ _ K). split_and!; try done.
  unfold info_of. rewrite Hk3, Hk2, Hx1 in Hk4. destruct (adapters s4 !! a) as [z|]; [|done].
  injection Hk4 as ->. by rewrite (keep_infos _ _ K), Ha1, lookup_insert_eq.
Qed.
End Handling.

(** Erasing a connected client removes its entry and its name, and no other
    client's or monitor's, so that calls to its name are refused from then on;
    the invariant holds for the packets that remain. *)
Theorem erase_client s a i todo :
  inv s ((None, a) :: todo) -> adapter_infos s !! a = Some i ->
  exists s', do_erase_adapter a s = Done (tt, s') /\ inv s' todo /\
    adapter_infos s' = delete a (adapter_infos s) /\
    monitors s' = monitors s /\
    named_adapters s' = delete (ai_name i) (named_adapters s) /\
    (forall n, named_adapters s' !! n <> Some a) /\
    (forall m, call_target s' (ai_name i) m = None).
Proof.
  intros Hi Hai.
  enough (wp (do_erase_adapter a) (fun _ s' => adapter_infos s' = delete a (adapter_infos s) /\
    monitors s' = monitors s /\ named_adapters s' = delete (ai_name i) (named_adapters s)) s) as Hw.
  { destruct (wp_done _ _ _ (wpx_and _ _ _ _ _ (do_erase_inv s a todo Hi) Hw))
      as ([] & s' & Hd & Hi' & H1 & H2 & H3).
    exists s'. split_and!; try done.
    - intros n Hn. apply (wf_named _ (inv_wf _ _ Hi')) in Hn as (_ & j & Hj & _).
      by rewrite H1, lookup_delete_eq in Hj.
    - intros m. unfold call_target. by rewrite H3, lookup_delete_eq. }
  pose proof (wf_infos _ (inv_wf _ _ Hi) a i Hai) as [Hxa Hfl].
  destruct (adapters s !! a) as [x|] eqn:Hx; [|done]. injection Hxa as Hp.
  unfold do_erase_adapter. wstep. eapply wp_deref; [done|]. rewrite Hp. wstep.
  eapply wp_read_info; [done|]. rewrite Hfl.
  enough (forall s1, inv s1 ((None, a) :: todo) -> adapter_infos s1 = adapter_infos s ->
    monitors s1 = monitors s -> named_adapters s1 = delete (ai_name i) (named_adapters s) ->
    (forall n, named_adapters s1 !! n <> Some a) -> wp
    ((write_monitor_list_remove (ai_id i) ;;
      modify (fun s : Disp caps S => set_adapter_infos (delete a (adapter_infos s)) s)) ;;
     check_subscriptions) (fun _ s' => adapter_infos s' = delete a (adapter_infos s) /\
      monitors s' = monitors s /\ named_adapters s' = delete (ai_name i) (named_adapters s)) s1) as Hgo.
  { assert (forall n, named_adapters s !! n = Some a -> n = ai_name i /\ n <> EmptyString) as Hna.
    { intros n (Hne & j & Hj & <-)%(wf_named _ (inv_wf _ _ Hi)). by simplify_eq. }
    wstep. wstep; [wstep|]; apply Hgo; try done.
    - by apply inv_del_name.
    - intros n Hn. simpl in Hn. apply lookup_delete_Some in Hn as [Hne Hn]. by apply Hna in Hn as [-> _].
    - match goal with H : bool_decide _ = false |- _ => apply bool_decide_eq_false, dec_stable in H as He end.
      rewrite He, delete_id; [done|]. destruct (named_adapters s !! EmptyString) eqn:Hn; [|done].
      by apply (wf_named _ (inv_wf _ _ Hi)) in Hn as [[] _].
    - intros n Hn. match goal with H : bool_decide _ = false |- _ =>
        apply bool_decide_eq_false, dec_stable in H as He end.
      apply Hna in Hn as [-> ?]. done. }
  intros s1 Hi1 H1 H2 H3 H4. wstep. wstep. eapply wp_list_remove_inv; [done|]. intros s2 Hi2 K2. wstep.
  eapply wpx_mono; [apply wp_check_subscriptions_inv; eapply inv_del_info; [done| |]|].
  - by rewrite (keep_named _ _ K2).
  - rewrite (keep_monitors _ _ K2), H2. destruct (monitors s !! a) as [j|] eqn:Hj; [|done].
    apply (wf_monitors _ (inv_wf _ _ Hi)) in Hj as [Hj _]. rewrite Hx in Hj. simpl in Hj. congruence.
  - intros [] s3 [_ K3]. rewrite (keep_infos _ _ K3), (keep_monitors _ _ K3), (keep_named _ _ K3). simpl.
    rewrite (keep_infos _ _ K2), (keep_monitors _ _ K2), (keep_named _ _ K2), H1. done.
Qed.

(** A name leads to at most one client, and a client holds at most one name;
    the name is the one its entry shows. *)
Theorem names_unique s todo n1 n2 a b :
  inv s todo -> named_adapters s !! n1 = Some a -> named_adapters s !! n2 = Some b ->
  (n1 = n2 <-> a = b) /\ (exists i, info_of s a = Some i /\ ai_name i = n1).
Proof.
  intros Hi H1 H2. destruct (named_info _ _ _ _ Hi H1) as (x & i & Hx & Hp & Ha & Hn & _).
  destruct (named_info _ _ _ _ Hi H2) as (y & j & Hy & Hq & Hb & Hm & _).
  split; [split; [intros ->|intros ->]; by simplify_eq|].
  exists i. unfold info_of. by rewrite Hx, Hp.
Qed.
End Auth.
