(* ===== verification/DispLoop.v ===== *)
(** * The dispatcher's thread and the poll threads ([handle_cmds], [src/disp.cc])

    The dispatcher's thread and the polls share the state under [cmd_mutex]. One
    step of the system is one critical section or one handler; the polls' steps
    interleave anywhere. A wait on [cmd_cond] may return at any time; [woken] says
    that a notification arrived since it began. *)
From S2P Require Import Prelude Defs Caps RefCaps Adap Reader SerHelper Disp DispFrame DispInv.
From S2P Require Import DispOps DispSafe.
Import Dispatcher.

Module DispatcherThread.
Section Ops.
Context {caps : Type} `{!CapsOps caps, !CapsFlags} {S : Type} `{!AdapterImpl S, !SteadyClock}.

(** Where the thread is in [handle_cmds]. *)
Inductive loc : Type :=
  | Top                                                  (** before [locker.lock()] *)
  | Waiting (wake_tp : option Z) (woken : bool)            (** in [wait] or [wait_until] *)
  | Handling (todo : list (CmdPacket caps))              (** in the loop over the batch *)
  | Exited.

(** [loop_begin_locked:], up to the next unlock. *)
Definition loop_locked : M (Disp caps S) loc :=
  w ← gets working;
  if negb w then mret Exited
  else
    modify (fun s => set_cmd_packets [] (set_pending_cmds (cmd_packets s ++ pending_cmds s) s)) ;;
    batch ← gets pending_cmds;
    if bool_decide (batch = []) then
      discard_pending_calls ;;
      calls ← gets pending_calls;
      match calls with
      | [] => mret (Waiting None false)
      | pc :: _ => mret (Waiting (Some (discard_tp pc)) false)
      end
    else mret (Handling batch).

(** [cmd_cond.notify_one()] *)
Definition notify_one (l : loc) : loc :=
  match l with
  | Waiting wake_tp _ => Waiting wake_tp true
  | _ => l
  end.

(** [adapter->info != nullptr] *)
Definition has_info (a : aid) (s : Disp caps S) : bool :=
  bool_decide (default None (info <$> adapters s !! a) <> None).

(** [SocketPoll::delete_adapter], and the poll dropping its [shared_ptr]. *)
Definition poll_delete (a : aid) : M (Disp caps S) unit :=
  close_adapter a ;;
  erase_adapter a ;;
  modify (fun s => set_held (held s ∖ {[a]}) s).

(** [i] is the connection of [a] after a read: nothing was written to it and it was
    neither opened nor closed. *)
Definition reads (a : aid) (i : S) (s : Disp caps S) : Prop :=
  (fun x => (adap_sent (impl x), adap_closed (impl x))) <$> adapters s !! a = Some (adap_sent i, adap_closed i).

(** A connection that was just accepted. *)
Definition accepted_conn (x : Adapter S) : Prop :=
  info x = None /\ 0 <= tag x < two64 /\ adap_sent (impl x) = [].

#[export] Instance reads_dec a i s : Decision (reads a i s).
Proof. unfold reads. apply _. Defined.

#[export] Instance accepted_conn_dec x : Decision (accepted_conn x).
Proof. unfold accepted_conn. apply _. Defined.

(** [close()], without waiting for the thread. *)
Definition close_disp (s : Disp caps S) : Disp caps S := set_working false s.

(** [run()] starts the thread. *)
Definition run_disp (s : Disp caps S) : Disp caps S := set_working true s.

Inductive sys : Type :=
  | Running (l : loc) (s : Disp caps S)
  | Crashed (u : ub).

Inductive label : Type :=
  | LLock                                  (** the thread gets the mutex *)
  | LHandle                                (** the thread handles the next command *)
  | LBatchDone                             (** [pending_cmds.clear()] *)
  | LPut (a : aid) (data : bytes)          (** a poll puts a frame of [a] *)
  | LRead (a : aid) (i : S)                (** a poll reads into the buffer of [a] *)
  | LDelete (a : aid)                      (** a poll deletes [a] *)
  | LAccept (a : aid) (x : Adapter S)      (** a poll creates [a] *)
  | LClose.

Definition result {A} (o : outcome (A * Disp caps S)) (f : A -> loc) : sys :=
  match o with
  | Done (a, s) => Running (f a) s
  | Undef u => Crashed u
  end.

Definition exec (st : sys) (lb : label) : option sys :=
  match st with
  | Crashed _ => None
  | Running l s =>
      match lb with
      | LLock =>
          match l with
          | Top | Waiting _ _ => Some (result (loop_locked s) id)
          | _ => None
          end
      | LHandle =>
          match l with
          | Handling (p :: todo) => Some (result (handle_cmd p.1 p.2 s) (fun _ => Handling todo))
          | _ => None
          end
      | LBatchDone =>
          match l with
          | Handling [] => Some (Running Top (set_pending_cmds [] s))
          | _ => None
          end
      | LPut a data =>
          if bool_decide (a ∈ held s) then
            let '(ok, s') := put data a s in
            Some (Running (if ok : bool then notify_one l else l) s')
          else None
      | LRead a i =>
          if bool_decide (a ∈ held s /\ reads a i s)
          then Some (Running l (set_adapters (alter (set_impl i) a (adapters s)) s))
          else None
      | LDelete a =>
          if bool_decide (a ∈ held s)
          then Some (result (poll_delete a s) (fun _ => if has_info a s then notify_one l else l))
          else None
      | LAccept a x =>
          if bool_decide (adapters s !! a = None /\ accepted_conn x)
          then Some (Running l (set_held ({[a]} ∪ held s) (set_adapters (<[a := x]> (adapters s)) s)))
          else None
      | LClose => Some (Running (notify_one l) (close_disp s))
      end
  end.

(** The start: the dispatcher is constructed and [run] has begun. *)
Definition start (flags bufsize : Z) : sys := Running Top (run_disp (new flags bufsize)).

(** The batch's packets that are not handled yet. *)
Definition todo_of (l : loc) : list (CmdPacket caps) :=
  match l with Handling todo => todo | _ => [] end.

(** ** Orderly clients and polls

    The next command is acceptable, and a connection is not deleted between the
    arrival of its first authentication and its handling. *)
Definition orderly (st : sys) (lb : label) : Prop :=
  match st, lb with
  | Running (Handling (p :: _)) s, LHandle => packet_ok s p
  | Running l s, LDelete a =>
      (info <$> adapters s !! a) = Some None -> a ∉ (todo_of l ++ cmd_packets s).*2
  | _, _ => True
  end.

Definition step (st st' : sys) : Prop := exists lb, exec st lb = Some st' /\ orderly st lb.

(** The steps of the polls, and a poll's orderly step. *)
Definition poll_label (lb : label) : Prop :=
  match lb with LPut _ _ | LRead _ _ | LDelete _ | LAccept _ _ => True | _ => False end.

Definition poll_step (st st' : sys) : Prop :=
  exists lb, exec st lb = Some st' /\ orderly st lb /\ poll_label lb.

Lemma poll_steps_steps st st' : steps poll_step st st' -> steps step st st'.
Proof.
  induction 1 as [|st1 st2 st3 (lb & ? & ? & _) _ IH]; [constructor|]. econstructor; [by exists lb|exact IH].
Qed.

(** A sequence of steps. *)
Fixpoint execs (st : sys) (lbs : list label) : option sys :=
  match lbs with
  | [] => Some st
  | lb :: lbs => match exec st lb with Some st' => execs st' lbs | None => None end
  end.

Fixpoint all_orderly (st : sys) (lbs : list label) : Prop :=
  match lbs with
  | [] => True
  | lb :: lbs =>
      orderly st lb /\ match exec st lb with Some st' => all_orderly st' lbs | None => True end
  end.

Lemma execs_app lbs lbs' : forall st,
  execs st (lbs ++ lbs') = match execs st lbs with Some st' => execs st' lbs' | None => None end.
Proof. induction lbs as [|lb lbs IH]; intros st; simpl; [done|]. by destruct (exec st lb). Qed.

Lemma all_orderly_app lbs lbs' : forall st st',
  execs st lbs = Some st' -> all_orderly st lbs -> all_orderly st' lbs' ->
  all_orderly st (lbs ++ lbs').
Proof.
  induction lbs as [|lb lbs IH]; intros st st' He Ho Ho'; simpl in *; [by simplify_eq|].
  destruct Ho as [Hlb Ho]. split; [done|]. destruct (exec st lb); [|done]. by eapply IH.
Qed.

Lemma execs_steps lbs : forall st st',
  execs st lbs = Some st' -> all_orderly st lbs -> steps step st st'.
Proof.
  induction lbs as [|lb lbs IH]; intros st st' He Ho; simpl in *; [simplify_eq; constructor|].
  destruct Ho as [Hlb Ho]. destruct (exec st lb) as [st1|] eqn:Hex; [|done].
  econstructor; [by exists lb|]. by apply IH.
Qed.
End Ops.

Arguments sys caps S : clear implicits.
Arguments loc caps : clear implicits.
Arguments label S : clear implicits.
End DispatcherThread.

Import DispatcherThread.

Section Loop.
Context {caps : Type} `{!CapsOps caps, !CapsFlags} {S : Type} `{!AdapterImpl S, !SteadyClock}.
Context `{!CapsLaws caps, !CapsSmall caps}.
Implicit Types (s : Disp caps S) (a : aid).

(** ** The polls' steps preserve the invariant *)

Lemma inv_put s a c todo : inv s todo -> a ∈ held s -> inv (push_packet (Some c, a) s) todo.
Proof.
  intros [[Hb Hi Hm Hn Hc Hs] Hbt Hh Ho Hsrc Hr He] Ha. split; [split|..]; simpl; auto.
  - intros b. rewrite app_assoc, fmap_app. intros [?|[?|Hb']%elem_of_app]; [by apply Ho; left|by apply Ho; right|].
    simpl in Hb'. apply list_elem_of_singleton in Hb' as ->. apply Ho. by left.
  - intros b. rewrite app_assoc, fmap_app. intros [Hb'|Hb']%elem_of_app.
    + destruct (Hsrc b Hb') as [?|?]; [by left|right; apply elem_of_app; by left].
    + simpl in Hb'. apply list_elem_of_singleton in Hb' as ->. by left.
  - intros b Hb'. destruct (Hr b Hb') as [?|?]; [by left|]. right. rewrite app_assoc. apply elem_of_app. by left.
  - intros pre b post. rewrite app_assoc. intros Hp.
    destruct post as [|q post' _] using rev_ind.
    { apply app_inj_tail in Hp as [_ [=]]. }
    rewrite app_comm_cons, app_assoc in Hp. apply app_inj_tail in Hp as [Hp <-].
    destruct (He pre b post' Hp) as [Hbh Hbp]. split; [done|]. rewrite fmap_app. simpl.
    rewrite elem_of_app, list_elem_of_singleton. intros [?| ->]; done.
Qed.

Lemma inv_held_remove s a todo :
  inv s todo -> a ∈ held s -> (a ∉ (todo ++ cmd_packets s).*2) ->
  adapter_infos s !! a = None -> monitors s !! a = None ->
  inv (set_held (held s ∖ {[a]}) s) todo.
Proof.
  intros [[Hb Hi Hm Hn Hc Hs] Hbt Hh Ho Hsrc Hr He] Ha Haq H1 H2. split; [split|..]; simpl; auto.
  - intros b [?|?]; apply Ho; [left; set_solver|by right].
  - intros b Hb'. destruct (Hsrc b Hb') as [?|?]; [left|by right].
    apply elem_of_difference. split; [done|]. intros ->%elem_of_singleton. done.
  - intros b Hb'. destruct (Hr b Hb') as [?|?]; [left|by right].
    apply elem_of_difference. split; [done|]. intros ->%elem_of_singleton.
    rewrite H1, H2 in Hb'. by destruct Hb' as [[]|[]].
  - intros pre b post Hp. destruct (He pre b post Hp). split; [set_solver|done].
Qed.

Lemma inv_push_erase s a todo :
  inv s todo -> a ∈ held s ->
  inv (set_held (held s ∖ {[a]}) (push_packet (None, a) s)) todo.
Proof.
  intros [[Hb Hi Hm Hn Hc Hs] Hbt Hh Ho Hsrc Hr He] Ha. split; [split|..]; simpl; auto.
  - intros b. rewrite app_assoc, fmap_app. intros [?|[?|Hb']%elem_of_app]; [apply Ho; left; set_solver|by apply Ho; right|].
    simpl in Hb'. apply list_elem_of_singleton in Hb' as ->. apply Ho. by left.
  - intros b Hb'. rewrite app_assoc. destruct (decide (b = a)) as [->|Hne].
    + right. apply elem_of_app. right. by left.
    + rewrite app_assoc, fmap_app in Hb'. apply elem_of_app in Hb' as [Hb'|Hb'].
      * destruct (Hsrc b Hb') as [?|?]; [left; set_solver|right; apply elem_of_app; by left].
      * simpl in Hb'. by apply list_elem_of_singleton in Hb' as ->.
  - intros b Hb'. rewrite app_assoc. destruct (decide (b = a)) as [->|Hne].
    + right. apply elem_of_app. right. by left.
    + destruct (Hr b Hb') as [?|?]; [left; set_solver|right; apply elem_of_app; by left].
  - intros pre b post. rewrite app_assoc. intros Hp.
    destruct post as [|q post' _] using rev_ind.
    { apply app_inj_tail in Hp as [_ [= ->]]. split; [set_solver|apply not_elem_of_nil]. }
    rewrite app_comm_cons, app_assoc in Hp. apply app_inj_tail in Hp as [Hp <-].
    destruct (He pre b post' Hp) as [Hbh Hbp]. split; [set_solver|]. rewrite fmap_app. simpl.
    rewrite elem_of_app, list_elem_of_singleton. intros [?| ->]; done.
Qed.

Lemma poll_delete_inv s a todo :
  inv s todo -> a ∈ held s ->
  ((info <$> adapters s !! a) = Some None -> a ∉ (todo ++ cmd_packets s).*2) ->
  wp (poll_delete a) (fun _ s' => inv s' todo) s.
Proof.
  intros Hi Ha Hq. destruct (inv_ok _ _ Hi a (or_introl Ha)) as (x & Hx & Hp).
  unfold poll_delete. wstep. eapply wp_close_adapter; [done|]. wstep. unfold erase_adapter. wstep.
  eapply wp_deref; [simpl; by rewrite lookup_alter_eq, Hx|]. simpl.
  set (s1 := set_adapters _ s).
  assert (inv s1 todo) as Hi1 by by apply inv_alter.
  rewrite Hx in Hq. simpl in Hq. destruct (info x) as [p|]; wsteps.
  - by apply (inv_push_erase s1).
  - destruct Hp. apply (inv_held_remove s1); try done. by apply Hq.
Qed.

Lemma inv_accept s a x todo :
  inv s todo -> adapters s !! a = None -> info x = None ->
  inv (set_held ({[a]} ∪ held s) (set_adapters (<[a := x]> (adapters s)) s)) todo.
Proof.
  intros [[Hb Hi Hm Hn [Hc1 Hc2] Hs] Hbt Hh Ho Hsrc Hr He] Ha Hx.
  assert (forall b, is_Some (adapters s !! b) -> a <> b) as Hne by (intros b [? ?] ->; congruence).
  assert (forall b, is_Some (adapters s !! b) -> is_Some (<[a:=x]> (adapters s) !! b)) as Hsome.
  { intros b Hb'. by rewrite lookup_insert_ne by auto. }
  assert (adapter_infos s !! a = None) as Hai.
  { destruct (adapter_infos s !! a) as [i|] eqn:Hj; [|done]. apply Hi in Hj as [Hj _]. by rewrite Ha in Hj. }
  assert (monitors s !! a = None) as Ham.
  { destruct (monitors s !! a) as [i|] eqn:Hj; [|done]. apply Hm in Hj as [Hj _]. by rewrite Ha in Hj. }
  split; [split|..]; simpl; auto.
  - intros b i Hbi. rewrite lookup_insert_ne by congruence. auto.
  - intros b i Hbi. rewrite lookup_insert_ne by congruence. auto.
  - split; [done|]. eapply Forall_impl; [done|]. simpl. naive_solver.
  - intros b Hb'. destruct (decide (a = b)) as [<-|Hab].
    + exists x. simpl. by rewrite lookup_insert_eq, Hx.
    + destruct (Ho b) as (y & Hy & Hyi); [set_solver|]. exists y. simpl. by rewrite lookup_insert_ne.
  - intros b Hb'. destruct (Hsrc b Hb'); [left; set_solver|by right].
  - intros b Hb'. destruct (Hr b Hb'); [left; set_solver|by right].
  - intros pre b post Hp. destruct (He pre b post Hp) as [Hbh ?]. split; [|done].
    rewrite elem_of_union, elem_of_singleton. intros [->|?]; [|done].
    destruct (Ho a) as (y & Hy & _); [|congruence]. right.
    rewrite Hp, fmap_app. apply elem_of_app. right. by left.
Qed.

(** ** The thread's steps *)

Lemma inv_splice s : inv s [] -> pending_cmds s = [] ->
  inv (set_cmd_packets [] (set_pending_cmds (cmd_packets s ++ pending_cmds s) s)) (cmd_packets s).
Proof.
  intros [[Hb Hi Hm Hn Hc Hs] Hbt Hh Ho Hsrc Hr He] Hp. rewrite Hp, app_nil_r.
  split; [split|..]; simpl; rewrite ?app_nil_r; auto.
  intros [c b] Hq. destruct (Ho b) as (x & Hx & _); [|by exists x].
  right. simpl. apply list_elem_of_fmap. by exists (c, b).
Qed.

(** The deadline of a wait is that of the first pending call. *)
Definition next_deadline s : option Z :=
  match pending_calls s with [] => None | pc :: _ => Some (discard_tp pc) end.

(** What is known at each place. *)
Definition loc_ok (l : loc caps) s : Prop :=
  match l with
  | Top => pending_cmds s = []
  | Waiting wake_tp woken =>
      pending_cmds s = [] /\ wake_tp = next_deadline s /\
      (woken = false -> cmd_packets s = [] /\ working s = true)
  | Handling _ => True
  | Exited => working s = false
  end.

Definition sys_ok (st : sys caps S) : Prop :=
  match st with
  | Running l s => inv s (todo_of l) /\ loc_ok l s
  | Crashed _ => False
  end.

Lemma loop_locked_ok s :
  inv s [] -> pending_cmds s = [] -> wp loop_locked (fun l s' => inv s' (todo_of l) /\ loc_ok l s') s.
Proof.
  intros Hi Hp. unfold loop_locked. wsteps. destruct (working s) eqn:Hw; cbn [negb]; wsteps; [|done].
  set (s1 := set_cmd_packets _ _). pose proof (inv_splice s Hi Hp) as Hi1. fold s1 in Hi1.
  assert (pending_cmds s1 = cmd_packets s) as Hb by (subst s1; simpl; by rewrite Hp, app_nil_r).
  rewrite Hb. case_bool_decide as He; [|by wsteps].
  rewrite He in Hi1. wstep.
  destruct (discard_calls_spec s1 [] Hi1) as (s' & Hd & Hi' & Hs').
  unfold wpx at 1. rewrite Hd.
  assert (forall wake_tp, wake_tp = next_deadline s' -> inv s' (todo_of (Waiting wake_tp false)) /\
    loc_ok (Waiting wake_tp false) s') as Hend.
  { intros wake_tp ->. split; [done|]. rewrite Hs'. simpl. by rewrite Hp, He. }
  wsteps. destruct (pending_calls s') as [|pc l] eqn:Hc; wsteps; apply Hend;
    unfold next_deadline; by rewrite Hc.
Qed.

Lemma loc_ok_notify l s s' :
  loc_ok l s -> pending_cmds s' = pending_cmds s -> pending_calls s' = pending_calls s ->
  (l = Exited -> working s' = false) -> loc_ok (notify_one l) s'.
Proof.
  intros Hl H1 H2 H3. destruct l; simpl in *; [by rewrite H1| |done|auto].
  destruct Hl as (? & -> & _). unfold next_deadline. by rewrite H1, H2.
Qed.

Lemma loc_ok_same l s s' :
  loc_ok l s -> pending_cmds s' = pending_cmds s -> pending_calls s' = pending_calls s ->
  working s' = working s -> cmd_packets s' = cmd_packets s -> loc_ok l s'.
Proof.
  intros Hl H1 H2 H3 H4. destruct l; simpl in *; rewrite ?H1, ?H3, ?H4; try done.
  unfold next_deadline. by rewrite H2.
Qed.

Lemma poll_delete_frame a s : wlp (poll_delete a) (fun _ s' =>
  pending_cmds s' = pending_cmds s /\ pending_calls s' = pending_calls s /\
  working s' = working s /\ (has_info a s = false -> cmd_packets s' = cmd_packets s)) s.
Proof.
  unfold poll_delete, close_adapter, erase_adapter, upd_adapter, has_info. wsteps.
  unfold deref at 1, wpx at 1. destruct (adapters s !! a) as [x|] eqn:Hx; [|done]. wsteps.
  unfold deref, wpx at 1. simpl. rewrite lookup_alter_eq, Hx. simpl.
  destruct (info x); wsteps; simpl; split_and!; try done.
Qed.

Lemma step_ok st st' : sys_ok st -> step st st' -> sys_ok st'.
Proof.
  intros Hok (lb & Hex & Hord). destruct st as [l s|]; [|done]. destruct Hok as [Hi Hl].
  destruct lb as [| | |a data|a i|a|a x|]; simpl in Hex.
  - assert (todo_of l = [] -> pending_cmds s = [] -> sys_ok (result (loop_locked s) id)) as Hgo.
    { intros Ht Hp. rewrite Ht in Hi. pose proof (loop_locked_ok s Hi Hp) as Hw.
      destruct (wp_done _ _ _ Hw) as (l' & s' & -> & ?). done. }
    destruct l; simplify_eq; apply Hgo; try done. by destruct Hl.
  - destruct l as [| |[|p todo]|]; simplify_eq. simpl in Hord.
    destruct (handle_cmd_done s p todo Hi Hord) as (s' & -> & ?). done.
  - destruct l as [| |[|p todo]|]; simplify_eq. simpl. split; [|done].
    destruct Hi as [[Hb Hi Hm Hn Hc Hs] Hbt Hh Ho Hsrc Hr He].
    split; [split|..]; simpl; auto; intros p Hp; by apply not_elem_of_nil in Hp.
  - case_bool_decide as Ha; [|done]. unfold put in Hex.
    destruct (caps_parse data) as [c|]; simplify_eq; [|done]. split.
    + destruct l; simpl in *; by apply inv_put.
    + by apply (loc_ok_notify l s); [done..|intros ->].
  - case_bool_decide; simplify_eq. split; [by apply inv_alter|by destruct l].
  - case_bool_decide as Ha; [|done]. simplify_eq. simpl in Hord.
    assert (wp (poll_delete a) (fun _ s' => inv s' (todo_of l)) s) as Hw
      by (apply poll_delete_inv; destruct l as [| |[|]|]; done).
    destruct (wp_done _ _ _ Hw) as ([] & s' & Hd & Hi'). rewrite Hd. simpl.
    destruct (wlp_done _ _ _ _ _ (poll_delete_frame a s) Hd) as (H1 & H2 & H3 & H4).
    destruct (has_info a s) eqn:Hinfo; split.
    + by destruct l.
    + apply (loc_ok_notify l s); [done..|]. intros ->. by rewrite H3.
    + done.
    + eapply loc_ok_same; try done. by apply H4.
  - case_bool_decide as Ha; [|done]. destruct Ha as [Ha (Hx & _)]. simplify_eq. split; [by apply inv_accept|].
    by destruct l.
  - simplify_eq. split; [|by apply (loc_ok_notify l s)].
    eapply inv_other; [by destruct l|by split|done..].
Qed.

Lemma start_ok flags bufsize : is_u32 bufsize -> sys_ok (start (S:=S) flags bufsize).
Proof.
  intros Hb. unfold start. simpl. split; [|done].
  split; [split|..]; simpl; try done.
  - unfold is_u32, DEFAULT_MSG_BUF_SIZE, two32 in *. case_bool_decide; lia.
  - split; constructor.
  - intros p Hp. by apply not_elem_of_nil in Hp.
  - intros a [?|?%not_elem_of_nil]; set_solver.
  - intros a ?%not_elem_of_nil. done.
  - intros a [[]|[]]; done.
  - intros pre a post Hp. by destruct pre.
Qed.

Lemma reachable_ok flags bufsize st :
  is_u32 bufsize -> steps step (start flags bufsize) st -> sys_ok st.
Proof.
  intros Hb Hst. eapply (steps_invariant step sys_ok); [|exact Hst|by apply start_ok].
  intros ? ?. apply step_ok.
Qed.


(** C32. No wakeup is lost: whenever the dispatcher's thread waits, a notification
    is pending if a command is queued or the dispatcher was closed, and the wait
    ends by itself when the earliest pending call is due; it has no deadline only
    when no call is pending. *)
Theorem no_lost_wakeup flags bufsize dl woken s :
  is_u32 bufsize -> steps step (start flags bufsize) (Running (Waiting dl woken) s) ->
  (cmd_packets s <> [] \/ working s = false -> woken = true) /\
  match dl with
  | None => pending_calls s = []
  | Some tp => Exists (fun pc => discard_tp pc = tp) (pending_calls s) /\
               Forall (fun pc => tp <= discard_tp pc) (pending_calls s)
  end.
Proof.
  intros Hb Hst. destruct (reachable_ok _ _ _ Hb Hst) as [Hi (_ & -> & Hw)]. split.
  - intros Hq. destruct woken; [done|]. destruct (Hw eq_refl) as [He Hwk]. rewrite Hwk, He in Hq.
    by destruct Hq.
  - unfold next_deadline. pose proof (inv_calls _ _ Hi) as [Hs _].
    destruct (pending_calls s) as [|pc l]; [done|]. apply StronglySorted_inv in Hs as [_ Hs].
    split; [by left|]. constructor; [done|exact Hs].
Qed.

(** ** Order *)

(** The packets a step puts on the queue, and the one it takes to its handler. *)
Definition pushes (st : sys caps S) (lb : label S) : list (CmdPacket caps) :=
  match st, lb with
  | Running _ _, LPut a data =>
      match caps_parse data with Some c => [(Some c, a)] | None => [] end
  | Running _ s, LDelete a =>
      match adapters s !! a with
      | Some x => if bool_decide (info x = None) then [] else [(None, a)]
      | None => []
      end
  | _, _ => []
  end.

Definition handles (st : sys caps S) (lb : label S) : list (CmdPacket caps) :=
  match st, lb with
  | Running (Handling (p :: _)) _, LHandle => [p]
  | _, _ => []
  end.

(** A run, with everything that was queued and everything that was handled. *)
Inductive run (st0 : sys caps S) : list (CmdPacket caps) -> list (CmdPacket caps) -> sys caps S -> Prop :=
  | run_refl : run st0 [] [] st0
  | run_step pushed handled st lb st' :
      run st0 pushed handled st -> orderly st lb -> exec st lb = Some st' ->
      run st0 (pushed ++ pushes st lb) (handled ++ handles st lb) st'.

Lemma run_steps st0 pushed handled st : run st0 pushed handled st -> steps step st0 st.
Proof.
  induction 1; [constructor|]. eapply steps_trans; [done|]. econstructor; [|constructor].
  by eexists.
Qed.

Lemma poll_delete_pushes a s x :
  adapters s !! a = Some x ->
  wlp (poll_delete a) (fun _ s' => cmd_packets s' =
    cmd_packets s ++ if bool_decide (info x = None) then [] else [(None, a)]) s.
Proof.
  intros Hx. unfold poll_delete, close_adapter, erase_adapter, upd_adapter. wsteps.
  unfold deref at 1, wpx at 1. rewrite Hx. wsteps.
  unfold deref, wpx at 1. simpl. rewrite lookup_alter_eq, Hx. simpl.
  destruct (info x) eqn:Hi; wsteps; [done|]. by rewrite app_nil_r.
Qed.

Lemma step_fifo st lb st' :
  sys_ok st -> exec st lb = Some st' ->
  match st, st' with
  | Running l s, Running l' s' =>
      todo_of l ++ cmd_packets s ++ pushes st lb = handles st lb ++ todo_of l' ++ cmd_packets s'
  | _, _ => True
  end.
Proof.
  intros Hok Hex. destruct st as [l s|]; [|done]. destruct Hok as [Hi Hl].
  destruct st' as [l' s'|]; [|done].
  assert (forall dl w, todo_of (notify_one (Waiting dl w)) = @nil (CmdPacket caps)) by done.
  destruct lb as [| | |a data|a i|a|a x|]; simpl in Hex; simpl pushes; simpl handles; rewrite ?app_nil_r.
  - assert (todo_of l = [] -> pending_cmds s = [] -> loop_locked s = Done (l', s') ->
      cmd_packets s = todo_of l' ++ cmd_packets s') as Hgo.
    { intros _ Hp. unfold loop_locked.
      assert (wlp loop_locked (fun l' s' => cmd_packets s = todo_of l' ++ cmd_packets s') s) as Hw.
      { unfold loop_locked. wsteps. destruct (working s); cbn [negb]; wsteps; [|done].
        simpl. rewrite Hp, app_nil_r. case_bool_decide as He; [|wsteps; by rewrite app_nil_r].
        wstep. eapply wpx_mono; [apply stable_discard|]. intros [] s2 (Hq & _). wsteps.
        rewrite He. destruct (pending_calls s2); wsteps; simpl; by rewrite Hq. }
      intros Hd. by apply (wlp_done _ _ _ _ _ Hw Hd). }
    destruct l; try done; simpl; unfold result in Hex;
      (destruct (loop_locked s) as [[l2 s2]|] eqn:Hd; [|done]); simplify_eq; apply Hgo; try done.
    by destruct Hl.
  - destruct l as [| |[|p todo]|]; try done. unfold result in Hex.
    destruct (handle_cmd p.1 p.2 s) as [[[] s2]|] eqn:Hd; simplify_eq.
    destruct (wlp_done _ _ _ _ _ (stable_handle_cmd p.1 p.2 s) Hd) as (-> & _). done.
  - destruct l as [| |[|p todo]|]; simplify_eq. done.
  - case_bool_decide; [|done]. unfold put in Hex.
    destruct (caps_parse data) as [c|], l as [| |[|]|]; simpl in Hex; simplify_eq; simpl;
      by rewrite ?app_nil_r.
  - case_bool_decide; simplify_eq. by destruct l' as [| |[|]|].
  - case_bool_decide as Ha; [|done]. destruct (inv_ok _ _ Hi a (or_introl Ha)) as (x & Hx & _).
    unfold result in Hex. destruct (poll_delete a s) as [[[] s2]|] eqn:Hd; simplify_eq.
    rewrite Hx. rewrite (wlp_done _ _ _ _ _ (poll_delete_pushes a s x Hx) Hd).
    by destruct (has_info a s), l as [| |[|]|].
  - case_bool_decide; simplify_eq. by destruct l' as [| |[|]|].
  - simplify_eq. by destruct l as [| |[|]|]; simpl; rewrite ?app_nil_r.
Qed.

(** Commands are handled in the order in which they were queued, each exactly
    once: at every moment of every run, what was queued is what was handled,
    followed by what is left of the batch, followed by the queue. *)
Theorem commands_fifo flags bufsize pushed handled l s :
  is_u32 bufsize -> run (start flags bufsize) pushed handled (Running l s) ->
  pushed = handled ++ todo_of l ++ cmd_packets s.
Proof.
  intros Hb Hrun. remember (Running l s) as st eqn:Hst. revert l s Hst.
  induction Hrun as [|pushed handled st lb st' Hrun IH Hord Hex]; intros l s Hst.
  { unfold start in Hst. by simplify_eq. }
  pose proof (reachable_ok _ _ _ Hb (run_steps _ _ _ _ Hrun)) as Hok.
  pose proof (step_fifo _ _ _ Hok Hex) as Hf. subst st'.
  destruct st as [l0 s0|]; [|done]. rewrite (IH l0 s0 eq_refl), <- !app_assoc. f_equal.
  by rewrite <- Hf.
Qed.

(** After [close] the thread exits: at the next time it gets the mutex it is
    out of [handle_cmds], whatever is queued, and it handles nothing any more. *)
Theorem close_exits l s :
  (l = Top \/ exists dl w, l = Waiting dl w) ->
  exec (Running (notify_one l) (close_disp s)) LLock = Some (Running Exited (close_disp s)) /\
  (forall lb s', lb = LLock \/ lb = LHandle \/ lb = LBatchDone -> exec (Running Exited s') lb = None).
Proof.
  intros Hl. split; [by destruct Hl as [->|(dl & w & ->)]|].
  intros lb s' [->|[->| ->]]; done.
Qed.
End Loop.
