(* ===== verification/SockPoll.v ===== *)
(** * The socket poll ([src/sock-poll.h], [src/sock-poll.cc])

    A [SocketPoll] owns a listening socket and the table of the connections it
    accepted, and hands their messages to the dispatcher. Its thread is a small
    machine: one step is one [select], the service of one descriptor, or the
    release of one connection; the dispatcher's thread runs between the steps. The
    system calls are parameters (the class [PollOS]). The operations are written
    against the class [PollClass], so that [BeepSocketPoll] ([BeepPoll.v]) inherits
    them and replaces the virtual ones. *)
From S2P Require Import Prelude Defs Caps Adap SockAdap Reader SerHelper Disp.
From S2P Require Import DispLoop.
Import DispatcherThread.

Definition POLL_TYPE_UNIX : Z := 0.
Definition POLL_TYPE_TCP : Z := 1.
Definition TCP_SOCK_WRITE_TIMEOUT : Z := 4000.
Definition UNIX_SOCK_WRITE_TIMEOUT : Z := 800.

(** [sys/select.h], [sys/un.h] *)
Definition FD_SETSIZE : Z := 1024.
Definition SUN_PATH_SIZE : Z := 108.

(** ** The system calls of a poll *)
Class PollOS (os W : Type) := {
  sys_select : gset Z -> Z -> option (Z * Z) -> W -> (gset Z + Z) * W;
    (** set, count and timeout (sec, usec); the ready descriptors or [errno] *)
  sys_accept : Z -> W -> (Z * (Z * Z) * os + Z) * W;
    (** descriptor, peer ([sin_port], [s_addr]) and connection, or [errno] *)
  sys_close : Z -> W -> W;
  sys_shutdown_fd : Z -> W -> W;                       (** of the listening socket *)
  sys_socket_un : W -> option Z * W;
  sys_unlink : string -> W -> W;
  sys_bind_un : Z -> string -> W -> bool * W;
  sys_socket_in : W -> option Z * W;
  sys_reuseaddr : Z -> W -> W;
  sys_hostbyname : string -> W -> option Z * W;
  sys_bind_in : Z -> Z -> Z -> W -> bool * W;          (** descriptor, address, port *)
  sys_listen : Z -> Z -> W -> W;
  sys_sleep : Z -> W -> W;
  sys_now : W -> Z * W                                 (** [steady_clock::now()] *)
}.

(** What the calls do to the descriptors the process has open: a new descriptor
    is one that was not in use. The fields of a peer's [sockaddr_in] have 16 and 32
    bits. *)
Class PollLaws (os W : Type) `{!PollOS os W} := {
  open_fds : W -> gset Z;
  accept_fresh lfd w fd p s w' : sys_accept lfd w = (inl (fd, p, s), w') ->
    0 <= fd /\ fd ∉ open_fds w /\ open_fds w' = {[fd]} ∪ open_fds w;
  accept_peer lfd w fd p s w' : sys_accept lfd w = (inl (fd, p, s), w') -> 0 <= p.1 < 65536 /\ is_u32 p.2;
  accept_fails lfd w e w' : sys_accept lfd w = (inr e, w') -> open_fds w' = open_fds w;
  socket_un_fresh w fd w' : sys_socket_un w = (Some fd, w') ->
    0 <= fd /\ fd ∉ open_fds w /\ open_fds w' = {[fd]} ∪ open_fds w;
  socket_un_fails w w' : sys_socket_un w = (None, w') -> open_fds w' = open_fds w;
  socket_in_fresh w fd w' : sys_socket_in w = (Some fd, w') ->
    0 <= fd /\ fd ∉ open_fds w /\ open_fds w' = {[fd]} ∪ open_fds w;
  socket_in_fails w w' : sys_socket_in w = (None, w') -> open_fds w' = open_fds w;
  close_fds fd w : open_fds (sys_close fd w) = open_fds w ∖ {[fd]};
  select_ready s n tv w r w' : sys_select s n tv w = (inl r, w') -> r ⊆ s;
  select_fds s n tv w : open_fds (sys_select s n tv w).2 = open_fds w;
  shutdown_fds fd w : open_fds (sys_shutdown_fd fd w) = open_fds w;
  unlink_fds p w : open_fds (sys_unlink p w) = open_fds w;
  bind_un_fds fd p w : open_fds (sys_bind_un fd p w).2 = open_fds w;
  reuseaddr_fds fd w : open_fds (sys_reuseaddr fd w) = open_fds w;
  hostbyname_fds h w : open_fds (sys_hostbyname h w).2 = open_fds w;
  bind_in_fds fd a p w : open_fds (sys_bind_in fd a p w).2 = open_fds w;
  listen_fds fd n w : open_fds (sys_listen fd n w) = open_fds w;
  sleep_fds n w : open_fds (sys_sleep n w) = open_fds w;
  now_fds w : open_fds (sys_now w).2 = open_fds w
}.

(** The descriptors the process is given fit in an [fd_set]: what the limit on open
    files has to provide, since the code does not look. *)
Class FdLimit (os W : Type) `{!PollOS os W} := {
  accept_limit lfd w fd p s w' : sys_accept lfd w = (inl (fd, p, s), w') -> fd < FD_SETSIZE;
  socket_un_limit w fd w' : sys_socket_un w = (Some fd, w') -> fd < FD_SETSIZE;
  socket_in_limit w fd w' : sys_socket_in w = (Some fd, w') -> fd < FD_SETSIZE
}.

(** The first member of a [std::map], which keeps its keys in order. *)
Definition map_begin {A} (m : gmap Z A) : option (Z * A) :=
  foldr (fun p acc =>
    match acc with
    | Some q => if bool_decide (p.1 < q.1) then Some p else Some q
    | None => Some p
    end) None (map_to_list m).

(** ** What a poll's thread shares with the dispatcher

    Putting a message and erasing an adapter notify the dispatcher's thread. *)
#[export] Instance thread_sink {caps} `{!CapsOps caps} {S} :
    FrameSink (loc caps * Disp caps S) := {|
  sink_put a f d :=
    let '(ok, s') := Dispatcher.put f a d.2 in
    (ok, (if ok then notify_one d.1 else d.1, s'))
|}.

#[export] Instance thread_sink_laws {caps} `{!CapsOps caps} {S} :
  FrameSinkLaws (loc caps * Disp caps S) caps.
Proof.
  split; intros a f [l s]; simpl; unfold Dispatcher.put; [intros c Hc|intros Hc]; by rewrite Hc.
Qed.

Module SocketPoll.
Record t := mk {
  type : Z;
  name : string;
  host : string;
  port : Z;
  started : bool;               (** [dispatcher] is set *)
  listen_fd : Z;
  max_fd : Z;
  all_fds : gset Z;
  max_msg_size : Z;
  adapters : gmap Z aid
}.

Definition set_started (v : bool) (p : t) : t :=
  mk (type p) (name p) (host p) (port p) v (listen_fd p) (max_fd p) (all_fds p) (max_msg_size p) (adapters p).
Definition set_listen_fd (v : Z) (p : t) : t :=
  mk (type p) (name p) (host p) (port p) (started p) v (max_fd p) (all_fds p) (max_msg_size p) (adapters p).
Definition set_max_fd (v : Z) (p : t) : t :=
  mk (type p) (name p) (host p) (port p) (started p) (listen_fd p) v (all_fds p) (max_msg_size p) (adapters p).
Definition set_all_fds (v : gset Z) (p : t) : t :=
  mk (type p) (name p) (host p) (port p) (started p) (listen_fd p) (max_fd p) v (max_msg_size p) (adapters p).
Definition set_max_msg_size (v : Z) (p : t) : t :=
  mk (type p) (name p) (host p) (port p) (started p) (listen_fd p) (max_fd p) (all_fds p) v (adapters p).
Definition set_adapters (v : gmap Z aid) (p : t) : t :=
  mk (type p) (name p) (host p) (port p) (started p) (listen_fd p) (max_fd p) (all_fds p) (max_msg_size p) v.

(** The two constructors. *)
Definition new_unix (name : string) : t :=
  mk POLL_TYPE_UNIX name EmptyString 0 false (-1) 0 ∅ 0 ∅.
Definition new_tcp (host : string) (port : Z) : t :=
  mk POLL_TYPE_TCP EmptyString host port false (-1) 0 ∅ 0 ∅.
End SocketPoll.

(** A class that derives from [SocketPoll]. *)
Class PollClass (X : Type) := {
  base : X -> SocketPoll.t;
  set_base : SocketPoll.t -> X -> X
}.

Class PollClassLaws (X : Type) `{!PollClass X} := {
  base_set p x : base (set_base p x) = p;
  set_set p q x : set_base p (set_base q x) = set_base p x
}.

#[export] Instance SocketPoll_class : PollClass SocketPoll.t := {|
  base p := p;
  set_base p _ := p
|}.

#[export] Instance SocketPoll_class_laws : PollClassLaws SocketPoll.t.
Proof. by split. Qed.

(** The state that the thread of a poll works on. *)
Record shared (caps os W X : Type) := mkShared {
  obj : X;
  thread : loc caps;                             (** where the dispatcher's thread is *)
  disp : Disp caps (SocketAdapter.t os);
  world : W
}.
Arguments mkShared {caps os W X}.
Arguments obj {caps os W X}.
Arguments thread {caps os W X}.
Arguments disp {caps os W X}.
Arguments world {caps os W X}.

(** Where the thread is in [run]. *)
Inductive place : Type :=
  | AtSelect                                     (** before [do_poll] *)
  | Scan (ifd : Z) (rfds : gset Z) (lfd : Z)     (** in the loop over the descriptors *)
  | Release                                      (** in the loop over the adapters *)
  | Quit.                                        (** the thread has ended *)

Module PollThread.
Section Ops.
Context {caps : Type} `{!CapsOps caps, !CapsFlags} {os : Type} `{!SockOS os, !SteadyClock}.
Context {W : Type} `{!PollOS os W} {X : Type} `{!PollClass X}.

Abbreviation MP := (M (shared caps os W X)).
Implicit Types (s : shared caps os W X) (a : aid).

Definition set_obj (x : X) s := mkShared x (thread s) (disp s) (world s).
Definition set_thread (l : loc caps) s := mkShared (obj s) l (disp s) (world s).
Definition set_disp (d : Disp caps (SocketAdapter.t os)) s := mkShared (obj s) (thread s) d (world s).
Definition set_world (w : W) s := mkShared (obj s) (thread s) (disp s) w.

Definition this {A} (f : SocketPoll.t -> A) : MP A := gets (fun s => f (base (obj s))).
Definition upd_this (f : SocketPoll.t -> SocketPoll.t) : MP unit :=
  modify (fun s => set_obj (set_base (f (base (obj s))) (obj s)) s).

(** A call of the dispatcher, and a system call. *)
Definition on_disp {A} (m : M (Disp caps (SocketAdapter.t os)) A) : MP A := fun s =>
  match m (disp s) with
  | Done (a, d) => Done (a, set_disp d s)
  | Undef u => Undef u
  end.
Definition sys {A} (f : W -> A * W) : MP A := fun s =>
  let '(a, w) := f (world s) in Done (a, set_world w s).
Definition sys_ (f : W -> W) : MP unit := modify (fun s => set_world (f (world s)) s).

(** [FD_SET] and [FD_CLR] on [all_fds] *)
Definition fd_check (fd : Z) : MP unit :=
  if bool_decide (0 <= fd < FD_SETSIZE) then mret tt else undefined FdSetRange.
Definition FD_SET (fd : Z) : MP unit :=
  fd_check fd ;; upd_this (fun p => SocketPoll.set_all_fds ({[fd]} ∪ SocketPoll.all_fds p) p).
Definition FD_CLR (fd : Z) : MP unit :=
  fd_check fd ;; upd_this (fun p => SocketPoll.set_all_fds (SocketPoll.all_fds p ∖ {[fd]}) p).

(** ** Connections *)

(** [dispatcher->erase_adapter(adap)], with its notification *)
Definition erase_adapter (a : aid) : MP unit :=
  queued ← gets (fun s => has_info a (disp s));
  on_disp (Dispatcher.erase_adapter a) ;;
  when queued (modify (fun s => set_thread (notify_one (thread s)) s)).

(** [make_shared<SocketAdapter>]: a new object, which the poll holds. *)
Definition make_adapter (x : Adapter (SocketAdapter.t os)) : MP aid :=
  d ← gets disp;
  let a := fresh (dom (adapters d)) in
  modify (set_disp (set_held ({[a]} ∪ held d) (set_adapters (<[a := x]> (adapters d)) d))) ;;
  mret a.

Definition new_adapter (fd : Z) (conn : os) : MP aid :=
  p ← this id;
  let tcp := bool_decide (SocketPoll.type p = POLL_TYPE_TCP) in
  let flags := if tcp then CAPS_FLAG_NET_BYTEORDER else 0 in
  let wto := if tcp then TCP_SOCK_WRITE_TIMEOUT else UNIX_SOCK_WRITE_TIMEOUT in
  a ← make_adapter (mkAdapter flags None 0
        (SocketAdapter.new fd (SocketPoll.max_msg_size p) wto conn));
  when (bool_decide (SocketPoll.max_fd p <= fd)) (upd_this (SocketPoll.set_max_fd (fd + 1))) ;;
  FD_SET fd ;;
  mret a.

Definition delete_adapter (a : aid) : MP unit :=
  x ← on_disp (Dispatcher.deref a);
  let fd := SocketAdapter.socketfd (impl x) in
  on_disp (Dispatcher.close_adapter a) ;;
  FD_CLR fd ;;
  sys_ (sys_close fd) ;;
  erase_adapter a.

(** [adapters.erase(it)]: the table's [shared_ptr] goes. *)
Definition erase_entry (fd : Z) (a : aid) : MP unit :=
  upd_this (fun p => SocketPoll.set_adapters (delete fd (SocketPoll.adapters p)) p) ;;
  on_disp (modify (fun d => set_held (held d ∖ {[a]}) d)).

(** ** The virtual functions *)

(** One pass of [do_poll]'s loop; [None] when [select] failed with [EAGAIN] and is
    to be called again. *)
Definition do_poll (rfds : gset Z) (max_fd : Z) : MP (option (gset Z + Z)) :=
  r ← sys (sys_select rfds max_fd None);
  match r with
  | inr errno =>
      if bool_decide (errno = EAGAIN) then sys_ (sys_sleep 1) ;; mret None else mret (Some r)
  | inl _ => mret (Some r)
  end.

(** [unix_accept] and [tcp_accept], which also gives the peer's tag *)
Definition unix_accept (lfd : Z) : MP (option (Z * os)) :=
  r ← sys (sys_accept lfd);
  mret (match r with inl (fd, _, conn) => Some (fd, conn) | inr _ => None end).

Definition tcp_accept (lfd : Z) : MP (option (Z * os) * Z) :=
  r ← sys (sys_accept lfd);
  mret (match r with
        | inl (fd, (sin_port, s_addr), conn) => (Some (fd, conn), TagHelper.create_tcp sin_port s_addr)
        | inr _ => (None, 0)
        end).

Definition do_accept (lfd : Z) : MP (option aid) :=
  type ← this SocketPoll.type;
  r ← (if bool_decide (type = POLL_TYPE_TCP) then tcp_accept lfd
       else c ← unix_accept lfd; mret (c, 0));
  match r with
  | (None, _) => mret None
  | (Some (new_fd, conn), tag) =>
      a ← new_adapter new_fd conn;
      on_disp (Dispatcher.upd_adapter a (set_tag tag)) ;;
      upd_this (fun p => SocketPoll.set_adapters
        (match SocketPoll.adapters p !! new_fd with    (** [insert] keeps an entry *)
         | Some _ => SocketPoll.adapters p
         | None => <[new_fd := a]> (SocketPoll.adapters p)
         end) p) ;;
      mret (Some a)
  end.

Definition do_read (a : aid) : MP bool :=
  x ← on_disp (Dispatcher.deref a);
  s ← get;
  match Reader.do_read (Reader.read_fuel (impl x)) a (impl x) (thread s, disp s) with
  | None => undefined LoopBound
  | Some (ok, i, (l, d)) =>
      modify (fun s => set_thread l (set_disp d s)) ;;
      on_disp (Dispatcher.upd_adapter a (set_impl i)) ;;
      mret ok
  end.
(** What a class derived from [SocketPoll] may replace. *)
Record vtable := mkVtable {
  v_do_poll : gset Z -> Z -> MP (option (gset Z + Z));
  v_do_accept : Z -> MP (option aid);
  v_do_read : aid -> MP bool
}.

(** ** The thread ([run])

    One definition for each of its three loops' bodies. *)

(** [do_poll], then the tests on its result and on [get_listen_fd()]. *)
Definition select_step (V : vtable) : MP place :=
  rfds ← this SocketPoll.all_fds;
  n ← this SocketPoll.max_fd;
  r ← v_do_poll V rfds n;
  match r with
  | None => mret AtSelect
  | Some (inr _) => mret Release
  | Some (inl ready) =>
      lfd ← this SocketPoll.listen_fd;
      if bool_decide (lfd < 0) then mret Release
      else if bool_decide (ready = ∅) then mret AtSelect
      else mret (Scan 0 ready lfd)
  end.

Definition serve_fd (V : vtable) (ifd lfd : Z) : MP unit :=
  if bool_decide (ifd = lfd) then v_do_accept V lfd ;; mret tt
  else
    m ← this SocketPoll.adapters;
    match m !! ifd with
    | None => mret tt
    | Some a =>
        ok ← v_do_read V a;
        when (negb ok) (delete_adapter a ;; erase_entry ifd a)
    end.

Definition scan_step (V : vtable) (ifd : Z) (rfds : gset Z) (lfd : Z) : MP place :=
  n ← this SocketPoll.max_fd;
  if bool_decide (ifd < n) then
    when (bool_decide (ifd ∈ rfds)) (serve_fd V ifd lfd) ;;
    mret (Scan (ifd + 1) rfds lfd)
  else mret AtSelect.

Definition release_step : MP place :=
  m ← this SocketPoll.adapters;
  match map_begin m with
  | None => mret Quit
  | Some (fd, a) => (delete_adapter a ;; erase_entry fd a) ;; mret Release
  end.

Definition run_step (V : vtable) (l : place) : MP place :=
  match l with
  | AtSelect => select_step V
  | Scan ifd rfds lfd => scan_step V ifd rfds lfd
  | Release => release_step
  | Quit => mret Quit
  end.

(** [n] steps of the thread, none of another thread's in between. *)
Fixpoint run_steps (n : nat) (V : vtable) (l : place) : MP place :=
  match n with
  | O => mret l
  | S n => l' ← run_step V l; run_steps n V l'
  end.

(** ** Start and stop *)

Definition init_unix_socket : MP bool :=
  r ← sys sys_socket_un;
  match r with
  | None => mret false
  | Some fd =>
      name ← this SocketPoll.name;
      if bool_decide (SUN_PATH_SIZE <= Z.of_nat (String.length (c_str name)))
      then undefined BufferOverflow
      else
        sys_ (sys_unlink (c_str name)) ;;
        ok ← sys (sys_bind_un fd (c_str name));
        if ok : bool then
          sys_ (sys_listen fd 10) ;; upd_this (SocketPoll.set_listen_fd fd) ;; mret true
        else sys_ (sys_close fd) ;; mret false
  end.

Definition init_tcp_socket : MP bool :=
  r ← sys sys_socket_in;
  match r with
  | None => mret false
  | Some fd =>
      sys_ (sys_reuseaddr fd) ;;
      host ← this SocketPoll.host;
      port ← this SocketPoll.port;
      hp ← sys (sys_hostbyname (c_str host));
      match hp with
      | None => sys_ (sys_close fd) ;; mret false
      | Some addr =>
          ok ← sys (sys_bind_in fd addr (port mod 65536));
          if ok : bool then
            sys_ (sys_listen fd 10) ;; upd_this (SocketPoll.set_listen_fd fd) ;; mret true
          else sys_ (sys_close fd) ;; mret false
      end
  end.

(** What [run] does before its loop, while [start] waits for it. *)
Definition run_begin : MP unit :=
  upd_this (SocketPoll.set_all_fds ∅) ;;
  lfd ← this SocketPoll.listen_fd;
  FD_SET lfd ;;
  upd_this (SocketPoll.set_max_fd (lfd + 1)).

Definition start : MP Z :=
  st ← this SocketPoll.started;
  if st : bool then mret FLORA_POLL_ALREADY_START
  else
    type ← this SocketPoll.type;
    r ← (if bool_decide (type = POLL_TYPE_TCP) then init_tcp_socket else init_unix_socket);
    if negb r then mret FLORA_POLL_SYSERR
    else
      upd_this (SocketPoll.set_started true) ;;
      size ← gets (fun s => buf_size (disp s));
      upd_this (SocketPoll.set_max_msg_size size) ;;
      run_begin ;;
      mret FLORA_POLL_SUCCESS.

(** [stop] up to the join of the thread, with the descriptor to close; [None] when
    the poll is not started. *)
Definition stop_begin : MP (option Z) :=
  st ← this SocketPoll.started;
  if negb st then mret None
  else
    fd ← this SocketPoll.listen_fd;
    upd_this (SocketPoll.set_listen_fd (-1)) ;;
    sys_ (sys_shutdown_fd fd) ;;
    mret (Some fd).

(** [stop] after the join. *)
Definition stop_end (fd : Z) : MP unit :=
  sys_ (sys_close fd) ;;
  upd_this (SocketPoll.set_started false).
End Ops.
Arguments vtable caps os W X : clear implicits.

(** The virtual functions of [SocketPoll] itself. *)
Definition sock_vtable {caps} `{!CapsOps caps, !CapsFlags} {os} `{!SockOS os} {W} `{!PollOS os W} :
    vtable caps os W SocketPoll.t :=
  mkVtable do_poll do_accept do_read.
End PollThread.
