(* ===== verification/SockPollSpec.v ===== *)
(** * What a poll keeps true, and how it drives the dispatcher

    [poll_ok] ties a poll's table to its descriptor set, to the descriptors the
    process has open and to the [Adapter] objects. Every operation of the poll's
    thread keeps it, has no undefined behaviour, touches no connection of another
    poll, and acts on the dispatcher exactly as a sequence of the poll labels of
    [DispLoop.v]. *)
From S2P Require Import Prelude Defs Caps Adap Framing SockAdap Reader SerHelper Disp.
From S2P Require Import TagProps DispInv DispFrame DispLoop SockPoll.
Import Dispatcher DispatcherThread PollThread.

(** ** The first entry of the table *)
Lemma map_begin_spec {A} (m : gmap Z A) :
  match map_begin m with
  | None => m = ∅
  | Some (k, v) => m !! k = Some v /\ forall k', is_Some (m !! k') -> k <= k'
  end.
Proof.
  unfold map_begin.
  set (f := fun (p : Z * A) acc => match acc with
    | Some q => if bool_decide (p.1 < q.1) then Some p else Some q | None => Some p end).
  assert (forall l, match foldr f None l with
    | None => l = []
    | Some p => p ∈ l /\ forall q, q ∈ l -> p.1 <= q.1 end) as Hf.
  { intros l. induction l as [|p l IH]; [done|]. simpl. destruct (foldr f None l) as [q|]; simpl.
    - destruct IH as [Hq Hmin]. case_bool_decide as Hlt; (split; [set_solver|]);
        intros r [->|Hr]%elem_of_cons; try lia; specialize (Hmin r Hr); lia.
    - subst l. split; [set_solver|]. intros q ->%list_elem_of_singleton. lia. }
  specialize (Hf (map_to_list m)). destruct (foldr f None _) as [[k v]|].
  - destruct Hf as [Hin Hmin]. apply elem_of_map_to_list in Hin. split; [done|].
    intros k' [v' Hk']. apply (Hmin (k', v')). by apply elem_of_map_to_list.
  - by apply map_to_list_empty_iff.
Qed.

Section Spec.
Context {caps : Type} `{!CapsOps caps, !CapsFlags} {os : Type} `{!SockOS os, !SteadyClock}.
Context {W : Type} `{!PollOS os W} {X : Type} `{!PollClass X}.
Context `{!CapsLaws caps, !CapsFraming caps, !SockLaws os, !PollLaws os W, !PollClassLaws X}.

Abbreviation dstate := (Disp caps (SocketAdapter.t os)).
Abbreviation state := (shared caps os W X).
Implicit Types (s : state) (d : dstate) (a : aid) (p : SocketPoll.t) (w : W).

(** ** The invariant of one poll, listening on [lfd] *)
Record table_ok p d w (lfd : Z) : Prop := {
  tb_fds : SocketPoll.all_fds p = {[lfd]} ∪ dom (SocketPoll.adapters p);
  tb_lfd : lfd ∉ dom (SocketPoll.adapters p);
  tb_listen : SocketPoll.listen_fd p = lfd \/ SocketPoll.listen_fd p = -1;
  tb_range fd : fd ∈ SocketPoll.all_fds p -> 0 <= fd < SocketPoll.max_fd p;
  tb_max : SocketPoll.max_fd p <= FD_SETSIZE;
  tb_open : SocketPoll.all_fds p ⊆ open_fds w;
  tb_size : HEADER_SIZE <= SocketPoll.max_msg_size p < two32;
  tb_conns fd a : SocketPoll.adapters p !! fd = Some a ->
    a ∈ held d /\ exists x, adapters d !! a = Some x /\ SocketAdapter.conn_ok fd (impl x)
}.

Definition poll_ok (s : state) (lfd : Z) : Prop := table_ok (base (obj s)) (disp s) (world s) lfd.

(** The connections and the descriptors of a poll. *)
Definition mine p a : Prop := exists fd, SocketPoll.adapters p !! fd = Some a.

(** What an operation may do outside its own poll: nothing. *)
Record local_change s s' : Prop := {
  lc_held a : ~ mine (base (obj s)) a -> a ∈ held (disp s) -> is_Some (adapters (disp s) !! a) ->
    a ∈ held (disp s') /\ adapters (disp s') !! a = adapters (disp s) !! a;
  lc_kept a : is_Some (adapters (disp s) !! a) -> is_Some (adapters (disp s') !! a);
  lc_new a : a ∈ held (disp s') -> mine (base (obj s')) a \/ a ∈ held (disp s) /\ ~ mine (base (obj s)) a;
  lc_mine a : mine (base (obj s')) a -> mine (base (obj s)) a \/ adapters (disp s) !! a = None;
  lc_open fd : fd ∈ open_fds (world s) -> fd ∉ SocketPoll.all_fds (base (obj s)) -> fd ∈ open_fds (world s');
  lc_fds fd : fd ∈ SocketPoll.all_fds (base (obj s')) ->
    fd ∈ SocketPoll.all_fds (base (obj s)) \/ fd ∉ open_fds (world s)
}.

(** The connections deleted have no message queued, or had authenticated. *)
Definition orderly_change s s' : Prop :=
  forall a, a ∈ held (disp s) -> a ∉ held (disp s') -> (info <$> adapters (disp s') !! a) = Some None ->
    a ∉ (todo_of (thread s') ++ cmd_packets (disp s')).*2.

(** Labels of polls, each orderly. *)
Definition polled (st : DispatcherThread.sys caps (SocketAdapter.t os)) lbs : Prop :=
  all_orderly st lbs /\ Forall poll_label lbs.

(** The operation is a sequence of labels; [quiet]: none of them deletes. *)
Definition drives s s' : Prop :=
  exists lbs, execs (Running (thread s) (disp s)) lbs = Some (Running (thread s') (disp s')) /\
    (orderly_change s s' -> polled (Running (thread s) (disp s)) lbs).

Record quiet s s' : Prop := {
  qt_labels : exists lbs,
    execs (Running (thread s) (disp s)) lbs = Some (Running (thread s') (disp s')) /\
    polled (Running (thread s) (disp s)) lbs;
  qt_held : held (disp s) ⊆ held (disp s')
}.

#[export] Instance local_change_preorder : PreOrder local_change.
Proof.
  split.
  { intros s. split; [by auto..| |by auto|by auto|by auto]. intros a Ha. destruct (decide (a ∈ (map_to_list (SocketPoll.adapters (base (obj s)))).*2)) as [Hm|Hm].
    - left. apply list_elem_of_fmap in Hm as ([fd b] & -> & Hm%elem_of_map_to_list). exists fd. exact Hm.
    - right. split; [done|]. intros [fd Hfd]. apply Hm, list_elem_of_fmap. exists (fd, a).
      by rewrite elem_of_map_to_list. }
  intros s1 s2 s3 [H1 K1 N1 M1 O1 F1] [H2 K2 N2 M2 O2 F2]. split.
  - intros a Hm Ha Hx. destruct (H1 a Hm Ha Hx) as [Ha2 He]. rewrite <- He in Hx.
    assert (~ mine (base (obj s2)) a) as Hm2.
    { intros [?|Hn]%M1; [done|]. rewrite He, Hn in Hx. by destruct Hx. }
    destruct (H2 a Hm2 Ha2 Hx) as [? ->]. done.
  - auto.
  - intros a Ha. destruct (N2 a Ha) as [?|[Ha2 Hm2]]; [by left|].
    destruct (N1 a Ha2); [done|by right].
  - intros a Ha. destruct (M2 a Ha) as [Hm|Hn]; [auto|]. right. apply eq_None_not_Some.
    intros Hs%K1. rewrite Hn in Hs. by destruct Hs.
  - intros fd Ho Hf. apply O2; [auto|]. intros [?|?]%F1; done.
  - intros fd Hfd. destruct (F2 fd Hfd) as [?|Ho]; [auto|].
    destruct (decide (fd ∈ open_fds (world s1))), (decide (fd ∈ SocketPoll.all_fds (base (obj s1)))); auto.
Qed.

Lemma polled_nil st : polled st [].
Proof. by split; [|constructor]. Qed.

Lemma polled_single st lb : orderly st lb -> poll_label lb -> polled st [lb].
Proof. intros Ho Hl. split; [split; [done|by destruct (exec st lb)]|by repeat constructor]. Qed.

Lemma polled_cons lb lbs st st' :
  orderly st lb -> poll_label lb -> exec st lb = Some st' -> polled st' lbs -> polled st (lb :: lbs).
Proof. intros Ho Hl He [Hs Hf]. split; [split; [done|by rewrite He]|by constructor]. Qed.

Lemma polled_app lbs lbs' st st' :
  execs st lbs = Some st' -> polled st lbs -> polled st' lbs' -> polled st (lbs ++ lbs').
Proof. intros He [? ?] [? ?]. split; [by eapply all_orderly_app|by apply Forall_app]. Qed.

Lemma polled_steps lbs : forall st st', execs st lbs = Some st' -> polled st lbs -> steps poll_step st st'.
Proof.
  induction lbs as [|lb lbs IH]; intros st st' He [Ho Hl]; simpl in *; [simplify_eq; constructor|].
  apply Forall_cons in Hl as [? ?]. destruct Ho as [Hlb Ho]. destruct (exec st lb) as [st1|] eqn:Hex; [|done].
  econstructor; [by exists lb|]. by apply IH.
Qed.

(** Nothing of the dispatcher's is touched. *)
Lemma quiet_same s s' : thread s' = thread s -> disp s' = disp s -> quiet s s'.
Proof. intros Ht Hd. split; rewrite ?Ht, Hd; [|done]. exists []. split; [done|apply polled_nil]. Qed.

Lemma quiet_refl s : quiet s s.
Proof. by apply quiet_same. Qed.

(** A system call that opens and closes nothing. *)
Lemma world_change s lfd w :
  poll_ok s lfd -> open_fds w = open_fds (world s) ->
  poll_ok (set_world w s) lfd /\ local_change s (set_world w s) /\ quiet s (set_world w s).
Proof.
  intros Hp Hf. split_and!.
  - destruct Hp. split; try done. simpl. by rewrite Hf.
  - split; simpl; rewrite ?Hf; auto. by apply (lc_new s s).
  - by apply quiet_same.
Qed.

(** A change of what a derived class adds. *)
Lemma derived_change s lfd (x : X) :
  poll_ok s lfd -> base x = base (obj s) ->
  poll_ok (set_obj x s) lfd /\ local_change s (set_obj x s) /\ quiet s (set_obj x s).
Proof.
  intros Hp Hb. split_and!.
  - unfold poll_ok. simpl. by rewrite Hb.
  - split; simpl; rewrite ?Hb; auto. by apply (lc_new s s).
  - by apply quiet_same.
Qed.

Lemma quiet_trans s1 s2 s3 : quiet s1 s2 -> quiet s2 s3 -> quiet s1 s3.
Proof.
  intros [(l1 & E1 & O1) H1] [(l2 & E2 & O2) H2]. split; [|by etrans]. exists (l1 ++ l2).
  rewrite execs_app, E1. split; [done|]. by eapply polled_app.
Qed.

Lemma quiet_drives s1 s2 s3 :
  quiet s1 s2 -> held (disp s1) = held (disp s2) -> drives s2 s3 -> drives s1 s3.
Proof.
  intros [(l1 & E1 & O1) _] Hh (l2 & E2 & O2). exists (l1 ++ l2). rewrite execs_app, E1.
  split; [done|]. intros Ho. eapply polled_app; [done..|]. apply O2.
  intros a Ha. apply Ho. by rewrite Hh.
Qed.

Lemma drives_quiet s1 s2 : quiet s1 s2 -> drives s1 s2.
Proof. intros [(l1 & E1 & O1) _]. by exists l1. Qed.

(** ** Rules for the primitive operations *)
Section Rules.
Context (E : ub -> Prop).

Lemma wpx_on_disp {A} (m : M dstate A) (Q : A -> state -> Prop) s :
  wpx E m (fun x d => Q x (set_disp d s)) (disp s) -> wpx E (on_disp m) Q s.
Proof. unfold wpx, on_disp. by destruct (m (disp s)) as [[x d]|]. Qed.

Lemma wpx_sys {A} (f : W -> A * W) (Q : A -> state -> Prop) s :
  Q (f (world s)).1 (set_world (f (world s)).2 s) -> wpx E (sys f) Q s.
Proof. unfold wpx, sys. by destruct (f (world s)). Qed.

Lemma wpx_this {A} (f : SocketPoll.t -> A) (Q : A -> state -> Prop) s :
  Q (f (base (obj s))) s -> wpx E (this f) Q s.
Proof. done. Qed.
End Rules.

Lemma base_upd (f : SocketPoll.t -> SocketPoll.t) s :
  base (obj (set_obj (set_base (f (base (obj s))) (obj s)) s)) = f (base (obj s)).
Proof. apply base_set. Qed.

(** ** Reading *)

Lemma only_reads d a x i :
  adapters d !! a = Some x -> SocketAdapter.only_read (impl x) i -> reads a i d.
Proof.
  intros Hx [Hs Hc]. unfold reads. rewrite Hx. simpl. apply (f_equal Some). by apply (f_equal2 pair).
Qed.

Lemma put_label a f l d : a ∈ held d ->
  exists l1 d1, (sink_put a f (l, d)).2 = (l1, d1) /\ exec (Running l d) (LPut a f) = Some (Running l1 d1) /\
    held d1 = held d /\ adapters d1 = adapters d /\ buf_size d1 = buf_size d.
Proof.
  intros Ha. cbn [sink_put thread_sink exec fst snd]. rewrite bool_decide_true by done. unfold put.
  destruct (caps_parse f) as [c|]; cbn [snd]; by do 2 eexists.
Qed.

(** Messages put one after the other. *)
Lemma deliver_labels a fs : forall l d l' d',
  a ∈ held d -> Reader.deliver a fs (l, d) = (l', d') ->
  execs (Running l d) (LPut a <$> fs) = Some (Running l' d') /\
  polled (Running l d) (LPut a <$> fs) /\
  held d' = held d /\ adapters d' = adapters d /\ buf_size d' = buf_size d.
Proof.
  induction fs as [|f fs IH]; intros l d l' d' Ha Hd.
  { unfold Reader.deliver in Hd. simpl in *. simplify_eq. split_and!; [done|apply polled_nil|done..]. }
  destruct (put_label a f l d Ha) as (l1 & d1 & Hp & He & Hh & Had & Hb).
  rewrite Reader.deliver_cons, Hp in Hd. rewrite <- Hh in Ha.
  destruct (IH l1 d1 l' d' Ha Hd) as (Hx & Ho & -> & -> & ->). cbn [fmap list_fmap execs]. rewrite He.
  split_and!; try done. eapply polled_cons; [by destruct l as [| |[|]|]|done..].
Qed.

Lemma table_ok_alter p d w lfd a (f : Adapter (SocketAdapter.t os) -> Adapter (SocketAdapter.t os)) d' :
  table_ok p d w lfd -> held d' = held d -> adapters d' = alter f a (adapters d) ->
  (forall fd x, SocketPoll.adapters p !! fd = Some a -> adapters d !! a = Some x ->
     SocketAdapter.conn_ok fd (impl x) -> SocketAdapter.conn_ok fd (impl (f x))) ->
  table_ok p d' w lfd.
Proof.
  intros [] Hh Ha Hf. split; try done. intros fd b Hb. rewrite Hh, Ha.
  destruct (tb_conns0 fd b Hb) as (? & x & Hx & Hc). split; [done|].
  destruct (decide (a = b)) as [<-|Hn].
  - exists (f x). rewrite lookup_alter_eq, Hx. split; [done|]. by eapply Hf.
  - exists x. by rewrite lookup_alter_ne.
Qed.

Lemma do_read_ok s lfd fd a :
  poll_ok s lfd -> SocketPoll.adapters (base (obj s)) !! fd = Some a ->
  wp (do_read a) (fun _ s' => poll_ok s' lfd /\ local_change s s' /\ quiet s s' /\
    obj s' = obj s /\ held (disp s') = held (disp s) /\ world s' = world s) s.
Proof.
  intros Hp Ha. destruct (tb_conns _ _ _ _ Hp fd a Ha) as (Hh & x & Hx & Hc).
  unfold do_read. wstep. apply wpx_on_disp, (wp_deref a x); [done|]. wsteps.
  destruct (Reader.do_read_conn fd a (impl x) (thread s, disp s) Hc) as (ok & i & [l d] & Hr & [Hi Hor] & fs & Hd).
  simpl. rewrite Hr. symmetry in Hd. destruct (deliver_labels _ _ _ _ _ _ Hh Hd) as (He & Ho & Hhd & Had & _).
  wsteps. apply wpx_on_disp. unfold upd_adapter. wsteps. simpl.
  split_and!; try done.
  - unfold poll_ok. simpl. eapply (table_ok_alter _ _ _ _ a); [exact Hp|done|by rewrite Had|].
    intros fd' y Ha' Hy [Hfd' _]. simpl. simplify_eq. destruct Hc as [Hfd _]. by simplify_eq.
  - split; simpl; rewrite ?Hhd, ?Had; auto.
    + intros b Hm Hb _. split; [done|]. rewrite lookup_alter_ne; [done|]. intros <-. by destruct Hm; exists fd.
    + intros b Hb. by apply lookup_alter_is_Some.
    + intros b Hb. apply (lc_new s s); [reflexivity|done].
  - split; simpl; [|by rewrite Hhd]. exists ((LPut a <$> fs) ++ [LRead a i]).
    rewrite execs_app, He. simpl. rewrite bool_decide_true
      by (split; [by rewrite Hhd|apply (only_reads _ _ x); [by rewrite Had|done]]).
    split; [done|]. eapply polled_app; [done..|]. apply polled_single; [by destruct l as [| |[|]|]|done].
Qed.

(** ** Deleting *)

(** The dispatcher after [poll_delete a], [x] being the object. *)
Definition deleted a (x : Adapter (SocketAdapter.t os)) d : dstate :=
  let d1 := set_adapters (alter (set_impl (SocketAdapter.close (impl x))) a (adapters d)) d in
  let d2 := match info x with None => d1 | Some _ => push_packet (None, a) d1 end in
  set_held (held d2 ∖ {[a]}) d2.

Lemma poll_delete_eq d a x : adapters d !! a = Some x -> poll_delete a d = Done (tt, deleted a x d).
Proof.
  intros Hx. unfold poll_delete, close_adapter, Dispatcher.erase_adapter, upd_adapter, modify, deref.
  unfold mbind, M_bind. rewrite Hx. simpl. rewrite lookup_alter_eq, Hx. unfold deleted. simpl.
  by destruct (info x).
Qed.

Lemma has_info_eq d a x : adapters d !! a = Some x -> has_info a d = bool_decide (info x <> None).
Proof. unfold has_info. by intros ->. Qed.

Lemma delete_eq s fd a x :
  adapters (disp s) !! a = Some x -> SocketAdapter.socketfd (impl x) = fd -> 0 <= fd < FD_SETSIZE ->
  (delete_adapter a ;; erase_entry fd a) s = Done (tt, mkShared
    (set_base (SocketPoll.set_adapters (delete fd (SocketPoll.adapters (base (obj s))))
      (SocketPoll.set_all_fds (SocketPoll.all_fds (base (obj s)) ∖ {[fd]}) (base (obj s)))) (obj s))
    (if bool_decide (info x <> None) then notify_one (thread s) else thread s)
    (deleted a x (disp s)) (sys_close fd (world s))).
Proof.
  intros Hx Hfd Hr.
  unfold delete_adapter, erase_adapter, erase_entry, FD_CLR, fd_check, sys_, upd_this.
  unfold close_adapter, Dispatcher.erase_adapter, upd_adapter, modify, deref, gets, on_disp.
  unfold mbind, M_bind. rewrite Hx. rewrite Hfd, bool_decide_true by done.
  unfold mret, M_ret, set_disp, set_obj, set_world, has_info. simpl.
  repeat (first [rewrite lookup_alter_eq | rewrite Hx]; simpl). unfold deleted.
  destruct (info x); simpl; unfold set_thread; simpl; by rewrite !base_set, set_set.
Qed.

(** The state after a deletion. *)
Definition without (fd : Z) (o : X) : X :=
  set_base (SocketPoll.set_adapters (delete fd (SocketPoll.adapters (base o)))
    (SocketPoll.set_all_fds (SocketPoll.all_fds (base o) ∖ {[fd]}) (base o))) o.

Definition after_delete s fd a x : state := mkShared (without fd (obj s))
  (if bool_decide (info x <> None) then notify_one (thread s) else thread s)
  (deleted a x (disp s)) (sys_close fd (world s)).

Section Delete.
Context (s : state) (lfd fd : Z) (a : aid) (x : Adapter (SocketAdapter.t os)).
Context (Hp : poll_ok s lfd).
Context (Ha : SocketPoll.adapters (base (obj s)) !! fd = Some a).
Context (Hx : adapters (disp s) !! a = Some x).

Lemma deleted_held d : held (deleted a x d) = held d ∖ {[a]}.
Proof. unfold deleted. by destruct (info x). Qed.

Lemma deleted_adapters d :
  adapters (deleted a x d) = alter (set_impl (SocketAdapter.close (impl x))) a (adapters d).
Proof. unfold deleted. by destruct (info x). Qed.

Lemma deleted_other d b : a <> b -> adapters (deleted a x d) !! b = adapters d !! b.
Proof. intros. by rewrite deleted_adapters, lookup_alter_ne. Qed.

Lemma delete_table : poll_ok (after_delete s fd a x) lfd.
Proof.
  pose proof Hp as []. unfold poll_ok, after_delete, without. cbn [obj disp world]. rewrite base_set.
  split; try done; cbn -[union difference deleted].
  - rewrite dom_delete_L, tb_fds0. assert (lfd <> fd); [intros ->|set_solver].
    apply tb_lfd0, elem_of_dom. by exists a.
  - set_solver.
  - intros fd'. set_solver.
  - rewrite close_fds. set_solver.
  - intros fd' b. rewrite lookup_delete_Some. intros [Hne Hb].
    destruct (tb_conns0 fd a Ha) as (_ & x' & Hx' & Hc). simplify_eq.
    destruct (tb_conns0 fd' b Hb) as (Hbh & y & Hy & Hyc).
    assert (a <> b) as Hab. { intros ->. destruct Hyc, Hc. congruence. }
    rewrite deleted_held, deleted_other by done. split; [set_solver|]. by exists y.
Qed.

Lemma delete_local : local_change s (after_delete s fd a x).
Proof.
  unfold after_delete, without. split; cbn [obj disp world]; rewrite ?base_set, ?deleted_held.
  - intros b Hnm Hb _. assert (a <> b) as Hab by (intros ->; destruct Hnm; by exists fd).
    rewrite deleted_other by done. split; [set_solver|done].
  - intros b Hb. rewrite deleted_adapters. by apply lookup_alter_is_Some.
  - intros b [Hb Hab%not_elem_of_singleton]%elem_of_difference.
    destruct (lc_new s s ltac:(reflexivity) b Hb) as [[fd' Hfd']|?]; [left|by right].
    exists fd'. simpl. rewrite lookup_delete_ne; [done|]. intros ->. congruence.
  - intros b [fd' Hb]. simpl in Hb. left. exists fd'. by apply lookup_delete_Some in Hb as [_ ?].
  - intros fd' Ho Hn. rewrite close_fds. pose proof (tb_fds _ _ _ _ Hp) as Hfds.
    assert (fd ∈ dom (SocketPoll.adapters (base (obj s)))) by (apply elem_of_dom; by exists a). set_solver.
  - intros fd'. simpl. set_solver.
Qed.

Lemma delete_drives : drives s (after_delete s fd a x).
Proof.
  destruct (tb_conns _ _ _ _ Hp fd a Ha) as (Hh & _).
  exists [LDelete a]. cbn [execs exec]. rewrite bool_decide_true by done.
  rewrite (poll_delete_eq _ _ x), (has_info_eq _ _ x) by done. split; [done|].
  intros Ho. apply polled_single; [|done]. specialize (Ho a Hh). cbn [disp thread after_delete] in Ho.
  rewrite deleted_held, deleted_adapters, lookup_alter_eq, Hx in Ho.
  assert ((info <$> adapters (disp s) !! a) = Some None ->
    a ∉ (todo_of (thread s) ++ cmd_packets (disp s)).*2) as Hq; [|by destruct (thread s) as [| |[|]|]].
  rewrite Hx. intros Hi. injection Hi as Hi. unfold deleted in Ho. rewrite Hi in Ho.
  rewrite bool_decide_false in Ho by auto. apply Ho; [set_solver|]. simpl. by rewrite Hi.
Qed.
End Delete.

Lemma delete_ok s lfd fd a :
  poll_ok s lfd -> SocketPoll.adapters (base (obj s)) !! fd = Some a ->
  wp (delete_adapter a ;; erase_entry fd a) (fun _ s' => poll_ok s' lfd /\ local_change s s' /\
    drives s s' /\ obj s' = without fd (obj s) /\
    exists x, adapters (disp s) !! a = Some x /\ s' = after_delete s fd a x) s.
Proof.
  intros Hp Ha. destruct (tb_conns _ _ _ _ Hp fd a Ha) as (Hh & x & Hx & [Hfd Hc]).
  assert (fd ∈ SocketPoll.all_fds (base (obj s))) as Hin.
  { rewrite (tb_fds _ _ _ _ Hp). apply elem_of_union_r, elem_of_dom. by exists a. }
  pose proof (tb_range _ _ _ _ Hp fd Hin) as Hr. pose proof (tb_max _ _ _ _ Hp) as Hm.
  unfold wpx. rewrite (delete_eq s fd a x) by (done || lia).
  split_and!; [by apply delete_table|by eapply delete_local|by eapply delete_drives|done|eauto].
Qed.

(** ** Accepting *)

(** The connection that [do_accept] makes of what [accept] returned. *)
Definition accepted p (fd sin_port s_addr : Z) (conn : os) : Adapter (SocketAdapter.t os) :=
  let tcp := bool_decide (SocketPoll.type p = POLL_TYPE_TCP) in
  mkAdapter (if tcp then CAPS_FLAG_NET_BYTEORDER else 0) None
    (if tcp then TagHelper.create_tcp sin_port s_addr else 0)
    (SocketAdapter.new fd (SocketPoll.max_msg_size p)
       (if tcp then TCP_SOCK_WRITE_TIMEOUT else UNIX_SOCK_WRITE_TIMEOUT) conn).

Lemma accepted_fresh p fd sp sa conn : 0 <= sp < 65536 -> is_u32 sa -> accepted_conn (accepted p fd sp sa conn).
Proof.
  intros Hp Ha. split; [done|]. split; [|done]. unfold accepted. simpl. case_bool_decide; [|done].
  by apply create_tcp_range.
Qed.

Definition after_accept s a fd x w : state := mkShared
  (set_base (SocketPoll.set_adapters (<[fd := a]> (SocketPoll.adapters (base (obj s))))
    (SocketPoll.set_all_fds ({[fd]} ∪ SocketPoll.all_fds (base (obj s)))
      (SocketPoll.set_max_fd (Z.max (SocketPoll.max_fd (base (obj s))) (fd + 1)) (base (obj s))))) (obj s))
  (thread s) (set_held ({[a]} ∪ held (disp s)) (set_adapters (<[a := x]> (adapters (disp s))) (disp s))) w.

Local Ltac sim := cbn -[Z.add bool_decide fresh insert alter union delete].

Lemma accept_eq s lfd fd sp sa conn w :
  sys_accept lfd (world s) = (inl (fd, (sp, sa), conn), w) ->
  0 <= fd < FD_SETSIZE -> SocketPoll.adapters (base (obj s)) !! fd = None ->
  let a := fresh (dom (adapters (disp s))) in
  do_accept lfd s = Done (Some a, after_accept s a fd (accepted (base (obj s)) fd sp sa conn) w).
Proof.
  intros Hacc Hr Hn a.
  unfold do_accept, tcp_accept, unix_accept, new_adapter, make_adapter, FD_SET, fd_check, upd_this.
  unfold this, sys, gets, modify, on_disp, Dispatcher.upd_adapter, when, id, mbind, M_bind, mret, M_ret.
  unfold accepted, after_accept.
  assert (Z.max (SocketPoll.max_fd (base (obj s))) (fd + 1) =
    if bool_decide (SocketPoll.max_fd (base (obj s)) <= fd) then fd + 1
    else SocketPoll.max_fd (base (obj s))) as -> by (case_bool_decide; lia).
  destruct (bool_decide (SocketPoll.type (base (obj s)) = POLL_TYPE_TCP)) eqn:Ht; rewrite Hacc;
    sim; fold a; rewrite Ht;
    destruct (bool_decide (SocketPoll.max_fd (base (obj s)) <= fd)) eqn:Hm;
    sim; rewrite ?base_set;
    rewrite (bool_decide_true (0 <= fd < _)) by done;
    sim; unfold set_obj, set_disp, set_world;
    sim; rewrite ?base_set, ?set_set, ?alter_insert_eq;
    sim; rewrite ?Hn; done.
Qed.

Section Accept.
Context (s : state) (lfd fd : Z) (a : aid) (x : Adapter (SocketAdapter.t os)) (w : W).
Context (Hp : poll_ok s lfd) (Ha : adapters (disp s) !! a = None).
Context (Hfd : 0 <= fd < FD_SETSIZE) (Hopen : fd ∉ open_fds (world s)).
Context (Hw : open_fds w = {[fd]} ∪ open_fds (world s)).
Context (Hx : SocketAdapter.conn_ok fd (impl x)) (Hi : accepted_conn x).

Lemma accept_fd : fd ∉ SocketPoll.all_fds (base (obj s)).
Proof. intros ?%(tb_open _ _ _ _ Hp). done. Qed.

Lemma accept_table : poll_ok (after_accept s a fd x w) lfd.
Proof.
  pose proof accept_fd as Hn. pose proof Hp as []. unfold poll_ok, after_accept. cbn [obj disp world].
  rewrite base_set. split; sim; try done.
  - rewrite dom_insert_L, tb_fds0. set_solver.
  - rewrite dom_insert_L. set_solver.
  - intros fd' [->%elem_of_singleton|Hf]%elem_of_union; [lia|]. specialize (tb_range0 fd' Hf). lia.
  - lia.
  - rewrite Hw. set_solver.
  - intros fd' b [[<- <-]|[Hne Hb]]%lookup_insert_Some.
    + split; [set_solver|]. exists x. by rewrite lookup_insert_eq.
    + destruct (tb_conns0 fd' b Hb) as (Hbh & y & Hy & Hyc). split; [set_solver|]. exists y.
      by rewrite lookup_insert_ne by congruence.
Qed.

Lemma accept_local : local_change s (after_accept s a fd x w).
Proof.
  pose proof accept_fd as Hn. assert (SocketPoll.adapters (base (obj s)) !! fd = None) as Hfdn.
  { apply not_elem_of_dom. rewrite (tb_fds _ _ _ _ Hp) in Hn. set_solver. }
  unfold after_accept. split; cbn [obj disp world]; rewrite ?base_set; sim.
  - intros b _ Hb [y Hy]. rewrite lookup_insert_ne by congruence. split; [set_solver|done].
  - intros b Hb. apply lookup_insert_is_Some'. auto.
  - intros b [->%elem_of_singleton|Hb]%elem_of_union; [left; exists fd; simpl; by rewrite lookup_insert_eq|].
    destruct (lc_new s s ltac:(reflexivity) b Hb) as [[fd' Hfd']|?]; [left|by right].
    exists fd'. simpl. rewrite lookup_insert_ne by congruence. done.
  - intros b [fd' Hb]. simpl in Hb. apply lookup_insert_Some in Hb as [[_ <-]|[_ Hb]]; [by right|].
    left. by exists fd'.
  - rewrite Hw. set_solver.
  - intros fd' [->%elem_of_singleton|?]%elem_of_union; auto.
Qed.

Lemma accept_quiet : quiet s (after_accept s a fd x w).
Proof.
  split; [|simpl; set_solver]. exists [LAccept a x]. cbn [execs exec].
  rewrite bool_decide_true by done. split; [done|]. apply polled_single; [|done].
  by destruct (thread s) as [| |[|]|].
Qed.
End Accept.

Lemma do_accept_ok `{!FdLimit os W} s lfd l :
  poll_ok s lfd ->
  wp (do_accept l) (fun r s' => poll_ok s' lfd /\ local_change s s' /\ quiet s s' /\
    match r with
    | None => obj s' = obj s
    | Some a => exists fd x w, s' = after_accept s a fd x w /\ fd ∉ SocketPoll.all_fds (base (obj s)) /\
        adapters (disp s) !! a = None
    end) s.
Proof.
  intros Hp. destruct (sys_accept l (world s)) as [[[[fd [sp sa]] conn]|e] w] eqn:Hacc.
  - destruct (accept_fresh _ _ _ _ _ _ Hacc) as (H0' & Ho & Hw).
    pose proof (accept_limit _ _ _ _ _ _ Hacc).
    set (a := fresh (dom (adapters (disp s)))).
    assert (adapters (disp s) !! a = None) as Ha by apply not_elem_of_dom, is_fresh.
    pose proof (accept_fd s lfd fd Hp Ho) as Hn.
    unfold wpx. erewrite accept_eq; [|done|done|].
    2: { apply not_elem_of_dom. rewrite (tb_fds _ _ _ _ Hp) in Hn. set_solver. }
    fold a. set (x := accepted _ _ _ _ _).
    assert (SocketAdapter.conn_ok fd (impl x)) as Hc.
    { split; [done|]. right. eexists. apply SocketAdapter.new_wf. by destruct Hp. }
    destruct (accept_peer _ _ _ _ _ _ Hacc). assert (accepted_conn x) as Hfr by by apply accepted_fresh.
    split_and!; [by apply accept_table|by eapply accept_local|by eapply accept_quiet|eauto 6].
  - unfold do_accept. wsteps. apply wpx_this.
    assert (wp (if bool_decide (SocketPoll.type (base (obj s)) = POLL_TYPE_TCP) then tcp_accept l
      else c ← unix_accept l; mret (c, 0)) (fun r s' => r = (None, 0) /\ s' = set_world w s) s) as Hr.
    { case_bool_decide; unfold tcp_accept, unix_accept; wsteps; apply wpx_sys; rewrite Hacc; by wsteps. }
    wsteps. eapply wpx_mono; [exact Hr|]. intros r s' [-> ->]. wsteps.
    destruct (world_change s lfd w Hp (accept_fails _ _ _ _ Hacc)) as (? & ? & ?). done.
Qed.

(** ** The interface between the thread and the virtual functions

    [J] is what a derived class keeps true of its own members. *)
Record vtable_ok (V : vtable caps os W X) (J : X -> Prop) : Prop := {
  vt_poll s lfd rfds n : poll_ok s lfd -> J (obj s) ->
    wp (v_do_poll V rfds n) (fun r s' => poll_ok s' lfd /\ local_change s s' /\ quiet s s' /\
      base (obj s') = base (obj s) /\ held (disp s') = held (disp s) /\ J (obj s') /\
      forall ready, r = Some (inl ready) -> ready ⊆ rfds) s;
  vt_accept s lfd : poll_ok s lfd -> J (obj s) ->
    wp (v_do_accept V lfd) (fun r s' => poll_ok s' lfd /\ local_change s s' /\ quiet s s' /\
      J (obj s') /\
      match r with
      | None => base (obj s') = base (obj s)
      | Some a => exists fd x w, base (obj s') = base (obj (after_accept s a fd x w)) /\
          fd ∉ SocketPoll.all_fds (base (obj s)) /\ adapters (disp s) !! a = None
      end) s;
  vt_read s lfd fd a : poll_ok s lfd -> J (obj s) -> SocketPoll.adapters (base (obj s)) !! fd = Some a ->
    wp (v_do_read V a) (fun ok s' => poll_ok s' lfd /\ local_change s s' /\ quiet s s' /\
      base (obj s') = base (obj s) /\ held (disp s') = held (disp s) /\
      J (if ok : bool then obj s' else without fd (obj s'))) s
}.

Lemma do_poll_ok s lfd rfds n :
  poll_ok s lfd ->
  wp (do_poll rfds n) (fun r s' => poll_ok s' lfd /\ local_change s s' /\ quiet s s' /\
    obj s' = obj s /\ held (disp s') = held (disp s) /\
    forall ready, r = Some (inl ready) -> ready ⊆ rfds) s.
Proof.
  intros Hp. unfold do_poll. wstep. apply wpx_sys.
  destruct (sys_select rfds n None (world s)) as [r w] eqn:Hs.
  pose proof (select_fds rfds n None (world s)) as Hf. rewrite Hs in Hf. simpl in Hf.
  destruct (world_change s lfd w Hp Hf) as (H1 & H2 & H3). simpl.
  destruct r as [ready|e]; [wsteps|case_bool_decide; wsteps].
  - split_and!; try done. intros ? [= <-]. by eapply select_ready.
  - unfold sys_. wsteps. destruct (world_change s lfd (sys_sleep 1 w) Hp) as (? & ? & ?).
    { by rewrite sleep_fds. } done.
  - split_and!; done.
Qed.
End Spec.

(** [SocketPoll]'s own functions. *)
Lemma sock_vtable_ok {caps} `{!CapsOps caps, !CapsFlags} {os} `{!SockOS os, !SteadyClock}
    {W} `{!PollOS os W, !CapsLaws caps, !CapsFraming caps, !SockLaws os, !PollLaws os W, !FdLimit os W} :
  vtable_ok (sock_vtable (caps:=caps) (os:=os) (W:=W)) (fun _ => True).
Proof.
  split; simpl.
  - intros s lfd rfds n Hp _. eapply wpx_mono; [by apply (do_poll_ok s lfd)|].
    intros r s' (?&?&?&->&?&?). done.
  - intros s lfd Hp _. eapply wpx_mono; [by apply (do_accept_ok s lfd)|].
    intros [a|] s' (?&?&?&Hr); [|by rewrite Hr]. destruct Hr as (fd & x & w & -> & ?). split_and!; eauto.
  - intros s lfd fd a Hp _ Ha. eapply wpx_mono; [by apply (do_read_ok s lfd fd)|].
    intros ok s' (?&?&?&->&?&_). by destruct ok.
Qed.
