(* ===== verification/PollRun.v ===== *)
(** * The thread of a poll

    Every step of the thread keeps [poll_ok] and acts on the dispatcher by labels;
    one pass of its loop is the service of the ready descriptors, each once and in
    ascending order; and its end closes every connection. The lemmas hold for any
    virtual functions with [vtable_ok], those of [SocketPoll] and of
    [BeepSocketPoll]. *)
From S2P Require Import Prelude Defs Caps Adap Framing SockAdap Reader SerHelper Disp.
From S2P Require Import DispInv DispFrame DispLoop SockPoll SockPollSpec.
Import Dispatcher DispatcherThread PollThread.

(** ** The thread *)
Section Thread.
Context {caps : Type} `{!CapsOps caps, !CapsFlags} {os : Type} `{!SockOS os, !SteadyClock}.
Context {W : Type} `{!PollOS os W} {X : Type} `{!PollClass X}.
Context `{!CapsLaws caps, !CapsFraming caps, !SockLaws os, !PollLaws os W, !PollClassLaws X}.
Context (V : vtable caps os W X) (J : X -> Prop) (HV : vtable_ok V J).
Implicit Types (s : shared caps os W X).

(** What is known at each place: a descriptor still to be served is in the set, so
    it is the listening one or in the table; the thread ends with the table empty. *)
Definition place_ok (x : X) (lfd : Z) (l : place) : Prop :=
  match l with
  | AtSelect => J x
  | Scan ifd rfds l =>
      J x /\ l = lfd /\ 0 <= ifd /\
      forall fd, fd ∈ rfds -> ifd <= fd -> fd ∈ SocketPoll.all_fds (base x)
  | Release => True
  | Quit => SocketPoll.adapters (base x) = ∅
  end.

(** What only [start] and [stop] change. *)
Definition kept (p p' : SocketPoll.t) : Prop :=
  SocketPoll.started p' = SocketPoll.started p /\ SocketPoll.listen_fd p' = SocketPoll.listen_fd p.

#[export] Instance kept_preorder : PreOrder kept.
Proof. split; [by intros p|]. intros p q r [H1 H2] [H3 H4]. split; congruence. Qed.

(** One step of the thread. *)
Definition step_spec s lfd (l' : place) s' : Prop :=
  poll_ok s' lfd /\ local_change s s' /\ drives s s' /\ place_ok (obj s') lfd l' /\
  kept (base (obj s)) (base (obj s')).

Lemma kept_without fd (x : X) : kept (base x) (base (without fd x)).
Proof. unfold kept, without. by rewrite base_set. Qed.

Lemma select_step_ok s lfd :
  poll_ok s lfd -> J (obj s) -> wp (select_step V) (step_spec s lfd) s.
Proof.
  intros Hp Hj. unfold select_step. do 2 (wstep; apply wpx_this). wsteps.
  eapply wpx_mono; [by apply (vt_poll _ _ HV s lfd)|].
  intros r s' (Hp' & Hl & Hq & Hb & Hh & Hj' & Hr).
  assert (forall l, place_ok (obj s') lfd l -> step_spec s lfd l s') as Hstep.
  { intros l Hpl. unfold step_spec, kept. rewrite Hb. by eauto 7 using drives_quiet. }
  destruct r as [[ready|e]|]; [|by wsteps; apply Hstep..].
  wstep; apply wpx_this. case_bool_decide as Hlfd; [by wsteps; apply Hstep|].
  case_bool_decide as He; [by wsteps; apply Hstep|]. wsteps. apply Hstep. split_and!; try done.
  - rewrite Hb. destruct (tb_listen _ _ _ _ Hp) as [?|Hn]; [done|]. rewrite Hb, Hn in Hlfd. lia.
  - intros fd Hfd _. rewrite Hb. by apply (Hr _ eq_refl).
Qed.

Lemma serve_fd_ok s lfd ifd rfds :
  poll_ok s lfd -> place_ok (obj s) lfd (Scan ifd rfds lfd) ->
  wp (serve_fd V ifd lfd) (fun _ s' => step_spec s lfd (Scan (ifd + 1) rfds lfd) s') s.
Proof.
  intros Hp (Hj & _ & Hi & Hr). unfold serve_fd. case_bool_decide as Hl.
  - wstep. eapply wpx_mono; [by apply (vt_accept _ _ HV s lfd)|].
    intros r s' (Hp' & Hlc & Hq & Hj' & Hb). wsteps. unfold step_spec; cbn [place_ok]. split_and!; try (done || lia || by apply drives_quiet).
    2: { destruct r as [a|]; [|by rewrite Hb]. destruct Hb as (nfd & x & w & -> & _).
         unfold after_accept, kept. simpl. by rewrite base_set. }
    intros fd Hfd Hle. assert (fd ∈ SocketPoll.all_fds (base (obj s))) by (apply Hr; auto; lia).
    destruct r as [a|]; [|by rewrite Hb]. destruct Hb as (nfd & x & w & -> & Hn & _).
    simpl. rewrite base_set. set_solver.
  - wstep; apply wpx_this. destruct (SocketPoll.adapters (base (obj s)) !! ifd) as [a|] eqn:Ha.
    2: { wsteps. unfold step_spec; cbn [place_ok]. split_and!; try (done || lia || by apply drives_quiet, quiet_refl).
         intros fd Hfd Hle. apply Hr; auto; lia. }
    wstep. eapply wpx_mono; [by apply (vt_read _ _ HV s lfd ifd)|].
    intros ok s1 (Hp1 & Hl1 & Hq1 & Hb1 & Hh1 & Hj1). cbn beta. destruct ok; cbn [negb when].
    + wsteps. unfold step_spec; cbn [place_ok]. split_and!; try (done || lia || by apply drives_quiet); [|by rewrite Hb1].
      rewrite Hb1. intros fd Hfd Hle. apply Hr; auto; lia.
    + eapply wpx_mono; [apply (delete_ok s1 lfd ifd a Hp1); by rewrite Hb1|].
      intros _ s2 (Hp2 & Hl2 & Hd2 & Hobj & _). unfold step_spec; cbn [place_ok]. split_and!; try done.
      * by etrans.
      * by eapply quiet_drives.
      * by rewrite Hobj.
      * lia.
      * intros fd Hfd Hle. rewrite Hobj. unfold without. rewrite base_set, Hb1. simpl.
        apply elem_of_difference. split; [apply Hr; auto; lia|]. rewrite elem_of_singleton. lia.
      * rewrite Hobj, <- Hb1. apply kept_without.
Qed.

Lemma scan_step_ok s lfd ifd rfds :
  poll_ok s lfd -> place_ok (obj s) lfd (Scan ifd rfds lfd) ->
  wp (scan_step V ifd rfds lfd) (step_spec s lfd) s.
Proof.
  intros Hp Hl. unfold scan_step. wstep; apply wpx_this.
  case_bool_decide as Hi.
  - wstep. apply wpx_when; intros Hd.
    + eapply wpx_mono; [by apply (serve_fd_ok s lfd ifd rfds)|]. intros [] s1 Hs1. wsteps; exact Hs1.
    + wsteps. destruct Hl as (? & _ & ? & Hr). unfold step_spec; cbn [place_ok]. split_and!; try (done || lia || by apply drives_quiet, quiet_refl).
      intros fd Hfd Hle. apply Hr; auto; lia.
  - wsteps. destruct Hl. unfold step_spec; cbn [place_ok]. split_and!; try done. by apply drives_quiet, quiet_refl.
Qed.

Lemma release_step_ok s lfd : poll_ok s lfd -> wp release_step (step_spec s lfd) s.
Proof.
  intros Hp. unfold release_step. wstep; apply wpx_this.
  pose proof (map_begin_spec (SocketPoll.adapters (base (obj s)))) as Hm.
  destruct (map_begin _) as [[fd a]|].
  - destruct Hm as [Ha _]. wstep. eapply wpx_mono; [by apply (delete_ok s lfd fd a Hp)|].
    intros _ s' (? & ? & ? & Hobj & _). wsteps. unfold step_spec. split_and!; try done; rewrite Hobj; apply (kept_without fd).
  - wsteps. split_and!; try done. by apply drives_quiet, quiet_refl.
Qed.

Lemma run_step_ok s lfd l :
  poll_ok s lfd -> place_ok (obj s) lfd l -> wp (run_step V l) (step_spec s lfd) s.
Proof.
  intros Hp Hl. destruct l as [|ifd rfds l| |]; simpl.
  - by apply select_step_ok.
  - pose proof Hl as (_ & -> & _). by apply scan_step_ok.
  - by apply release_step_ok.
  - wsteps. split_and!; try done. by apply drives_quiet, quiet_refl.
Qed.

(** ** One pass over the descriptors

    What the loop is for: serve every ready descriptor, in ascending order. *)
Definition ready_fds (ifd : Z) (rfds : gset Z) : list Z :=
  filter (fun fd => fd ∈ rfds) (seqZ ifd (FD_SETSIZE - ifd)).

Definition serve_all (ifd : Z) (rfds : gset Z) (lfd : Z) : M (shared caps os W X) unit :=
  for_each (ready_fds ifd rfds) (fun fd => serve_fd V fd lfd).

Lemma ready_fds_step ifd rfds :
  ifd < FD_SETSIZE ->
  ready_fds ifd rfds = (if bool_decide (ifd ∈ rfds) then [ifd] else []) ++ ready_fds (ifd + 1) rfds.
Proof.
  intros Hi. unfold ready_fds. rewrite (seqZ_cons ifd) by lia. rewrite filter_cons.
  replace (Z.succ ifd) with (ifd + 1) by lia.
  replace (Z.pred (FD_SETSIZE - ifd)) with (FD_SETSIZE - (ifd + 1)) by lia.
  by destruct (decide (ifd ∈ rfds)); [rewrite bool_decide_true|rewrite bool_decide_false].
Qed.

Lemma ready_fds_end ifd rfds : (forall fd, fd ∈ rfds -> ifd <= fd -> False) -> ready_fds ifd rfds = [].
Proof.
  intros Hn. apply filter_none, Forall_forall. intros fd Hs%elem_of_seqZ Hfd.
  apply (Hn fd); [done|lia].
Qed.

Lemma scan_serves n : forall ifd rfds lfd s,
  (Z.to_nat (FD_SETSIZE - ifd) <= n)%nat ->
  poll_ok s lfd -> place_ok (obj s) lfd (Scan ifd rfds lfd) ->
  exists k s', (k <= S n)%nat /\ run_steps k V (Scan ifd rfds lfd) s = Done (AtSelect, s') /\
    serve_all ifd rfds lfd s = Done (tt, s').
Proof.
  induction n as [n IH] using lt_wf_ind. intros ifd rfds lfd s Hn Hp Hl.
  pose proof (tb_max _ _ _ _ Hp) as Hm. pose proof Hl as (Hj & _ & Hpos & Hr).
  destruct (decide (ifd < SocketPoll.max_fd (base (obj s)))) as [Hi|Hi].
  - unfold serve_all. rewrite ready_fds_step by lia.
    destruct (bool_decide (ifd ∈ rfds)) eqn:Hin.
    + destruct (wp_done _ _ _ (serve_fd_ok s lfd ifd rfds Hp Hl)) as ([] & s1 & Hs & Hp1 & _ & _ & Hl1 & _).
      destruct (IH (Nat.pred n) ltac:(lia) (ifd + 1) rfds lfd s1) as (k & s' & Hk & Hrun & Hall); [lia|done..|].
      exists (S k), s'. split; [lia|]. cbn [run_steps run_step app for_each].
      unfold mbind, M_bind. unfold scan_step, this, gets, when, mbind, M_bind.
      rewrite bool_decide_true, Hin, Hs by done. split; [exact Hrun|exact Hall].
    + destruct (IH (Nat.pred n) ltac:(lia) (ifd + 1) rfds lfd s) as (k & s' & Hk & Hrun & Hall); [lia|done| |].
      { split_and!; try done; [lia|]. intros fd Hfd Hle. apply Hr; [done|lia]. }
      exists (S k), s'. split; [lia|]. cbn [run_steps run_step app for_each].
      unfold mbind, M_bind. unfold scan_step, this, gets, when, mbind, M_bind.
      rewrite bool_decide_true, Hin by done. split; [exact Hrun|exact Hall].
  - exists 1%nat, s. split; [lia|]. unfold serve_all. rewrite ready_fds_end.
    2: { intros fd Hfd Hle. specialize (tb_range _ _ _ _ Hp fd (Hr fd Hfd Hle)). lia. }
    split; [|done]. cbn [run_steps run_step]. unfold scan_step, this, gets, mbind, M_bind.
    by rewrite bool_decide_false.
Qed.

(** C10. One pass of the poll's loop over the descriptors ends, and it is the service
    of the ready ones, each exactly once and in ascending order: the loop that
    counts [ifd] up to a [max_fd] that grows while it runs, and looks every
    descriptor up in a table that shrinks, does what the iteration over the sorted
    list of the ready descriptors does. At most [FD_SETSIZE] + 1 rounds are needed. *)
Theorem pass_equivalent rfds lfd s :
  poll_ok s lfd -> place_ok (obj s) lfd (Scan 0 rfds lfd) ->
  exists k s', (k <= Z.to_nat FD_SETSIZE + 1)%nat /\
    run_steps k V (Scan 0 rfds lfd) s = Done (AtSelect, s') /\
    for_each (filter (fun fd => fd ∈ rfds) (seqZ 0 FD_SETSIZE)) (fun fd => serve_fd V fd lfd) s = Done (tt, s').
Proof.
  intros Hp Hl. destruct (scan_serves (Z.to_nat FD_SETSIZE) 0 rfds lfd s) as (k & s' & Hk & Hr & Ha); [done..|].
  exists k, s'. split; [lia|]. split; [exact Hr|exact Ha].
Qed.

(** ** The release loop *)

(** The connection [a] on [fd] is closed for good. *)
Definition gone s (fd : Z) (a : aid) : Prop :=
  a ∉ held (disp s) /\ fd ∉ open_fds (world s) /\
  exists x, adapters (disp s) !! a = Some x /\ SocketAdapter.closed (impl x) = true.

Lemma gone_after s lfd fd a x :
  poll_ok s lfd -> adapters (disp s) !! a = Some x -> gone (after_delete s fd a x) fd a.
Proof.
  intros Hp Hx. unfold gone, after_delete. cbn [disp world].
  rewrite deleted_held, close_fds, deleted_adapters, lookup_alter_eq, Hx. split_and!; [set_solver..|].
  eexists. split; [done|]. apply SocketAdapter.close_spec.
Qed.

Lemma gone_delete s lfd fd a fd' b x :
  poll_ok s lfd -> adapters (disp s) !! b = Some x -> a <> b ->
  gone s fd a -> gone (after_delete s fd' b x) fd a.
Proof.
  intros Hp Hx Hn (Hh & Ho & y & Hy & Hc). unfold gone, after_delete. cbn [disp world].
  rewrite deleted_held, close_fds, deleted_other by done. split_and!; [set_solver..|]. by exists y.
Qed.

(** Of the connections [l], those that have authenticated were handed to the dispatcher,
    in this order, and its thread was woken if there was one. *)
Definition handed s s' (l : list aid) : Prop :=
  let es := filter (fun a => has_info a (disp s)) l in
  cmd_packets (disp s') = cmd_packets (disp s) ++ ((fun a => (None, a)) <$> es) /\
  thread s' = if bool_decide (es = []) then thread s else notify_one (thread s).

(** The connections of a poll. *)
Definition conns s : list aid := (map_to_list (SocketPoll.adapters (base (obj s)))).*2.

Lemma conns_nodup s lfd : poll_ok s lfd -> NoDup (conns s).
Proof.
  intros Hp. apply NoDup_fmap_2_strong; [|apply NoDup_map_to_list].
  intros [fd a] [fd' b] Ha%elem_of_map_to_list Hb%elem_of_map_to_list Hab. simpl in Hab. subst b.
  destruct (tb_conns _ _ _ _ Hp fd a Ha) as (_ & x & Hx & [Hf _]).
  destruct (tb_conns _ _ _ _ Hp fd' a Hb) as (_ & y & Hy & [Hf' _]). congruence.
Qed.

Lemma deleted_has_info (d : Disp caps (SocketAdapter.t os)) a x b :
  adapters d !! a = Some x -> has_info b (deleted a x d) = has_info b d.
Proof.
  intros Hx. unfold has_info. destruct (decide (a = b)) as [<-|Hn].
  - by rewrite deleted_adapters, lookup_alter_eq, Hx.
  - by rewrite deleted_other.
Qed.

(** Deleting [a] and then handing over [l] is handing over [a :: l]. *)
Lemma handed_cons s fd a x s' l :
  adapters (disp s) !! a = Some x -> handed (after_delete s fd a x) s' l -> handed s s' (a :: l).
Proof.
  intros Hx [Hc Ht]. unfold handed in *. unfold after_delete in Hc, Ht. cbn [disp thread] in Hc, Ht.
  rewrite (list_filter_iff _ (fun a => has_info a (disp s))) in Hc, Ht
    by (intros b; by rewrite (deleted_has_info _ _ _ _ Hx)).
  rewrite filter_cons. rewrite (has_info_eq _ _ _ Hx). unfold deleted in Hc.
  destruct (info x) as [p|] eqn:Hi.
  - rewrite (bool_decide_true (Some p <> None)) in Ht |- * by done. rewrite decide_True by done. simpl in Hc |- *.
    rewrite Hc, <- app_assoc. split; [done|]. rewrite Ht. case_bool_decide; [done|]. by destruct (thread s).
  - rewrite (bool_decide_false (None <> None)) in Ht |- * by auto. rewrite decide_False by auto. by split.
Qed.

(** The loop closes every connection of the table, besides those already closed. *)
Lemma release_all n : forall s lfd done_,
  size (SocketPoll.adapters (base (obj s))) = n -> poll_ok s lfd ->
  Forall (fun p => gone s p.1 p.2 /\ ~ mine (base (obj s)) p.2) done_ ->
  exists s', run_steps (S n) V Release s = Done (Quit, s') /\ poll_ok s' lfd /\
    SocketPoll.adapters (base (obj s')) = ∅ /\ kept (base (obj s)) (base (obj s')) /\
    Forall (fun p => gone s' p.1 p.2) (done_ ++ map_to_list (SocketPoll.adapters (base (obj s)))) /\
    exists l, l ≡ₚ conns s /\ handed s s' l.
Proof.
  induction n as [|n IH]; intros s lfd done_ Hn Hp Hd.
  - exists s. apply map_size_empty_inv in Hn. cbn [run_steps run_step]. unfold release_step, this, gets.
    unfold mbind, M_bind. rewrite Hn, map_to_list_empty, app_nil_r. split_and!; try done.
    + eapply Forall_impl; [done|]. by intros p [].
    + exists []. unfold conns, handed. rewrite Hn, map_to_list_empty. simpl. by rewrite app_nil_r.
  - pose proof (map_begin_spec (SocketPoll.adapters (base (obj s)))) as Hm.
    destruct (map_begin _) as [[fd a]|] eqn:Hb.
    2: { rewrite Hm in Hn. by rewrite map_size_empty in Hn. }
    destruct Hm as [Ha _].
    destruct (wp_done _ _ _ (delete_ok s lfd fd a Hp Ha)) as ([] & s1 & Hdel & Hp1 & _ & _ & Hobj & x & Hx & Hs1).
    assert (SocketPoll.adapters (base (obj s1)) = delete fd (SocketPoll.adapters (base (obj s)))) as Hm1
      by (rewrite Hobj; unfold without; by rewrite base_set).
    pose proof (kept_without fd (obj s)) as Hk1. rewrite <- Hobj in Hk1.
    destruct (IH s1 lfd ((fd, a) :: done_)) as (s' & Hrun & Hp' & He & Hk & Hall & l & Hl & Hq).
    { rewrite Hm1, map_size_delete_Some by eauto. lia. }
    { done. }
    { assert (forall b, mine (base (obj s1)) b -> mine (base (obj s)) b /\ b <> a) as Hmine.
      { intros b [fd' Hb']. rewrite Hm1, lookup_delete_Some in Hb'. destruct Hb' as [Hne Hb'].
        split; [by exists fd'|]. intros ->.
        destruct (tb_conns _ _ _ _ Hp fd a Ha) as (_ & y & Hy & [Hf _]).
        destruct (tb_conns _ _ _ _ Hp fd' a Hb') as (_ & z & Hz & [Hf' _]). congruence. }
      constructor; [split|].
      - rewrite Hs1. by eapply gone_after.
      - intros ?%Hmine. naive_solver.
      - eapply Forall_impl; [exact Hd|]. intros [fd' b] [Hg Hnm]. split; [|by intros [? _]%Hmine].
        rewrite Hs1. simpl in *. eapply gone_delete; eauto. intros ->. apply Hnm. by exists fd. }
    exists s'. split; [|split; [done|split; [done|split; [by etrans|split]]]].
    + cbn [run_steps run_step].
      assert (wp release_step (fun l s' => l = Release /\ s' = s1) s) as Hw.
      { unfold release_step. wstep. apply wpx_this. rewrite Hb. wstep. unfold wpx. by rewrite Hdel. }
      destruct (wp_done _ _ _ Hw) as (l0 & s2 & Hr & -> & ->). unfold mbind, M_bind. rewrite Hr. exact Hrun.
    + rewrite Hm1 in Hall. rewrite <- (insert_delete_id _ _ _ Ha) at 1.
      rewrite map_to_list_insert by apply lookup_delete_eq. by rewrite <- Permutation_middle.
    + exists (a :: l). split; [|eapply handed_cons; [done|by rewrite <- Hs1]]. rewrite Hl. unfold conns.
      rewrite Hm1. rewrite <- (insert_delete_id _ _ _ Ha) at 2. by rewrite map_to_list_insert by apply lookup_delete_eq.
Qed.

(** What the release loop has done. *)
Definition released s lfd s' : Prop :=
  poll_ok s' lfd /\ SocketPoll.adapters (base (obj s')) = ∅ /\
  SocketPoll.all_fds (base (obj s')) = {[lfd]} /\ kept (base (obj s)) (base (obj s')) /\
  (forall fd a, SocketPoll.adapters (base (obj s)) !! fd = Some a -> gone s' fd a) /\
  exists l, NoDup l /\ l ≡ₚ conns s /\ handed s s' l.

Lemma release_spec s lfd :
  poll_ok s lfd ->
  exists s', run_steps (S (size (SocketPoll.adapters (base (obj s))))) V Release s = Done (Quit, s') /\
    released s lfd s'.
Proof.
  intros Hp. destruct (release_all _ s lfd [] eq_refl Hp) as (s' & Hr & Hp' & He & Hk & Hall & l & Hl & Hq);
    [constructor|].
  exists s'. split; [done|]. split_and!; try done; try apply Hk.
  - rewrite (tb_fds _ _ _ _ Hp'), He. set_solver.
  - intros fd a Ha. rewrite Forall_forall in Hall. apply (Hall (fd, a)). simpl. by apply elem_of_map_to_list.
  - exists l. split_and!; [|done..]. rewrite Hl. by eapply conns_nodup.
Qed.

(** C23. A poll ends clean: its thread leaves the release loop after as many rounds
    as it has connections, every one of them is then closed, its descriptor is
    closed and no longer held, only the listening descriptor is left for [stop]
    to close; and of its connections each one that has authenticated, and no other, was
    handed to the dispatcher for erasure, exactly once, behind the messages already queued,
    with the dispatcher's thread woken. *)
Theorem release_closes_all s lfd :
  poll_ok s lfd ->
  exists s', run_steps (S (size (SocketPoll.adapters (base (obj s))))) V Release s = Done (Quit, s') /\
    released s lfd s'.
Proof. apply release_spec. Qed.
End Thread.

(** ** Start and stop *)
Section Lifecycle.
Context {caps : Type} `{!CapsOps caps, !CapsFlags} {os : Type} `{!SockOS os, !SteadyClock}.
Context {W : Type} `{!PollOS os W} {X : Type} `{!PollClass X}.
Context `{!PollLaws os W, !PollClassLaws X, !FdLimit os W}.
Implicit Types (s : shared caps os W X).

(** [listen_fd] was set to a new descriptor and nothing else was opened, or nothing
    changed. *)
Definition init_spec s (ok : bool) s' : Prop :=
  thread s' = thread s /\ disp s' = disp s /\
  if ok then exists fd, 0 <= fd < FD_SETSIZE /\ fd ∉ open_fds (world s) /\
      open_fds (world s') = {[fd]} ∪ open_fds (world s) /\
      obj s' = set_base (SocketPoll.set_listen_fd fd (base (obj s))) (obj s)
  else obj s' = obj s /\ open_fds (world s') = open_fds (world s).

Ltac init_finish :=
  split_and!; simpl in *; try done;
  try (eexists; split_and!; [..|done]);
  rewrite ?listen_fds, ?close_fds, ?bind_un_fds, ?bind_in_fds, ?unlink_fds, ?reuseaddr_fds, ?hostbyname_fds;
  try done; try set_solver.

Lemma init_unix_ok s :
  Z.of_nat (String.length (c_str (SocketPoll.name (base (obj s))))) < SUN_PATH_SIZE ->
  wp init_unix_socket (init_spec s) s.
Proof.
  intros Hname. unfold init_unix_socket. wstep. apply wpx_sys.
  destruct (sys_socket_un (world s)) as [[fd|] w] eqn:Hs; simpl.
  2: { pose proof (socket_un_fails _ _ Hs). wsteps. init_finish. }
  destruct (socket_un_fresh _ _ _ Hs) as (? & ? & Hw). pose proof (socket_un_limit _ _ _ Hs).
  wstep. apply wpx_this. simpl. rewrite bool_decide_false by lia. unfold sys_, upd_this. wsteps. apply wpx_sys.
  simpl. destruct (sys_bind_un fd _ _) as [ok w'] eqn:Hb.
  assert (open_fds w' = {[fd]} ∪ open_fds (world s)) as Hw'.
  { match type of Hb with sys_bind_un ?a ?b ?c = _ => pose proof (bind_un_fds a b c) as Hf end.
    rewrite Hb in Hf. simpl in Hf. by rewrite Hf, unlink_fds. }
  destruct ok; wsteps; init_finish.
Qed.

Lemma init_tcp_ok s : wp init_tcp_socket (init_spec s) s.
Proof.
  unfold init_tcp_socket. wstep. apply wpx_sys.
  destruct (sys_socket_in (world s)) as [[fd|] w] eqn:Hs; simpl.
  2: { pose proof (socket_in_fails _ _ Hs). wsteps. init_finish. }
  destruct (socket_in_fresh _ _ _ Hs) as (? & ? & Hw). pose proof (socket_in_limit _ _ _ Hs).
  unfold sys_. wsteps. do 2 (apply wpx_this; wsteps). apply wpx_sys. simpl.
  destruct (sys_hostbyname _ _) as [hp w1] eqn:Hh.
  assert (open_fds w1 = {[fd]} ∪ open_fds (world s)) as Hw1.
  { match type of Hh with sys_hostbyname ?a ?b = _ => pose proof (hostbyname_fds a b) as Hf end.
    rewrite Hh in Hf. simpl in Hf. by rewrite Hf, reuseaddr_fds. }
  simpl. destruct hp as [addr|]; [|wsteps; init_finish].
  wstep. apply wpx_sys. simpl. destruct (sys_bind_in fd _ _ _) as [ok w'] eqn:Hb.
  assert (open_fds w' = {[fd]} ∪ open_fds (world s)) as Hw'.
  { match type of Hb with sys_bind_in ?a ?b ?c ?d = _ => pose proof (bind_in_fds a b c d) as Hf end.
    rewrite Hb in Hf. simpl in Hf. by rewrite Hf. }
  unfold upd_this. destruct ok; wsteps; init_finish.
Qed.

(** A poll that is not running. *)
Record idle (p : SocketPoll.t) : Prop := {
  id_started : SocketPoll.started p = false;
  id_adapters : SocketPoll.adapters p = ∅
}.

(** The path of a unix socket fits in [sun_path]. *)
Definition name_fits (p : SocketPoll.t) : Prop :=
  Z.of_nat (String.length (c_str (SocketPoll.name p))) < SUN_PATH_SIZE.

Lemma start_again s :
  SocketPoll.started (base (obj s)) = true -> start s = Done (FLORA_POLL_ALREADY_START, s).
Proof. intros Hs. unfold start, this, gets, mbind, M_bind. by rewrite Hs. Qed.

Lemma poll_start_ok s :
  idle (base (obj s)) -> name_fits (base (obj s)) -> HEADER_SIZE <= buf_size (disp s) < two32 ->
  wp start (fun r s' => thread s' = thread s /\ disp s' = disp s /\
    ((r = FLORA_POLL_SUCCESS /\ SocketPoll.started (base (obj s')) = true /\
      (exists p, obj s' = set_base p (obj s)) /\ exists lfd, poll_ok s' lfd /\ lfd ∉ open_fds (world s) /\
        open_fds (world s') = {[lfd]} ∪ open_fds (world s) /\
        SocketPoll.listen_fd (base (obj s')) = lfd /\ SocketPoll.all_fds (base (obj s')) = {[lfd]}) \/
     (r = FLORA_POLL_SYSERR /\ obj s' = obj s /\ open_fds (world s') = open_fds (world s)))) s.
Proof.
  intros [Hst Had] Hname Hsize. unfold start. wstep. apply wpx_this. rewrite Hst.
  wstep. apply wpx_this. wstep.
  assert (wp (if bool_decide (SocketPoll.type (base (obj s)) = POLL_TYPE_TCP)
    then init_tcp_socket else init_unix_socket) (init_spec s) s) as Hinit.
  { case_bool_decide; [apply init_tcp_ok|by apply init_unix_ok]. }
  eapply wpx_mono; [exact Hinit|]. intros ok s' (Ht & Hd & Hs'). destruct ok; cbn [negb].
  2: { wsteps. destruct Hs'. split_and!; try done. by right. }
  destruct Hs' as (fd & Hfd & Hn & Hw & Hobj). unfold upd_this, run_begin, FD_SET, fd_check. wsteps.
  unfold upd_this. wsteps. apply wpx_this. wsteps. simpl. rewrite !base_set, Hobj, base_set. simpl.
  rewrite bool_decide_true by done. wsteps. unfold upd_this. wsteps. simpl. rewrite !base_set. simpl.
  split_and!; try done. left. split_and!; try done.
  { rewrite !set_set, ?Hobj, ?set_set. by eexists. }
  exists fd. split_and!; try done.
  2: { set_solver. }
  unfold poll_ok. simpl. rewrite base_set. rewrite Hd. split; simpl; rewrite ?Had; try set_solver.
  - intros fd' Hf. assert (fd' = fd) by set_solver. lia.
  - lia.
Qed.

(** [start] on a poll that is not running either listens on a new descriptor below
    [FD_SETSIZE], with that descriptor alone in its set and an empty table, or
    answers [FLORA_POLL_SYSERR] and leaves no descriptor open and no member changed;
    it does not touch the dispatcher. On a running poll it changes nothing and
    answers [FLORA_POLL_ALREADY_START]. *)
Theorem start_exact s :
  HEADER_SIZE <= buf_size (disp s) < two32 -> name_fits (base (obj s)) ->
  (SocketPoll.started (base (obj s)) = true -> start s = Done (FLORA_POLL_ALREADY_START, s)) /\
  (idle (base (obj s)) -> exists r s', start s = Done (r, s') /\ disp s' = disp s /\ thread s' = thread s /\
    ((r = FLORA_POLL_SUCCESS /\ SocketPoll.started (base (obj s')) = true /\
      exists lfd, poll_ok s' lfd /\ lfd ∉ open_fds (world s) /\
        open_fds (world s') = {[lfd]} ∪ open_fds (world s) /\
        SocketPoll.listen_fd (base (obj s')) = lfd /\ SocketPoll.all_fds (base (obj s')) = {[lfd]}) \/
     (r = FLORA_POLL_SYSERR /\ obj s' = obj s /\ open_fds (world s') = open_fds (world s)))).
Proof.
  intros Hb Hn. split; [apply start_again|]. intros Hi.
  destruct (wp_done _ _ _ (poll_start_ok s Hi Hn Hb)) as (r & s' & Hs & Ht & Hd & Hr). exists r, s'.
  split_and!; try done. destruct Hr as [(? & ? & _ & ?)|?]; [by left|by right].
Qed.

Lemma stop_begin_ok `{!CapsLaws caps} s lfd :
  poll_ok s lfd -> SocketPoll.started (base (obj s)) = true ->
  wp stop_begin (fun r s' => r = Some (SocketPoll.listen_fd (base (obj s))) /\ poll_ok s' lfd /\
    obj s' = set_base (SocketPoll.set_listen_fd (-1) (base (obj s))) (obj s) /\
    local_change s s' /\ quiet s s') s.
Proof.
  intros Hp Hs. unfold stop_begin, upd_this, sys_. wstep. apply wpx_this. rewrite Hs. cbn [negb].
  wstep. apply wpx_this. wsteps. simpl. split_and!; try done.
  - destruct Hp. unfold poll_ok. simpl. rewrite base_set. split; simpl; auto. by rewrite shutdown_fds.
  - split; simpl; rewrite ?base_set, ?shutdown_fds; auto. by apply (lc_new s s).
  - by apply quiet_same.
Qed.
End Lifecycle.
