(* ===== verification/BeepPoll.v ===== *)
(** * The keepalive poll ([src/beep-sock-poll.h], [src/poll.cc])

    [BeepSocketPoll] derives from [SocketPoll]: it keeps, oldest first, when each
    connection was last active, wakes up when the oldest is due and shuts down the
    sockets that were silent for [beep_timeout]. Its three virtual functions satisfy
    [vtable_ok], so everything of [PollRun.v] holds of it. [Poll::new_instance] and
    [flora_poll_new] choose between the two classes. *)
From S2P Require Import Prelude Defs Caps Adap Framing SockAdap Reader SerHelper Disp.
From S2P Require Import DispInv DispFrame DispLoop SockPoll SockPollSpec PollRun.
Import Dispatcher DispatcherThread PollThread.

Record ActiveAdapter := mkActive {
  lastest_action_tp : Z;      (** a [time_point], in nanoseconds *)
  adapter : aid
}.

Module BeepSocketPoll.
Record t := mk {
  parent : SocketPoll.t;
  active_adapters : list ActiveAdapter;
  beep_timeout : Z            (** [uint32_t], in milliseconds *)
}.

Definition new (host : string) (port : Z) : t := mk (SocketPoll.new_tcp host port) [] 60000.

(** [config(opt, ...)], [value] being the argument *)
Definition config (opt value : Z) (p : t) : t :=
  if bool_decide (opt = FLORA_POLL_OPT_KEEPALIVE_TIMEOUT)
  then mk (parent p) (active_adapters p) (u32 value) else p.
End BeepSocketPoll.

#[export] Instance BeepSocketPoll_class : PollClass BeepSocketPoll.t := {|
  base := BeepSocketPoll.parent;
  set_base p x := BeepSocketPoll.mk p (BeepSocketPoll.active_adapters x) (BeepSocketPoll.beep_timeout x)
|}.

#[export] Instance BeepSocketPoll_class_laws : PollClassLaws BeepSocketPoll.t.
Proof. by split. Qed.

Definition ms : Z := 1000000.   (** nanoseconds *)

(** ** The list of active connections *)

(** [obtain_timeout]: [tv_sec] and [tv_usec]; [duration_cast] rounds towards zero. *)
Definition obtain_timeout (beep_timeout nowtp front : Z) : Z * Z :=
  let dur := Z.quot (beep_timeout * ms - (nowtp - front)) ms in
  (Z.quot dur 1000, Z.rem dur 1000 * 1000).

(** The loop of [shutdown_timeout_adapter]: those to shut down, and the rest. *)
Fixpoint expire (tp : Z) (l : list ActiveAdapter) : list ActiveAdapter * list ActiveAdapter :=
  match l with
  | [] => ([], [])
  | x :: r =>
      if bool_decide (lastest_action_tp x <= tp) then
        let '(out, rest) := expire tp r in (x :: out, rest)
      else ([], l)
  end.

(** The search of [do_read]: what is before the first entry of [a], and after it. *)
Fixpoint find_active (a : aid) (l : list ActiveAdapter) : option (list ActiveAdapter * list ActiveAdapter) :=
  match l with
  | [] => None
  | x :: r =>
      if bool_decide (adapter x = a) then Some ([], r)
      else match find_active a r with
           | Some (pre, post) => Some (x :: pre, post)
           | None => None
           end
  end.

Module BeepPoll.
Section Ops.
Context {caps : Type} `{!CapsOps caps, !CapsFlags} {os : Type} `{!SockOS os, !SteadyClock}.
Context {W : Type} `{!PollOS os W}.

Abbreviation MB := (M (shared caps os W BeepSocketPoll.t)).

Definition actives : MB (list ActiveAdapter) := gets (fun s => BeepSocketPoll.active_adapters (obj s)).
Definition timeout : MB Z := gets (fun s => BeepSocketPoll.beep_timeout (obj s)).
Definition set_actives (l : list ActiveAdapter) : MB unit :=
  modify (fun s => set_obj (BeepSocketPoll.mk (BeepSocketPoll.parent (obj s)) l
    (BeepSocketPoll.beep_timeout (obj s))) s).

(** The connection that has the descriptor [fd] open: [a], while its poll holds it;
    after its deletion, whichever was given the number since. *)
Definition socket_of (a : aid) (fd : Z) (d : Disp caps (SocketAdapter.t os)) : option aid :=
  if bool_decide (a ∈ held d) then Some a
  else snd <$> list_find (fun b =>
    (SocketAdapter.socketfd ∘ impl <$> adapters d !! b) = Some fd) (elements (held d)).

(** [::shutdown(fd, SHUT_RDWR)] *)
Definition shutdown_conn (x : Adapter (SocketAdapter.t os)) : Adapter (SocketAdapter.t os) :=
  set_impl (SocketAdapter.set_sock (sys_shutdown (SocketAdapter.sock (impl x))) (impl x)) x.

Definition shutdown_adapter (a : aid) : MB unit :=
  x ← on_disp (deref a);
  d ← gets disp;
  match socket_of a (SocketAdapter.socketfd (impl x)) d with
  | Some b => on_disp (upd_adapter b shutdown_conn)
  | None => mret tt
  end.

Definition shutdown_timeout_adapter (nowtp : Z) : MB unit :=
  tmo ← timeout;
  l ← actives;
  let '(out, rest) := expire (nowtp - tmo * ms) l in
  for_each out (fun x => shutdown_adapter (adapter x)) ;;
  set_actives rest.

(** One pass of [do_poll]'s loop; [None] when [select] is to be called again. *)
Definition do_poll (rfds : gset Z) (max_fd : Z) : MB (option (gset Z + Z)) :=
  l ← actives;
  tmo ← timeout;
  tv ← match l with
       | [] => mret None
       | x :: _ => nowtp ← sys sys_now; mret (Some (obtain_timeout tmo nowtp (lastest_action_tp x)))
       end;
  r ← sys (sys_select rfds max_fd tv);
  if bool_decide (r = inr EAGAIN) then sys_ (sys_sleep 1) ;; mret None
  else
    nowtp ← sys sys_now;
    shutdown_timeout_adapter nowtp ;;
    mret (Some r).

Definition do_accept (lfd : Z) : MB (option aid) :=
  r ← PollThread.do_accept lfd;
  match r with
  | None => mret None
  | Some a =>
      nowtp ← sys sys_now;
      l ← actives;
      set_actives (l ++ [mkActive nowtp a]) ;;
      mret (Some a)
  end.

(** The entry moves to the end of the list, or goes. *)
Definition do_read (a : aid) : MB bool :=
  r ← PollThread.do_read a;
  l ← actives;
  match find_active a l with
  | None => mret r
  | Some (pre, post) =>
      if r : bool then
        nowtp ← sys sys_now;
        set_actives (pre ++ post ++ [mkActive nowtp a]) ;;
        mret r
      else
        set_actives (pre ++ post) ;;
        mret r
  end.

Definition beep_vtable : vtable caps os W BeepSocketPoll.t := mkVtable do_poll do_accept do_read.
End Ops.
End BeepPoll.
