(* ===== verification/BeepPollSpec.v ===== *)
(** * What the keepalive poll promises

    Its virtual functions satisfy the interface of the thread, so it is as safe as
    [SocketPoll]; it shuts down exactly the connections that were silent for the
    timeout and keeps its list in the order of their last activity. *)
From stdpp Require Import sorting.
From S2P Require Import Prelude Defs Caps Adap Framing SockAdap Reader SerHelper Disp.
From S2P Require Import DispInv DispFrame DispOps DispLoop SockPoll SockPollSpec PollRun BeepPoll.
Import Dispatcher DispatcherThread PollThread.

(** ** The list *)
Definition older (x y : ActiveAdapter) : Prop := lastest_action_tp x <= lastest_action_tp y.

Lemma StronglySorted_filter {A} (R : A -> A -> Prop) (P : A -> Prop) `{!forall x, Decision (P x)} (l : list A) :
  StronglySorted R l -> StronglySorted R (filter P l).
Proof.
  induction 1 as [|x l Hs IH Hx]; [constructor|]. rewrite filter_cons. destruct (decide (P x)); [|done].
  constructor; [done|]. rewrite Forall_forall in *. intros y [_ Hy]%list_elem_of_filter. auto.
Qed.

Lemma expire_app tp l : (expire tp l).1 ++ (expire tp l).2 = l.
Proof.
  induction l as [|x l IH]; simpl; [done|]. case_bool_decide; [|done].
  destruct (expire tp l). simpl in *. by rewrite IH.
Qed.

(** On a list in order of activity the loop finds all that are due, and no other. *)
Lemma expire_exact tp l :
  StronglySorted older l ->
  expire tp l = (filter (fun x => lastest_action_tp x <= tp) l, filter (fun x => tp < lastest_action_tp x) l).
Proof.
  induction 1 as [|x l Hs IH Hx]; [done|]. simpl. rewrite !filter_cons. case_bool_decide as Ht.
  - rewrite decide_True, (decide_False (P := tp < _)) by lia. by rewrite IH.
  - rewrite decide_False, (decide_True (P := tp < _)) by lia.
    assert (filter (fun y => lastest_action_tp y <= tp) l = []) as ->.
    { apply filter_none. eapply Forall_impl; [exact Hx|]. unfold older. simpl. lia. }
    rewrite filter_all; [done|]. eapply Forall_impl; [exact Hx|]. unfold older. simpl. lia.
Qed.

Lemma find_active_spec a l :
  match find_active a l with
  | Some (pre, post) => exists x, l = pre ++ x :: post /\ adapter x = a /\ a ∉ adapter <$> pre
  | None => a ∉ adapter <$> l
  end.
Proof.
  induction l as [|x l IH]; simpl; [apply not_elem_of_nil|]. case_bool_decide as Hx.
  - exists x. split_and!; [done..|apply not_elem_of_nil].
  - destruct (find_active a l) as [[pre post]|].
    + destruct IH as (y & -> & Hy & Hp). exists y. split_and!; try done. simpl. set_solver.
    + set_solver.
Qed.

(** ** The interface of the thread *)
Section Spec.
Context {caps : Type} `{!CapsOps caps, !CapsFlags} {os : Type} `{!SockOS os, !SteadyClock}.
Context {W : Type} `{!PollOS os W}.
Context `{!CapsLaws caps, !CapsFraming caps, !SockLaws os, !PollLaws os W, !FdLimit os W}.
Implicit Types (s : shared caps os W BeepSocketPoll.t) (a : aid).

(** The list holds connections of the table, each once. *)
Definition active_ok (x : BeepSocketPoll.t) : Prop :=
  NoDup (adapter <$> BeepSocketPoll.active_adapters x) /\
  forall a, a ∈ adapter <$> BeepSocketPoll.active_adapters x -> mine (base x) a.

Lemma touch_conn s lfd fd a f x :
  poll_ok s lfd -> SocketPoll.adapters (base (obj s)) !! fd = Some a ->
  adapters (disp s) !! a = Some x -> f x = set_impl (impl (f x)) x -> SocketAdapter.conn_ok fd (impl (f x)) ->
  SocketAdapter.only_read (impl x) (impl (f x)) ->
  let s' := set_disp (set_adapters (alter f a (adapters (disp s))) (disp s)) s in
  poll_ok s' lfd /\ local_change s s' /\ quiet s s'.
Proof.
  intros Hp Ha Hx Hf Hc Hor s'. destruct (tb_conns _ _ _ _ Hp fd a Ha) as (Hh & _).
  split_and!.
  - unfold poll_ok. simpl. eapply (table_ok_alter _ _ _ _ a); [exact Hp|done..|].
    intros fd' y Ha' Hy [Hfd' _]. simplify_eq.
    destruct (tb_conns _ _ _ _ Hp fd a Ha) as (_ & z & Hz & [Hfd _]). simplify_eq. done.
  - split; subst s'; cbn [disp obj world set_disp]; auto.
    + intros b Hm Hb _. cbn. split; [done|]. rewrite lookup_alter_ne; [done|]. intros <-. by destruct Hm; exists fd.
    + intros b Hb. by apply lookup_alter_is_Some.
    + by apply (lc_new s s).
  - split; [|done]. exists [LRead a (impl (f x))]. cbn [execs exec]. rewrite bool_decide_true by (split; [done|by apply (only_reads _ _ x)]).
    split; [|by apply polled_single; [destruct (thread s) as [| |[|]|]|]].
    simpl. do 3 f_equal. apply map_eq. intros b. destruct (decide (a = b)) as [<-|].
    + by rewrite !lookup_alter_eq, Hx; simpl; rewrite <- Hf.
    + by rewrite !lookup_alter_ne.
Qed.

Lemma shutdown_adapter_ok s lfd a :
  poll_ok s lfd -> mine (base (obj s)) a ->
  wp (BeepPoll.shutdown_adapter a) (fun _ s' => poll_ok s' lfd /\ local_change s s' /\ quiet s s' /\
    obj s' = obj s /\ held (disp s') = held (disp s) /\ world s' = world s /\
    adapters (disp s') = alter BeepPoll.shutdown_conn a (adapters (disp s))) s.
Proof.
  intros Hp [fd Ha]. destruct (tb_conns _ _ _ _ Hp fd a Ha) as (Hh & x & Hx & Hc).
  unfold BeepPoll.shutdown_adapter. wstep. apply wpx_on_disp, (wp_deref a x); [done|]. wsteps.
  unfold BeepPoll.socket_of. simpl. rewrite bool_decide_true by done.
  apply wpx_on_disp. unfold upd_adapter. wsteps. simpl.
  destruct (touch_conn s lfd fd a BeepPoll.shutdown_conn x Hp Ha Hx eq_refl) as (?&?&?); [|done|done].
  destruct Hc as [Hfd [Hn|[buf Hw]]]; (split; [done|]); [by left|right].
  exists buf. destruct Hw. by split.
Qed.

(** Everything that an operation of the thread that deletes nothing keeps. *)
Definition still s lfd s' : Prop :=
  poll_ok s' lfd /\ local_change s s' /\ quiet s s' /\ base (obj s') = base (obj s) /\
  held (disp s') = held (disp s).

Lemma still_refl s lfd : poll_ok s lfd -> still s lfd s.
Proof. intros Hp. split_and!; try done. apply quiet_refl. Qed.

Lemma still_trans s1 s2 s3 lfd : still s1 lfd s2 -> still s2 lfd s3 -> still s1 lfd s3.
Proof.
  intros (_ & L1 & Q1 & B1 & H1) (P2 & L2 & Q2 & B2 & H2). unfold still.
  split_and!; [done|by etrans|by eapply quiet_trans|congruence..].
Qed.

Lemma set_actives_ok s lfd l (Q : unit -> shared caps os W BeepSocketPoll.t -> Prop) :
  poll_ok s lfd ->
  (forall s', still s lfd s' -> disp s' = disp s -> world s' = world s ->
    obj s' = BeepSocketPoll.mk (BeepSocketPoll.parent (obj s)) l (BeepSocketPoll.beep_timeout (obj s)) -> Q tt s') ->
  wp (BeepPoll.set_actives l) Q s.
Proof.
  intros Hp HQ. unfold BeepPoll.set_actives. wsteps. apply HQ; try done.
  by destruct (derived_change s lfd (BeepSocketPoll.mk (BeepSocketPoll.parent (obj s)) l
    (BeepSocketPoll.beep_timeout (obj s))) Hp) as (?&?&?).
Qed.

Lemma now_ok s lfd (Q : Z -> shared caps os W BeepSocketPoll.t -> Prop) :
  poll_ok s lfd ->
  (forall t w, sys_now (world s) = (t, w) -> still s lfd (set_world w s) -> Q t (set_world w s)) ->
  wp (sys sys_now) Q s.
Proof.
  intros Hp HQ. apply wpx_sys. destruct (sys_now (world s)) as [t w] eqn:Hn.
  pose proof (now_fds (world s)) as Hf. rewrite Hn in Hf.
  destruct (world_change s lfd w Hp Hf) as (?&?&?). by apply HQ.
Qed.

(** The connections [out], shut down one after the other. *)
Definition shut_all (out : list ActiveAdapter) (m : gmap aid (Adapter (SocketAdapter.t os))) :=
  foldl (fun m x => alter BeepPoll.shutdown_conn (adapter x) m) m out.

Lemma shutdown_loop_ok s lfd out :
  poll_ok s lfd -> (forall a, a ∈ adapter <$> out -> mine (base (obj s)) a) ->
  wp (for_each out (fun x => BeepPoll.shutdown_adapter (adapter x))) (fun _ s' =>
    still s lfd s' /\ obj s' = obj s /\ world s' = world s /\
    adapters (disp s') = shut_all out (adapters (disp s))) s.
Proof.
  revert s. induction out as [|x out IH]; intros s Hp Hm; simpl.
  { wsteps. split_and!; try done. by apply still_refl. }
  wstep. eapply wpx_mono; [apply (shutdown_adapter_ok s lfd); [done|apply Hm; by left]|].
  intros [] s1 (Hp1 & Hl1 & Hq1 & Ho1 & Hh1 & Hw1 & Ha1).
  eapply wpx_mono; [apply IH; [done|intros b Hb; rewrite Ho1; apply Hm; by right]|].
  intros [] s2 (Hs2 & Ho2 & Hw2 & Ha2). split_and!; try congruence.
  eapply still_trans; [|done]. unfold still. by rewrite Ho1.
Qed.

Lemma active_ok_sub x l :
  active_ok x -> sublist l (BeepSocketPoll.active_adapters x) ->
  active_ok (BeepSocketPoll.mk (BeepSocketPoll.parent x) l (BeepSocketPoll.beep_timeout x)).
Proof.
  intros [Hn Hm] Hl. split; simpl.
  - eapply sublist_NoDup; [exact Hn|by apply fmap_sublist].
  - intros a Ha. apply Hm. apply list_elem_of_fmap in Ha as (y & -> & Hy).
    apply list_elem_of_fmap_2. by eapply elem_of_sublist.
Qed.

(** [shutdown_timeout_adapter] at [nowtp]: what is shut down is what [expire]
    finds, and the list keeps the rest. *)
Definition expired s nowtp s' : Prop :=
  let x := obj s in
  let '(out, rest) := expire (nowtp - BeepSocketPoll.beep_timeout x * ms) (BeepSocketPoll.active_adapters x) in
  adapters (disp s') = shut_all out (adapters (disp s)) /\
  obj s' = BeepSocketPoll.mk (BeepSocketPoll.parent x) rest (BeepSocketPoll.beep_timeout x).

Lemma shutdown_timeout_ok s lfd nowtp :
  poll_ok s lfd -> active_ok (obj s) ->
  wp (BeepPoll.shutdown_timeout_adapter nowtp) (fun _ s' =>
    still s lfd s' /\ active_ok (obj s') /\ expired s nowtp s' /\ world s' = world s) s.
Proof.
  intros Hp Hj. unfold BeepPoll.shutdown_timeout_adapter, BeepPoll.timeout, BeepPoll.actives. wsteps.
  unfold expired. pose proof (expire_app (nowtp - BeepSocketPoll.beep_timeout (obj s) * ms)
    (BeepSocketPoll.active_adapters (obj s))) as Happ.
  destruct (expire _ _) as [out rest]. simpl in Happ. wstep.
  eapply wpx_mono; [apply (shutdown_loop_ok s lfd out); [done|]|].
  { intros a Ha. apply Hj. rewrite <- Happ, fmap_app. apply elem_of_app. by left. }
  intros [] s1 (Hs1 & Ho1 & Hw1 & Ha1). eapply (set_actives_ok s1 lfd); [apply Hs1|].
  intros s2 Hs2 Hd2 Hw2 Ho2. rewrite Ho1 in Ho2. split_and!; try congruence.
  - by eapply still_trans.
  - rewrite Ho2. apply active_ok_sub; [done|]. rewrite <- Happ. by apply sublist_inserts_l.
Qed.

Lemma beep_poll_ok s lfd rfds n :
  poll_ok s lfd -> active_ok (obj s) ->
  wp (BeepPoll.do_poll rfds n) (fun r s' => still s lfd s' /\ active_ok (obj s') /\
    forall ready, r = Some (inl ready) -> ready ⊆ rfds) s.
Proof.
  intros Hp Hj. unfold BeepPoll.do_poll, BeepPoll.actives, BeepPoll.timeout. wsteps.
  assert (wp (match BeepSocketPoll.active_adapters (obj s) with
    | [] => mret None
    | x :: _ => nowtp ← sys sys_now;
        mret (Some (obtain_timeout (BeepSocketPoll.beep_timeout (obj s)) nowtp (lastest_action_tp x))) end)
    (fun _ s' => still s lfd s' /\ obj s' = obj s) s) as Htv.
  { destruct (BeepSocketPoll.active_adapters (obj s)); wsteps.
    - split; [by apply still_refl|done].
    - eapply now_ok; [done|]. intros. by wsteps. }
  eapply wpx_mono; [exact Htv|]. intros tv s1 (Hs1 & Ho1). wstep. apply wpx_sys.
  destruct (sys_select rfds n tv (world s1)) as [r w] eqn:Hsel.
  pose proof (select_fds rfds n tv (world s1)) as Hf. rewrite Hsel in Hf. simpl in Hf. simpl.
  destruct (world_change s1 lfd w) as (Hp2 & Hl2 & Hq2); [apply Hs1|done|].
  assert (still s lfd (set_world w s1)) as Hs2 by by eapply still_trans.
  case_bool_decide as He.
  - unfold sys_. wsteps. destruct (world_change _ lfd (sys_sleep 1 w) Hp2) as (?&?&?); [by rewrite sleep_fds|].
    simpl in *. split_and!; [by eapply still_trans|by rewrite Ho1|done].
  - wstep. eapply now_ok; [done|]. intros t w' _ Hs3. wstep.
    assert (still s lfd (set_world w' (set_world w s1))) as Hs4 by by eapply still_trans.
    eapply wpx_mono; [apply (shutdown_timeout_ok _ lfd t); [apply Hs4|simpl; by rewrite Ho1]|].
    intros [] s3 (Hs5 & Hj5 & _). wsteps. split_and!; [by eapply still_trans|done|].
    intros ready [= ->]. by eapply select_ready.
Qed.

Lemma active_ok_base x p :
  active_ok x -> (forall a, mine (base x) a -> mine p a) -> active_ok (set_base p x).
Proof. intros [Hn Hm] Hp. split; simpl; auto. Qed.

Lemma beep_accept_ok s lfd :
  poll_ok s lfd -> active_ok (obj s) ->
  wp (BeepPoll.do_accept lfd) (fun r s' => poll_ok s' lfd /\ local_change s s' /\ quiet s s' /\
    active_ok (obj s') /\
    match r with
    | None => base (obj s') = base (obj s)
    | Some a => exists fd x w, base (obj s') = base (obj (after_accept s a fd x w)) /\
        fd ∉ SocketPoll.all_fds (base (obj s)) /\ adapters (disp s) !! a = None
    end) s.
Proof.
  intros Hp Hj. unfold BeepPoll.do_accept. wstep.
  eapply wpx_mono; [by apply (SockPollSpec.do_accept_ok s lfd)|].
  intros [a|] s1 (Hp1 & Hl1 & Hq1 & Hr); [|wsteps; rewrite Hr; done].
  destruct Hr as (fd & x & w & Hs1 & Hfd & Ha). wstep. eapply now_ok; [done|]. intros t w' _ Hs2.
  unfold BeepPoll.actives. wsteps. eapply (set_actives_ok _ lfd); [apply Hs2|]. intros s3 Hs3 Hd3 Hw3 Ho3.
  wsteps. assert (still s1 lfd s3) as (Hp3 & Hl3 & Hq3 & Hb3 & _) by by eapply still_trans.
  split_and!; [done|by etrans|by eapply quiet_trans| |].
  - rewrite Ho3, Hs1. simpl. destruct Hj as [Hn Hm].
    assert (a ∉ adapter <$> BeepSocketPoll.active_adapters (obj s)) as Hnew.
    { intros [fd' Hfd']%Hm. destruct (tb_conns _ _ _ _ Hp fd' a Hfd') as (_ & y & Hy & _). congruence. }
    split; simpl; rewrite fmap_app.
    + apply NoDup_app. split_and!; [done| |apply NoDup_singleton].
      intros b Hb ->%list_elem_of_singleton. done.
    + intros b [[fd' Hb]%Hm| ->%list_elem_of_singleton]%elem_of_app.
      * exists fd'. simpl. rewrite lookup_insert_ne; [done|]. intros ->.
        apply Hfd. rewrite (tb_fds _ _ _ _ Hp). apply elem_of_union_r, elem_of_dom. by exists b.
      * exists fd. simpl. by rewrite lookup_insert_eq.
  - exists fd, x, w. by rewrite Hb3, Hs1.
Qed.

Lemma beep_read_ok s lfd fd a :
  poll_ok s lfd -> active_ok (obj s) -> SocketPoll.adapters (base (obj s)) !! fd = Some a ->
  wp (BeepPoll.do_read a) (fun ok s' => still s lfd s' /\
    active_ok (if ok : bool then obj s' else without fd (obj s'))) s.
Proof.
  intros Hp Hj Ha. unfold BeepPoll.do_read. wstep.
  eapply wpx_mono; [by apply (SockPollSpec.do_read_ok s lfd fd)|].
  intros ok s1 (Hp1 & Hl1 & Hq1 & Ho1 & Hh1 & _). unfold BeepPoll.actives. wsteps. rewrite Ho1.
  assert (still s lfd s1) as Hs1 by (unfold still; by rewrite Ho1).
  assert (forall x, active_ok x -> BeepSocketPoll.parent x = base (obj s) ->
    a ∉ adapter <$> BeepSocketPoll.active_adapters x -> active_ok (without fd x)) as Hwithout.
  { intros x [Hn Hm] Hx Hnot. split; simpl; [done|]. intros b Hb. destruct (Hm b Hb) as [fd' Hfd'].
    exists fd'. simpl. rewrite lookup_delete_ne; [done|]. intros <-. simpl in Hfd'. rewrite Hx in Hfd'.
    simpl in *. congruence. }
  pose proof (find_active_spec a (BeepSocketPoll.active_adapters (obj s))) as Hfind.
  destruct (find_active _ _) as [[pre post]|].
  2: { wsteps. split; [done|]. rewrite Ho1. destruct ok; [done|]. by apply Hwithout. }
  destruct Hfind as (y & Hl & Hy & Hpre).
  assert (sublist (pre ++ post) (BeepSocketPoll.active_adapters (obj s))) as Hsub.
  { rewrite Hl. apply sublist_app; [done|]. by apply sublist_cons. }
  assert (a ∉ adapter <$> (pre ++ post)) as Hnot.
  { destruct Hj as [Hn _]. rewrite Hl, fmap_app in Hn. simpl in Hn. rewrite Hy in Hn.
    rewrite fmap_app. apply NoDup_app in Hn as (_ & _ & [Hn _]%NoDup_cons). set_solver. }
  destruct ok.
  - wstep. eapply now_ok; [done|]. intros t w _ Hs2. wstep.
    eapply (set_actives_ok _ lfd); [apply Hs2|]. intros s3 Hs3 Hd3 Hw3 Ho3. wsteps. split.
    + eapply still_trans; [done|]. by eapply still_trans.
    + rewrite Ho3. simpl. rewrite Ho1. destruct (active_ok_sub _ _ Hj Hsub) as [Hn Hm].
      simpl in Hn, Hm. split; simpl; rewrite app_assoc, fmap_app.
      * apply NoDup_app. split_and!; [done| |apply NoDup_singleton]. intros b Hb ->%list_elem_of_singleton. done.
      * intros b [?%Hm| ->%list_elem_of_singleton]%elem_of_app; [done|by exists fd].
  - wstep. eapply (set_actives_ok _ lfd); [done|]. intros s3 Hs3 Hd3 Hw3 Ho3. wsteps. split.
    + by eapply still_trans.
    + rewrite Ho3. rewrite Ho1. apply Hwithout; simpl; [by apply active_ok_sub|done..].
Qed.

Lemma beep_vtable_ok : vtable_ok BeepPoll.beep_vtable active_ok.
Proof.
  split; simpl.
  - intros s lfd rfds n Hp Hj. eapply wpx_mono; [by apply (beep_poll_ok s lfd)|].
    intros r s' ((?&?&?&?&?)&?&?). done.
  - intros s lfd Hp Hj. by apply beep_accept_ok.
  - intros s lfd fd a Hp Hj Ha. eapply wpx_mono; [by apply (beep_read_ok s lfd fd)|].
    intros ok s' ((?&?&?&?&?)&?). done.
Qed.

(** ** Keeping alive *)

(** The connection was silent for the timeout at [nowtp]. *)
Definition overdue (tmo nowtp : Z) (x : ActiveAdapter) : Prop := lastest_action_tp x + tmo * ms <= nowtp.

#[export] Instance overdue_dec tmo nowtp x : Decision (overdue tmo nowtp x).
Proof. unfold overdue. apply _. Defined.

Lemma shut_all_lookup out : forall m a,
  NoDup (adapter <$> out) ->
  shut_all out m !! a = (if decide (a ∈ adapter <$> out) then BeepPoll.shutdown_conn else id) <$> m !! a.
Proof.
  induction out as [|x out IH]; intros m a Hn.
  { rewrite decide_False by apply not_elem_of_nil. unfold shut_all. simpl. by destruct (m !! a). }
  rewrite fmap_cons in *. apply NoDup_cons in Hn as [Hx Hn].
  change (shut_all (x :: out) m) with (shut_all out (alter BeepPoll.shutdown_conn (adapter x) m)). rewrite IH by done.
  destruct (decide (a = adapter x)) as [->|Hne].
  - rewrite lookup_alter_eq. repeat case_decide; try (by destruct (m !! adapter x)); set_solver.
  - rewrite lookup_alter_ne by done. repeat case_decide; try done; set_solver.
Qed.

(** What [do_read] makes of the list at the time [t]. *)
Definition touch (t : Z) (a : aid) (ok : bool) (l : list ActiveAdapter) : list ActiveAdapter :=
  match find_active a l with
  | None => l
  | Some (pre, post) => pre ++ post ++ (if ok then [mkActive t a] else [])
  end.

Lemma sorted_app_last t a l :
  StronglySorted older l -> Forall (fun x => lastest_action_tp x <= t) l -> StronglySorted older (l ++ [mkActive t a]).
Proof.
  intros Hs Ht. apply StronglySorted_app_2; [|done|repeat constructor].
  intros x y Hx ->%list_elem_of_singleton. rewrite Forall_forall in Ht. by apply Ht.
Qed.

(** Marking a connection active keeps the order, when the clock does not go back. *)
Lemma touch_sorted t a ok l :
  StronglySorted older l -> Forall (fun x => lastest_action_tp x <= t) l -> StronglySorted older (touch t a ok l).
Proof.
  intros Hs Ht. unfold touch. pose proof (find_active_spec a l) as Hf.
  destruct (find_active a l) as [[pre post]|]; [|done]. destruct Hf as (x & -> & _).
  assert (StronglySorted older (pre ++ post)) as Hpp by by eapply StronglySorted_remove.
  rewrite app_assoc. destruct ok; [|by rewrite app_nil_r]. apply sorted_app_last; [done|].
  apply Forall_app in Ht as [? [_ ?]%Forall_cons]. by apply Forall_app.
Qed.

Lemma do_read_touch s lfd fd a :
  poll_ok s lfd -> active_ok (obj s) -> SocketPoll.adapters (base (obj s)) !! fd = Some a ->
  wp (BeepPoll.do_read a) (fun ok s' =>
    BeepSocketPoll.active_adapters (obj s') =
      touch (sys_now (world s)).1 a ok (BeepSocketPoll.active_adapters (obj s))) s.
Proof.
  intros Hp Hj Ha. unfold BeepPoll.do_read. wstep.
  eapply wpx_mono; [by apply (SockPollSpec.do_read_ok s lfd fd)|].
  intros ok s1 (Hp1 & Hl1 & Hq1 & Ho1 & Hh1 & Hw1). unfold BeepPoll.actives, touch. wsteps. rewrite Ho1.
  destruct (find_active _ _) as [[pre post]|]; [|wsteps; by rewrite Ho1]. destruct ok.
  - wstep. apply wpx_sys. unfold BeepPoll.set_actives. wsteps. simpl. by rewrite Hw1.
  - unfold BeepPoll.set_actives. wsteps. simpl. by rewrite app_nil_r.
Qed.

(** [select] refuses a timeout with a negative member ([EINVAL]). *)
Class SelectInval := {
  EINVAL : Z;
  EINVAL_EAGAIN : EINVAL <> EAGAIN;
  select_inval rfds n sec usec w : sec < 0 \/ usec < 0 ->
    (sys_select rfds n (Some (sec, usec)) w).1 = inr EINVAL
}.

Lemma obtain_negative tmo nowtp front :
  front + tmo * ms + ms <= nowtp ->
  (obtain_timeout tmo nowtp front).1 < 0 \/ (obtain_timeout tmo nowtp front).2 < 0.
Proof.
  intros Hd. unfold obtain_timeout. simpl. set (dur := Z.quot _ ms).
  assert (dur <= -1) as Hdur.
  { subst dur. replace (tmo * ms - (nowtp - front)) with (- (nowtp - front - tmo * ms)) by lia.
    rewrite Z.quot_opp_l by done. rewrite Z.quot_div_nonneg by (unfold ms in *; lia).
    assert (1 <= (nowtp - front - tmo * ms) / ms); [|lia].
    apply Z.div_le_lower_bound; unfold ms in *; lia. }
  destruct (decide (dur <= -1000)) as [Hs|Hs].
  - left. pose proof (Z.quot_le_mono dur (-1000) 1000). change (-1000 ÷ 1000) with (-1) in *. lia.
  - right. replace dur with (- (- dur)) by lia.
    rewrite Z.rem_opp_l by done. rewrite Z.rem_small by lia. lia.
Qed.

(** The connections that were silent for the timeout at [t], and no other, have their
    sockets shut down and leave the list, of which they are the beginning. *)
Definition shut_overdue s (t : Z) s' : Prop :=
  let tmo := BeepSocketPoll.beep_timeout (obj s) in
  let due := filter (overdue tmo t) (BeepSocketPoll.active_adapters (obj s)) in
  BeepSocketPoll.active_adapters (obj s) = due ++ BeepSocketPoll.active_adapters (obj s') /\
  StronglySorted older (BeepSocketPoll.active_adapters (obj s')) /\
  (forall a, adapters (disp s') !! a =
     (if decide (a ∈ adapter <$> due) then BeepPoll.shutdown_conn else id) <$> adapters (disp s) !! a).

Lemma shutdown_exact s lfd t :
  poll_ok s lfd -> active_ok (obj s) -> StronglySorted older (BeepSocketPoll.active_adapters (obj s)) ->
  wp (BeepPoll.shutdown_timeout_adapter t) (fun _ s' => shut_overdue s t s') s.
Proof.
  intros Hp Hj Hs. eapply wpx_mono; [by apply (shutdown_timeout_ok s lfd t)|]. intros [] s' (_ & _ & Hx & _).
  unfold expired in Hx. pose proof (expire_app (t - BeepSocketPoll.beep_timeout (obj s) * ms)
    (BeepSocketPoll.active_adapters (obj s))) as Happ. rewrite (expire_exact _ _ Hs) in Hx, Happ.
  destruct Hx as [Had Hobj]. unfold shut_overdue. rewrite Hobj. simpl in *.
  assert (filter (fun x => lastest_action_tp x <= t - BeepSocketPoll.beep_timeout (obj s) * ms)
    (BeepSocketPoll.active_adapters (obj s)) =
    filter (overdue (BeepSocketPoll.beep_timeout (obj s)) t) (BeepSocketPoll.active_adapters (obj s))) as Hdue.
  { apply list_filter_iff. unfold overdue. lia. }
  rewrite Hdue in Had, Happ. split_and!; [done|by apply StronglySorted_filter|].
  intros a. rewrite Had. apply shut_all_lookup, NoDup_fmap_filter, Hj.
Qed.

(** The timeout [tv] for a wait of [left] nanoseconds: down to whole milliseconds while
    there is something left; nothing when it is less than a millisecond too late; and
    negative beyond. *)
Definition waits (tv : Z * Z) (left : Z) : Prop :=
  (0 <= left -> 0 <= tv.1 /\ 0 <= tv.2 < 1000000 /\
     exists d, d * ms <= left < (d + 1) * ms /\ tv.1 * 1000000 + tv.2 = d * 1000) /\
  (- ms < left <= 0 -> tv = (0, 0)) /\
  (left <= - ms -> tv.1 < 0 \/ tv.2 < 0).

Lemma obtain_waits tmo nowtp front : waits (obtain_timeout tmo nowtp front) (front + tmo * ms - nowtp).
Proof.
  unfold waits. split_and!.
  - intros Hl. unfold obtain_timeout. replace (tmo * ms - (nowtp - front)) with (front + tmo * ms - nowtp) by lia.
    rewrite (Z.quot_div_nonneg (front + tmo * ms - nowtp) ms) by (unfold ms in *; lia). pose proof (Z.div_mod (front + tmo * ms - nowtp) ms ltac:(done)).
    pose proof (Z.mod_pos_bound (front + tmo * ms - nowtp) ms ltac:(done)).
    pose proof (Z.div_pos (front + tmo * ms - nowtp) ms Hl ltac:(done)).
    set (d := (front + tmo * ms - nowtp) / ms) in *. cbn [fst snd].
    rewrite Z.quot_div_nonneg, Z.rem_mod_nonneg by lia. pose proof (Z.div_mod d 1000 ltac:(done)).
    pose proof (Z.mod_pos_bound d 1000 ltac:(done)). pose proof (Z.div_pos d 1000).
    unfold ms in *. split_and!; [lia..|]. exists d. lia.
  - intros Hl. unfold obtain_timeout. replace (tmo * ms - (nowtp - front)) with (front + tmo * ms - nowtp) by lia.
    assert (Z.quot (front + tmo * ms - nowtp) ms = 0) as ->; [|done].
    replace (front + tmo * ms - nowtp) with (- (nowtp - front - tmo * ms)) by lia.
    rewrite Z.quot_opp_l by done. rewrite Z.quot_small; unfold ms in *; lia.
  - intros Hl. apply obtain_negative. lia.
Qed.

(** What [do_poll] hands [select], and when. *)
Definition select_call s (tv : option (Z * Z)) (w : W) : Prop :=
  match BeepSocketPoll.active_adapters (obj s) with
  | [] => tv = None /\ w = world s
  | x :: l => exists t0 v, sys_now (world s) = (t0, w) /\ tv = Some v /\
      waits v (lastest_action_tp x + BeepSocketPoll.beep_timeout (obj s) * ms - t0) /\
      forall y, y ∈ x :: l -> lastest_action_tp x <= lastest_action_tp y
  end.

Lemma select_call_ok s lfd :
  poll_ok s lfd -> StronglySorted older (BeepSocketPoll.active_adapters (obj s)) ->
  wp (match BeepSocketPoll.active_adapters (obj s) with
      | [] => mret None
      | x :: _ => nowtp ← sys sys_now;
          mret (Some (obtain_timeout (BeepSocketPoll.beep_timeout (obj s)) nowtp (lastest_action_tp x))) end)
    (fun tv s' => select_call s tv (world s') /\ still s lfd s' /\ s' = set_world (world s') s) s.
Proof.
  intros Hp Hs. unfold select_call. destruct (BeepSocketPoll.active_adapters (obj s)) as [|x l]; wsteps.
  - split_and!; [done..|by apply still_refl|by destruct s].
  - eapply now_ok; [done|]. intros t w Hn Hst. wsteps. split_and!; [|done..]. exists t. eexists.
    split_and!; [done..|apply obtain_waits|]. inversion Hs as [|? ? _ Hx]; subst. rewrite Forall_forall in Hx.
    intros y [->|Hy]%elem_of_cons; [lia|by apply Hx].
Qed.

(** C24. The keepalive timeout is exact. With its list in the order of activity, a pass of
    [do_poll] waits in [select] without limit when no connection is to be watched, and
    otherwise for the time until the first of them all is due, down to the millisecond,
    not at all when that is just past, and with a negative timeout when it is more than a
    millisecond past; and it then shuts down the sockets of all connections that were
    silent for the timeout at that moment, and of no other, and only those, the beginning
    of the list, leave it; the rest stays in order. When [select] is interrupted nothing is
    shut down. *)
Theorem keepalive_exact s lfd rfds n :
  poll_ok s lfd -> active_ok (obj s) -> StronglySorted older (BeepSocketPoll.active_adapters (obj s)) ->
  exists r s' tv w, BeepPoll.do_poll rfds n s = Done (r, s') /\ select_call s tv w /\
    let '(sel, w') := sys_select rfds n tv w in
    if bool_decide (sel = inr EAGAIN) then r = None /\ disp s' = disp s /\ obj s' = obj s
    else r = Some sel /\ shut_overdue s (sys_now w').1 s'.
Proof.
  intros Hp Hj Hs.
  assert (wp (BeepPoll.do_poll rfds n) (fun r s' => exists tv w, select_call s tv w /\
    let '(sel, w') := sys_select rfds n tv w in
    if bool_decide (sel = inr EAGAIN) then r = None /\ disp s' = disp s /\ obj s' = obj s
    else r = Some sel /\ shut_overdue s (sys_now w').1 s') s) as Hw.
  2: { destruct (wp_done _ _ _ Hw) as (r & s' & Hr & tv & w & ?). by exists r, s', tv, w. }
  unfold BeepPoll.do_poll, BeepPoll.actives, BeepPoll.timeout. wsteps.
  eapply wpx_mono; [by apply select_call_ok|]. intros tv s1 (Hc & Hs1 & He1). wstep. apply wpx_sys.
  destruct (sys_select rfds n tv (world s1)) as [r w] eqn:Hsel.
  pose proof (select_fds rfds n tv (world s1)) as Hf. rewrite Hsel in Hf. simpl in Hf. simpl.
  destruct (world_change s1 lfd w) as (Hp2 & Hl2 & Hq2); [apply Hs1|done|].
  case_bool_decide as He.
  - unfold sys_. wsteps. exists tv, (world s1). split; [done|]. rewrite Hsel, bool_decide_true by done.
    by rewrite He1.
  - wstep. eapply now_ok; [done|]. intros t w' Hn _. wstep.
    assert (set_world w' (set_world w s1) = set_world w' s) as -> by by rewrite He1.
    simpl in Hn. assert (open_fds w' = open_fds (world s)) as Hw'.
    { pose proof (now_fds w) as Hnf. rewrite Hn in Hnf. simpl in Hnf. rewrite Hnf, Hf.
      pose proof (now_fds (world s)) as Hn0. unfold select_call in Hc.
      destruct (BeepSocketPoll.active_adapters (obj s)); [by destruct Hc as [_ ->]|].
      destruct Hc as (t0 & v & Hc & _). by rewrite Hc in Hn0. }
    destruct (world_change s lfd w' Hp Hw') as (Hp3 & _ & _).
    eapply wpx_mono; [by apply (shutdown_exact (set_world w' s) lfd t)|]. intros [] s3 Hx. wsteps.
    exists tv, (world s1). split; [done|]. rewrite Hsel, bool_decide_false by done. by rewrite Hn.
Qed.

(** The call of [select] that an overdue connection makes fail. *)
Lemma overdue_select `{!SelectInval} s lfd x l :
  poll_ok s lfd -> active_ok (obj s) -> BeepSocketPoll.active_adapters (obj s) = x :: l ->
  lastest_action_tp x + BeepSocketPoll.beep_timeout (obj s) * ms + ms <= (sys_now (world s)).1 ->
  wp (select_step BeepPoll.beep_vtable) (fun r s' => r = Release /\ still s lfd s') s.
Proof.
  intros Hp Hj Hl Hd. unfold select_step. do 2 (wstep; apply wpx_this). wstep.
  assert (wp (BeepPoll.do_poll (SocketPoll.all_fds (base (obj s))) (SocketPoll.max_fd (base (obj s))))
    (fun r s' => (exists e, r = Some (inr e)) /\ still s lfd s') s) as Hpoll.
  2: { eapply wpx_mono; [exact Hpoll|]. intros r s' [[e ->] Hs']. by wsteps. }
  unfold BeepPoll.do_poll, BeepPoll.actives, BeepPoll.timeout. wsteps. rewrite Hl. wstep.
  eapply now_ok; [done|]. intros t w Hn Hs1. wsteps. apply wpx_sys. rewrite Hn in Hd. simpl in Hd |- *.
  pose proof (obtain_negative _ _ _ Hd) as Hneg.
  destruct (obtain_timeout _ _ _) as [sec usec]. simpl in Hneg.
  destruct (sys_select _ _ _ w) as [r w'] eqn:Hsel.
  pose proof (select_inval (SocketPoll.all_fds (BeepSocketPoll.parent (obj s)))
    (SocketPoll.max_fd (BeepSocketPoll.parent (obj s))) sec usec w Hneg) as Hr.
  rewrite Hsel in Hr. simpl in Hr |- *. subst r.
  rewrite bool_decide_false by (intros [= ?]; by apply EINVAL_EAGAIN).
  match type of Hsel with sys_select ?a ?b ?c ?d = _ => pose proof (select_fds a b c d) as Hf end.
  rewrite Hsel in Hf. simpl in Hf.
  assert (still s lfd (set_world w' (set_world w s))) as Hs2.
  { destruct (world_change (set_world w s) lfd w') as (?&?&?); [apply Hs1|done|]. by eapply still_trans. }
  wstep. eapply now_ok; [apply Hs2|]. intros t' w2 _ Hs3. wstep.
  assert (still s lfd (set_world w2 (set_world w' (set_world w s)))) as Hs4 by by eapply still_trans.
  eapply wpx_mono; [apply (shutdown_timeout_ok _ lfd t'); [apply Hs4|done]|].
  intros [] s3 (Hs5 & _). wsteps. split; [by eexists|by eapply still_trans].
Qed.

(** C38. A connection that is overdue by a millisecond when the poll turns to [select]
    ends the poll: [obtain_timeout] hands [select] a negative timeout, [select]
    refuses it, and the thread takes this for a failed system call: its own next steps
    close every connection of the poll and end it. The poll still counts as started, so
    [start] answers [FLORA_POLL_ALREADY_START]. *)
Theorem overdue_ends_poll `{!SelectInval} s lfd x l :
  poll_ok s lfd -> active_ok (obj s) -> SocketPoll.started (base (obj s)) = true ->
  BeepSocketPoll.active_adapters (obj s) = x :: l ->
  lastest_action_tp x + BeepSocketPoll.beep_timeout (obj s) * ms + ms <= (sys_now (world s)).1 ->
  exists k s', run_steps k BeepPoll.beep_vtable AtSelect s = Done (Quit, s') /\
    (forall fd a, SocketPoll.adapters (base (obj s)) !! fd = Some a -> gone s' fd a) /\
    start s' = Done (FLORA_POLL_ALREADY_START, s').
Proof.
  intros Hp Hj Hst Hl Hd.
  destruct (wp_done _ _ _ (overdue_select s lfd x l Hp Hj Hl Hd)) as (r & s1 & Hsel & -> & Hs1).
  destruct Hs1 as (Hp1 & _ & _ & Hb1 & _).
  destruct (release_spec BeepPoll.beep_vtable active_ok beep_vtable_ok s1 lfd Hp1) as (s' & Hrun & _ & _ & _ & [Hk _] & Hgone & _).
  eexists (S _), s'. split; [|split].
  - cbn [run_steps run_step]. unfold mbind, M_bind. rewrite Hsel. exact Hrun.
  - intros fd a Ha. apply Hgone. by rewrite Hb1.
  - apply start_again. by rewrite Hk, Hb1.
Qed.
End Spec.
