(* ===== verification/Service.v ===== *)
(** * The service: the dispatcher and its polls

    The whole server as one transition system: the dispatcher's thread, any number
    of polls of either class with their threads, and the process's descriptors. The
    labels of [DispLoop.v] for the polls become theorems here: every step of a poll
    is a sequence of them. *)
From S2P Require Import Prelude Defs Caps Adap Framing SockAdap Reader SerHelper Disp.
From S2P Require Import DispInv DispFrame DispOps DispSafe DispLoop SockPoll SockPollSpec.
From S2P Require Import PollRun BeepPoll BeepPollSpec.
Import Dispatcher DispatcherThread PollThread.

(** A poll, by its class. *)
Inductive poll : Type :=
  | Sock (p : SocketPoll.t)
  | Beep (p : BeepSocketPoll.t).

#[export] Instance poll_class : PollClass poll := {|
  base x := match x with Sock p => p | Beep p => base p end;
  set_base p x := match x with Sock _ => Sock p | Beep b => Beep (set_base p b) end
|}.

#[export] Instance poll_class_laws : PollClassLaws poll.
Proof. split; [by intros p []|by intros p q []]. Qed.

(** A thread is at a place of [run], and [stop] may be waiting for it, to close the
    listening socket. *)
Inductive status : Type :=
  | Idle
  | On (l : place)
  | Joining (fd : Z) (l : place).

Module Service.
Section Ops.
Context {caps : Type} `{!CapsOps caps, !CapsFlags} {os : Type} `{!SockOS os, !SteadyClock}.
Context {W : Type} `{!PollOS os W}.

(** A virtual call: the operation of the object's own class. *)
Definition virtual {A} (op : forall (X : Type) (C : PollClass X), vtable caps os W X -> M (shared caps os W X) A) :
    M (shared caps os W poll) A := fun s =>
  match obj s with
  | Sock p =>
      match op _ _ sock_vtable (mkShared p (thread s) (disp s) (world s)) with
      | Done (a, s') => Done (a, mkShared (Sock (obj s')) (thread s') (disp s') (world s'))
      | Undef u => Undef u
      end
  | Beep p =>
      match op _ _ BeepPoll.beep_vtable (mkShared p (thread s) (disp s) (world s)) with
      | Done (a, s') => Done (a, mkShared (Beep (obj s')) (thread s') (disp s') (world s'))
      | Undef u => Undef u
      end
  end.

Definition thread_step (l : place) : M (shared caps os W poll) place :=
  virtual (fun X C V => run_step V l).

Record t := mk {
  polls : list (poll * status);
  sv_thread : loc caps;
  sv_disp : Disp caps (SocketAdapter.t os);
  sv_world : W
}.

Inductive sys : Type :=
  | Up (sv : t)
  | Down (u : ub).

Inductive label : Type :=
  | SDisp (lb : DispatcherThread.label (SocketAdapter.t os))   (** the dispatcher's thread, or [close] *)
  | SRun (i : nat)       (** a step of a poll's thread *)
  | SStart (i : nat)     (** [start] *)
  | SStop (i : nat)      (** [stop], up to the join *)
  | SJoin (i : nat).     (** [stop], after the join *)

(** An operation on the poll [i], with the status that follows from its result. *)
Definition on_poll {A} (i : nat) (p : poll) (m : M (shared caps os W poll) A) (st : A -> status) (sv : t) : sys :=
  match m (mkShared p (sv_thread sv) (sv_disp sv) (sv_world sv)) with
  | Done (a, s) => Up (mk (<[i := (obj s, st a)]> (polls sv)) (thread s) (disp s) (world s))
  | Undef u => Down u
  end.

Definition exec (sv : t) (lb : label) : option sys :=
  match lb with
  | SDisp lb =>
      match lb with
      | LLock | LHandle | LBatchDone | LClose =>
          match DispatcherThread.exec (Running (sv_thread sv) (sv_disp sv)) lb with
          | Some (Running l d) => Some (Up (mk (polls sv) l d (sv_world sv)))
          | Some (Crashed u) => Some (Down u)
          | None => None
          end
      | _ => None
      end
  | SRun i =>
      match polls sv !! i with
      | Some (p, On l) => Some (on_poll i p (thread_step l) On sv)
      | Some (p, Joining fd l) => Some (on_poll i p (thread_step l) (Joining fd) sv)
      | _ => None
      end
  | SStart i =>
      match polls sv !! i with
      | Some (p, Idle) =>
          Some (on_poll i p PollThread.start
            (fun r => if bool_decide (r = FLORA_POLL_SUCCESS) then On AtSelect else Idle) sv)
      | _ => None
      end
  | SStop i =>
      match polls sv !! i with
      | Some (p, On l) =>
          Some (on_poll i p stop_begin
            (fun r => match r with Some fd => Joining fd l | None => On l end) sv)
      | _ => None
      end
  | SJoin i =>
      match polls sv !! i with
      | Some (p, Joining fd Quit) => Some (on_poll i p (stop_end fd) (fun _ => Idle) sv)
      | _ => None
      end
  end.

(** What is asked of the clients and of the caller of [start]: that of [DispLoop.v]
    on both sides; a path that fits; and a keepalive poll not to be started a second
    time with the list of its first run. *)
Definition orderly (sv : t) (lb : label) (st' : sys) : Prop :=
  match lb with
  | SDisp lb => DispatcherThread.orderly (Running (sv_thread sv) (sv_disp sv)) lb
  | SStart i =>
      match polls sv !! i with
      | Some (p, _) => name_fits (base p) /\
          match p with Beep b => BeepSocketPoll.active_adapters b = [] | _ => True end
      | None => True
      end
  | _ =>
      match st' with
      | Up sv' => forall a, a ∈ held (sv_disp sv) -> a ∉ held (sv_disp sv') ->
          (info <$> adapters (sv_disp sv') !! a) = Some None ->
          a ∉ (todo_of (sv_thread sv') ++ cmd_packets (sv_disp sv')).*2
      | Down _ => True
      end
  end.

Definition step (st st' : sys) : Prop :=
  match st with
  | Up sv => exists lb, exec sv lb = Some st' /\ orderly sv lb st'
  | Down _ => False
  end.

(** The dispatcher is running and no poll is. *)
Definition start (flags bufsize : Z) (ps : list poll) (w : W) : sys :=
  Up (mk ((fun p => (p, Idle)) <$> ps) Top (run_disp (new flags bufsize)) w).
End Ops.
Arguments t caps os W : clear implicits.
Arguments sys caps os W : clear implicits.
Arguments label os : clear implicits.
End Service.

(** ** The invariant *)
Section Safe.
Context {caps : Type} `{!CapsOps caps, !CapsFlags} {os : Type} `{!SockOS os, !SteadyClock}.
Context {W : Type} `{!PollOS os W}.
Context `{!CapsLaws caps, !CapsSmall caps, !CapsFraming caps, !SockLaws os, !PollLaws os W, !FdLimit os W}.
Implicit Types (sv : Service.t caps os W) (s : shared caps os W poll) (d : Disp caps (SocketAdapter.t os)) (w : W).

(** What a poll's own class keeps. *)
Definition own_ok (p : poll) : Prop :=
  match p with Sock _ => True | Beep b => active_ok b end.

Definition at_place (p : poll) (lfd : Z) (l : place) : Prop :=
  match p with
  | Sock q => place_ok (fun _ => True) q lfd l
  | Beep q => place_ok active_ok q lfd l
  end.

Definition status_ok (p : poll) (st : status) d w : Prop :=
  match st with
  | Idle => idle (base p)
  | On l => SocketPoll.started (base p) = true /\
      exists lfd, table_ok (base p) d w lfd /\ at_place p lfd l /\ SocketPoll.listen_fd (base p) = lfd
  | Joining fd l => table_ok (base p) d w fd /\ at_place p fd l
  end.

Definition fds_of (p : poll) (st : status) : gset Z :=
  match st with Idle => ∅ | _ => SocketPoll.all_fds (base p) end.

Record service_ok sv : Prop := {
  so_inv : inv (Service.sv_disp sv) (todo_of (Service.sv_thread sv));
  so_loc : loc_ok (Service.sv_thread sv) (Service.sv_disp sv);
  so_polls i p st : Service.polls sv !! i = Some (p, st) ->
    status_ok p st (Service.sv_disp sv) (Service.sv_world sv);
  so_fds i j p st q st' : Service.polls sv !! i = Some (p, st) -> Service.polls sv !! j = Some (q, st') ->
    i <> j -> fds_of p st ## fds_of q st';
  so_held a : a ∈ held (Service.sv_disp sv) ->
    exists i p st, Service.polls sv !! i = Some (p, st) /\ mine (base p) a
}.

(** ** A step of a poll's thread *)
Lemma thread_step_ok s lfd l :
  poll_ok s lfd -> at_place (obj s) lfd l ->
  wp (Service.thread_step l) (fun l' s' => poll_ok s' lfd /\ local_change s s' /\ drives s s' /\
    at_place (obj s') lfd l' /\ kept (base (obj s)) (base (obj s'))) s.
Proof.
  intros Hp Hl. unfold Service.thread_step, Service.virtual, wpx. destruct s as [[p|p] lo d w]; simpl in *.
  - destruct (wp_done _ _ _ (run_step_ok sock_vtable (fun _ => True) sock_vtable_ok
      (mkShared p lo d w) lfd l Hp Hl)) as (l' & s' & -> & Hs').
    destruct Hs' as (Hp' & [] & Hd' & Hl' & Hk). split_and!; try done; apply Hk.
  - destruct (wp_done _ _ _ (run_step_ok BeepPoll.beep_vtable active_ok beep_vtable_ok
      (mkShared p lo d w) lfd l Hp Hl)) as (l' & s' & -> & Hs').
    destruct Hs' as (Hp' & [] & Hd' & Hl' & Hk). split_and!; try done; apply Hk.
Qed.

(** ** What other steps do to a poll *)

Lemma conn_touched fd (x y : SocketAdapter.t os) :
  touched x y -> SocketAdapter.conn_ok fd x -> SocketAdapter.conn_ok fd y.
Proof.
  induction 1; intros Hx; [done|by apply SocketAdapter.write_conn, IHtouched|].
  by apply SocketAdapter.close_conn, IHtouched.
Qed.

(** The dispatcher only writes to the connections and closes them. *)
Lemma table_touched p d w lfd d' :
  table_ok p d w lfd -> held d' = held d -> same_impls (adapters d) (adapters d') ->
  table_ok p d' w lfd.
Proof.
  intros [Q1 Q2 Q3 Q4 Q5 Q6 Q7 Q8] Hh Hi. split; try done. intros fd a Ha. destruct (Q8 fd a Ha) as (Hha & x & Hx & Hc).
  rewrite Hh. split; [done|]. specialize (Hi a). rewrite Hx in Hi. inversion Hi as [? y Ht Hy|].
  destruct (adapters d' !! a) as [z|] eqn:Hz; simpl in *; [|done]. exists z. split; [done|].
  eapply conn_touched; [|done]. simplify_eq. congruence.
Qed.

Lemma status_touched p st d w d' :
  status_ok p st d w -> held d' = held d -> same_impls (adapters d) (adapters d') -> status_ok p st d' w.
Proof.
  intros Hs Hh Hi. destruct st; simpl in *; [done|..].
  - destruct Hs as (? & lfd & ? & ?). split; [done|]. exists lfd. split; [by eapply table_touched|done].
  - destruct Hs. split; [by eapply table_touched|done].
Qed.

(** Another poll's operation leaves its connections and descriptors alone. *)
Lemma table_local q s s' lfd lfd' :
  table_ok q (disp s) (world s) lfd' -> poll_ok s lfd -> local_change s s' ->
  SocketPoll.all_fds q ## SocketPoll.all_fds (base (obj s)) -> table_ok q (disp s') (world s') lfd'.
Proof.
  intros Hq Hp [Hh _ _ _ Ho _] Hdis. pose proof Hq as [Q1 Q2 Q3 Q4 Q5 Q6 Q7 Q8]. split; try done.
  - intros fd Hfd. apply Ho; [by apply Q6|]. set_solver.
  - intros fd a Ha. destruct (Q8 fd a Ha) as (Hha & x & Hx & Hc).
    assert (~ mine (base (obj s)) a) as Hm.
    { intros [fd' Hfd']. destruct (tb_conns _ _ _ _ Hp fd' a Hfd') as (_ & y & Hy & [Hf _]).
      destruct Hc as [Hf' _]. simplify_eq. apply (Hdis (SocketAdapter.socketfd (impl x))).
      - rewrite Q1. apply elem_of_union_r, elem_of_dom. by exists a.
      - rewrite (tb_fds _ _ _ _ Hp). apply elem_of_union_r, elem_of_dom. by exists a. }
    destruct (Hh a Hm Hha) as [? He]; [by exists x|]. split; [done|]. exists x. by rewrite He.
Qed.

Lemma status_local q st s s' lfd :
  status_ok q st (disp s) (world s) -> poll_ok s lfd -> local_change s s' ->
  fds_of q st ## SocketPoll.all_fds (base (obj s)) -> status_ok q st (disp s') (world s').
Proof.
  intros Hq Hp Hl Hd. destruct st; simpl in *; [done|..].
  - destruct Hq as (? & lfd' & ? & ?). split; [done|]. exists lfd'. split; [by eapply table_local|done].
  - destruct Hq. split; [by eapply table_local|done].
Qed.

Lemma fds_open p st d w : status_ok p st d w -> fds_of p st ⊆ open_fds w.
Proof.
  destruct st; simpl; [set_solver|intros (_ & ? & [] & _)|intros [[] _]]; done.
Qed.

(** ** One poll changed *)
Lemma service_update sv i p st p' st' l' d' w' :
  service_ok sv -> Service.polls sv !! i = Some (p, st) ->
  inv d' (todo_of l') -> loc_ok l' d' -> status_ok p' st' d' w' ->
  (forall j q st2, j <> i -> Service.polls sv !! j = Some (q, st2) ->
     status_ok q st2 d' w' /\ fds_of p' st' ## fds_of q st2) ->
  (forall a, a ∈ held d' -> mine (base p') a \/
     exists j q st2, j <> i /\ Service.polls sv !! j = Some (q, st2) /\ mine (base q) a) ->
  service_ok (Service.mk (<[i := (p', st')]> (Service.polls sv)) l' d' w').
Proof.
  intros [R1 R2 R3 R4 R5] Hi Hinv Hloc Hown Hoth Hheld. split; simpl; try done.
  - intros j q st2 [(<- & ? & _)|[Hne Hj]]%list_lookup_insert_Some; [by simplify_eq|].
    by apply (Hoth j q st2).
  - intros j k q st2 r st3 [(<- & ? & _)|[Hne Hj]]%list_lookup_insert_Some
      [(<- & ? & _)|[Hne' Hk]]%list_lookup_insert_Some Hjk; simplify_eq.
    + by apply (Hoth k r st3).
    + symmetry. by apply (Hoth j q st2).
    + by eapply R4.
  - intros a [Hm|(j & q & st2 & Hne & Hj & Hm)]%Hheld.
    + exists i, p', st'. split; [|done]. apply list_lookup_insert_eq. by eapply lookup_lt_Some.
    + exists j, q, st2. by rewrite list_lookup_insert_ne by done.
Qed.

(** A change of the poll [i] by an operation of its own. *)
Lemma service_local sv i p st lfd s' st' :
  let s := mkShared p (Service.sv_thread sv) (Service.sv_disp sv) (Service.sv_world sv) in
  service_ok sv -> Service.polls sv !! i = Some (p, st) -> st <> Idle -> poll_ok s lfd ->
  local_change s s' -> inv (disp s') (todo_of (thread s')) -> loc_ok (thread s') (disp s') ->
  status_ok (obj s') st' (disp s') (world s') ->
  service_ok (Service.mk (<[i := (obj s', st')]> (Service.polls sv)) (thread s') (disp s') (world s')).
Proof.
  intros s Hok Hi Hst Hp Hl Hinv Hloc Hown. pose proof Hok as [R1 R2 R3 R4 R5].
  assert (forall j q st2, j <> i -> Service.polls sv !! j = Some (q, st2) ->
    fds_of q st2 ## SocketPoll.all_fds (base p)) as Hdis.
  { intros j q st2 Hne Hj. pose proof (R4 j i q st2 p st Hj Hi Hne). by destruct st. }
  eapply service_update; try done.
  - intros j q st2 Hne Hj. specialize (Hdis j q st2 Hne Hj). specialize (R3 j q st2 Hj).
    split; [by eapply (status_local q st2 s s')|]. apply fds_open in R3.
    assert (fds_of (obj s') st' ⊆ SocketPoll.all_fds (base (obj s'))) by (destruct st'; simpl; set_solver).
    intros fd Hfd Hq. destruct (lc_fds _ _ Hl fd) as [?|?]; [set_solver|by apply (Hdis fd)|].
    by apply R3 in Hq.
  - intros a Ha. destruct (lc_new _ _ Hl a Ha) as [?|[Hh Hm]]; [by left|right].
    destruct (R5 a Hh) as (j & q & st2 & Hj & Hm'). exists j, q, st2. split; [|done].
    intros ->. rewrite Hi in Hj. simplify_eq.
Qed.

(** ** The steps *)

Definition own_label (lb : label (SocketAdapter.t os)) : Prop :=
  match lb with LLock | LHandle | LBatchDone | LClose => True | _ => False end.

Lemma own_label_frame l d lb l' d' :
  own_label lb -> exec (Running l d) lb = Some (Running l' d') ->
  held d' = held d /\ same_impls (adapters d) (adapters d').
Proof.
  intros Hlb Hex. destruct lb; simpl in *; try done.
  - assert (wlp loop_locked (fun _ d' => held d' = held d /\ same_impls (adapters d) (adapters d')) d) as Hw.
    { unfold loop_locked. wsteps. destruct (working d); cbn [negb]; wsteps; [|done]. case_bool_decide; wsteps; [|done].
      eapply wpx_mono; [apply stable_discard|]. intros [] d2 (_ & _ & Hh & _ & _ & Hi). wsteps.
      destruct (pending_calls d2); by wsteps. }
    destruct l; try done; unfold result in Hex;
      (destruct (loop_locked d) as [[l2 d2]|] eqn:Hd; [|done]); simplify_eq; by apply (wlp_done _ _ _ _ _ Hw Hd).
  - destruct l as [| |[|p todo]|]; try done. unfold result in Hex.
    destruct (handle_cmd p.1 p.2 d) as [[[] d2]|] eqn:Hd; simplify_eq.
    by destruct (wlp_done _ _ _ _ _ (stable_handle_cmd p.1 p.2 d) Hd) as (_ & _ & Hh & _ & _ & Hi).
  - destruct l as [| |[|]|]; by simplify_eq.
  - by simplify_eq.
Qed.

(** A poll's operation, seen from the dispatcher. *)
Lemma drives_ok (s s' : shared caps os W poll) :
  inv (disp s) (todo_of (thread s)) -> loc_ok (thread s) (disp s) -> drives s s' -> orderly_change s s' ->
  steps poll_step (Running (thread s) (disp s)) (Running (thread s') (disp s')) /\
  inv (disp s') (todo_of (thread s')) /\ loc_ok (thread s') (disp s').
Proof.
  intros Hi Hl (lbs & Hex & Ho) Hord. pose proof (polled_steps _ _ _ Hex (Ho Hord)) as Hst. split; [done|].
  change (sys_ok (Running (thread s') (disp s'))).
  eapply (steps_invariant step sys_ok); [|by apply poll_steps_steps|done]. intros ? ?. apply step_ok.
Qed.

(** A step of the service is a step of the dispatcher or some steps of a poll. *)
Definition disp_sys sv : DispatcherThread.sys caps (SocketAdapter.t os) :=
  Running (Service.sv_thread sv) (Service.sv_disp sv).

Definition moved sv sv' : Prop :=
  steps poll_step (disp_sys sv) (disp_sys sv') \/ step (disp_sys sv) (disp_sys sv').

Lemma moved_steps sv sv' : moved sv sv' -> steps step (disp_sys sv) (disp_sys sv').
Proof. intros [?|?]; [by apply poll_steps_steps|by eapply steps_step; [|constructor]]. Qed.

(** What one step of the service keeps, and what it is to the dispatcher. *)
Definition good sv (st' : Service.sys caps os W) : Prop :=
  exists sv', st' = Service.Up sv' /\ service_ok sv' /\ moved sv sv'.

Lemma disp_step_ok sv lb st' :
  service_ok sv -> Service.exec sv (Service.SDisp lb) = Some st' ->
  Service.orderly sv (Service.SDisp lb) st' -> good sv st'.
Proof.
  intros Hok Hex Hord. pose proof Hok as [R1 R2 R3 R4 R5]. simpl in *.
  assert (own_label lb /\ match exec (Running (Service.sv_thread sv) (Service.sv_disp sv)) lb with
    | Some (Running l d) => Some (Service.Up (Service.mk (Service.polls sv) l d (Service.sv_world sv)))
    | Some (Crashed u) => Some (Service.Down u) | None => None end = Some st') as [Hown Hex']
    by by destruct lb.
  clear Hex. destruct (exec _ lb) as [st|] eqn:He; [|done].
  assert (step (Running (Service.sv_thread sv) (Service.sv_disp sv)) st) as Hstep by by exists lb.
  assert (sys_ok st) as Hsys by (eapply step_ok; [|exact Hstep]; done).
  destruct st as [l d|]; [|done]. simplify_eq. destruct (own_label_frame _ _ _ _ _ Hown He) as [Hh Hi].
  eexists. split; [done|]. simpl. split; [|by right].
  destruct Hsys. split; simpl; try done.
  - intros i p st Hp. eapply status_touched; eauto.
  - rewrite Hh. done.
Qed.

(** The orderliness asked of a poll's step. *)
Definition orderly_poll sv (st' : Service.sys caps os W) : Prop :=
  match st' with
  | Service.Up sv' => forall a, a ∈ held (Service.sv_disp sv) -> a ∉ held (Service.sv_disp sv') ->
      (info <$> adapters (Service.sv_disp sv') !! a) = Some None ->
      a ∉ (todo_of (Service.sv_thread sv') ++ cmd_packets (Service.sv_disp sv')).*2
  | Service.Down _ => True
  end.

(** Any operation of a running poll's own. *)
Lemma own_step_ok {A} sv i p st lfd (m : M (shared caps os W poll) A) (f : A -> status) :
  let s := mkShared p (Service.sv_thread sv) (Service.sv_disp sv) (Service.sv_world sv) in
  service_ok sv -> Service.polls sv !! i = Some (p, st) -> st <> Idle -> poll_ok s lfd ->
  wp m (fun r s' => local_change s s' /\ drives s s' /\ status_ok (obj s') (f r) (disp s') (world s')) s ->
  orderly_poll sv (Service.on_poll i p m f sv) -> good sv (Service.on_poll i p m f sv).
Proof.
  intros s Hok Hi Hne Hp Hw Hord. unfold Service.on_poll in *. fold s in Hord |- *.
  destruct (wp_done _ _ _ Hw) as (r & s' & Hr & Hlc & Hd & Hst). rewrite Hr in *. simpl in Hord.
  destruct (drives_ok s s' (so_inv _ Hok) (so_loc _ Hok) Hd Hord) as (Hsteps & Hinv & Hloc).
  eexists. split; [done|]. split; [|by left]. by eapply service_local.
Qed.

Lemma run_ok sv i st' :
  service_ok sv -> Service.exec sv (Service.SRun i) = Some st' -> orderly_poll sv st' -> good sv st'.
Proof.
  intros Hok Hex Hord. simpl in Hex. destruct (Service.polls sv !! i) as [[p st]|] eqn:Hi; [|done].
  pose proof (so_polls _ Hok i p st Hi) as Hst. destruct st as [|l|fd l]; simplify_eq.
  - destruct Hst as (Hs & lfd & Ht & Hl & Hlfd). apply (own_step_ok sv i p (On l) lfd); try done.
    eapply wpx_mono; [by apply (thread_step_ok _ lfd)|].
    intros l' s' (Hp' & Hlc & Hd & Hl' & [Hk1 Hk2]). split_and!; try done. simpl in *.
    split; [congruence|]. exists lfd. split_and!; try done. congruence.
  - destruct Hst as (Ht & Hl). apply (own_step_ok sv i p (Joining fd l) fd); try done.
    eapply wpx_mono; [by apply (thread_step_ok _ fd)|]. by intros l' s' (Hp' & Hlc & Hd & Hl' & _).
Qed.

Lemma at_place_listen p fd lfd l :
  at_place p lfd l -> at_place (set_base (SocketPoll.set_listen_fd fd (base p)) p) lfd l.
Proof. destruct p as [q|q], l; simpl; done || by intros [[]]. Qed.

Lemma stop_ok sv i st' :
  service_ok sv -> Service.exec sv (Service.SStop i) = Some st' -> orderly_poll sv st' -> good sv st'.
Proof.
  intros Hok Hex Hord. simpl in Hex. destruct (Service.polls sv !! i) as [[p st]|] eqn:Hi; [|done].
  pose proof (so_polls _ Hok i p st Hi) as Hst. destruct st as [|l|fd l]; simplify_eq.
  destruct Hst as (Hs & lfd & Ht & Hl & Hlfd). apply (own_step_ok sv i p (On l) lfd); try done.
  eapply wpx_mono; [by apply (stop_begin_ok _ lfd)|].
  intros r s' (-> & Hp' & Hobj & Hlc & Hq). split_and!; [done|by apply drives_quiet|]. simpl in *.
  rewrite Hlfd. split; [done|]. rewrite Hobj. by apply at_place_listen.
Qed.

(** After the join the listening socket is closed and the poll is idle. *)
Lemma join_ok sv i st' :
  service_ok sv -> Service.exec sv (Service.SJoin i) = Some st' -> orderly_poll sv st' -> good sv st'.
Proof.
  intros Hok Hex Hord. simpl in Hex. destruct (Service.polls sv !! i) as [[p st]|] eqn:Hi; [|done].
  pose proof (so_polls _ Hok i p st Hi) as Hst. destruct st as [|l|fd [| | |]]; simplify_eq.
  destruct Hst as (Ht & Hl). apply (own_step_ok sv i p (Joining fd Quit) fd); try done.
  unfold stop_end, sys_, upd_this. wsteps. simpl.
  assert (SocketPoll.adapters (base p) = ∅) as Had by by destruct p.
  split_and!.
  - pose proof (lc_new _ _ (reflexivity (R:=local_change)
      (mkShared p (Service.sv_thread sv) (Service.sv_disp sv) (Service.sv_world sv)))) as Hnew.
    pose proof (tb_fds _ _ _ _ Ht) as Hf.
    destruct p as [q|q]; simpl in *; split; simpl; auto; rewrite close_fds; set_solver.
  - by apply drives_quiet, quiet_same.
  - by destruct p.
Qed.

Lemma status_world q st d w w' :
  open_fds w ⊆ open_fds w' -> status_ok q st d w -> status_ok q st d w'.
Proof.
  intros Hw Hq. assert (forall lfd, table_ok (base q) d w lfd -> table_ok (base q) d w' lfd) as Ht.
  { intros lfd [Q1 Q2 Q3 Q4 Q5 Q6 Q7 Q8]. split; try done. by etrans. }
  destruct st; simpl in *; [done| |naive_solver].
  destruct Hq as (? & lfd & ? & ?). split; [done|]. exists lfd. auto.
Qed.

Lemma start_poll_ok sv i st' :
  service_ok sv -> Service.exec sv (Service.SStart i) = Some st' ->
  Service.orderly sv (Service.SStart i) st' -> good sv st'.
Proof.
  intros Hok Hex Hord. pose proof Hok as [R1 R2 R3 R4 R5]. simpl in *.
  destruct (Service.polls sv !! i) as [[p st]|] eqn:Hi; [|done].
  pose proof (R3 i p st Hi) as Hst. destruct st; simplify_eq. destruct Hord as [Hname Hbeep].
  unfold Service.on_poll. set (s := mkShared p _ _ _).
  assert (HEADER_SIZE <= buf_size (disp s) < two32) as Hb.
  { destruct (wf_buf _ (inv_wf _ _ R1)). simpl. unfold HEADER_SIZE, DEFAULT_MSG_BUF_SIZE in *. lia. }
  destruct (wp_done _ _ _ (poll_start_ok s Hst Hname Hb)) as (r & s' & -> & Ht & Hd & Hr).
  simpl in Ht, Hd. eexists. split; [done|]. unfold moved, disp_sys. simpl. rewrite Ht, Hd.
  split; [|left; constructor].
  destruct Hr as [(-> & Hs & [q Hq] & lfd & Hp & Hn & Hw & Hl & Hf)|(-> & Hobj & Hw)].
  - rewrite bool_decide_true by done. eapply service_update; try done.
    + split; [done|]. exists lfd. unfold poll_ok in Hp. rewrite Hd in Hp. split_and!; try done.
      rewrite Hq. destruct p as [p|b]; simpl in *; [done|]. split; simpl; rewrite Hbeep; [constructor|].
      intros a Ha. by apply elem_of_nil in Ha.
    + intros j q' st2 _ Hj. specialize (R3 j q' st2 Hj). simpl in Hw.
      split; [eapply status_world; [|done]; rewrite Hw; set_solver|].
      apply fds_open in R3. unfold fds_of at 1. rewrite Hf. simpl in Hn. set_solver.
    + intros a Ha. right. destruct (R5 a Ha) as (j & q' & st2 & Hj & Hm). exists j, q', st2. split; [|done].
      intros ->. rewrite Hi in Hj. simplify_eq. destruct Hm as [fd Hfd]. destruct Hst as [_ He]. simpl in *. by rewrite He in Hfd.
  - rewrite bool_decide_false by (vm_compute; done). rewrite Hobj. simpl in Hw |- *.
    rewrite list_insert_id by done. split; simpl; try done.
    intros j q st2 Hj. eapply status_world; [|by eapply R3]. by rewrite Hw.
Qed.

Lemma service_step_ok sv st' : service_ok sv -> Service.step (Service.Up sv) st' -> good sv st'.
Proof.
  intros Hok (lb & Hex & Hord). destruct lb.
  - by eapply disp_step_ok.
  - by eapply run_ok.
  - by eapply start_poll_ok.
  - by eapply stop_ok.
  - by eapply join_ok.
Qed.

Lemma service_start_ok flags bufsize ps w sv :
  is_u32 bufsize -> Forall (fun p => idle (base p)) ps ->
  Service.start flags bufsize ps w = Service.Up sv -> service_ok sv.
Proof.
  intros Hb Hps Hsv. unfold Service.start in Hsv. simplify_eq.
  destruct (DispLoop.start_ok (S:=SocketAdapter.t os) (caps:=caps) flags bufsize Hb) as [Hinv Hloc].
  split; simpl; try done.
  - intros i p st Hi. rewrite list_lookup_fmap in Hi. destruct (ps !! i) as [q|] eqn:Hq; simplify_eq/=.
    rewrite Forall_lookup in Hps. by eapply Hps.
  - intros i j p st q st' Hi Hj _. rewrite list_lookup_fmap in Hi, Hj.
    destruct (ps !! i), (ps !! j); by simplify_eq/=.
Qed.

(** Every reachable state is good, and it is a reachable state of the dispatcher. *)
Lemma service_reachable flags bufsize ps w st :
  is_u32 bufsize -> Forall (fun p => idle (base p)) ps ->
  steps Service.step (Service.start flags bufsize ps w) st ->
  exists sv, st = Service.Up sv /\ service_ok sv /\
    steps step (DispatcherThread.start flags bufsize) (Running (Service.sv_thread sv) (Service.sv_disp sv)).
Proof.
  intros Hb Hps Hst. pattern st.
  eapply (steps_invariant Service.step); [|exact Hst|].
  - intros s1 s2 (sv & -> & Hok & Hs) Hstep.
    destruct (service_step_ok sv s2 Hok Hstep) as (sv' & -> & Hok' & Hs'). exists sv'. split_and!; try done.
    eapply steps_trans; [exact Hs|by apply moved_steps].
  - eexists. split; [done|]. split; [by eapply service_start_ok|constructor].
Qed.

End Safe.
