(* ===== verification/PollApi.v ===== *)
(** * Making polls ([src/poll.cc], [include/flora-svc.h])

    The two ways to a poll: [Poll::new_instance] of the C++ interface and
    [flora_poll_new] of the C interface, with the C functions on handles. A handle
    is the address of the object; null is [None]. *)
From S2P Require Import Prelude Defs Uri Caps Adap SockAdap Reader SerHelper Disp.
From S2P Require Import DispLoop SockPoll SockPollSpec PollRun BeepPoll BeepPollSpec Service.
Import PollThread.

Module PollApi.
Section Ops.
Context `{!UriParser}.

(** [Poll::new_instance]; [None] is [nullptr]. *)
Definition new_instance (uri : string) : option poll :=
  match uri_parse uri with
  | None => None
  | Some urip =>
      if bool_decide (scheme urip = "unix") then Some (Sock (SocketPoll.new_unix (path urip)))
      else if bool_decide (scheme urip = "tcp") then Some (Beep (BeepSocketPoll.new (host urip) (Uri.port urip)))
      else None
  end.

(** [flora_poll_new(uri, result)]; [result] says whether the pointer is not null. *)
Definition flora_poll_new (uri : string) (result : bool) : Z * option poll :=
  if negb result then (FLORA_POLL_INVAL, None)
  else
    match uri_parse uri with
    | None => (FLORA_POLL_INVAL, None)
    | Some urip =>
        if bool_decide (scheme urip = "unix") then
          (FLORA_POLL_SUCCESS, Some (Sock (SocketPoll.new_unix (path urip))))
        else if bool_decide (scheme urip = "tcp") then
          (FLORA_POLL_SUCCESS, Some (Sock (SocketPoll.new_tcp (host urip) (Uri.port urip))))
        else (FLORA_POLL_UNSUPP, None)
    end.
End Ops.

Section Handles.
Context {caps : Type} `{!CapsOps caps, !CapsFlags} {os : Type} `{!SockOS os, !SteadyClock}.
Context {W : Type} `{!PollOS os W}.

(** [flora_poll_start]; [handle] and [dispatcher] say whether they are not 0. *)
Definition flora_poll_start (handle dispatcher : bool) : M (shared caps os W poll) Z :=
  if negb handle || negb dispatcher then mret FLORA_POLL_INVAL else PollThread.start.

(** [flora_poll_stop] up to the join; [None] when there is nothing to wait for. *)
Definition flora_poll_stop (handle : bool) : M (shared caps os W poll) (option Z) :=
  if handle then stop_begin else mret None.

(** [Dispatcher::new_instance] and [flora_dispatcher_new]. *)
Definition flora_dispatcher_new (flags bufsize : Z) : Disp caps (SocketAdapter.t os) :=
  Dispatcher.new flags bufsize.

(** [flora_dispatcher_run], up to the start of the thread, and [flora_dispatcher_close]. *)
Definition flora_dispatcher_run (handle : bool) (d : Disp caps (SocketAdapter.t os)) :=
  if handle then DispatcherThread.run_disp d else d.
Definition flora_dispatcher_close (handle : bool) (d : Disp caps (SocketAdapter.t os)) :=
  if handle then DispatcherThread.close_disp d else d.
End Handles.
End PollApi.

Section Spec.
Context `{!UriParser}.

(** A poll made from a URI is ready to start: it is of the class of the scheme,
    idle, with no listening descriptor, no connection and, for tcp by
    [Poll::new_instance], the default keepalive timeout of 60000 ms; anything but
    "unix" and "tcp" is refused, by the C interface with [FLORA_POLL_UNSUPP], and so
    is a URI that does not parse, with [FLORA_POLL_INVAL]. The two interfaces give
    the same poll exactly when the scheme is not "tcp". *)
Theorem new_poll_exact uri :
  match uri_parse uri with
  | None => PollApi.new_instance uri = None /\ PollApi.flora_poll_new uri true = (FLORA_POLL_INVAL, None)
  | Some u =>
      match PollApi.new_instance uri, PollApi.flora_poll_new uri true with
      | Some p, (r, Some q) =>
          r = FLORA_POLL_SUCCESS /\ (scheme u = "unix" \/ scheme u = "tcp") /\
          idle (base p) /\ idle (base q) /\ base p = base q /\
          SocketPoll.listen_fd (base p) = -1 /\
          (p = q <-> scheme u = "unix") /\
          (scheme u = "tcp" -> exists b, p = Beep b /\ BeepSocketPoll.beep_timeout b = 60000 /\
             BeepSocketPoll.active_adapters b = [])
      | None, (r, None) => r = FLORA_POLL_UNSUPP /\ scheme u <> "unix" /\ scheme u <> "tcp"
      | _, _ => False
      end
  end.
Proof.
  unfold PollApi.new_instance, PollApi.flora_poll_new. simpl.
  destruct (uri_parse uri) as [u|]; [|done].
  case_bool_decide as Hu; [|case_bool_decide as Ht]; split_and!; try done; auto.
  all: try congruence. intros _. eexists. by split_and!.
Qed.
End Spec.
