(* ===== verification/Scenario.v ===== *)
(** * Runs of the dispatcher on concrete messages

    Orderly runs can be evaluated: [exec_orderly] executes labels while they are
    orderly. The states it reaches satisfy the invariant, so the theorems about
    the handlers apply to them; the lemmas at the end of this file do so. *)
From S2P Require Import Prelude Defs Caps RefCaps Adap Framing SockAdap Reader SerHelper.
From S2P Require Import RefSock Disp DispFrame DispInv DispOps DispSafe DispSpec DispCalls.
From S2P Require Import DispAuth DispLoop.
Import Dispatcher DispatcherThread.

Section Exec.
Context {caps : Type} `{!CapsOps caps, !CapsFlags} {S : Type} `{!AdapterImpl S, !SteadyClock}.

Definition packet_okb (s : Disp caps S) (p : CmdPacket caps) : bool :=
  match p with
  | (None, _) => true
  | (Some c, a) =>
      match caps_read_i32 c with
      | (Some cmd, _) =>
          bool_decide (0 <= cmd) &&
          (negb (bool_decide (cmd = CMD_AUTH_REQ)) ||
           bool_decide ((info <$> adapters s !! a) = Some None)) &&
          (negb (bool_decide (cmd = CMD_CALL_REQ)) || bool_decide (reqseq s + 1 < two31))
      | (None, _) => true
      end
  end.

Definition orderlyb (st : sys caps S) (lb : label S) : bool :=
  match st, lb with
  | Running (Handling (p :: _)) s, LHandle => packet_okb s p
  | Running l s, LDelete a =>
      negb (bool_decide ((info <$> adapters s !! a) = Some None)) ||
      bool_decide (a ∉ (todo_of l ++ cmd_packets s).*2)
  | _, _ => true
  end.

Lemma packet_okb_spec s p : packet_okb s p = true -> packet_ok s p.
Proof.
  destruct p as [[c|] a]; simpl; [|done]. intros Hb cmd c' Hr. rewrite Hr in Hb.
  apply andb_true_iff in Hb as [[Hpos Ha]%andb_true_iff Hn]. apply bool_decide_eq_true in Hpos.
  rewrite !orb_true_iff, negb_true_iff, bool_decide_eq_false, bool_decide_eq_true in *. tauto.
Qed.

Lemma orderlyb_spec st lb : orderlyb st lb = true -> orderly st lb.
Proof.
  destruct st as [l s|]; [|done]. destruct lb; simpl; try (by destruct l as [| |[|]|]).
  - destruct l as [| |[|p ?]|]; try done. apply packet_okb_spec.
  - intros Hb. assert ((info <$> adapters s !! a) = Some None -> a ∉ (todo_of l ++ cmd_packets s).*2) as Hg.
    { intros Hx. destruct l as [| |[|]|]; rewrite (bool_decide_true ((info <$> _) = _)) in Hb by done;
        by apply bool_decide_eq_true in Hb. }
    by destruct l as [| |[|]|].
Qed.

Fixpoint exec_orderly (st : sys caps S) (lbs : list (label S)) : option (sys caps S) :=
  match lbs with
  | [] => Some st
  | lb :: lbs =>
      if orderlyb st lb then
        match exec st lb with Some st' => exec_orderly st' lbs | None => None end
      else None
  end.

Lemma exec_orderly_steps lbs : forall st st', exec_orderly st lbs = Some st' -> steps step st st'.
Proof.
  induction lbs as [|lb lbs IH]; intros st st' Hex; simpl in Hex; simplify_eq; [constructor|].
  destruct (orderlyb st lb) eqn:Ho; [|done]. destruct (exec st lb) as [st1|] eqn:He; [|done].
  econstructor; [|by apply IH]. exists lb. split; [done|]. by apply orderlyb_spec.
Qed.

(** The command about to be handled in a state. *)
Record scene := mkScene {
  sc_packet : CmdPacket caps;
  sc_todo : list (CmdPacket caps);
  sc_state : Disp caps S
}.

Definition scene_of (flags : Z) (lbs : list (label S)) : option scene :=
  match exec_orderly (start flags 0) lbs with
  | Some (Running (Handling (p :: todo)) s) => Some (mkScene p todo s)
  | _ => None
  end.

Context `{!CapsLaws caps, !CapsSmall caps}.

Lemma scene_inv flags lbs sc :
  scene_of flags lbs = Some sc -> inv (sc_state sc) (sc_packet sc :: sc_todo sc).
Proof.
  unfold scene_of. destruct (exec_orderly _ lbs) as [[[| |[|p todo]|] s|]|] eqn:He; try done.
  intros [= <-]. simpl. apply exec_orderly_steps in He.
  apply reachable_ok in He as [Hi _]; [done|]. by unfold is_u32, two32.
Qed.
End Exec.
Arguments scene caps S : clear implicits.

(** ** A cast and its messages *)
Abbreviation conn := (SocketAdapter.t rsock).
Abbreviation rdisp := (Disp rcaps conn).

Definition alice : aid := 1%positive.
Definition bob : aid := 2%positive.
Definition carol : aid := 3%positive.

Definition frame (o : option bytes) : bytes := default [] o.
Definition f_auth name flags := frame (RequestSerializer.serialize_auth 4 name 77 flags 4096 0).
Definition f_subscribe name := frame (RequestSerializer.serialize_subscribe name 4096 0).
Definition f_unsubscribe name := frame (RequestSerializer.serialize_unsubscribe name 4096 0).
Definition f_declare name := frame (RequestSerializer.serialize_declare_method name 4096 0).
Definition payload : rcaps := mkRcaps [CStr "payload"] [CStr "payload"].
Definition f_post name type := frame (RequestSerializer.serialize_post name type (Some payload) 4096 0).
Definition f_call name target id timeout :=
  frame (RequestSerializer.serialize_call name (Some payload) target id timeout 4096 0).
Definition f_reply id code :=
  frame (RequestSerializer.serialize_reply id code (Some payload) 4096 0).
Definition f_ping := frame (RequestSerializer.serialize_ping (caps:=rcaps) 4096 0).

(** Puts the frames, takes them as a batch and handles all but the last. *)
Definition batch (ps : list (aid * bytes)) : list (label conn) :=
  ((fun p => LPut p.1 p.2) <$> ps) ++ [LLock] ++ replicate (length ps - 1) LHandle.

(** The same, with the last handled too. *)
Definition whole (ps : list (aid * bytes)) : list (label conn) :=
  batch ps ++ [LHandle; LBatchDone].

(** Three connections; the second uses the network byte order. *)
Definition arrivals : list (label conn) :=
  [LAccept alice (connection 4 0 quiet); LAccept bob (connection 5 128 quiet);
   LAccept carol (connection 6 0 quiet)].

(** Alice and Bob have registered. *)
Definition registered : list (label conn) :=
  arrivals ++ whole [(alice, f_auth "alice" 0); (bob, f_auth "bob" 0)].

Definition nothing : scene rcaps conn := mkScene (None, alice) [] (new 0 0).
Definition scene_at (flags : Z) (lbs : list (label conn)) : scene rcaps conn :=
  default nothing (scene_of flags lbs).

(** The message of the command, before and after its number is read. *)
Definition sc_caps (sc : scene rcaps conn) : rcaps := default caps_new (sc_packet sc).1.
Definition sc_body (sc : scene rcaps conn) : rcaps := (caps_read_i32 (sc_caps sc)).2.

Definition adapter_at (s : rdisp) (a : aid) : Adapter conn :=
  default (connection 0 0 quiet) (adapters s !! a).
Definition info_at (s : rdisp) (a : aid) : AdapterInfo :=
  default (mkAdapterInfo 0 0 EmptyString ∅ 0) (info_of s a).

Lemma adapter_at_some (s : rdisp) a : is_Some (adapters s !! a) -> adapters s !! a = Some (adapter_at s a).
Proof. unfold adapter_at. by intros [x ->]. Qed.

(** A scene that was reached and is a command of [a]. *)
Definition scene_ok (flags : Z) (lbs : list (label conn)) (a : aid) : bool :=
  match scene_of flags lbs with
  | Some sc => match sc_packet sc with (Some _, b) => bool_decide (a = b) | _ => false end
  | None => false
  end.

Lemma scene_at_inv flags lbs a :
  scene_ok flags lbs a = true ->
  let sc := scene_at flags lbs in inv (sc_state sc) ((Some (sc_caps sc), a) :: sc_todo sc).
Proof.
  unfold scene_ok, scene_at, sc_caps. destruct (scene_of flags lbs) as [sc|] eqn:Hsc; [|done].
  apply scene_inv in Hsc. simpl. destruct (sc_packet sc) as [[c|] b]; [|done]. simpl.
  intros ->%bool_decide_eq_true. done.
Qed.

(** ** The theorems at concrete inputs *)

Definition post_scene := scene_at 0 (registered ++ batch [(bob, f_subscribe "news"); (alice, f_post "news" 1)]).

Lemma post_delivers_witness :
  let s := sc_state post_scene in
  recipients s "news" = [bob] /\
  exists m, delivered (recipients s "news")
      (post_to (buf_size s) "news" 1 (Some payload) (tag (adapter_at s alice)) "alice") (adapters s) m /\
    handle_post_req (sc_body post_scene) alice s =
      Done (true, set_persist_msgs (persisted 1 "news" (Some payload) (persist_msgs s))
                    (set_subscriptions (prune s "news") (set_adapters m s))).
Proof.
  split; [vm_compute; reflexivity|].
  apply (post_delivers (sc_caps post_scene) alice (sc_todo post_scene) _ _ _ (info_at (sc_state post_scene) alice)).
  - apply scene_at_inv. vm_compute. reflexivity.
  - vm_compute. reflexivity.
  - vm_compute. reflexivity.
  - vm_compute. reflexivity.
  - discriminate.
  - reflexivity.
Defined.

(** Closes the side conditions of an application at a scene. *)
Ltac scene_tac :=
  lazymatch goal with
  | |- inv _ _ => apply scene_at_inv; vm_compute; reflexivity
  | |- _ <> _ => vm_compute; discriminate
  | |- not _ => vm_compute; discriminate
  | |- _ => vm_compute; reflexivity
  end.

(** Bob's auth request, with Alice registered. *)
Definition auth_scene := scene_at 0
  (arrivals ++ batch [(alice, f_auth "alice" 0); (bob, f_auth "bob" 0)]).

Lemma handle_cmd_safe_witness :
  exists s', handle_cmd (Some (sc_caps auth_scene)) bob (sc_state auth_scene) = Done (tt, s') /\
    inv s' (sc_todo auth_scene).
Proof.
  apply (handle_cmd_safe (sc_state auth_scene) (Some (sc_caps auth_scene), bob)).
  - scene_tac.
  - apply packet_okb_spec. vm_compute. reflexivity.
Defined.

Lemma auth_accepted_witness :
  exists s', handle_auth_req (sc_body auth_scene) bob (sc_state auth_scene) = Done (true, s') /\
    info_of s' bob = Some (new_entry (sc_state auth_scene) "bob" 77 0) /\
    named_adapters s' !! "bob" = Some bob.
Proof.
  destruct (auth_accepted (sc_caps auth_scene) bob (sc_todo auth_scene) (sc_state auth_scene)
    (sc_body auth_scene) 4 "bob" 77 0) as (s' & Hd & _ & Hinf & _ & Hn & _); [scene_tac..|].
  exists s'. split; [exact Hd|]. split; [exact Hinf|]. rewrite Hn. apply lookup_insert_eq.
Defined.

(** Carol asks for Alice's name. *)
Definition dup_scene := scene_at 0 (registered ++ batch [(carol, f_auth "alice" 0)]).

Lemma auth_refused_witness :
  let s := sc_state dup_scene in
  let code := auth_code s 4 "alice" 0 in
  code = FLORA_CLI_EDUPID /\
  exists b, ResponseSerializer.serialize_auth code FLORA_VERSION (buf_size s)
      (serialize_flags (adapter_at s carol)) = Some b /\
    handle_auth_req (sc_body dup_scene) carol s =
      Done (false, set_adapters
        (alter (fun y => receive (Some b) (tagged 4 77 y)) carol (adapters s)) s).
Proof.
  split; [vm_compute; reflexivity|].
  apply (auth_refused (sc_caps dup_scene) carol (sc_todo dup_scene) (sc_state dup_scene)
    (sc_body dup_scene) (adapter_at (sc_state dup_scene) carol) 4 "alice" 77 0); scene_tac.
Defined.

Definition subscribe_scene := scene_at 0
  (registered ++ batch [(alice, f_post "news" 1); (bob, f_subscribe "news")]).

Lemma subscribe_exact_witness :
  let s := sc_state subscribe_scene in
  let l := subscribers s "news" in
  persist_msgs s !! "news" = Some (Some payload) /\ l = [] /\
  handle_subscribe_req (sc_body subscribe_scene) bob s =
    Done (true,
      if bool_decide (bob ∈ l) then set_subscriptions (<["news" := l]> (subscriptions s)) s
      else set_adapters (alter (greeting s "news") bob (adapters s))
             (set_subscriptions (<["news" := l ++ [bob]]> (subscriptions s)) s)).
Proof.
  split; [vm_compute; reflexivity|]. split; [vm_compute; reflexivity|].
  apply (subscribe_exact (sc_caps subscribe_scene) bob (sc_todo subscribe_scene)
    (sc_state subscribe_scene) (sc_body subscribe_scene) (info_at (sc_state subscribe_scene) bob) "news");
    scene_tac.
Defined.

Definition unsubscribe_scene := scene_at 0
  (registered ++ batch [(bob, f_subscribe "news"); (alice, f_subscribe "news");
                        (bob, f_unsubscribe "news")]).

Lemma unsubscribe_exact_witness :
  exists s', handle_unsubscribe_req (sc_body unsubscribe_scene) bob (sc_state unsubscribe_scene) =
      Done (true, s') /\
    (bob ∉ subscribers s' "news") /\ alice ∈ subscribers s' "news".
Proof.
  destruct (unsubscribe_exact (sc_caps unsubscribe_scene) bob (sc_todo unsubscribe_scene)
    (sc_state unsubscribe_scene) (sc_body unsubscribe_scene)
    (info_at (sc_state unsubscribe_scene) bob) "news") as (s' & Hd & _ & Hb & Ha & _); [scene_tac..|].
  exists s'. split; [exact Hd|]. split; [exact Hb|]. apply Ha; [discriminate|scene_tac|].
  replace (subscribers (sc_state unsubscribe_scene) "news") with [bob; alice] by scene_tac.
  apply elem_of_cons. right. apply elem_of_cons. by left.
Defined.

Definition declare_scene := scene_at 0 (registered ++ batch [(bob, f_declare "add")]).

Lemma methods_exact_witness :
  let s := sc_state declare_scene in
  has_method "add" (info_at s bob) = false /\
  handle_declare_method (sc_body declare_scene) bob s =
    Done (negb (has_method "add" (info_at s bob)),
          set_info_of s bob (declare_method "add" (info_at s bob)).2).
Proof.
  split; [vm_compute; reflexivity|].
  destruct (methods_exact (sc_caps declare_scene) bob (sc_todo declare_scene) (sc_state declare_scene)
    (sc_body declare_scene) (info_at (sc_state declare_scene) bob) "add") as [Hd _]; [scene_tac..|].
  apply Hd. scene_tac.
Defined.

(** Bob has declared a method and Alice calls him. *)
Definition callable := registered ++ whole [(bob, f_declare "add")].
Definition call_scene := scene_at 0 (callable ++ batch [(alice, f_call "add" "bob" 9 500)]).
Definition lost_scene := scene_at 0 (callable ++ batch [(alice, f_call "sub" "bob" 9 500)]).

Lemma call_unroutable_witness :
  let s := sc_state lost_scene in
  exists b,
    ResponseSerializer.serialize_reply 9 FLORA_CLI_ENEXISTS None 0 (buf_size s)
      (serialize_flags (adapter_at s alice)) = Done (Some b) /\
    handle_call_req (sc_body lost_scene) alice s =
      Done (true, set_adapters (alter (receive (Some b)) alice (adapters s)) s).
Proof.
  apply (call_unroutable (sc_caps lost_scene) alice (sc_todo lost_scene) (sc_state lost_scene)
    (sc_body lost_scene) (adapter_at (sc_state lost_scene) alice)
    (info_at (sc_state lost_scene) alice) "sub" (Some payload) "bob" 9 500); scene_tac.
Defined.

Lemma call_forwarded_witness :
  let s := sc_state call_scene in
  let x := adapter_at s alice in
  let pc := call_record alice s 9 500 bob in
  svrid pc = 1 /\
  exists calls, recorded pc (pending_calls s) calls /\
    handle_cmd (Some (sc_caps call_scene)) alice s = Done (tt, stamp
      (set_adapters
        (match ResponseSerializer.serialize_call "add" (Some payload) (svrid pc) (tag x)
                 (c_str (ai_name (info_at s alice))) (buf_size s) (serialize_flags (adapter_at s bob)) with
         | Some b => alter (receive (Some b)) bob (adapters s)
         | None => alter close_conn alice (adapters s)
         end)
        (set_pending_calls calls (set_ticks (Datatypes.S (ticks s)) (set_reqseq (reqseq s + 1) s))))).
Proof.
  split; [vm_compute; reflexivity|].
  apply (call_forwarded (sc_caps call_scene) alice (sc_todo call_scene) (sc_state call_scene)
    (sc_body call_scene) (adapter_at (sc_state call_scene) alice) (adapter_at (sc_state call_scene) bob)
    (info_at (sc_state call_scene) alice) "add" (Some payload) "bob" 9 500 bob);
    [scene_tac|split_and!; scene_tac|scene_tac..].
Defined.

(** Bob answers Alice's call, and Carol tries to. *)
Definition called := callable ++ whole [(alice, f_call "add" "bob" 9 500)].
Definition reply_scene := scene_at 0 (called ++ batch [(bob, f_reply 1 7)]).
Definition forged_scene := scene_at 0
  (called ++ whole [(carol, f_auth "carol" 0)] ++ batch [(carol, f_reply 1 7)]).

Definition the_call (s : rdisp) : PendingCall := default (mkPendingCall 0 0 alice alice 0) (head (pending_calls s)).
Definition reply_bytes (s : rdisp) : bytes :=
  match reply_message (buf_size s) (serialize_flags (adapter_at s alice)) 9 (tag (adapter_at s bob)) 7
          (Some payload) (ai_name (info_at s bob)) with
  | Done (Some b) => b
  | _ => []
  end.

Lemma reply_routed_witness :
  let s := sc_state reply_scene in
  handle_reply_req (sc_body reply_scene) bob s =
    Done (true, set_pending_calls []
      (set_adapters (alter (receive (Some (reply_bytes s))) (pc_sender (the_call s)) (adapters s)) s)).
Proof.
  destruct (reply_routed (sc_caps reply_scene) bob (sc_todo reply_scene) (sc_state reply_scene)
    (sc_body reply_scene) (adapter_at (sc_state reply_scene) bob)
    (info_at (sc_state reply_scene) bob) 1 7 (Some payload)) as [Hm _]; [scene_tac..|].
  apply (Hm [] (the_call (sc_state reply_scene)) [] (adapter_at (sc_state reply_scene) alice)
    (reply_bytes (sc_state reply_scene))); [scene_tac|scene_tac|scene_tac|constructor|scene_tac..].
Defined.

Lemma forged_ignored :
  handle_reply_req (sc_body forged_scene) carol (sc_state forged_scene) =
    Done (true, sc_state forged_scene).
Proof.
  apply (handle_reply_ignored (sc_caps forged_scene) carol (sc_todo forged_scene) (sc_state forged_scene)
    (sc_body forged_scene) (adapter_at (sc_state forged_scene) carol)
    (info_at (sc_state forged_scene) carol) 1 7 (Some payload)); [scene_tac..|].
  replace (pending_calls (sc_state forged_scene)) with [the_call (sc_state forged_scene)] by scene_tac.
  intros pc ->%list_elem_of_singleton _ Ht. exfalso. vm_compute in Ht. discriminate Ht.
Defined.

(** The state before the call of [call_scene], and the reply that follows it. *)
Lemma call_reply_roundtrip_witness :
  let s2 := sc_state reply_scene in
  handle_reply_req (sc_body reply_scene) bob s2 =
    Done (true, set_pending_calls (pending_calls (sc_state call_scene))
      (set_adapters (alter (receive (Some (reply_bytes s2))) alice (adapters s2)) s2)).
Proof.
  apply (call_reply_roundtrip (sc_state call_scene) (sc_state reply_scene) alice bob
    (sc_caps reply_scene) (sc_body reply_scene) (sc_todo reply_scene) 9 500
    (adapter_at (sc_state reply_scene) bob) (adapter_at (sc_state reply_scene) alice)
    (info_at (sc_state reply_scene) bob) 7 (Some payload)); [| |scene_tac..].
  - replace (pending_calls (sc_state call_scene)) with (@nil PendingCall) by scene_tac. constructor.
  - exists [], []. split_and!; [scene_tac..|constructor|constructor].
Defined.

(** Alice has been disconnected. *)
Definition erase_scene := scene_at 0 (registered ++ [LDelete alice; LLock]).

Lemma erase_scene_inv :
  inv (sc_state erase_scene) ((None, alice) :: sc_todo erase_scene).
Proof.
  unfold erase_scene, scene_at.
  destruct (scene_of 0 (registered ++ [LDelete alice; LLock])) as [sc|] eqn:Hsc; [|by vm_compute in Hsc].
  pose proof (scene_inv _ _ _ Hsc) as Hi. cbn [from_option default].
  replace (sc_packet sc) with (None : option rcaps, alice) in Hi; [exact Hi|].
  vm_compute in Hsc. by injection Hsc as <-.
Qed.

Lemma erase_client_witness :
  exists s', do_erase_adapter alice (sc_state erase_scene) = Done (tt, s') /\
    adapter_infos s' !! alice = None /\ (forall m, call_target s' "alice" m = None).
Proof.
  destruct (erase_client (sc_state erase_scene) alice (info_at (sc_state erase_scene) alice)
    (sc_todo erase_scene) erase_scene_inv) as (s' & Hd & _ & Ha & _ & _ & _ & Hm); [scene_tac|].
  exists s'. split; [exact Hd|]. split; [rewrite Ha; apply lookup_delete_eq|].
  replace "alice" with (ai_name (info_at (sc_state erase_scene) alice)); [exact Hm|scene_tac].
Defined.

Lemma names_unique_witness :
  let s := sc_state reply_scene in
  ("alice" = "bob" <-> alice = bob) /\ (exists i, info_of s alice = Some i /\ ai_name i = "alice").
Proof.
  apply (names_unique (sc_state reply_scene)
    ((Some (sc_caps reply_scene), bob) :: sc_todo reply_scene) "alice" "bob" alice bob); scene_tac.
Defined.

Lemma discard_exact_witness :
  let s := sc_state reply_scene in
  exists s', discard_pending_calls s = Done (tt, s') /\
    pending_calls s' = filter (fun pc => ~ due (steady_clock (ticks s)) pc) (pending_calls s).
Proof.
  destruct (discard_exact (sc_state reply_scene)
    ((Some (sc_caps reply_scene), bob) :: sc_todo reply_scene)) as (s' & Hd & _ & ->); [scene_tac|].
  eexists. split; [exact Hd|reflexivity].
Defined.

(** A whole run, to where the thread waits for the answer to the call. *)
Definition waiting_run := called ++ [LLock].
Definition waiting_state : rdisp :=
  match exec_orderly (start 0 0) waiting_run with
  | Some (Running _ s) => s
  | _ => sc_state nothing
  end.
Definition waiting_deadline : Z := discard_tp (the_call waiting_state).

Lemma waiting_reached :
  steps step (start 0 0) (Running (Waiting (Some waiting_deadline) false) waiting_state).
Proof. apply (exec_orderly_steps waiting_run). vm_compute. reflexivity. Qed.


Lemma no_lost_wakeup_witness :
  (cmd_packets waiting_state <> [] \/ working waiting_state = false -> false = true) /\
  Exists (fun pc => discard_tp pc = waiting_deadline) (pending_calls waiting_state) /\
  Forall (fun pc => waiting_deadline <= discard_tp pc) (pending_calls waiting_state).
Proof.
  apply (no_lost_wakeup 0 0 (Some waiting_deadline) false);
    [split; [vm_compute; discriminate|vm_compute; reflexivity]|exact waiting_reached].
Defined.

(** The run of a list of labels, with its queued and handled packets. *)
Fixpoint exec_run (st : sys rcaps conn) (lbs : list (label conn)) :
  option (list (CmdPacket rcaps) * list (CmdPacket rcaps) * sys rcaps conn) :=
  match lbs with
  | [] => Some ([], [], st)
  | lb :: lbs =>
      match exec st lb with
      | Some st' =>
          match exec_run st' lbs with
          | Some (p, h, st2) => Some (pushes st lb ++ p, handles st lb ++ h, st2)
          | None => None
          end
      | None => None
      end
  end.

Lemma exec_run_run st0 lbs : forall st p0 h0 p h st2,
  run st0 p0 h0 st -> is_Some (exec_orderly st lbs) -> exec_run st lbs = Some (p, h, st2) ->
  run st0 (p0 ++ p) (h0 ++ h) st2.
Proof.
  induction lbs as [|lb lbs IH]; intros st p0 h0 p h st2 Hr Ho Hex; simpl in *.
  { simplify_eq. by rewrite !app_nil_r. }
  destruct (orderlyb st lb) eqn:Hob; [|by destruct Ho]. destruct (exec st lb) as [st'|] eqn:He; [|done].
  destruct (exec_run st' lbs) as [[[p' h'] st2']|] eqn:Hex'; simplify_eq.
  rewrite !app_assoc. eapply IH; [|done|done]. econstructor; [done| |done]. by apply orderlyb_spec.
Qed.

Definition fifo_run := registered ++ [LPut alice f_ping; LPut bob f_ping; LLock; LHandle; LPut carol f_ping].
Definition fifo_result := default ([], [], start 0 0) (exec_run (start 0 0) fifo_run).
Definition fifo_place : loc rcaps :=
  match fifo_result.2 with Running l _ => l | _ => Top end.
Definition fifo_state : rdisp :=
  match fifo_result.2 with Running _ s => s | _ => sc_state nothing end.

Lemma fifo_reached : run (start 0 0) fifo_result.1.1 fifo_result.1.2 (Running fifo_place fifo_state).
Proof.
  replace (Running fifo_place fifo_state) with fifo_result.2 by (vm_compute; reflexivity).
  refine (exec_run_run (start 0 0) fifo_run (start 0 0) [] [] fifo_result.1.1 fifo_result.1.2
    fifo_result.2 _ _ _); [constructor| |vm_compute; reflexivity].
  vm_compute. eexists. reflexivity.
Qed.

Lemma commands_fifo_witness :
  length fifo_result.1.1 = 5%nat /\
  fifo_result.1.1 = fifo_result.1.2 ++ todo_of fifo_place ++ cmd_packets fifo_state.
Proof.
  split; [vm_compute; reflexivity|].
  apply (commands_fifo 0 0); [split; [vm_compute; discriminate|reflexivity]|exact fifo_reached].
Defined.

Lemma close_exits_witness :
  exec (Running (Waiting (Some waiting_deadline) true) (close_disp waiting_state)) LLock =
    Some (Running Exited (close_disp waiting_state)).
Proof.
  apply (close_exits (Waiting (Some waiting_deadline) false) waiting_state). right. by eexists _, _.
Defined.

(** ** Reading from a socket *)

Definition two_frames : list bytes := [f_auth "alice" 0; f_ping].

(** A socket on which the two messages arrive together, and one on which they
    arrive in three pieces. *)
Definition whole_conn : conn := SocketAdapter.new 4 256 800 (mkRsock [concat two_frames] [] false).
Definition piece_conn : conn :=
  SocketAdapter.new 4 256 800
    (mkRsock [take 3 (concat two_frames); take 20 (drop 3 (concat two_frames));
              drop 23 (concat two_frames)] [] false).

Lemma whole_conn_wf : SocketAdapter.adap_wf whole_conn (replicate 256 Byte.x00).
Proof. apply (SocketAdapter.new_wf 4 256 800). unfold HEADER_SIZE, two32. lia. Qed.

Lemma piece_conn_wf : SocketAdapter.adap_wf piece_conn (replicate 256 Byte.x00).
Proof. apply (SocketAdapter.new_wf 4 256 800). unfold HEADER_SIZE, two32. lia. Qed.

Lemma do_read_refines_split_witness :
  exists a', Reader.do_read (Reader.read_fuel whole_conn) alice whole_conn (new 0 0 : rdisp) =
      Some (true, a', Reader.deliver alice two_frames (new 0 0)) /\
    SocketAdapter.pending a' = [].
Proof.
  destruct (Reader.do_read_refines_split (D:=rdisp) alice whole_conn (replicate 256 Byte.x00)
    (new 0 0) (concat two_frames) quiet whole_conn_wf) as [a' Hr].
  - vm_compute. reflexivity.
  - vm_compute. discriminate.
  - replace (split _ _) with (More two_frames []) in Hr by (vm_compute; reflexivity).
    destruct Hr as (Hd & (_ & Hp & _) & _). exists a'. split; [exact Hd|exact Hp].
Defined.

(** The three pieces of [piece_conn], and then its end. *)
Definition piece_reads (n : nat) := Reader.do_reads n alice piece_conn (new 0 0 : rdisp).

Lemma reads_reassemble_witness :
  ((fun r => (r.1.1, r.2)) <$> piece_reads 3 = Some (true, Reader.deliver alice two_frames (new 0 0)) /\
   (fun r => (r.1.1, r.2)) <$> piece_reads 4 = Some (false, Reader.deliver alice two_frames (new 0 0))) /\
  forall n, Reader.reassembled (SocketAdapter.buf_size piece_conn) n alice (SocketAdapter.pending piece_conn)
    (SocketAdapter.sock piece_conn) (new 0 0) (piece_reads n).
Proof.
  split; [split; vm_compute; reflexivity|]. intros n.
  apply (Reader.reads_reassemble (D:=rdisp) n alice piece_conn (replicate 256 Byte.x00)).
  - exact piece_conn_wf.
  - vm_compute. reflexivity.
  - vm_compute. reflexivity.
Defined.
