(* ===== verification/PollScenario.v ===== *)
(** * The polls' theorems at concrete states

    A reference world for the polls: descriptors are handed out from 3 upwards, the
    results of [select] follow a script, the clock advances by a millisecond a
    reading. A service with a unix poll and a keepalive poll is run on it; the
    witnesses apply the theorems to the states it reaches. *)
From S2P Require Import Prelude Defs Uri Caps RefCaps Adap SockAdap Reader SerHelper Disp.
From S2P Require Import DispInv DispLoop RefSock Scenario SockPoll SockPollSpec PollRun.
From S2P Require Import BeepPoll BeepPollSpec Service PollApi.
Import Dispatcher DispatcherThread PollThread.

Record rworld := mkRworld {
  rw_open : gset Z;
  rw_ready : list (list Z);      (** what the next calls of [select] find ready *)
  rw_incoming : list rsock;      (** the connections waiting to be accepted *)
  rw_clock : Z
}.

(** The lowest free descriptor. *)
Definition free_fd (open : gset Z) : option Z :=
  head (filter (fun fd => fd ∉ open) (seqZ 3 (FD_SETSIZE - 3))).

Lemma free_fd_spec open fd : free_fd open = Some fd -> 3 <= fd < FD_SETSIZE /\ fd ∉ open.
Proof.
  unfold free_fd. intros Hf. assert (fd ∈ filter (fun fd => fd ∉ open) (seqZ 3 (FD_SETSIZE - 3))) as Hin.
  { destruct (filter _ _); simplify_eq/=. by left. }
  apply list_elem_of_filter in Hin as [? Hs%elem_of_seqZ]. split; [lia|done].
Qed.

Definition set_open (o : gset Z) (w : rworld) := mkRworld o (rw_ready w) (rw_incoming w) (rw_clock w).

Definition new_fd (w : rworld) : option Z * rworld :=
  match free_fd (rw_open w) with
  | Some fd => (Some fd, set_open ({[fd]} ∪ rw_open w) w)
  | None => (None, w)
  end.

#[export] Instance ref_world : PollOS rsock rworld := {|
  sys_select fds n tv w :=
    if bool_decide (default 0 (fst <$> tv) < 0 \/ default 0 (snd <$> tv) < 0) then (inr 22, w)
    else match rw_ready w with
         | [] => (inl ∅, w)
         | r :: rest => (inl (list_to_set r ∩ fds), mkRworld (rw_open w) rest (rw_incoming w) (rw_clock w))
         end;
  sys_accept lfd w :=
    match rw_incoming w with
    | [] => (inr 22, w)
    | s :: rest =>
        match new_fd w with
        | (Some fd, w') => (inl (fd, (5000, 16777343), s), mkRworld (rw_open w') (rw_ready w') rest (rw_clock w'))
        | (None, _) => (inr 24, w)
        end
    end;
  sys_close fd w := set_open (rw_open w ∖ {[fd]}) w;
  sys_shutdown_fd _ w := w;
  sys_socket_un := new_fd;
  sys_unlink _ w := w;
  sys_bind_un _ _ w := (true, w);
  sys_socket_in := new_fd;
  sys_reuseaddr _ w := w;
  sys_hostbyname _ w := (Some 0, w);
  sys_bind_in _ _ _ w := (true, w);
  sys_listen _ _ w := w;
  sys_sleep _ w := w;
  sys_now w := (rw_clock w, mkRworld (rw_open w) (rw_ready w) (rw_incoming w) (rw_clock w + ms))
|}.

Lemma new_fd_fresh w fd w' : new_fd w = (Some fd, w') ->
  0 <= fd < FD_SETSIZE /\ fd ∉ rw_open w /\ rw_open w' = {[fd]} ∪ rw_open w.
Proof.
  unfold new_fd. destruct (free_fd (rw_open w)) eqn:Hf; intros; simplify_eq.
  apply free_fd_spec in Hf as [? ?]. split_and!; try done; lia.
Qed.

Lemma ref_accept_fresh lfd w fd p s w' : sys_accept lfd w = (inl (fd, p, s), w') ->
  0 <= fd < FD_SETSIZE /\ fd ∉ rw_open w /\ rw_open w' = {[fd]} ∪ rw_open w.
Proof.
  simpl. destruct (rw_incoming w); [done|]. destruct (new_fd w) as [[?|] ?] eqn:Hn; [|done].
  intros; simplify_eq. by apply new_fd_fresh in Hn.
Qed.

#[export] Instance ref_world_laws : PollLaws rsock rworld.
Proof.
  refine {| open_fds := rw_open |}; try done.
  - intros lfd w fd p s w' Ha. apply ref_accept_fresh in Ha. naive_solver.
  - intros lfd w fd p s w'. simpl. destruct (rw_incoming w); [done|].
    destruct (new_fd w) as [[?|] ?]; [|done]. by intros [= _ <-].
  - intros lfd w e w'. simpl. destruct (rw_incoming w); [by intros [= _ <-]|].
    destruct (new_fd w) as [[?|] ?]; [done|]. by intros [= _ <-].
  - intros w fd w' Hn. apply new_fd_fresh in Hn. naive_solver.
  - intros w w'. simpl. unfold new_fd. destruct (free_fd _); [done|]. by intros [= <-].
  - intros w fd w' Hn. apply new_fd_fresh in Hn. naive_solver.
  - intros w w'. simpl. unfold new_fd. destruct (free_fd _); [done|]. by intros [= <-].
  - intros s n tv w r w'. simpl. destruct (bool_decide _); [done|].
    destruct (rw_ready w); intros; simplify_eq; set_solver.
  - intros s n tv w. simpl. destruct (bool_decide _); [done|]. by destruct (rw_ready w).
Defined.

#[export] Instance ref_world_limit : FdLimit rsock rworld.
Proof.
  split.
  - intros lfd w fd p s w' Ha. apply ref_accept_fresh in Ha. lia.
  - intros w fd w' Hn. apply new_fd_fresh in Hn. lia.
  - intros w fd w' Hn. apply new_fd_fresh in Hn. lia.
Qed.

#[export] Instance ref_select_inval : SelectInval (os:=rsock) (W:=rworld).
Proof.
  refine {| EINVAL := 22 |}; [done|]. intros rfds n sec usec w Hneg. simpl.
  by rewrite bool_decide_true.
Qed.

(** ** Running a service *)
Abbreviation rservice := (Service.t rcaps rsock rworld).
Abbreviation rsys := (Service.sys rcaps rsock rworld).

(** The packets still to be handled. *)
Definition left_over (sv : rservice) : list (CmdPacket rcaps) :=
  todo_of (Service.sv_thread sv) ++ cmd_packets (Service.sv_disp sv).

(** [Service.orderly], decided. *)
Definition orderly_svb (sv : rservice) (lb : Service.label rsock) (st' : rsys) : bool :=
  match lb with
  | Service.SDisp lb => orderlyb (Running (Service.sv_thread sv) (Service.sv_disp sv)) lb
  | Service.SStart i =>
      match Service.polls sv !! i with
      | Some (p, _) =>
          bool_decide (Z.of_nat (String.length (c_str (SocketPoll.name (base p)))) < SUN_PATH_SIZE) &&
          match p with Beep b => bool_decide (length (BeepSocketPoll.active_adapters b) = 0%nat) | _ => true end
      | None => true
      end
  | _ =>
      match st' with
      | Service.Up sv' =>
          forallb (fun a => negb (bool_decide ((info <$> adapters (Service.sv_disp sv') !! a) = Some None)) ||
            bool_decide (a ∉ (left_over sv').*2))
            (elements (held (Service.sv_disp sv) ∖ held (Service.sv_disp sv')))
      | Service.Down _ => true
      end
  end.

Lemma orderly_svb_spec sv lb st' : orderly_svb sv lb st' = true -> Service.orderly sv lb st'.
Proof.
  assert (forall sv', forallb (fun a => negb (bool_decide ((info <$> adapters (Service.sv_disp sv') !! a) = Some None)) ||
      bool_decide (a ∉ (left_over sv').*2))
      (elements (held (Service.sv_disp sv) ∖ held (Service.sv_disp sv'))) = true ->
    forall a, a ∈ held (Service.sv_disp sv) -> a ∉ held (Service.sv_disp sv') ->
      (info <$> adapters (Service.sv_disp sv') !! a) = Some None ->
      a ∉ (left_over sv').*2) as Hpoll.
  { intros sv' Hb a Ha Ha' Hi. rewrite forallb_forall in Hb. specialize (Hb a).
    rewrite <- list_elem_of_In, elem_of_elements, elem_of_difference in Hb. specialize (Hb (conj Ha Ha')).
    rewrite (bool_decide_true (_ = Some None)) in Hb by done. simpl in Hb. by apply bool_decide_eq_true in Hb. }
  destruct lb as [lb|i|i|i|i]; [exact (orderlyb_spec _ lb)| |..]; simpl.
  2: { destruct (Service.polls sv !! i) as [[p st]|]; [|done]. intros [Hn Hb]%andb_true_iff.
       apply bool_decide_eq_true in Hn. split; [done|]. destruct p as [p|p]; [done|].
       apply bool_decide_eq_true in Hb. by apply nil_length_inv in Hb. }
  all: destruct st'; [apply Hpoll|done].
Qed.

Fixpoint run_service (st : rsys) (lbs : list (Service.label rsock)) : option rsys :=
  match lbs with
  | [] => Some st
  | lb :: lbs =>
      match st with
      | Service.Up sv =>
          match Service.exec sv lb with
          | Some st' => if orderly_svb sv lb st' then run_service st' lbs else None
          | None => None
          end
      | Service.Down _ => None
      end
  end.

Lemma run_service_steps lbs : forall st st', run_service st lbs = Some st' -> steps Service.step st st'.
Proof.
  induction lbs as [|lb lbs IH]; intros st st' Hr; simpl in Hr; [simplify_eq; constructor|].
  destruct st as [sv|]; [|done]. destruct (Service.exec sv lb) as [st1|] eqn:He; [|done].
  destruct (orderly_svb sv lb st1) eqn:Ho; [|done].
  econstructor; [|by apply IH]. exists lb. split; [done|]. by apply orderly_svb_spec.
Qed.

(** Two polls; a client connects to each and authenticates, the second leaves, and
    the first poll is stopped. *)
Definition the_polls : list poll :=
  [Sock (SocketPoll.new_unix "/var/run/flora"); Beep (BeepSocketPoll.new "0.0.0.0" 2517)].
Definition peer (msgs : list bytes) : rsock := mkRsock msgs [] false.
Definition the_world : rworld :=
  mkRworld ∅ [[3]; [4]; [5]; [6]; [6]; []] [peer [f_auth "alice" 0]; peer [f_auth "bob" 0 ++ f_ping]] 1000000000.

(** One [select] and the pass after it, with [n] for [max_fd]. *)
Definition round (i n : nat) : list (Service.label rsock) := replicate (n + 2) (Service.SRun i).
Definition handle (n : nat) : list (Service.label rsock) :=
  Service.SDisp LLock :: replicate n (Service.SDisp LHandle) ++ [Service.SDisp LBatchDone].

Definition connects : list (Service.label rsock) :=
  [Service.SStart 0; Service.SStart 1] ++ round 0 6 ++ round 1 7.
Definition whole_day : list (Service.label rsock) :=
  connects ++ round 0 6 ++ round 1 7 ++ handle 3 ++ round 1 7 ++ handle 1 ++
  [Service.SStop 0; Service.SRun 0; Service.SRun 0; Service.SRun 0; Service.SJoin 0].

Definition svc_start : rsys := Service.start 0 0 the_polls the_world.
Definition service_after (lbs : list (Service.label rsock)) : rservice :=
  match run_service svc_start lbs with
  | Some (Service.Up sv) => sv
  | _ => Service.mk [] Top (new 0 0) the_world
  end.

Definition ran (lbs : list (Service.label rsock)) : bool :=
  match run_service svc_start lbs with Some (Service.Up _) => true | _ => false end.

Lemma service_after_steps lbs :
  ran lbs = true -> steps Service.step svc_start (Service.Up (service_after lbs)).
Proof.
  unfold ran, service_after. destruct (run_service svc_start lbs) as [[sv|]|] eqn:Hr; try done.
  intros _. by apply run_service_steps in Hr.
Qed.

Lemma up_inj (sv sv' : rservice) : Service.Up sv = Service.Up sv' -> sv = sv'.
Proof. by intros [= ?]. Qed.

Lemma the_polls_idle : Forall (fun p => idle (base p)) the_polls.
Proof. repeat constructor. Qed.


(** ** One poll of the service *)
Lemma svc_ok lbs : ran lbs = true -> service_ok (service_after lbs).
Proof.
  intros Hr. destruct (service_reachable 0 0 the_polls the_world (Service.Up (service_after lbs)))
    as (sv & Heq & Hok & _); [by unfold is_u32, two32|apply the_polls_idle|by apply service_after_steps|].
  apply up_inj in Heq. by subst sv.
Qed.

Definition nobody : shared rcaps rsock rworld SocketPoll.t :=
  mkShared (SocketPoll.new_unix "flora") Top (new 0 0) the_world.

(** The first poll and the place of its thread, and the second. *)
Definition sock_at (lbs : list (Service.label rsock)) : shared rcaps rsock rworld SocketPoll.t * place :=
  let sv := service_after lbs in
  match Service.polls sv !! 0%nat with
  | Some (Sock p, On l) => (mkShared p (Service.sv_thread sv) (Service.sv_disp sv) (Service.sv_world sv), l)
  | _ => (nobody, Quit)
  end.

Definition beep_at (lbs : list (Service.label rsock)) : shared rcaps rsock rworld BeepSocketPoll.t * place :=
  let sv := service_after lbs in
  match Service.polls sv !! 1%nat with
  | Some (Beep p, On l) => (mkShared p (Service.sv_thread sv) (Service.sv_disp sv) (Service.sv_world sv), l)
  | _ => (mkShared (BeepSocketPoll.new "h" 1) Top (new 0 0) the_world, Quit)
  end.

Definition sock_runs (lbs : list (Service.label rsock)) : bool :=
  ran lbs && match Service.polls (service_after lbs) !! 0%nat with Some (Sock _, On _) => true | _ => false end.
Definition beep_runs (lbs : list (Service.label rsock)) : bool :=
  ran lbs && match Service.polls (service_after lbs) !! 1%nat with Some (Beep _, On _) => true | _ => false end.

Lemma sock_at_ok lbs :
  sock_runs lbs = true ->
  poll_ok (sock_at lbs).1 (SocketPoll.listen_fd (obj (sock_at lbs).1)) /\
  place_ok (fun _ => True) (obj (sock_at lbs).1) (SocketPoll.listen_fd (obj (sock_at lbs).1)) (sock_at lbs).2.
Proof.
  intros [Hr Hrun]%andb_true_iff. pose proof (svc_ok lbs Hr) as Hok. unfold sock_at.
  destruct (Service.polls (service_after lbs) !! 0%nat) as [[[p|p] [|l|]]|] eqn:Hp; try done.
  destruct (so_polls _ Hok _ _ _ Hp) as (_ & lfd & Ht & Hl & <-). done.
Qed.

Lemma beep_at_ok lbs :
  beep_runs lbs = true ->
  poll_ok (beep_at lbs).1 (SocketPoll.listen_fd (base (obj (beep_at lbs).1))) /\
  place_ok active_ok (obj (beep_at lbs).1) (SocketPoll.listen_fd (base (obj (beep_at lbs).1))) (beep_at lbs).2.
Proof.
  intros [Hr Hrun]%andb_true_iff. pose proof (svc_ok lbs Hr) as Hok. unfold beep_at.
  destruct (Service.polls (service_after lbs) !! 1%nat) as [[[p|p] [|l|]]|] eqn:Hp; try done.
  destruct (so_polls _ Hok _ _ _ Hp) as (_ & lfd & Ht & Hl & <-). done.
Qed.

(** A pass over the descriptor 5, readable, after a [select]. *)
Definition at_scan : list (Service.label rsock) := connects ++ [Service.SRun 0].

Lemma pass_equivalent_witness :
  sock_runs at_scan = true /\ (sock_at at_scan).2 = Scan 0 {[5]} 3 /\
  exists k s', (k <= Z.to_nat FD_SETSIZE + 1)%nat /\
    run_steps k sock_vtable (Scan 0 {[5]} 3) (sock_at at_scan).1 = Done (AtSelect, s') /\
    for_each (filter (fun fd => fd ∈ ({[5]} : gset Z)) (seqZ 0 FD_SETSIZE))
      (fun fd => serve_fd sock_vtable fd 3) (sock_at at_scan).1 = Done (tt, s').
Proof.
  assert (sock_runs at_scan = true) as Hr by (vm_compute; reflexivity).
  assert ((sock_at at_scan).2 = Scan 0 {[5]} 3) as Hs by (vm_compute; reflexivity).
  assert (SocketPoll.listen_fd (obj (sock_at at_scan).1) = 3) as Hl by (vm_compute; reflexivity).
  split; [exact Hr|]. split; [exact Hs|].
  destruct (sock_at_ok at_scan Hr) as [Hp Hpl]. rewrite Hl in Hp, Hpl. rewrite Hs in Hpl.
  exact (pass_equivalent sock_vtable (fun _ => True) sock_vtable_ok {[5]} 3 (sock_at at_scan).1 Hp Hpl).
Defined.

(** Until its client has authenticated. *)
Definition authenticates : list (Service.label rsock) :=
  connects ++ round 0 6 ++ round 1 7 ++ handle 3.

Lemma release_closes_all_witness :
  sock_runs authenticates = true /\
  exists s', run_steps 2 sock_vtable Release (sock_at authenticates).1 = Done (Quit, s') /\
    SocketPoll.all_fds (obj s') = {[3]} /\ gone s' 5 1 /\
    cmd_packets (disp s') = cmd_packets (disp (sock_at authenticates).1) ++ [(None, 1%positive)].
Proof.
  assert (sock_runs authenticates = true) as Hr by (vm_compute; reflexivity).
  assert (SocketPoll.listen_fd (obj (sock_at authenticates).1) = 3) as Hlf by (vm_compute; reflexivity).
  assert (size (SocketPoll.adapters (obj (sock_at authenticates).1)) = 1%nat) as Hn by (vm_compute; reflexivity).
  assert (SocketPoll.adapters (obj (sock_at authenticates).1) !! 5 = Some 1%positive) as Ha by (vm_compute; reflexivity).
  assert (conns (sock_at authenticates).1 = [1%positive]) as Hc by (vm_compute; reflexivity).
  assert (has_info 1%positive (disp (sock_at authenticates).1) = true) as Hi by (vm_compute; reflexivity).
  split; [exact Hr|]. destruct (sock_at_ok authenticates Hr) as [Hp _]. rewrite Hlf in Hp.
  destruct (release_closes_all sock_vtable (fun _ => True) sock_vtable_ok (sock_at authenticates).1 3 Hp)
    as (s' & Hrun & _ & _ & Hf & _ & Hg & l & _ & Hl & [Hq _]).
  rewrite Hc in Hl. symmetry in Hl. apply Permutation_length_1_inv in Hl. subst l.
  exists s'. split; [|split; [exact Hf|split; [exact (Hg 5 1%positive Ha)|]]].
  - change (base (obj (sock_at authenticates).1)) with (obj (sock_at authenticates).1) in Hrun.
    rewrite Hn in Hrun. exact Hrun.
  - rewrite filter_cons, decide_True in Hq by (rewrite Hi; exact I). exact Hq.
Defined.

Lemma start_exact_witness :
  SocketPoll.started (base (obj nobody)) = false /\
  exists r s', start nobody = Done (r, s') /\ disp s' = disp nobody /\ r = FLORA_POLL_SUCCESS /\
    SocketPoll.listen_fd (obj s') = 3.
Proof.
  split; [reflexivity|].
  destruct (start_exact nobody) as [_ Hstart]; [vm_compute; split; [discriminate|reflexivity]|vm_compute; reflexivity|].
  destruct Hstart as (r & s' & Hs & Hd & _); [by split|].
  exists r, s'. split; [exact Hs|]. split; [exact Hd|].
  assert (match start nobody with Done (r, s') => r = FLORA_POLL_SUCCESS /\ SocketPoll.listen_fd (obj s') = 3
    | Undef _ => False end) as Hc by (vm_compute; split; reflexivity).
  rewrite Hs in Hc. exact Hc.
Defined.

(** The clock stands at [t]. *)
Definition with_clock (t : Z) (s : shared rcaps rsock rworld BeepSocketPoll.t) :=
  set_world (mkRworld (rw_open (world s)) [] [] t) s.

Lemma with_clock_ok t s lfd :
  poll_ok s lfd -> place_ok active_ok (obj s) lfd AtSelect ->
  poll_ok (with_clock t s) lfd /\ active_ok (obj (with_clock t s)).
Proof. intros Hp Hj. split; [by apply world_change|exact Hj]. Qed.

(** The second poll has a connection since 1001000000. *)
Definition at_time (t : Z) : shared rcaps rsock rworld BeepSocketPoll.t := with_clock t (beep_at connects).1.

Lemma at_time_ok t : poll_ok (at_time t) 4 /\ active_ok (obj (at_time t)).
Proof.
  assert (beep_runs connects = true) as Hr by (vm_compute; reflexivity).
  destruct (beep_at_ok connects Hr) as [Hp Hpl].
  assert ((beep_at connects).2 = AtSelect) as Hs by (vm_compute; reflexivity).
  assert (SocketPoll.listen_fd (base (obj (beep_at connects).1)) = 4) as Hl by (vm_compute; reflexivity).
  rewrite Hs in Hpl. rewrite Hl in Hp, Hpl. exact (with_clock_ok _ _ _ Hp Hpl).
Qed.

(** A millisecond before its minute is over, [select] is given that millisecond; then the
    connection is shut down. *)
Lemma keepalive_exact_witness :
  exists r s' tv w, BeepPoll.do_poll {[4; 6]} 7 (at_time 61000000000) = Done (r, s') /\
    (select_call (at_time 61000000000) tv w /\ tv = Some (0, 1000)) /\
    shut_overdue (at_time 61000000000) 61001000000 s' /\ BeepSocketPoll.active_adapters (obj s') = [].
Proof.
  assert (BeepSocketPoll.active_adapters (obj (at_time 61000000000)) = [mkActive 1001000000 2]) as Hl
    by (vm_compute; reflexivity).
  assert (BeepSocketPoll.beep_timeout (obj (at_time 61000000000)) = 60000) as Ht by (vm_compute; reflexivity).
  destruct (at_time_ok 61000000000) as [Hp Hj].
  destruct (keepalive_exact (at_time 61000000000) 4 {[4; 6]} 7 Hp Hj) as (r & s' & tv & w & Hr & Hc & Hx).
  { rewrite Hl. repeat constructor. }
  exists r, s', tv, w. split; [exact Hr|].
  assert (tv = Some (0, 1000) /\ w = mkRworld (rw_open (world (at_time 61000000000))) [] [] 61001000000) as [-> ->].
  { unfold select_call in Hc. rewrite Hl, Ht in Hc. destruct Hc as (t0 & [sec usec] & Hn & -> & [Hw _] & _).
    cbn [fst snd] in Hw. simpl in Hn. injection Hn as <- <-. match type of Hw with 0 <= ?l -> _ => replace l with 1000000 in Hw by (vm_compute; reflexivity) end.
    destruct (Hw ltac:(done)) as (? & ? & d & ? & ?). unfold ms in *. split; [|reflexivity]. do 2 f_equal; lia. }
  split; [split; [exact Hc|reflexivity]|]. destruct Hx as [_ Hx]. simpl in Hx. split; [exact Hx|].
  destruct Hx as (Hx & _). rewrite Hl, Ht in Hx. cbn in Hx.
  destruct (BeepSocketPoll.active_adapters (obj s')); [reflexivity|discriminate].
Defined.

Definition late : shared rcaps rsock rworld BeepSocketPoll.t := at_time 61002000000.

Lemma late_ok : poll_ok late 4 /\ active_ok (obj late).
Proof. exact (at_time_ok _). Qed.

Lemma overdue_ends_poll_witness :
  SocketPoll.adapters (base (obj late)) !! 6 = Some 2%positive /\
  exists k s', run_steps k BeepPoll.beep_vtable AtSelect late = Done (Quit, s') /\ gone s' 6 2 /\
    start s' = Done (FLORA_POLL_ALREADY_START, s').
Proof.
  assert (SocketPoll.adapters (base (obj late)) !! 6 = Some 2%positive) as Ha by (vm_compute; reflexivity).
  split; [exact Ha|]. destruct late_ok as [Hp Hj].
  destruct (overdue_ends_poll late 4 (mkActive 1001000000 2) [] Hp Hj) as (k & s' & Hrun & Hg & Hst).
  - vm_compute. reflexivity.
  - vm_compute. reflexivity.
  - vm_compute. discriminate.
  - exists k, s'. split; [exact Hrun|]. split; [exact (Hg 6 2%positive Ha)|exact Hst].
Defined.

(** ** Polls from URIs *)
#[local] Instance poll_uris : UriParser := {|
  uri_parse s := if bool_decide (s = "tcp://0.0.0.0:2517") then
                   Some (mkUri "tcp" EmptyString "0.0.0.0" 2517 EmptyString) else None
|}.

Example tcp_polls_differ :
  PollApi.new_instance "tcp://0.0.0.0:2517" = Some (Beep (BeepSocketPoll.new "0.0.0.0" 2517)) /\
  PollApi.flora_poll_new "tcp://0.0.0.0:2517" true =
    (FLORA_POLL_SUCCESS, Some (Sock (SocketPoll.new_tcp "0.0.0.0" 2517))).
Proof. by split. Qed.
