(* ===== verification/SockConn.v ===== *)
(** * The client's socket ([src/conn.h], [src/sock-conn.h], [src/sock-conn.cc])

    A [SocketConn] is a socket, whether it is usable ([sock_ready]) and the receive
    timeout set on it. [sent] records the buffers handed to successful writes. *)
From S2P Require Import Prelude Defs Caps Adap SockAdap.

(** The system calls that make a connected socket. *)
Class SockConnect (os : Type) := {
  sys_socket : option (Z * os);                          (** [socket] *)
  sys_set_rcvtimeo : Z -> Z -> os -> os;                 (** [setsockopt(SO_RCVTIMEO)], sec and usec *)
  sys_connect_unix : string -> os -> bool * os;
  sys_gethostbyname : string -> option Z;                (** the first address *)
  sys_connect_tcp : Z -> Z -> os -> bool * os;           (** address and port *)
  EINTR : Z
}.

Module SocketConn.
Record t (os : Type) := mk {
  sock : option (Z * os);      (** the descriptor and the socket; [None] is -1 *)
  recv_timeout : Z;
  sock_ready : bool;
  sent : list bytes
}.
Arguments mk {os}.
Arguments sock {os}.
Arguments recv_timeout {os}.
Arguments sock_ready {os}.
Arguments sent {os}.

Section Ops.
Context {os : Type} `{!SockOS os, !SockConnect os}.

Definition new (rtmo : Z) : t os := mk None rtmo false [].

(** [if (recv_timeout > 0) setsockopt(...)] *)
Definition set_recv_timeout (rtmo : Z) (s : os) : os :=
  if bool_decide (0 < rtmo) then sys_set_rcvtimeo (rtmo / 1000) (rtmo mod 1000 * 1000) s else s.

(** [connect(name)]: a unix socket. *)
Definition connect_unix (name : string) (c : t os) : bool * t os :=
  match sys_socket with
  | None => (false, c)
  | Some (fd, s) =>
      match sys_connect_unix (c_str name) (set_recv_timeout (recv_timeout c) s) with
      | (false, _) => (false, c)
      | (true, s') => (true, mk (Some (fd, s')) (recv_timeout c) true (sent c))
      end
  end.

(** [connect(host, port)]: [htons] keeps the low 16 bits of the port. *)
Definition connect_tcp (host : string) (port : Z) (c : t os) : bool * t os :=
  match sys_socket with
  | None => (false, c)
  | Some (fd, s) =>
      let s := set_recv_timeout (recv_timeout c) s in
      match sys_gethostbyname (c_str host) with
      | None => (false, c)
      | Some addr =>
          match sys_connect_tcp addr (port mod 65536) s with
          | (false, _) => (false, c)
          | (true, s') => (true, mk (Some (fd, s')) (recv_timeout c) true (sent c))
          end
      end
  end.

(** A write of fewer bytes than asked for, but some, is a success. *)
Definition send (data : bytes) (c : t os) : bool * t os :=
  if negb (sock_ready c) then (false, c)
  else
    match sock c with
    | None => (false, c)    (** a write to the descriptor -1 fails *)
    | Some (fd, s) =>
        let '(r, s') := sys_write data s in
        let c' := mk (Some (fd, s')) (recv_timeout c) (sock_ready c) in
        match r with
        | inr _ => (false, c' (sent c))
        | inl n => if bool_decide (n = 0) then (false, c' (sent c)) else (true, c' (sent c ++ [data]))
        end
    end.

(** The loop that retries an interrupted read; [None] when the fuel is used up. *)
Fixpoint read_retry (fuel : nat) (size : Z) (s : os) : option ((Z + bytes) * os) :=
  match fuel with
  | O => None
  | S fuel =>
      let '(r, s') := sys_read size s in
      match r with
      | inl d => Some (inr d, s')
      | inr errno =>
          if bool_decide (errno = EAGAIN) then Some (inl (-2), s')
          else if bool_decide (errno = EINTR) then read_retry fuel size s'
          else Some (inl (-1), s')
      end
  end.

(** The bytes received, or the negative result. *)
Definition recv (fuel : nat) (size : Z) (c : t os) : option ((Z + bytes) * t os) :=
  if negb (sock_ready c) then Some (inl (-1), c)
  else
    match sock c with
    | None => Some (inl (-1), c)
    | Some (fd, s) =>
        match read_retry fuel size s with
        | None => None
        | Some (r, s') => Some (r, mk (Some (fd, s')) (recv_timeout c) (sock_ready c) (sent c))
        end
    end.

Definition close (c : t os) : t os :=
  if sock_ready c then
    mk (match sock c with Some (fd, s) => Some (fd, sys_shutdown s) | None => None end)
      (recv_timeout c) false (sent c)
  else c.

Definition closed (c : t os) : bool := negb (sock_ready c).

Definition get_socket (c : t os) : Z := match sock c with Some (fd, _) => fd | None => -1 end.

(** ** Lemmas *)
Lemma close_closed c : closed (close c) = true.
Proof. unfold closed, close. destruct (sock_ready c) eqn:H; simpl; by rewrite ?H. Qed.

Lemma close_sent c : sent (close c) = sent c.
Proof. unfold close. by destruct (sock_ready c). Qed.

Lemma send_closed d c : closed c = true -> send d c = (false, c).
Proof. unfold closed, send. by intros ->. Qed.

Lemma recv_closed fuel n c : closed c = true -> recv fuel n c = Some (inl (-1), c).
Proof. unfold closed, recv. by intros ->. Qed.

(** What was sent grows by exactly the data of a successful [send]. *)
Lemma send_sent d c ok c' :
  send d c = (ok, c') -> sent c' = sent c ++ (if ok then [d] else []) /\ closed c' = closed c.
Proof.
  unfold send, closed. destruct (sock_ready c) eqn:Hr; simpl.
  2: { intros; simplify_eq. by rewrite app_nil_r, Hr. }
  destruct (sock c) as [[fd s]|]; [|intros; simplify_eq; by rewrite app_nil_r, Hr].
  destruct (sys_write d s) as [[n|e] s']; [case_bool_decide|];
    intros; simplify_eq; simpl; by rewrite ?app_nil_r, ?Hr.
Qed.

Lemma recv_keeps fuel n c r c' :
  recv fuel n c = Some (r, c') -> closed c' = closed c /\ sent c' = sent c.
Proof.
  unfold recv, closed. destruct c as [[[fd s]|] rtmo [|] se]; simpl; try (by intros; simplify_eq).
  destruct (read_retry fuel n s) as [[? ?]|]; by intros; simplify_eq.
Qed.
End Ops.
End SocketConn.
