(* ===== verification/CliState.v ===== *)
(** * The client's state ([src/cli.h])

    The data members of [flora::internal::Client]. Mutexes and condition variables
    have no state of their own here: an operation of [Cli.v] is what happens
    between the points where another thread may run. *)
From S2P Require Import Prelude Defs Caps SerHelper SockAdap SockConn.

Module Client.
(** [PendingRequest]. [pr_key] is the identity of the list node, which an iterator
    keeps; [pr_result] is the caller's [Response] that [result] points to, [None]
    for the null pointer of a call with a callback. *)
Record PendingRequest (caps : Type) := mkPendingRequest {
  pr_key : nat;
  pr_id : Z;
  pr_rcode : Z;
  pr_result : option (Response caps);
  pr_callback : nat                     (** which callback function *)
}.
Arguments mkPendingRequest {caps}.
Arguments pr_key {caps}.
Arguments pr_id {caps}.
Arguments pr_rcode {caps}.
Arguments pr_result {caps}.
Arguments pr_callback {caps}.

(** [cmd_handler]: one of two member functions. *)
Inductive CmdHandler : Type := handle_cmd_before_auth | handle_cmd_after_auth.

(** [ReplyImpl]: the handle through which a callee answers. *)
Record ReplyImpl (caps : Type) := mkReplyImpl {
  rp_client : bool;             (** whether [client] is not null *)
  rp_ret_code : Z;
  rp_data : option caps;
  rp_callid : Z
}.
Arguments mkReplyImpl {caps}.
Arguments rp_client {caps}.
Arguments rp_ret_code {caps}.
Arguments rp_data {caps}.
Arguments rp_callid {caps}.

(** A call of a member function of [ClientCallback] or [MonitorCallback], or of
    the callback of a request. *)
Inductive event (caps : Type) : Type :=
  | recv_post (name : string) (msgtype : Z) (msg : option caps) (tag : Z) (sender : string)
  | recv_call (name : string) (msg : option caps) (reply : ReplyImpl caps) (tag : Z) (sender : string)
  | response (callback : nat) (rcode : Z) (r : Response caps)
  | disconnected
  | mon_disconnected
  | list_all (items : list MonitorListItem)
  | list_add (item : MonitorListItem)
  | list_remove (id : Z)
  | mon_detail (subtype : Z).   (** one of the callbacks whose messages no parser accepts *)
Arguments recv_post {caps}.
Arguments recv_call {caps}.
Arguments response {caps}.
Arguments disconnected {caps}.
Arguments mon_disconnected {caps}.
Arguments list_all {caps}.
Arguments list_add {caps}.
Arguments list_remove {caps}.
Arguments mon_detail {caps}.

Record t (caps os : Type) := mk {
  bufsize : Z;  (** [options.bufsize] *)
  cli_flags : Z;  (** [options.flags] *)
  connection : option (SocketConn.t os);
  pending_requests : list (PendingRequest caps);
  next_key : nat;  (** names the list nodes of [pending_requests] *)
  reqseq : Z;  (** [int32_t] *)
  serialize_flags : Z;
  close_reason : Z;
  this_weak_ptr : bool;  (** whether [this_weak_ptr] locks *)
  mon_callback : bool;  (** whether it is set *)
  cmd_handler : CmdHandler;
  auth_result : option Z;  (** the [result] of the [AuthResult] it points to *)
  auth_extra : string;
  cli_callback : bool;  (** whether it is set *)
  tag : Z;  (** thread-local to the receive thread *)
  sender_name : string;  (** thread-local to the receive thread *)
  rbuffer : bytes;
  rbuf_off : Z;
  events : list (event caps);  (** the calls made to the callbacks, in order *)
  ticks : nat  (** the number of clock readings taken *)
}.
Arguments mk {caps os}.
Arguments bufsize {caps os}.
Arguments cli_flags {caps os}.
Arguments connection {caps os}.
Arguments pending_requests {caps os}.
Arguments next_key {caps os}.
Arguments reqseq {caps os}.
Arguments serialize_flags {caps os}.
Arguments close_reason {caps os}.
Arguments this_weak_ptr {caps os}.
Arguments mon_callback {caps os}.
Arguments cmd_handler {caps os}.
Arguments auth_result {caps os}.
Arguments auth_extra {caps os}.
Arguments cli_callback {caps os}.
Arguments tag {caps os}.
Arguments sender_name {caps os}.
Arguments rbuffer {caps os}.
Arguments rbuf_off {caps os}.
Arguments events {caps os}.
Arguments ticks {caps os}.

Section Setters.
Context {caps os : Type}.

Definition set_connection (v : option (SocketConn.t os)) (s : t caps os) : t caps os :=
  mk (bufsize s) (cli_flags s) v (pending_requests s) (next_key s) (reqseq s)
    (serialize_flags s) (close_reason s) (this_weak_ptr s) (mon_callback s) (cmd_handler s)
    (auth_result s) (auth_extra s) (cli_callback s) (tag s) (sender_name s) (rbuffer s)
    (rbuf_off s) (events s) (ticks s).
Definition set_pending_requests (v : list (PendingRequest caps)) (s : t caps os) : t caps os :=
  mk (bufsize s) (cli_flags s) (connection s) v (next_key s) (reqseq s) (serialize_flags s)
    (close_reason s) (this_weak_ptr s) (mon_callback s) (cmd_handler s) (auth_result s)
    (auth_extra s) (cli_callback s) (tag s) (sender_name s) (rbuffer s) (rbuf_off s)
    (events s) (ticks s).
Definition set_next_key (v : nat) (s : t caps os) : t caps os :=
  mk (bufsize s) (cli_flags s) (connection s) (pending_requests s) v (reqseq s)
    (serialize_flags s) (close_reason s) (this_weak_ptr s) (mon_callback s) (cmd_handler s)
    (auth_result s) (auth_extra s) (cli_callback s) (tag s) (sender_name s) (rbuffer s)
    (rbuf_off s) (events s) (ticks s).
Definition set_reqseq (v : Z) (s : t caps os) : t caps os :=
  mk (bufsize s) (cli_flags s) (connection s) (pending_requests s) (next_key s) v
    (serialize_flags s) (close_reason s) (this_weak_ptr s) (mon_callback s) (cmd_handler s)
    (auth_result s) (auth_extra s) (cli_callback s) (tag s) (sender_name s) (rbuffer s)
    (rbuf_off s) (events s) (ticks s).
Definition set_serialize_flags (v : Z) (s : t caps os) : t caps os :=
  mk (bufsize s) (cli_flags s) (connection s) (pending_requests s) (next_key s) (reqseq s) v
    (close_reason s) (this_weak_ptr s) (mon_callback s) (cmd_handler s) (auth_result s)
    (auth_extra s) (cli_callback s) (tag s) (sender_name s) (rbuffer s) (rbuf_off s)
    (events s) (ticks s).
Definition set_close_reason (v : Z) (s : t caps os) : t caps os :=
  mk (bufsize s) (cli_flags s) (connection s) (pending_requests s) (next_key s) (reqseq s)
    (serialize_flags s) v (this_weak_ptr s) (mon_callback s) (cmd_handler s) (auth_result s)
    (auth_extra s) (cli_callback s) (tag s) (sender_name s) (rbuffer s) (rbuf_off s)
    (events s) (ticks s).
Definition set_this_weak_ptr (v : bool) (s : t caps os) : t caps os :=
  mk (bufsize s) (cli_flags s) (connection s) (pending_requests s) (next_key s) (reqseq s)
    (serialize_flags s) (close_reason s) v (mon_callback s) (cmd_handler s) (auth_result s)
    (auth_extra s) (cli_callback s) (tag s) (sender_name s) (rbuffer s) (rbuf_off s)
    (events s) (ticks s).
Definition set_mon_callback (v : bool) (s : t caps os) : t caps os :=
  mk (bufsize s) (cli_flags s) (connection s) (pending_requests s) (next_key s) (reqseq s)
    (serialize_flags s) (close_reason s) (this_weak_ptr s) v (cmd_handler s) (auth_result s)
    (auth_extra s) (cli_callback s) (tag s) (sender_name s) (rbuffer s) (rbuf_off s)
    (events s) (ticks s).
Definition set_cmd_handler (v : CmdHandler) (s : t caps os) : t caps os :=
  mk (bufsize s) (cli_flags s) (connection s) (pending_requests s) (next_key s) (reqseq s)
    (serialize_flags s) (close_reason s) (this_weak_ptr s) (mon_callback s) v
    (auth_result s) (auth_extra s) (cli_callback s) (tag s) (sender_name s) (rbuffer s)
    (rbuf_off s) (events s) (ticks s).
Definition set_auth_result (v : option Z) (s : t caps os) : t caps os :=
  mk (bufsize s) (cli_flags s) (connection s) (pending_requests s) (next_key s) (reqseq s)
    (serialize_flags s) (close_reason s) (this_weak_ptr s) (mon_callback s) (cmd_handler s)
    v (auth_extra s) (cli_callback s) (tag s) (sender_name s) (rbuffer s) (rbuf_off s)
    (events s) (ticks s).
Definition set_auth_extra (v : string) (s : t caps os) : t caps os :=
  mk (bufsize s) (cli_flags s) (connection s) (pending_requests s) (next_key s) (reqseq s)
    (serialize_flags s) (close_reason s) (this_weak_ptr s) (mon_callback s) (cmd_handler s)
    (auth_result s) v (cli_callback s) (tag s) (sender_name s) (rbuffer s) (rbuf_off s)
    (events s) (ticks s).
Definition set_cli_callback (v : bool) (s : t caps os) : t caps os :=
  mk (bufsize s) (cli_flags s) (connection s) (pending_requests s) (next_key s) (reqseq s)
    (serialize_flags s) (close_reason s) (this_weak_ptr s) (mon_callback s) (cmd_handler s)
    (auth_result s) (auth_extra s) v (tag s) (sender_name s) (rbuffer s) (rbuf_off s)
    (events s) (ticks s).
Definition set_tag (v : Z) (s : t caps os) : t caps os :=
  mk (bufsize s) (cli_flags s) (connection s) (pending_requests s) (next_key s) (reqseq s)
    (serialize_flags s) (close_reason s) (this_weak_ptr s) (mon_callback s) (cmd_handler s)
    (auth_result s) (auth_extra s) (cli_callback s) v (sender_name s) (rbuffer s)
    (rbuf_off s) (events s) (ticks s).
Definition set_sender_name (v : string) (s : t caps os) : t caps os :=
  mk (bufsize s) (cli_flags s) (connection s) (pending_requests s) (next_key s) (reqseq s)
    (serialize_flags s) (close_reason s) (this_weak_ptr s) (mon_callback s) (cmd_handler s)
    (auth_result s) (auth_extra s) (cli_callback s) (tag s) v (rbuffer s) (rbuf_off s)
    (events s) (ticks s).
Definition set_rbuffer (v : bytes) (s : t caps os) : t caps os :=
  mk (bufsize s) (cli_flags s) (connection s) (pending_requests s) (next_key s) (reqseq s)
    (serialize_flags s) (close_reason s) (this_weak_ptr s) (mon_callback s) (cmd_handler s)
    (auth_result s) (auth_extra s) (cli_callback s) (tag s) (sender_name s) v (rbuf_off s)
    (events s) (ticks s).
Definition set_rbuf_off (v : Z) (s : t caps os) : t caps os :=
  mk (bufsize s) (cli_flags s) (connection s) (pending_requests s) (next_key s) (reqseq s)
    (serialize_flags s) (close_reason s) (this_weak_ptr s) (mon_callback s) (cmd_handler s)
    (auth_result s) (auth_extra s) (cli_callback s) (tag s) (sender_name s) (rbuffer s) v
    (events s) (ticks s).
Definition set_events (v : list (event caps)) (s : t caps os) : t caps os :=
  mk (bufsize s) (cli_flags s) (connection s) (pending_requests s) (next_key s) (reqseq s)
    (serialize_flags s) (close_reason s) (this_weak_ptr s) (mon_callback s) (cmd_handler s)
    (auth_result s) (auth_extra s) (cli_callback s) (tag s) (sender_name s) (rbuffer s)
    (rbuf_off s) v (ticks s).
Definition set_ticks (v : nat) (s : t caps os) : t caps os :=
  mk (bufsize s) (cli_flags s) (connection s) (pending_requests s) (next_key s) (reqseq s)
    (serialize_flags s) (close_reason s) (this_weak_ptr s) (mon_callback s) (cmd_handler s)
    (auth_result s) (auth_extra s) (cli_callback s) (tag s) (sender_name s) (rbuffer s)
    (rbuf_off s) (events s) v.
End Setters.
End Client.
