(* ===== verification/Cli.v ===== *)
(** * The client's operations ([src/cli.cc])

    One definition per member function of [flora::internal::Client] and of
    [ReplyImpl], in the state monad on the client. An operation that waits is cut
    where it waits: [auth] into [auth_send] and [auth_result_of], the call that
    waits for its reply into [call_send], [call_poll] and [call_end], and each
    loop of the two threads into its iterations. *)
From S2P Require Import Prelude Defs Caps SerHelper SockAdap SockConn DispState.
From S2P Require Export Uri CliState.

(** What [handle_received] makes of the bytes in the buffer. *)
Inductive received_result : Type :=
  | Kept (off : Z)       (** everything before [off] was handled *)
  | Broken               (** [return false] *)
  | OutOfFuel.

Module Cli.
Import Client.
Section Ops.
Context {caps : Type} `{!CapsOps caps, !CapsFlags} {os : Type} `{!SockOS os, !SockConnect os}.
Context `{!SteadyClock, !UriParser}.

Abbreviation MC := (M (t caps os)).

(** [ClientOptions] and the constructor. *)
Definition new (bufsize flags : Z) : t caps os :=
  mk bufsize flags None [] 0 0 0 0 false false handle_cmd_before_auth None EmptyString false 0 EmptyString
    (replicate (Z.to_nat bufsize) Byte.x00) 0 [] 0.

Definition now : MC Z :=
  n ← gets ticks;
  modify (set_ticks (S n)) ;;
  mret (steady_clock n).

Definition emit (e : event caps) : MC unit :=
  modify (fun s => set_events (events s ++ [e]) s).

(** [connection->...] *)
Definition with_connection {A} (f : SocketConn.t os -> A * SocketConn.t os) : MC A :=
  c ← gets connection;
  match c with
  | None => undefined NullDeref
  | Some c => let '(a, c') := f c in modify (set_connection (Some c')) ;; mret a
  end.

Definition send (data : bytes) : MC bool := with_connection (SocketConn.send data).

Definition conn_closed : MC bool := with_connection (fun c => (SocketConn.closed c, c)).

(** ** Requests *)

(** The common end of the requests: [if (c <= 0) return FLORA_CLI_EINVAL;
    if (!connection->send(sbuffer, c)) return FLORA_CLI_ECONN;
    return FLORA_CLI_SUCCESS;] *)
Definition send_request (o : option bytes) : MC Z :=
  match o with
  | None | Some [] => mret FLORA_CLI_EINVAL
  | Some b => ok ← send b; mret (if ok : bool then FLORA_CLI_SUCCESS else FLORA_CLI_ECONN)
  end.

(** [name] is [None] for a null pointer. *)
Definition named_request (name : option string) (ser : string -> Z -> Z -> option bytes) : MC Z :=
  match name with
  | None => mret FLORA_CLI_EINVAL
  | Some name =>
      flags ← gets cli_flags;
      if has_flag flags FLORA_CLI_FLAG_MONITOR then mret FLORA_CLI_EMONITOR
      else
        size ← gets bufsize;
        sf ← gets serialize_flags;
        send_request (ser (c_str name) size sf)
  end.

Definition subscribe (name : option string) : MC Z :=
  named_request name RequestSerializer.serialize_subscribe.
Definition unsubscribe (name : option string) : MC Z :=
  named_request name RequestSerializer.serialize_unsubscribe.
Definition declare_method (name : option string) : MC Z :=
  named_request name RequestSerializer.serialize_declare_method.
Definition remove_method (name : option string) : MC Z :=
  named_request name RequestSerializer.serialize_remove_method.

Definition post (name : option string) (msg : option caps) (msgtype : Z) : MC Z :=
  match name with
  | None => mret FLORA_CLI_EINVAL
  | Some n =>
      if negb (is_valid_msgtype msgtype) then mret FLORA_CLI_EINVAL
      else named_request name (fun n => RequestSerializer.serialize_post n msgtype msg)
  end.

Definition ping : MC unit :=
  size ← gets bufsize;
  sf ← gets serialize_flags;
  match RequestSerializer.serialize_ping size sf with
  | None | Some [] => mret tt
  | Some b => send b ;; mret tt
  end.

Definition send_reply (callid code : Z) (data : option caps) : MC unit :=
  size ← gets bufsize;
  sf ← gets serialize_flags;
  match RequestSerializer.serialize_reply callid code data size sf with
  | None | Some [] => mret tt
  | Some b => send b ;; mret tt
  end.

(** ** Calls *)

Definition next_id : MC Z :=
  n ← gets reqseq;
  if bool_decide (n + 1 < two31) then modify (set_reqseq (n + 1)) ;; mret (n + 1)
  else undefined SignedOverflow.

(** [pending_requests.emplace(pending_requests.end())]; the key is the iterator. *)
Definition add_request (id : Z) (result : option (Response caps)) (cb : nat) : MC nat :=
  k ← gets next_key;
  modify (set_next_key (S k)) ;;
  modify (fun s => set_pending_requests (pending_requests s ++ [mkPendingRequest k id 0 result cb]) s) ;;
  mret k.

Definition erase_request (k : nat) : MC unit :=
  modify (fun s => set_pending_requests
    (filter (fun r => pr_key r <> k) (pending_requests s)) s).

(** The part of both calls up to [connection->send]: the return code, or the
    message, the new request and the time point [tp]. [send_mutex] is held, the list
    of requests is only locked while the request is added. *)
Definition call_prepare (in_callback : bool) (name : option string) (msg : option caps)
    (target : string) (timeout : Z) (result : option (Response caps)) (cb : nat)
  : MC (Z + bytes * nat * Z) :=
  match name with
  | None => mret (inl FLORA_CLI_EINVAL)
  | Some name =>
      flags ← gets cli_flags;
      if has_flag flags FLORA_CLI_FLAG_MONITOR then mret (inl FLORA_CLI_EMONITOR)
      else if in_callback then mret (inl FLORA_CLI_EDEADLOCK)
      else
        id ← next_id;
        size ← gets bufsize;
        sf ← gets serialize_flags;
        match RequestSerializer.serialize_call (c_str name) msg (c_str target) id timeout size sf with
        | None | Some [] => mret (inl FLORA_CLI_EINVAL)
        | Some b =>
            tp ← match result with
                 | Some _ => tm ← now; mret (tm + u32 (timeout + 200) * 1000000)
                 | None => mret 0
                 end;
            k ← add_request id result cb;
            mret (inr (b, k, tp))
        end
  end.

(** [if (!connection->send(sbuffer, c)) return FLORA_CLI_ECONN;]: the request stays. *)
Definition call_sent (b : bytes) : MC Z :=
  ok ← send b; mret (if ok : bool then FLORA_CLI_SUCCESS else FLORA_CLI_ECONN).

(** [call] with a [Response &reply]: up to the wait. *)
Definition call_send (in_callback : bool) (name : option string) (msg : option caps) (target : string)
    (reply : Response caps) (timeout : Z) : MC (Z + nat * Z) :=
  r ← call_prepare in_callback name msg target timeout (Some reply) 0;
  match r with
  | inl code => mret (inl code)
  | inr (b, k, tp) =>
      code ← call_sent b;
      mret (if bool_decide (code = FLORA_CLI_SUCCESS) then inr (k, tp) else inl code)
  end.

(** [call] with a callback, which can be called: an empty [std::function] is not
    modelled. It may be made from any thread. *)
Definition call_cb (name : option string) (msg : option caps) (target : string) (cb : nat)
    (timeout : Z) : MC Z :=
  r ← call_prepare false name msg target timeout None cb;
  match r with
  | inl code => mret code
  | inr (b, _, _) => call_sent b
  end.

Definition find_request (k : nat) (l : list (PendingRequest caps)) : option (PendingRequest caps) :=
  list_find (fun r => pr_key r = k) l ≫= fun p => Some p.2.

(** The loop of [call] around its wait: what is decided before waiting, and what
    after a wait that timed out. [None]: it waits (again). *)
Definition call_poll (k : nat) (timed_out : bool) : MC (option Z) :=
  l ← gets pending_requests;
  match find_request k l with
  | None => undefined UseAfterFree
  | Some r =>
      if timed_out then mret (Some FLORA_CLI_ETIMEOUT)
      else if bool_decide (pr_id r = 0) then mret (Some (pr_rcode r))
      else
        closed ← conn_closed;
        if closed : bool then reason ← gets close_reason; mret (Some reason) else mret None
  end.

(** [exit:]. The caller's [Response] is what the request's [result] points to. *)
Definition call_end (k : nat) : MC (option (Response caps)) :=
  l ← gets pending_requests;
  erase_request k ;;
  mret (find_request k l ≫= pr_result).

(** ** Closing *)

Definition is_async (r : PendingRequest caps) : bool := bool_decide (pr_result r = None).

Definition empty_response : Response caps := mkResponse 0 None EmptyString.

(** [iclose] up to [connection->close()]; whether it goes on. *)
Definition iclose_open : MC bool :=
  c ← gets connection;
  mret (match c with None => false | Some c => negb (SocketConn.closed c) end).

Definition conn_close : MC unit := with_connection (fun c => (tt, SocketConn.close c)).

Definition iclose_shut : MC bool :=
  go ← iclose_open;
  when go conn_close ;;
  mret go.

(** The critical section of [iclose]; the callbacks it collects. *)
Definition iclose_collect (err : Z) : MC (list nat) :=
  modify (set_close_reason err) ;;
  l ← gets pending_requests;
  modify (set_pending_requests (filter (fun r => is_async r = false) l)) ;;
  mret (pr_callback <$> filter (fun r => is_async r = true) l).

(** The callbacks are called, outside the critical section. *)
Definition tell_closed (err : Z) (cbs : list nat) : MC unit :=
  for_each cbs (fun cb => emit (response cb err empty_response)).

(** [if (passive) ...] *)
Definition tell_disconnected (passive : bool) : MC unit :=
  when passive
    (ccb ← gets cli_callback;
     when ccb (emit disconnected) ;;
     mcb ← gets mon_callback;
     when mcb (emit mon_disconnected)).

(** The rest of [iclose], but for the waking of the keepalive thread between the two. *)
Definition iclose_notify (passive : bool) (err : Z) (cbs : list nat) : MC unit :=
  tell_closed err cbs ;; tell_disconnected passive.

Definition iclose (passive : bool) (err : Z) : MC unit :=
  go ← iclose_shut;
  when go (cbs ← iclose_collect err; iclose_notify passive err cbs).

(** Between its statements [close] joins the two threads ([ClientThreads.v]). *)
Definition close (in_callback passive : bool) : MC Z :=
  if in_callback then mret FLORA_CLI_EDEADLOCK
  else
    iclose passive FLORA_CLI_ECLOSED ;;
    modify (set_cmd_handler handle_cmd_before_auth) ;;
    mret FLORA_CLI_SUCCESS.

(** ** Connecting *)

(** Up to the start of the receive thread; [None]: go on with [auth]. *)
Definition connect_open (noresp_timeout : Z) (uri : option string) (mcb : bool) : MC (option Z) :=
  match uri with
  | None => mret (Some FLORA_CLI_EINVAL)
  | Some uri =>
      match uri_parse (c_str uri) with
      | None => mret (Some FLORA_CLI_EINVAL)
      | Some u =>
          if bool_decide (scheme u = "unix"%string) then
            match SocketConn.connect_unix (path u) (SocketConn.new 0) with
            | (false, _) => mret (Some FLORA_CLI_ECONN)
            | (true, c) =>
                modify (set_connection (Some c)) ;; modify (set_serialize_flags 0) ;;
                modify (set_mon_callback mcb) ;; mret None
            end
          else if bool_decide (scheme u = "tcp"%string) then
            match SocketConn.connect_tcp (host u) (port u) (SocketConn.new noresp_timeout) with
            | (false, _) => mret (Some FLORA_CLI_ECONN)
            | (true, c) =>
                modify (set_connection (Some c)) ;;
                modify (set_serialize_flags CAPS_FLAG_NET_BYTEORDER) ;;
                modify (set_mon_callback mcb) ;; mret None
            end
          else mret (Some FLORA_CLI_EINVAL)
      end
  end.

(** [auth] up to its [send]; [None]: the message does not fit. *)
Definition auth_begin (pid : Z) (extra : string) : MC (option bytes) :=
  flags ← gets cli_flags;
  size ← gets bufsize;
  sf ← gets serialize_flags;
  match RequestSerializer.serialize_auth FLORA_VERSION (c_str extra) pid flags size sf with
  | None | Some [] => mret None
  | Some b => modify (set_auth_result (Some FLORA_CLI_EAUTH)) ;; mret (Some b)
  end.

(** The [send] of [auth]; [None]: it waits for the answer. *)
Definition auth_sent (b : bytes) : MC (option Z) :=
  ok ← send b;
  if ok : bool then mret None
  else modify (set_auth_result None) ;; mret (Some FLORA_CLI_EAUTH).

(** [auth] up to its wait. *)
Definition auth_send (pid : Z) (extra : string) : MC (option Z) :=
  o ← auth_begin pid extra;
  match o with
  | None => mret (Some FLORA_CLI_EAUTH)
  | Some b => auth_sent b
  end.

(** [auth] after its wait, with the result it was told. *)
Definition auth_result_of (result : Z) : MC Z := modify (set_auth_result None) ;; mret result.

(** [connect] with the result of [auth]. *)
Definition connect_finish (r : Z) (ccb : bool) (extra : string) : MC Z :=
  if bool_decide (r <> FLORA_CLI_SUCCESS) then
    modify (set_mon_callback false) ;; close false false ;; mret r
  else
    modify (set_cli_callback ccb) ;; modify (set_auth_extra extra) ;; mret FLORA_CLI_SUCCESS.

(** ** Receiving *)

(** The parser writes to the thread's [tag] and [sender_name] as it goes. *)
Definition put_tag (x : Z) (v : Z * string) : Z * string := (x, v.2).
Definition put_name (x : string) (v : Z * string) : Z * string := (v.1, x).

Definition parse {A} (p : P caps (Z * string) A) (c : caps) : MC (option A) :=
  fun s =>
    let '(r, (_, (tg, nm))) := p (c, (tag s, sender_name s)) in
    let s' := set_sender_name nm (set_tag tg s) in
    match r with
    | POk a => Done (Some a, s')
    | PFail | PFuel => Done (None, s')
    | PUndef u => Undef u
    end.

Definition before_auth (cmd : Z) (resp : caps) : MC bool :=
  if bool_decide (cmd <> CMD_AUTH_RESP) then mret false
  else
    ar ← gets auth_result;
    match ar with
    | None => undefined NullDeref
    | Some _ =>
        r ← parse ResponseParser.parse_auth resp;
        match r with
        | None => mret false
        | Some (result, version) =>
            modify (set_auth_result (Some result)) ;;
            modify (set_cmd_handler handle_cmd_after_auth) ;;
            mret true
        end
    end.

(** The reply reaches the first request with its id: the waiting caller's, whose
    id becomes 0, or a callback's, which leaves the list. *)
Fixpoint take_reply (msgid rescode : Z) (resp : Response caps) (l : list (PendingRequest caps))
  : list (PendingRequest caps) * option nat :=
  match l with
  | [] => ([], None)
  | r :: rest =>
      if bool_decide (pr_id r = msgid) then
        match pr_result r with
        | Some old =>
            (mkPendingRequest (pr_key r) 0 rescode
               (Some (if bool_decide (rescode = FLORA_CLI_SUCCESS) then resp else old))
               (pr_callback r) :: rest, None)
        | None => (rest, Some (pr_callback r))
        end
      else
        let '(rest', cb) := take_reply msgid rescode resp rest in (r :: rest', cb)
  end.

(** The test [if (cb)] before a callback is told always succeeds here: the callback of a
    request is not an empty [std::function]. *)
Definition handle_reply (msgid rescode : Z) (resp : Response caps) : MC unit :=
  l ← gets pending_requests;
  let '(l', cb) := take_reply msgid rescode resp l in
  modify (set_pending_requests l') ;;
  match cb with
  | None => mret tt
  | Some f =>
      emit (response f rescode
        (if bool_decide (rescode = FLORA_CLI_SUCCESS) then resp
         else mkResponse 0 (rs_data resp) (rs_extra resp)))
  end.

(** ** Monitor messages *)
Definition handle_monitor_list_all (fuel : nat) (resp : caps) : MC bool :=
  r ← parse (ResponseParser.parse_monitor_list_all fuel) resp;
  match r with None => mret false | Some items => emit (list_all items) ;; mret true end.
Definition handle_monitor_list_add (resp : caps) : MC bool :=
  r ← parse ResponseParser.parse_monitor_list_add resp;
  match r with None => mret false | Some item => emit (list_add item) ;; mret true end.
Definition handle_monitor_list_remove (resp : caps) : MC bool :=
  r ← parse ResponseParser.parse_monitor_list_remove resp;
  match r with None => mret false | Some id => emit (list_remove id) ;; mret true end.

(** The remaining eight have one shape. *)
Definition handle_monitor_detail (p : P caps (Z * string) unit) (subtype : Z) (resp : caps) : MC bool :=
  r ← parse p resp;
  match r with None => mret false | Some _ => emit (mon_detail subtype) ;; mret true end.
Definition handle_monitor_sub_all :=
  handle_monitor_detail ResponseParser.parse_monitor_sub_all MONITOR_SUB_ALL.
Definition handle_monitor_sub_add :=
  handle_monitor_detail ResponseParser.parse_monitor_sub_add MONITOR_SUB_ADD.
Definition handle_monitor_sub_remove :=
  handle_monitor_detail ResponseParser.parse_monitor_sub_remove MONITOR_SUB_REMOVE.
Definition handle_monitor_decl_all :=
  handle_monitor_detail ResponseParser.parse_monitor_decl_all MONITOR_DECL_ALL.
Definition handle_monitor_decl_add :=
  handle_monitor_detail ResponseParser.parse_monitor_decl_add MONITOR_DECL_ADD.
Definition handle_monitor_decl_remove :=
  handle_monitor_detail ResponseParser.parse_monitor_decl_remove MONITOR_DECL_REMOVE.
Definition handle_monitor_post :=
  handle_monitor_detail ResponseParser.parse_monitor_post MONITOR_POST.
Definition handle_monitor_call :=
  handle_monitor_detail ResponseParser.parse_monitor_call MONITOR_CALL.

Definition monitor_handlers (fuel : nat) : list (caps -> MC bool) :=
  [ handle_monitor_list_all fuel; handle_monitor_list_add; handle_monitor_list_remove;
    handle_monitor_sub_all; handle_monitor_sub_add; handle_monitor_sub_remove;
    handle_monitor_decl_all; handle_monitor_decl_add; handle_monitor_decl_remove;
    handle_monitor_post; handle_monitor_call ].

(** A new [ReplyImpl]. *)
Definition new_reply (client : bool) (id : Z) : ReplyImpl caps :=
  mkReplyImpl client FLORA_CALL_RETCODE_NORESP None id.

Definition after_auth (fuel : nat) (cmd : Z) (resp : caps) : MC bool :=
  if bool_decide (cmd = CMD_POST_RESP) then
    r ← parse (ResponseParser.parse_post put_tag put_name) resp;
    match r with
    | None => mret false
    | Some (name, msgtype, args) =>
        cb ← gets cli_callback; tg ← gets tag; nm ← gets sender_name;
        when cb (emit (recv_post (c_str name) msgtype args tg nm)) ;; mret true
    end
  else if bool_decide (cmd = CMD_CALL_RESP) then
    r ← parse (ResponseParser.parse_call put_tag put_name) resp;
    match r with
    | None => mret false
    | Some (name, args, msgid) =>
        cb ← gets cli_callback; tg ← gets tag; nm ← gets sender_name; w ← gets this_weak_ptr;
        when cb (emit (recv_call (c_str name) args (new_reply w msgid) tg nm)) ;; mret true
    end
  else if bool_decide (cmd = CMD_REPLY_RESP) then
    r ← parse (ResponseParser.parse_reply put_tag empty_response) resp;
    match r with
    | None => mret false
    | Some (msgid, rescode, reply) => handle_reply msgid rescode reply ;; mret true
    end
  else if bool_decide (cmd = CMD_MONITOR_RESP) then
    mcb ← gets mon_callback;
    if negb mcb then mret true
    else
      let '(o, resp') := caps_read_u32 resp in
      match o with
      | None => mret false
      | Some subtype =>
          if bool_decide (MONITOR_SUBTYPE_NUM <= subtype) then mret false
          else
            match monitor_handlers fuel !! Z.to_nat subtype with
            | None => undefined HandlerIndex
            | Some h => h resp'
            end
      end
  else if bool_decide (cmd = CMD_PONG_RESP) then mret true
  else mret false.

(** [(this->*cmd_handler)(cmd, resp)] *)
Definition handle_cmd (fuel : nat) (cmd : Z) (resp : caps) : MC bool :=
  h ← gets cmd_handler;
  match h with
  | handle_cmd_before_auth => before_auth cmd resp
  | handle_cmd_after_auth => after_auth fuel cmd resp
  end.

(** One message of the stream: parse it, read its command, handle it. *)
Definition handle_frame (frame : bytes) : MC bool :=
  match caps_parse frame with
  | None => mret false
  | Some resp =>
      let '(o, resp') := caps_read_i32 resp in
      match o with
      | None => mret false
      | Some cmd => handle_cmd (S (length frame)) cmd resp'
      end
  end.

(** The loop of [handle_received]. *)
Fixpoint received_loop (fuel : nat) (buf : bytes) (size off : Z) : MC received_result :=
  match fuel with
  | O => mret OutOfFuel
  | S fuel =>
      if bool_decide (size <= off) then mret (Kept off)
      else if bool_decide (size - off < 8) then mret (Kept off)
      else
        match caps_binary_info (drop (Z.to_nat off) buf) with
        | None => mret Broken
        | Some (_, length) =>
            if bool_decide (size - off < length) then mret (Kept off)
            else
              ok ← handle_frame (mem_read buf (Z.to_nat off) (Z.to_nat length));
              if ok : bool then received_loop fuel buf size (off + length) else mret Broken
        end
  end.

(** The [memmove] of what was not handled. *)
Definition keep_rest (buf : bytes) (size off : Z) : MC unit :=
  modify (set_rbuffer
    (if bool_decide (0 < off /\ 0 < size - off)
     then mem_write buf 0 (mem_read buf (Z.to_nat off) (Z.to_nat (size - off))) else buf)) ;;
  modify (set_rbuf_off (size - off)).

Definition handle_received (size : Z) : MC bool :=
  buf ← gets rbuffer;
  r ← received_loop (S (Z.to_nat size)) buf size 0;
  match r with
  | Kept off =>
      keep_rest buf size off ;;
      mret true
  | _ => mret false
  end.

(** [if (auth_result != nullptr) ... else err = FLORA_CLI_ECONN] *)
Definition recv_error : MC Z :=
  ar ← gets auth_result;
  match ar with
  | Some _ => modify (set_auth_result None) ;; mret FLORA_CLI_EAUTH
  | None => mret FLORA_CLI_ECONN
  end.

(** The bytes received, behind those already there; where they end. *)
Definition recv_store (d : bytes) : MC Z :=
  off ← gets rbuf_off;
  modify (fun s => set_rbuffer (mem_write (rbuffer s) (Z.to_nat off) d) s) ;;
  mret (off + Z.of_nat (length d)).

Definition recv_data (d : bytes) : MC bool :=
  size ← recv_store d;
  handle_received size.

(** One iteration of [recv_loop], with what [connection->recv] returned; [Some
    err]: the loop ends. The result of an authentication that is cut short stays
    [FLORA_CLI_EAUTH]. *)
Definition recv_step (r : Z + bytes) : MC (option Z) :=
  match r with
  | inl _ | inr [] => err ← recv_error; mret (Some err)
  | inr d =>
      ok ← recv_data d;
      if ok : bool then mret None else err ← recv_error; mret (Some err)
  end.

(** A whole iteration; [None] when the read is interrupted more than [fuel] times. *)
Definition recv_iteration (fuel : nat) (s : t caps os) : option (outcome (option Z * t caps os)) :=
  if bool_decide (rbuf_off s = bufsize s) then Some (Done (Some FLORA_CLI_EINSUFF_BUF, s))
  else
    match connection s with
    | None => Some (Undef NullDeref)
    | Some c =>
        match SocketConn.recv fuel (bufsize s - rbuf_off s) c with
        | None => None
        | Some (r, c') => Some (recv_step r (set_connection (Some c') s))
        end
    end.

(** One iteration of [keepalive_loop]: true when it ends. *)
Definition keepalive_step (timed_out : bool) : MC bool :=
  closed ← conn_closed;
  if closed : bool then mret true
  else when timed_out ping ;; mret false.

(** ** [ReplyImpl] *)

Definition write_code (code : Z) (r : ReplyImpl caps) : ReplyImpl caps :=
  mkReplyImpl (rp_client r) code (rp_data r) (rp_callid r).
Definition write_data (data : option caps) (r : ReplyImpl caps) : ReplyImpl caps :=
  mkReplyImpl (rp_client r) (rp_ret_code r) data (rp_callid r).

(** [send], which the destructor calls too. *)
Definition reply_send (r : ReplyImpl caps) : MC (ReplyImpl caps) :=
  if rp_client r then
    send_reply (rp_callid r) (rp_ret_code r) (rp_data r) ;;
    mret (mkReplyImpl false (rp_ret_code r) (rp_data r) (rp_callid r))
  else mret r.

Definition reply_end (r : ReplyImpl caps) : MC (ReplyImpl caps) := reply_send (write_code 0 r).
Definition reply_end_code (code : Z) (r : ReplyImpl caps) : MC (ReplyImpl caps) :=
  reply_send (write_code code r).
Definition reply_end_data (code : Z) (data : option caps) (r : ReplyImpl caps) : MC (ReplyImpl caps) :=
  reply_send (write_data data (write_code code r)).
Definition reply_destroy (r : ReplyImpl caps) : MC (ReplyImpl caps) := reply_send r.
End Ops.

(** ** [MsgSender]: who sent the message being handled *)
Section MsgSender.
Context {caps os : Type}.
Definition connection_type (s : t caps os) : Z := TagHelper.type (tag s).
Definition sender_pid (s : t caps os) : Z := TagHelper.pid (tag s).
Definition sender_ipaddr (s : t caps os) : string := TagHelper.ipaddr (tag s).
Definition sender_port (s : t caps os) : Z := TagHelper.port (tag s).
Definition sender_to_string (s : t caps os) : string :=
  ("[" +:+ TagHelper.to_string (tag s) +:+ "]" +:+ c_str (sender_name s))%string.
End MsgSender.
End Cli.
