(* ===== verification/CliSpec.v ===== *)
(** * What the client's operations do

    The receive buffer refines the framing specification; a reply reaches exactly
    the request it answers; closing answers every outstanding request; a request
    function sends its encoded message or nothing. *)
From S2P Require Import Prelude Defs Caps RefCaps SerHelper SockAdap SockConn Framing.
From S2P Require Import DispState Cli.
Import Client Cli.

Section Spec.
Context {caps : Type} `{!CapsOps caps, !CapsFlags} {os : Type} `{!SockOS os, !SockConnect os}.
Context `{!SteadyClock, !UriParser}.
Implicit Types (s : t caps os).

(** ** Receiving *)

(** The client has no bound on a message but the 32 bits of its length. *)
Definition no_limit : Z := two32 - 1.

Fixpoint handle_frames (fs : list bytes) : M (t caps os) bool :=
  match fs with
  | [] => mret true
  | f :: fs => ok ← handle_frame f; if ok : bool then handle_frames fs else mret false
  end.

(** The buffer once everything but [rest] bytes at its end was handled. *)
Definition compact (buf : bytes) (size rest : Z) : bytes :=
  if bool_decide (0 < size - rest /\ 0 < rest)
  then mem_write buf 0 (mem_read buf (Z.to_nat (size - rest)) (Z.to_nat rest)) else buf.

Definition received_spec (buf : bytes) (size : Z) : M (t caps os) bool :=
  match split no_limit (mem_read buf 0 (Z.to_nat size)) with
  | More fs rest =>
      ok ← handle_frames fs;
      if ok : bool then
        modify (set_rbuffer (compact buf size (Z.of_nat (length rest)))) ;;
        modify (set_rbuf_off (Z.of_nat (length rest))) ;;
        mret true
      else mret false
  | Bad fs _ => handle_frames fs ;; mret false
  end.

Context `{!CapsFraming caps}.

Lemma received_loop_spec fuel buf size : forall off s,
  0 <= off <= size -> size <= Z.of_nat (length buf) -> size < two31 -> (Z.to_nat (size - off) < fuel)%nat ->
  received_loop fuel buf size off s =
    match split no_limit (mem_read buf (Z.to_nat off) (Z.to_nat (size - off))) with
    | More fs rest =>
        (ok ← handle_frames fs;
         mret (if ok : bool then Kept (size - Z.of_nat (length rest)) else Broken)) s
    | Bad fs _ => (handle_frames fs ;; mret Broken) s
    end.
Proof.
  induction fuel as [|fuel IH]; intros off s Hoff Hlen Hs Hf; [lia|]. simpl.
  set (p := mem_read buf (Z.to_nat off) (Z.to_nat (size - off))).
  assert (Z.of_nat (length p) = size - off) as Hp by (subst p; rewrite mem_read_length; lia).
  rewrite split_eq, Hp. unfold HEADER_SIZE.
  destruct (bool_decide (size - off < 8)) eqn:H8; simpl.
  { replace (size - Z.of_nat (length p)) with off by lia. by destruct (bool_decide (size <= off)). }
  apply bool_decide_eq_false in H8. rewrite (bool_decide_false (size <= off)) by lia.
  assert (caps_binary_info (drop (Z.to_nat off) buf) = caps_binary_info p) as ->.
  { rewrite <- (take_drop (Z.to_nat (size - off)) (drop (Z.to_nat off) buf)).
    apply binary_info_prefix. unfold HEADER_SIZE. fold (mem_read buf (Z.to_nat off) (Z.to_nat (size - off))).
    fold p. lia. }
  destruct (caps_binary_info p) as [[v n]|] eqn:Hi; [|done].
  pose proof (binary_info_length _ _ _ Hi) as Hn. unfold is_u32 in Hn.
  rewrite (bool_decide_false (no_limit < n)) by (unfold no_limit; lia).
  case_bool_decide as Hnl; [simpl; by replace (size - Z.of_nat (length p)) with off by lia|].
  cbn zeta.
  assert (mem_read buf (Z.to_nat off) (Z.to_nat n) = take (Z.to_nat n) p) as ->.
  { subst p. unfold mem_read. rewrite take_take. f_equal. lia. }
  unfold handle_frame at 1.
  destruct (caps_parse (take (Z.to_nat n) p)) as [c|] eqn:Hparse; [|done].
  pose proof (parse_take_pos _ _ _ Hparse) as H8n.
  assert (drop (Z.to_nat n) p = mem_read buf (Z.to_nat (off + n)) (Z.to_nat (size - (off + n)))) as ->.
  { subst p. unfold mem_read. rewrite skipn_firstn_comm, drop_drop. f_equal; [lia|]. f_equal. lia. }
  assert (forall s', received_loop fuel buf size (off + n) s' = _) as IH'
    by (intros s'; apply (IH (off + n) s'); lia).
  destruct (split _ _) as [fs rest|fs e]; simpl add_frame; cbn iota; simpl handle_frames;
    unfold handle_frame at 1; rewrite Hparse; unfold mbind, M_bind;
    destruct ((let '(o, resp') := caps_read_i32 c in
      match o with None => mret false | Some cmd => handle_cmd _ cmd resp' end) s) as [[[|] s1]|]; try done;
    apply IH'.
Qed.

(** C18. [handle_received] refines the framing specification: it handles exactly
    the whole messages of the received bytes, in order, stops at the first that is
    refused, returns false exactly then or when the stream is malformed, and
    otherwise leaves the incomplete end at the start of the buffer. Its loop ends. *)
Theorem received_refines_split size s :
  0 <= size -> size <= Z.of_nat (length (rbuffer s)) -> size < two31 ->
  handle_received size s = received_spec (rbuffer s) size s /\
  (forall fs rest, split no_limit (mem_read (rbuffer s) 0 (Z.to_nat size)) = More fs rest ->
     mem_read (compact (rbuffer s) size (Z.of_nat (length rest))) 0 (length rest) = rest /\
     length (compact (rbuffer s) size (Z.of_nat (length rest))) = length (rbuffer s)).
Proof.
  intros Hpos Hlen Hs. set (p := mem_read (rbuffer s) 0 (Z.to_nat size)).
  assert (Z.of_nat (length p) = size) as Hp by (subst p; rewrite mem_read_length; lia).
  split.
  - unfold handle_received, received_spec. unfold mbind at 1, M_bind at 1, gets at 1.
    unfold mbind at 1, M_bind at 1. rewrite received_loop_spec by lia. rewrite Z.sub_0_r.
    change (Z.to_nat 0) with 0%nat. fold p.
    destruct (split no_limit p) as [fs rest|fs e] eqn:Hsp; unfold mbind, M_bind;
      destruct (handle_frames fs s) as [[[|] s1]|]; try done. simpl. unfold keep_rest, mbind, M_bind, modify.
    unfold compact. by replace (size - (size - Z.of_nat (length rest))) with (Z.of_nat (length rest)) by lia.
  - intros fs rest Hsp. pose proof (split_concat _ _ _ _ Hsp) as Hc. fold p in Hc.
    assert (Z.of_nat (length (concat fs)) = size - Z.of_nat (length rest)) as Hcl.
    { rewrite <- Hp, Hc, length_app. lia. }
    assert (mem_read (rbuffer s) (Z.to_nat (size - Z.of_nat (length rest))) (length rest) = rest) as Hr.
    { transitivity (drop (length (concat fs)) p).
      - subst p. unfold mem_read. rewrite drop_0, skipn_firstn_comm. f_equal; [lia|]. f_equal. lia.
      - rewrite Hc. by apply drop_app_exact. }
    unfold compact. rewrite Nat2Z.id, Hr. case_bool_decide as Hb.
    + split; [apply mem_read_write_same; lia|]. rewrite mem_write_length; lia.
    + split; [|done]. destruct (decide (rest = [])) as [->|Hne]; [by unfold mem_read|].
      assert (size - Z.of_nat (length rest) = 0) as Hz.
      { assert (0 < Z.of_nat (length rest)) by (destruct rest; [done|simpl; lia]). lia. }
      rewrite Hz in Hr. exact Hr.
Qed.

(** ** Replies *)

(** The request a waiting caller finds once it was answered. *)
Definition settled (rescode : Z) (resp : Response caps) (r : PendingRequest caps) : PendingRequest caps :=
  mkPendingRequest (pr_key r) 0 rescode
    (if bool_decide (rescode = FLORA_CLI_SUCCESS) then Some resp else pr_result r) (pr_callback r).

(** What the callback of a request is given. *)
Definition told (rescode : Z) (resp : Response caps) : Response caps :=
  if bool_decide (rescode = FLORA_CLI_SUCCESS) then resp
  else mkResponse 0 (rs_data resp) (rs_extra resp).

Lemma take_reply_none msgid rescode (resp : Response caps) l :
  msgid ∉ pr_id <$> l -> take_reply msgid rescode resp l = (l, None).
Proof.
  induction l as [|r l IH]; simpl; [done|]. rewrite not_elem_of_cons. intros [? ?].
  rewrite bool_decide_false by done. by rewrite IH.
Qed.

Lemma take_reply_some msgid rescode (resp : Response caps) l1 r l2 :
  msgid ∉ pr_id <$> l1 -> pr_id r = msgid ->
  take_reply msgid rescode resp (l1 ++ r :: l2) =
    if is_async r then (l1 ++ l2, Some (pr_callback r))
    else (l1 ++ settled rescode resp r :: l2, None).
Proof.
  intros Hn Hr. induction l1 as [|x l1 IH]; simpl.
  - rewrite bool_decide_true by done. unfold is_async, settled.
    destruct (pr_result r) as [old|]; [|done]. simpl. by case_bool_decide.
  - apply not_elem_of_cons in Hn as [? ?]. rewrite bool_decide_false by done. rewrite IH by done.
    by destruct (is_async r).
Qed.

Lemma split_id msgid (l : list (PendingRequest caps)) :
  msgid ∈ pr_id <$> l -> exists l1 r l2, l = l1 ++ r :: l2 /\ (msgid ∉ pr_id <$> l1) /\ pr_id r = msgid.
Proof.
  induction l as [|x l IH]; simpl; [intros []%elem_of_nil|]. intros [He|Hl]%elem_of_cons.
  - exists [], x, l. split_and!; [done|apply not_elem_of_nil|done].
  - destruct (decide (pr_id x = msgid)) as [He|Hne].
    { exists [], x, l. split_and!; [done|apply not_elem_of_nil|done]. }
    destruct (IH Hl) as (l1 & r & l2 & -> & Hn & Hr). exists (x :: l1), r, l2.
    split_and!; [done| |done]. simpl. rewrite not_elem_of_cons. auto.
Qed.

Lemma set_pending_requests_same s : set_pending_requests (pending_requests s) s = s.
Proof. by destruct s. Qed.

(** A reply, as an exact change of the state. *)
Lemma handle_reply_exact msgid rescode resp s :
  (msgid ∉ pr_id <$> pending_requests s -> handle_reply msgid rescode resp s = Done (tt, s)) /\
  (forall l1 r l2, pending_requests s = l1 ++ r :: l2 -> msgid ∉ pr_id <$> l1 -> pr_id r = msgid ->
     handle_reply msgid rescode resp s = Done (tt,
       if is_async r then
         set_events (events s ++ [response (pr_callback r) rescode (told rescode resp)])
           (set_pending_requests (l1 ++ l2) s)
       else set_pending_requests (l1 ++ settled rescode resp r :: l2) s)).
Proof.
  unfold handle_reply, mbind, M_bind, gets. split.
  - intros Hn. rewrite take_reply_none by done. unfold modify.
    by rewrite set_pending_requests_same.
  - intros l1 r l2 Hl Hn Hr. rewrite Hl, take_reply_some by done.
    by destruct (is_async r).
Qed.

(** A reply reaches exactly the request it answers: the first with its id. A
    waiting caller's request becomes answered, with the code and, on success only,
    the response; a callback's leaves the list and its callback is called once, with
    the code; every other request stays as it is, and a reply to no request changes
    nothing. *)
Theorem reply_reaches msgid rescode resp s :
  (msgid ∉ pr_id <$> pending_requests s -> handle_reply msgid rescode resp s = Done (tt, s)) /\
  (forall l1 r l2, pending_requests s = l1 ++ r :: l2 -> msgid ∉ pr_id <$> l1 -> pr_id r = msgid ->
     handle_reply msgid rescode resp s = Done (tt,
       if is_async r then
         set_events (events s ++ [response (pr_callback r) rescode (told rescode resp)])
           (set_pending_requests (l1 ++ l2) s)
       else set_pending_requests (l1 ++ settled rescode resp r :: l2) s)).
Proof. apply handle_reply_exact. Qed.

(** ** Closing *)

Lemma iclose_shut_eq s : iclose_shut s =
  match connection s with
  | None => Done (false, s)
  | Some c =>
      if SocketConn.closed c then Done (false, s)
      else Done (true, set_connection (Some (SocketConn.close c)) s)
  end.
Proof.
  unfold iclose_shut, iclose_open, conn_close, with_connection, mbind, M_bind, gets, modify, when.
  destruct (connection s) as [c|] eqn:Hc; simpl; [|done]. destruct (SocketConn.closed c); simpl; [done|]. by rewrite Hc.
Qed.

(** What a close calls. *)
Definition close_events (passive : bool) (err : Z) s : list (event caps) :=
  ((fun r : PendingRequest caps => response (pr_callback r) err empty_response) <$>
     filter (fun r => is_async r = true) (pending_requests s)) ++
  (if passive then
     (if cli_callback s then [disconnected] else []) ++
     (if mon_callback s then [mon_disconnected] else [])
   else []).

(** The first [iclose] of a connected client closes the connection, stores the
    reason, calls the callback of every request that has one, once, in the order of
    the requests, with the reason, keeps exactly the requests of the waiting
    callers, and announces the disconnection exactly when it is passive and to the
    callbacks that are set; every later one does nothing. *)
Theorem iclose_exact passive err s c :
  connection s = Some c -> SocketConn.closed c = false ->
  let s' := set_events (events s ++ close_events passive err s)
      (set_pending_requests (filter (fun r => is_async r = false) (pending_requests s))
        (set_close_reason err (set_connection (Some (SocketConn.close c)) s))) in
  iclose passive err s = Done (tt, s') /\
  forall passive' err', iclose passive' err' s' = Done (tt, s').
Proof.
  intros Hc Ho s'. assert (forall l (s0 : t caps os),
    for_each l (fun cb => emit (response cb err empty_response)) s0 =
    Done (tt, set_events (events s0 ++ ((fun cb => response cb err empty_response) <$> l)) s0)) as Hev.
  { induction l as [|x l IH]; intros s0; simpl.
    - rewrite app_nil_r. by destruct s0.
    - unfold mbind, M_bind, emit, modify. rewrite IH. simpl. by rewrite <- app_assoc. }
  split.
  - unfold iclose, mbind, M_bind. rewrite iclose_shut_eq, Hc, Ho.
    unfold iclose_collect, iclose_notify, tell_closed, tell_disconnected, mbind, M_bind, gets, modify, when.
    cbn -[for_each filter]. rewrite Hev. subst s'. unfold close_events.
    rewrite <- list_fmap_compose. simpl.
    destruct passive; simpl; [|by rewrite app_nil_r].
    unfold gets, emit, modify, mbind, M_bind, mret, M_ret. simpl.
    destruct (cli_callback s); simpl; destruct (mon_callback s); simpl;
      rewrite <- ?app_assoc, ?app_nil_r; done.
  - intros. unfold iclose, mbind, M_bind. rewrite iclose_shut_eq. subst s'. simpl. by rewrite SocketConn.close_closed.
Qed.

(** ** Requests *)

(** What was handed to the connection. *)
Definition sent_of s : list bytes :=
  match connection s with Some c => SocketConn.sent c | None => [] end.

Definition conn_is_closed s : bool :=
  match connection s with Some c => SocketConn.closed c | None => true end.

(** Everything but the connection. *)
Definition but_connection s : t caps os := set_connection None s.

(** The outcome of a request whose encoding is [o]. *)
Definition request_outcome (o : option bytes) s (code : Z) s' : Prop :=
  but_connection s' = but_connection s /\ conn_is_closed s' = conn_is_closed s /\
  match o with
  | None | Some [] => code = FLORA_CLI_EINVAL /\ s' = s
  | Some b =>
      code = FLORA_CLI_SUCCESS /\ sent_of s' = sent_of s ++ [b] /\ conn_is_closed s = false \/
      code = FLORA_CLI_ECONN /\ sent_of s' = sent_of s
  end.

Lemma wp_send b (Q : bool -> t caps os -> Prop) s :
  connection s <> None ->
  (forall ok s', but_connection s' = but_connection s -> conn_is_closed s' = conn_is_closed s ->
     connection s' <> None -> sent_of s' = sent_of s ++ (if ok : bool then [b] else []) ->
     (conn_is_closed s = true -> ok = false) -> Q ok s') ->
  wp (send b) Q s.
Proof.
  unfold send, with_connection, wpx, mbind, M_bind, gets, modify, mret, M_ret, sent_of, conn_is_closed.
  intros Hc HQ. destruct (connection s) as [c|]; [|done].
  destruct (SocketConn.send b c) as [ok c'] eqn:Hs. apply HQ; simpl; try done.
  - by apply SocketConn.send_sent in Hs as [_ ?].
  - by apply SocketConn.send_sent in Hs as [? _].
  - intros Hcl. rewrite SocketConn.send_closed in Hs by done. by simplify_eq.
Qed.

Lemma wp_send_request o s :
  connection s <> None -> wp (send_request o) (request_outcome o s) s.
Proof.
  intros Hc. unfold send_request, request_outcome. destruct o as [[|x b]|]; [by wsteps| |by wsteps].
  wsteps. apply wp_send; [done|]. intros ok s' Hb Hcc _ Hse Hcl. wsteps.
  destruct ok; split_and!; try done.
  - left. split_and!; try done. destruct (conn_is_closed s); [|done]. by specialize (Hcl eq_refl).
  - right. split; [done|]. by rewrite Hse, app_nil_r.
Qed.

(** The encoding of each request that has a name, when its arguments are acceptable:
    the name is a C string and the client is not a monitor. *)
Definition encoded (name : option string) (ser : string -> Z -> Z -> option bytes) s : option bytes :=
  match name with
  | Some n => ser (c_str n) (bufsize s) (serialize_flags s)
  | None => None
  end.

Definition is_monitor s : bool := has_flag (cli_flags s) FLORA_CLI_FLAG_MONITOR.

(** A request of a client that is not a monitor sends its encoding, whole and
    once, and says so, or sends nothing: it succeeds exactly when the encoding was
    handed over, reports a bad argument exactly when there is no encoding, and a
    connection error otherwise, always so on a closed connection. A monitor sends
    nothing. Nothing but the connection changes. *)
Theorem requests_exact name msg type s :
  connection s <> None ->
  forall op ser, In (op, ser)
    [ (subscribe name, RequestSerializer.serialize_subscribe);
      (unsubscribe name, RequestSerializer.serialize_unsubscribe);
      (declare_method name, RequestSerializer.serialize_declare_method);
      (remove_method name, RequestSerializer.serialize_remove_method);
      (post name msg type, fun n size flags =>
         if is_valid_msgtype type then RequestSerializer.serialize_post n type msg size flags else None) ] ->
  exists code s', op s = Done (code, s') /\
    if is_monitor s then
      s' = s /\ (code = FLORA_CLI_EMONITOR \/ code = FLORA_CLI_EINVAL)
    else request_outcome (encoded name ser s) s code s'.
Proof.
  intros Hc op ser Hin.
  enough (wp op (fun code s' => if is_monitor s then
      s' = s /\ (code = FLORA_CLI_EMONITOR \/ code = FLORA_CLI_EINVAL)
    else request_outcome (encoded name ser s) s code s') s) as Hwp
    by (apply wp_done in Hwp as (code & s' & ? & ?); eauto).
  assert (forall ser', wp (named_request name ser') (fun code s' => if is_monitor s then
      s' = s /\ (code = FLORA_CLI_EMONITOR \/ code = FLORA_CLI_EINVAL)
    else request_outcome (encoded name ser' s) s code s') s) as Hnamed.
  { intros ser'. unfold named_request, encoded, is_monitor. destruct name as [n|]; wsteps.
    - destruct (has_flag _ _); wsteps; [by auto|]. by apply wp_send_request.
    - destruct (has_flag _ _); [by auto|]. done. }
  simpl in Hin. destruct_or?; simplify_eq; try apply Hnamed. unfold post.
  destruct name as [n|]; [destruct (is_valid_msgtype type)|].
  1: apply (Hnamed (fun n => RequestSerializer.serialize_post n type msg)).
  all: simpl; wsteps; destruct (is_monitor s); split_and!; by auto.
Qed.
End Spec.
