(* ===== verification/CliCalls.v ===== *)
(** * Calls in progress: callers, the receive thread and a close

    The system of the threads that make calls, the receive thread that takes the
    replies and the thread that closes the client. One step is one critical section
    of [call], [handle_cmd_after_auth] or [iclose]; the steps interleave anywhere.
    A sync call's [Response] lives as long as the call, so a reply that is written
    to a request whose call has returned is undefined behaviour. *)
From S2P Require Import Prelude Defs Caps SerHelper SockAdap SockConn DispState Cli CliSpec.
Import Client Cli.

Module CallProtocol.
Section Ops.
Context {caps : Type} `{!CapsOps caps, !CapsFlags} {os : Type} `{!SockOS os, !SockConnect os}.
Context `{!SteadyClock}.

(** What a close in progress has still to do. *)
Inductive closing : Type :=
  | NotClosing
  | Shut (passive : bool) (err : Z)                       (** the connection is closed *)
  | Collected (passive : bool) (err : Z) (cbs : list nat).

Record sys := mkSys {
  client : t caps os;
  sending : option (bytes * option nat);   (** the call that holds [send_mutex]; its key if it waits *)
  calls : list (nat * Z);                  (** the sync calls that have not returned: key and id *)
  close_state : closing;
  (* history *)
  issued : list nat;                       (** the callbacks of the requests added *)
  wire : list Z;                           (** the ids of the calls that were sent *)
  replies : list (Z * Z * Response caps);
  errs : list Z;                           (** the reasons given to [iclose] *)
  finished : list (Z * Z * option (Response caps) * bool)
    (** id, return code, [Response], and whether the call woke between the close of the
        connection and the critical section that stores the reason *)
}.

Inductive label : Type :=
  | LSync (name : option string) (msg : option caps) (target : string) (reply : Response caps) (timeout : Z)
  | LAsync (name : option string) (msg : option caps) (target : string) (cb : nat) (timeout : Z)
  | LSend                                        (** the call that holds [send_mutex] sends *)
  | LPoll (k : nat) (timed_out : bool)           (** a waiting call looks at its request *)
  | LReply (msgid rescode : Z) (resp : Response caps)
  | LShut (passive : bool) (err : Z)
  | LCollect
  | LNotify.

Inductive res : Type :=
  | Next (st : sys)
  | Crash (u : ub).

Definition after {A} (o : outcome (A * t caps os)) (f : A -> t caps os -> sys) : res :=
  match o with
  | Done (a, s) => Next (f a s)
  | Undef u => Crash u
  end.

(** A reply that would be written to a [Response] that is gone. *)
Definition dangling (st : sys) (msgid : Z) : bool :=
  match list_find (fun r => pr_id r = msgid) (pending_requests (client st)) with
  | Some (_, r) => negb (is_async r) && bool_decide (pr_key r ∉ (calls st).*1)
  | None => false
  end.

(** A waiting call wakes: it returns, with its code and its [Response], or waits again. *)
Definition call_wake (k : nat) (timed_out : bool) : M (t caps os) (option (Z * option (Response caps))) :=
  r ← call_poll k timed_out;
  match r with
  | None => mret None
  | Some code => reply ← call_end k; mret (Some (code, reply))
  end.

(** Whether a wake finds a closed connection whose reason is not stored yet. *)
Definition in_between (st : sys) (k : nat) (timed_out : bool) : bool :=
  match close_state st, find_request k (pending_requests (client st)) with
  | Shut _ _, Some r => negb timed_out && bool_decide (pr_id r <> 0)
  | _, _ => false
  end.

Definition exec (st : sys) (lb : label) : option res :=
  let '(mkSys c sd cs cl iss wr rp er fin) := st in
  match lb with
  | LSync name msg target reply timeout =>
      match sd with
      | Some _ => None
      | None => Some (after (call_prepare false name msg target timeout (Some reply) 0 c) (fun r c' =>
          match r with
          | inl code => mkSys c' None cs cl iss wr rp er fin
          | inr (b, k, _) => mkSys c' (Some (b, Some k)) (cs ++ [(k, reqseq c')]) cl iss wr rp er fin
          end))
      end
  | LAsync name msg target cb timeout =>
      match sd with
      | Some _ => None
      | None => Some (after (call_prepare false name msg target timeout None cb c) (fun r c' =>
          match r with
          | inl code => mkSys c' None cs cl iss wr rp er fin
          | inr (b, _, _) => mkSys c' (Some (b, None)) cs cl (iss ++ [cb]) wr rp er fin
          end))
      end
  | LSend =>
      match sd with
      | None => None
      | Some (b, k) => Some (after (call_sent b c) (fun code c' =>
          let ok := bool_decide (code = FLORA_CLI_SUCCESS) in
          mkSys c' None
            (match k with
             | Some k => if ok then cs else filter (fun x => x.1 <> k) cs
             | None => cs
             end) cl iss (if ok then wr ++ [reqseq c'] else wr) rp er
            (match k with
             | Some k => if ok then fin else fin ++ [(reqseq c', code, None, false)]
             | None => fin
             end)))
      end
  | LPoll k timed_out =>
      match list_find (fun x => x.1 = k) cs, bool_decide (sd ≫= snd = Some k) with
      | Some (_, (_, id)), false =>
          Some (after (call_wake k timed_out c) (fun r c' =>
            match r with
            | None => mkSys c' sd cs cl iss wr rp er fin
            | Some (code, reply) =>
                mkSys c' sd (filter (fun x => x.1 <> k) cs) cl iss wr rp er
                  (fin ++ [(id, code, reply, in_between st k timed_out)])
            end))
      | _, _ => None
      end
  | LReply msgid rescode resp =>
      Some (if dangling st msgid then Crash UseAfterFree
            else after (handle_reply msgid rescode resp c) (fun _ c' =>
              mkSys c' sd cs cl iss wr (rp ++ [(msgid, rescode, resp)]) er fin))
  | LShut passive err =>
      match cl with
      | NotClosing => Some (after (iclose_shut c) (fun go c' =>
          mkSys c' sd cs (if go : bool then Shut passive err else NotClosing) iss wr rp
            (er ++ [err]) fin))
      | _ => None
      end
  | LCollect =>
      match cl with
      | Shut passive err => Some (after (iclose_collect err c) (fun cbs c' =>
          mkSys c' sd cs (Collected passive err cbs) iss wr rp er fin))
      | _ => None
      end
  | LNotify =>
      match cl with
      | Collected passive err cbs => Some (after (iclose_notify passive err cbs c) (fun _ c' =>
          mkSys c' sd cs NotClosing iss wr rp er fin))
      | _ => None
      end
  end.

(** A client that has just connected. *)
Definition start (c : t caps os) : sys := mkSys c None [] NotClosing [] [] [] [] [].

Definition connected (c : t caps os) : Prop :=
  conn_is_closed c = false /\ pending_requests c = [] /\ events c = [] /\ reqseq c = 0.

(** The peer answers only calls it received, no more calls are made than [reqseq] can
    number, and a close has a reason. *)
Definition orderly (st : sys) (lb : label) : Prop :=
  match lb with
  | LSync _ _ _ _ _ | LAsync _ _ _ _ _ => reqseq (client st) + 1 < two31
  | LReply msgid _ _ => msgid ∈ wire st
  | LShut _ err => err <> FLORA_CLI_SUCCESS
  | _ => True
  end.

Definition step (st st' : sys) : Prop :=
  exists lb, exec st lb = Some (Next st') /\ orderly st lb.

(** The callbacks that were told a result, in order. *)
Definition answered (l : list (event caps)) : list nat :=
  omap (fun e => match e with response cb _ _ => Some cb | _ => None end) l.

(** The callbacks a request or the close in progress still holds. *)
Definition outstanding (st : sys) : list nat :=
  (pr_callback <$> filter (fun r => is_async r = true) (pending_requests (client st))) ++
  match close_state st with Collected _ _ cbs => cbs | _ => [] end.
End Ops.
Arguments sys caps os : clear implicits.
Arguments label caps : clear implicits.
End CallProtocol.

Import CallProtocol.

Section Calls.
Context {caps : Type} `{!CapsOps caps, !CapsFlags} {os : Type} `{!SockOS os, !SockConnect os}.
Context `{!SteadyClock}.
Implicit Types (c : t caps os) (st : sys caps os) (r : PendingRequest caps).

(** ** The critical sections *)

(** What the calls never change. *)
Definition same_conn c c' : Prop :=
  conn_is_closed c' = conn_is_closed c /\ connection c' <> None /\
  events c' = events c /\ close_reason c' = close_reason c.

Lemma same_conn_refl c : connection c <> None -> same_conn c c.
Proof. by unfold same_conn. Qed.

Definition prepared (result : option (Response caps)) (cb : nat) c
    (o : Z + bytes * nat * Z) c' : Prop :=
  same_conn c c' /\
  match o with
  | inl code =>
      code <> FLORA_CLI_SUCCESS /\ pending_requests c' = pending_requests c /\ next_key c' = next_key c /\
      (reqseq c' = reqseq c \/ reqseq c' = reqseq c + 1)
  | inr (_, k, _) =>
      reqseq c' = reqseq c + 1 /\ k = next_key c /\ next_key c' = S (next_key c) /\
      pending_requests c' = pending_requests c ++ [mkPendingRequest k (reqseq c') 0 result cb]
  end.

Lemma wp_call_prepare name msg target timeout result cb c :
  connection c <> None -> reqseq c + 1 < two31 ->
  wp (call_prepare false name msg target timeout result cb) (prepared result cb c) c.
Proof.
  intros Hc Hn. unfold call_prepare, next_id, add_request, now, prepared, same_conn.
  destruct name as [n|]; [|wsteps; split_and!; by auto].
  wsteps. destruct (has_flag _ _); [wsteps; split_and!; by auto|].
  wsteps. rewrite bool_decide_true by done. wsteps. destruct (RequestSerializer.serialize_call _ _ _ _ _ _ _) as [[|x b]|].
  1, 3: wsteps; split_and!; by auto.
  wsteps. destruct result; wsteps; split_and!; done.
Qed.

(** The fields a send leaves as they are. *)
Lemma but_connection_eq c c' :
  but_connection c' = but_connection c ->
  pending_requests c' = pending_requests c /\ next_key c' = next_key c /\ reqseq c' = reqseq c /\
  events c' = events c /\ close_reason c' = close_reason c.
Proof. destruct c, c'. unfold but_connection. simpl. intros. by simplify_eq. Qed.

Lemma wp_call_sent b c :
  connection c <> None ->
  wp (call_sent b) (fun code c' => same_conn c c' /\ but_connection c' = but_connection c /\
    (code = FLORA_CLI_SUCCESS \/ code = FLORA_CLI_ECONN)) c.
Proof.
  intros Hc. unfold call_sent. wsteps. apply wp_send; [done|]. intros ok c' Hb Hcl Hn _ _. wsteps.
  pose proof (but_connection_eq _ _ Hb) as (_ & _ & _ & He & Hr).
  destruct ok; split_and!; auto; by split_and!.
Qed.

Lemma find_request_in k l r :
  NoDup (pr_key <$> l) -> r ∈ l -> pr_key r = k -> find_request k l = Some r.
Proof.
  unfold find_request. induction l as [|x l IH]; simpl; [intros _ []%elem_of_nil|].
  intros [Hx Hnd]%NoDup_cons [->|Hin]%elem_of_cons Hk.
  - by rewrite decide_True.
  - rewrite decide_False.
    + specialize (IH Hnd Hin Hk). destruct (list_find _ l); [|done]. simpl. by destruct p.
    + intros He. apply Hx. apply list_elem_of_fmap. exists r. split; congruence.
Qed.

(** How a call that wakes ends. *)
Definition woken r k (to : bool) c (o : option (Z * option (Response caps))) c' : Prop :=
  same_conn c c' /\ next_key c' = next_key c /\ reqseq c' = reqseq c /\
  match o with
  | None => pending_requests c' = pending_requests c
  | Some (code, reply) =>
      reply = pr_result r /\
      pending_requests c' = filter (fun r => pr_key r <> k) (pending_requests c) /\
      (code = FLORA_CLI_ETIMEOUT \/ pr_id r = 0 /\ code = pr_rcode r \/
       to = false /\ pr_id r <> 0 /\ conn_is_closed c = true /\ code = close_reason c)
  end.

Lemma wp_call_wake k to r c :
  connection c <> None -> NoDup (pr_key <$> pending_requests c) ->
  r ∈ pending_requests c -> pr_key r = k ->
  wp (call_wake k to) (woken r k to c) c.
Proof.
  intros Hc Hnd Hin Hk. pose proof (find_request_in k _ r Hnd Hin Hk) as Hf.
  unfold call_wake, call_poll, call_end, erase_request, woken, same_conn. wsteps. rewrite Hf.
  destruct to; [wsteps; rewrite Hf; split_and!; by auto|].
  case_bool_decide as Hid; [wsteps; rewrite Hf; split_and!; by auto|].
  wsteps. unfold conn_closed, with_connection. wsteps.
  destruct (connection c) as [cn|] eqn:Hcn; [|done]. wsteps.
  destruct (SocketConn.closed cn) eqn:Hcl; wsteps; unfold conn_is_closed; simpl;
    rewrite ?Hf, ?Hcn, ?Hcl; split_and!; auto 8.
Qed.

(** ** The invariant *)

(** An id this client has given to a request: they count from 1. *)
Definition used c (id : Z) : Prop := 1 <= id <= reqseq c.

(** A sync call in progress has its request, which waits for its reply or holds one. *)
Definition waits st (k : nat) (id : Z) : Prop :=
  exists r, r ∈ pending_requests (client st) /\ pr_key r = k /\ pr_result r <> None /\
    (pr_id r = id \/
     pr_id r = 0 /\ exists resp, (id, pr_rcode r, resp) ∈ replies st /\
       (pr_rcode r = FLORA_CLI_SUCCESS -> pr_result r = Some resp)).

Section Invariant.
(** The reason the client holds at the start. *)
Context (r0 : Z).

(** What a call may return. *)
Definition outcome_ok st (x : Z * Z * option (Response caps) * bool) : Prop :=
  let '(id, code, reply, early) := x in
  (exists resp, (id, code, resp) ∈ replies st /\
     (code = FLORA_CLI_SUCCESS -> reply = Some resp)) \/
  code = FLORA_CLI_ETIMEOUT \/ code = FLORA_CLI_ECONN \/ code ∈ errs st \/ early = true /\ code = r0.

Record cinv st : Prop := {
  ci_conn : connection (client st) <> None;
  ci_keys : NoDup (pr_key <$> pending_requests (client st));
  ci_fresh : forall r, r ∈ pending_requests (client st) -> (pr_key r < next_key (client st))%nat;
  ci_used : forall r, r ∈ pending_requests (client st) -> pr_id r = 0 \/ used (client st) (pr_id r);
  ci_calls : NoDup (calls st).*1;
  ci_waits : forall k id, (k, id) ∈ calls st -> used (client st) id /\ waits st k id;
  ci_gone : forall r, r ∈ pending_requests (client st) -> pr_result r <> None ->
    pr_key r ∈ (calls st).*1 \/
    (pr_id r ∉ wire st) /\ (sending st <> None -> pr_id r <> reqseq (client st));
  ci_send : forall b o, sending st = Some (b, o) ->
    (reqseq (client st) ∉ wire st) /\ used (client st) (reqseq (client st)) /\
    forall k, o = Some k -> (k, reqseq (client st)) ∈ calls st;
  ci_wire : forall id, id ∈ wire st -> used (client st) id;
  ci_errs : FLORA_CLI_SUCCESS ∉ errs st;
  ci_reason : conn_is_closed (client st) = true ->
    (exists passive err, close_state st = Shut passive err) \/ close_reason (client st) ∈ errs st;
  ci_old : close_reason (client st) = r0 \/ close_reason (client st) ∈ errs st;
  ci_shut : forall passive err, close_state st = Shut passive err -> err ∈ errs st;
  ci_count : issued st ≡ₚ answered (events (client st)) ++ outstanding st;
  ci_done : Forall (outcome_ok st) (finished st);
  ci_seq : 0 <= reqseq (client st)
}.

Lemma cinv_start c : connected c -> close_reason c = r0 -> cinv (start c).
Proof.
  intros (Hc & Hp & He & Hr) Hr0. split; simpl; rewrite ?Hp, ?Hr.
  - unfold conn_is_closed in Hc. by destruct (connection c).
  - constructor.
  - intros r []%elem_of_nil.
  - intros r []%elem_of_nil.
  - constructor.
  - intros k id []%elem_of_nil.
  - intros r []%elem_of_nil.
  - done.
  - intros id []%elem_of_nil.
  - apply not_elem_of_nil.
  - by rewrite Hc.
  - by left.
  - done.
  - unfold outstanding. simpl. by rewrite Hp, He.
  - constructor.
  - done.
Qed.

(** *** Numbering the requests *)

Lemma used_next c c' id :
  reqseq c' = reqseq c \/ reqseq c' = reqseq c + 1 -> used c id -> used c' id.
Proof. unfold used. lia. Qed.

Lemma used_new c c' :
  0 <= reqseq c -> reqseq c' = reqseq c + 1 -> used c' (reqseq c') /\ ~ used c (reqseq c').
Proof. unfold used. lia. Qed.

Lemma used_nonzero c id : used c id -> id <> 0.
Proof. unfold used. lia. Qed.

(** *** Each critical section preserves the invariant *)

Implicit Types (cl : closing) (iss : list nat) (wr er : list Z).

(** A call that ends before it adds its request. *)
Lemma cinv_refused c c' code result cb cs cl iss wr rp er fin :
  cinv (mkSys c None cs cl iss wr rp er fin) -> prepared result cb c (inl code) c' ->
  cinv (mkSys c' None cs cl iss wr rp er fin).
Proof.
  intros [] ((Hcl & Hco & He & Hr) & _ & Hp & Hk & Hs). simpl in *.
  split; simpl; rewrite ?Hp, ?Hk, ?Hcl, ?He, ?Hr; auto; try done.
  - intros r Hin. destruct (ci_used0 r Hin) as [?|?]; [by left|right]. by eapply used_next.
  - intros k id Hin. destruct (ci_waits0 k id Hin) as [? Hw]. split; [by eapply used_next|].
    unfold waits in *. simpl in *. by rewrite Hp.
  - intros r Hin Hres. destruct (ci_gone0 r Hin Hres) as [?|[? _]]; [by left|by right].
  - intros id Hin. by eapply used_next; [..|apply ci_wire0].
  - unfold outstanding in *. simpl in *. by rewrite Hp.
  - lia.
Qed.

(** The requests with a new one behind them. *)
Lemma added_requests (c c' : t caps os) r :
  pending_requests c' = pending_requests c ++ [r] -> pr_key r = next_key c -> next_key c' = S (next_key c) ->
  used c' (pr_id r) -> (forall id, used c id -> used c' id) ->
  NoDup (pr_key <$> pending_requests c) ->
  (forall r, r ∈ pending_requests c -> (pr_key r < next_key c)%nat) ->
  (forall r, r ∈ pending_requests c -> pr_id r = 0 \/ used c (pr_id r)) ->
  (next_key c ∉ pr_key <$> pending_requests c) /\ NoDup (pr_key <$> pending_requests c') /\
  (forall r, r ∈ pending_requests c' -> (pr_key r < next_key c')%nat) /\
  (forall r, r ∈ pending_requests c' -> pr_id r = 0 \/ used c' (pr_id r)).
Proof.
  intros Hp Hk Hn Hu Hmono Hnd Hfr Hus. rewrite Hp, Hn.
  assert (next_key c ∉ pr_key <$> pending_requests c) as Hnk.
  { intros (r' & Hrk & Hin)%list_elem_of_fmap. apply Hfr in Hin. lia. }
  split_and!; [done| | |].
  - rewrite fmap_app. apply NoDup_app. split_and!; [done| |apply NoDup_singleton].
    intros x Hx ->%list_elem_of_singleton. by rewrite Hk in Hx.
  - intros r' [Hin|Hin]%elem_of_app; [apply Hfr in Hin; lia|]. apply list_elem_of_singleton in Hin as ->. lia.
  - intros r' [Hin|Hin]%elem_of_app; [destruct (Hus r' Hin); auto|].
    apply list_elem_of_singleton in Hin as ->. by right.
Qed.

(** A call that adds its request. *)
Lemma cinv_added c c' b k tp result cb cs cl iss wr rp er fin :
  cinv (mkSys c None cs cl iss wr rp er fin) ->
  prepared result cb c (inr (b, k, tp)) c' ->
  cinv (match result with
        | Some _ => mkSys c' (Some (b, Some k)) (cs ++ [(k, reqseq c')]) cl iss wr rp er fin
        | None => mkSys c' (Some (b, None)) cs cl (iss ++ [cb]) wr rp er fin
        end).
Proof.
  intros [] ((Hcl & Hco & He & Hr) & Hs & -> & Hk & Hp). simpl in *.
  destruct (used_new c c') as [Hu Hnu]; [done..|].
  assert (forall id, used c id -> used c' id) as Hmono by (intros; by eapply used_next; eauto).
  assert (reqseq c' ∉ wr) as Hnw by (intros Hin; by apply Hnu, ci_wire0).
  destruct (added_requests _ _ _ Hp) as (Hnk & Hkeys & Hfresh & Hused); [done..|].
  assert (next_key c ∉ cs.*1) as Hnc.
  { intros ([k id] & Hkk & Hin)%list_elem_of_fmap. simpl in Hkk. subst.
    destruct (ci_waits0 _ _ Hin) as [_ (r & Hr1 & Hr2 & _)]. apply Hnk, list_elem_of_fmap. by exists r. }
  assert (forall st', client st' = c' -> replies st' = rp -> forall k id, (k, id) ∈ cs ->
    used c' id /\ waits st' k id) as Hwaits.
  { intros st' Hc' Hrp k id Hin. destruct (ci_waits0 _ _ Hin) as [? (r & ? & Hrest)].
    split; [by apply Hmono|]. exists r. rewrite Hc', Hp, Hrp. split; [|done]. apply elem_of_app. by left. }
  assert (forall st', client st' = c' -> wire st' = wr ->
    (cs.*1 ⊆ (calls st').*1) -> (result <> None -> next_key c ∈ (calls st').*1) ->
    forall r, r ∈ pending_requests c' -> pr_result r <> None ->
    pr_key r ∈ (calls st').*1 \/ (pr_id r ∉ wire st') /\ (sending st' <> None -> pr_id r <> reqseq c')) as Hgone.
  { intros st' Hc' Hw Hsub Hnew r. rewrite Hp, Hw. intros [Hin|Hin]%elem_of_app Hres.
    - destruct (ci_gone0 r Hin Hres) as [?|[? _]]; [left; by apply Hsub|right]. split; [done|]. intros _ Hid.
      destruct (ci_used0 r Hin) as [Hz|Hus]; rewrite Hid in *; [by eapply used_nonzero|done].
    - apply list_elem_of_singleton in Hin as ->. left. by apply Hnew. }
  assert (0 <= reqseq c') as Hseq by lia.
  destruct result as [res|]; split; simpl; rewrite ?Hcl, ?He, ?Hr; eauto; try done.
  - rewrite fmap_app. apply NoDup_app. split_and!; [done| |apply NoDup_singleton].
    intros x Hx ->%list_elem_of_singleton. done.
  - intros k id [Hin|Hin]%elem_of_app; [by apply Hwaits|].
    apply list_elem_of_singleton in Hin as [= -> ->]. split; [done|]. eexists. simpl. rewrite Hp.
    split; [apply elem_of_app; right; by left|]. by split_and!; auto.
  - apply (Hgone (mkSys c' (Some (b, Some (next_key c))) (cs ++ [(next_key c, reqseq c')]) cl iss wr rp er fin));
      simpl; try done; rewrite fmap_app; [set_solver|]. intros _. apply elem_of_app. right. by left.
  - intros ? ? [= <- <-]. split_and!; [done..|]. intros ? [= <-]. apply elem_of_app. right. by left.
  - unfold outstanding in *. simpl in *. rewrite Hp, filter_app. simpl. by rewrite app_nil_r.
  - by apply (Hgone (mkSys c' (Some (b, None)) cs cl (iss ++ [cb]) wr rp er fin)).
  - intros ? ? [= <- <-]. by split_and!.
  - unfold outstanding in *. simpl in *. rewrite Hp, filter_app, fmap_app, ci_count0. simpl. solve_Permutation.
Qed.

(** The end of a sync call takes it out of the calls in progress. *)
Lemma without_calls k id (cs : list (nat * Z)) :
  (k, id) ∈ filter (fun x => x.1 <> k) cs -> False.
Proof. intros [Hne _]%list_elem_of_filter. done. Qed.

Lemma without_NoDup k (cs : list (nat * Z)) : NoDup cs.*1 -> NoDup (filter (fun x => x.1 <> k) cs).*1.
Proof. apply NoDup_fmap_filter. Qed.

Lemma without_keys k k' (cs : list (nat * Z)) :
  k' ∈ cs.*1 -> k' <> k -> k' ∈ (filter (fun x => x.1 <> k) cs).*1.
Proof.
  intros (x & -> & Hx)%list_elem_of_fmap Hne. apply list_elem_of_fmap. exists x. split; [done|].
  by apply list_elem_of_filter.
Qed.

Lemma used_same c c' id : reqseq c' = reqseq c -> used c id -> used c' id.
Proof. unfold used. by intros ->. Qed.

Lemma cinv_sent c c' b k code cs cl iss wr rp er fin :
  cinv (mkSys c (Some (b, k)) cs cl iss wr rp er fin) ->
  same_conn c c' -> but_connection c' = but_connection c ->
  code = FLORA_CLI_SUCCESS \/ code = FLORA_CLI_ECONN ->
  let ok := bool_decide (code = FLORA_CLI_SUCCESS) in
  cinv (mkSys c' None
    (match k with
     | Some k => if ok then cs else filter (fun x => x.1 <> k) cs
     | None => cs
     end) cl iss (if ok then wr ++ [reqseq c'] else wr) rp er
    (match k with
     | Some k => if ok then fin else fin ++ [(reqseq c', code, None, false)]
     | None => fin
     end)).
Proof.
  intros [] (Hcl & Hco & He & Hr) Hb Hcode ok. simpl in *.
  pose proof (but_connection_eq _ _ Hb) as (Hp & Hk & Hs & _).
  destruct (ci_send0 b k eq_refl) as (Hnw & Hu & Hcall).
  assert (forall id, used c id -> used c' id) as Hmono by (intros; by apply (used_same c)).
  assert (ok = true \/ ok = false /\ code = FLORA_CLI_ECONN) as Hok.
  { subst ok. destruct Hcode as [->| ->]; [by left|by right]. }
  split; simpl; rewrite ?Hp, ?Hk, ?Hcl, ?He, ?Hr, ?Hs; auto; try done.
  - intros r Hin. destruct (ci_used0 r Hin); auto.
  - destruct k as [k|]; [|done]. destruct ok; [done|]. by apply without_NoDup.
  - intros k' id Hin. assert ((k', id) ∈ cs) as Hin'.
    { destruct k as [k|]; [|done]. destruct ok; [done|]. by apply list_elem_of_filter in Hin as [_ ?]. }
    destruct (ci_waits0 k' id Hin') as [? Hw]. split; [auto|]. unfold waits in *. simpl in *. by rewrite Hp.
  - intros r Hin Hres. destruct Hok as [->|[-> _]].
    + destruct (ci_gone0 r Hin Hres) as [Hg|[Hg Hq]]; [left; by destruct k|right]. split; [|done].
      rewrite not_elem_of_app, list_elem_of_singleton. auto.
    + destruct (ci_gone0 r Hin Hres) as [Hg|[Hg Hq]]; [|by right]. destruct k as [k|]; [|by left].
      destruct (decide (pr_key r = k)) as [Hrk|Hne]; [right|left; by apply without_keys]. split; [|done].
      destruct (ci_waits0 _ _ (Hcall k eq_refl)) as [_ (r' & Hin' & Hk' & _ & Hid)]. rewrite <- Hk' in Hrk.
      assert (r = r') as -> by (by eapply (key_unique _ _ _ _ ci_keys0)).
      destruct Hid as [->|[-> _]]; [done|]. intros Hz%ci_wire0. by apply used_nonzero in Hz.
  - intros id Hin. destruct ok; [|auto]. apply elem_of_app in Hin as [?|Hin]; [auto|].
    apply list_elem_of_singleton in Hin as ->. auto.
  - unfold outstanding in *. simpl in *. by rewrite Hp.
  - destruct k as [k|]; [|done]. destruct Hok as [->|[-> ->]]; [done|]. apply Forall_app. split; [done|].
    apply Forall_singleton. simpl. auto.
Qed.

Lemma cinv_woken c c' sd k id to r o cs cl iss wr rp er fin :
  cinv (mkSys c sd cs cl iss wr rp er fin) -> (k, id) ∈ cs -> sd ≫= snd <> Some k ->
  r ∈ pending_requests c -> pr_key r = k -> woken r k to c o c' ->
  cinv (match o with
        | None => mkSys c' sd cs cl iss wr rp er fin
        | Some (code, reply) =>
            mkSys c' sd (filter (fun x => x.1 <> k) cs) cl iss wr rp er
              (fin ++ [(id, code, reply, in_between (mkSys c sd cs cl iss wr rp er fin) k to)])
        end).
Proof.
  intros [] Hin Hsd Hrin Hrk ((Hcl & Hco & He & Hr) & Hk & Hs & Ho). simpl in *.
  assert (forall id, used c id -> used c' id) as Hmono by (intros; by apply (used_same c)).
  destruct o as [[code reply]|].
  2: { split; simpl; rewrite ?Ho, ?Hk, ?Hcl, ?He, ?Hr, ?Hs; auto; try done.
    - intros r' Hr'. destruct (ci_used0 r' Hr'); auto.
    - intros k' id' Hin'. destruct (ci_waits0 k' id' Hin') as [? Hw]. split; [auto|].
      unfold waits in *. simpl in *. by rewrite Ho.
    - intros b o Hbo. destruct (ci_send0 b o Hbo) as (?&?&?). by split_and!; auto.
    - unfold outstanding in *. simpl in *. by rewrite Ho. }
  destruct Ho as (-> & Hp & Hcode).
  assert (pr_result r <> None /\ (pr_id r = id \/ pr_id r = 0 /\ exists resp, (id, pr_rcode r, resp) ∈ rp /\
       (pr_rcode r = FLORA_CLI_SUCCESS -> pr_result r = Some resp))) as [Hsync Hid].
  { destruct (ci_waits0 _ _ Hin) as [_ (r' & Hin' & Hk' & ? & Hid)]. simpl in *.
    assert (r = r') as ->; [|done]. eapply (key_unique _ _ _ _ ci_keys0); [done..|congruence]. }
  assert (forall r', r' ∈ pending_requests c' -> r' ∈ pending_requests c /\ pr_key r' <> k) as Hsub.
  { intros r'. rewrite Hp. by intros [? ?]%list_elem_of_filter. }
  split; simpl; rewrite ?Hk, ?Hcl, ?He, ?Hr, ?Hs; auto; try done.
  - rewrite Hp. by apply NoDup_fmap_filter.
  - intros r' Hr'. apply ci_fresh0, Hsub, Hr'.
  - intros r' Hr'. destruct (ci_used0 r'); [apply Hsub, Hr'|auto..].
  - by apply without_NoDup.
  - intros k' id' [Hne Hin']%list_elem_of_filter. simpl in Hne. destruct (ci_waits0 k' id' Hin') as [? (r' & ? & ? & Hrest)].
    split; [auto|]. exists r'. simpl. rewrite Hp. split; [|done]. apply list_elem_of_filter. split; [congruence|done].
  - intros r' Hr' Hres. destruct (Hsub _ Hr'). destruct (ci_gone0 r') as [?|?]; [done..| |by right].
    left. by apply without_keys.
  - intros b o Hbo. destruct (ci_send0 b o Hbo) as (?&?&Hc). split_and!; [done|auto|]. intros k' ->.
    apply list_elem_of_filter. split; [|by apply Hc]. simpl. subst sd. simpl in Hsd. congruence.
  - unfold outstanding in *. simpl in *. rewrite ci_count0, Hp.
    rewrite filter_filter_in; [done|]. intros r' Hr' Ha Hk'.
    assert (r' = r) as -> by (eapply (key_unique _ _ _ _ ci_keys0); [done..|congruence]).
    unfold is_async in Ha. by apply bool_decide_eq_true in Ha.
  - apply Forall_app. split; [done|]. apply Forall_singleton. unfold outcome_ok. simpl.
    destruct Hcode as [->|[[Hz ->]|(Hto & Hnz & Hcc & ->)]]; [auto| |].
    + destruct Hid as [Hid|[_ Hid]]; [|by left]. destruct (ci_waits0 _ _ Hin) as [Hu _].
      apply used_nonzero in Hu. congruence.
    + destruct ci_old0 as [Hold|?]; [|auto 6]. destruct (ci_reason0 Hcc) as [(p & e & ->)|?]; [|auto 6].
      do 4 right. split; [|done]. unfold in_between. simpl. rewrite (find_request_in k _ r) by done.
      rewrite Hto. simpl. by apply bool_decide_eq_true.
Qed.

(** *** A reply *)

Lemma outcome_ok_mono st st' x :
  (forall y, y ∈ replies st -> y ∈ replies st') -> (forall e, e ∈ errs st -> e ∈ errs st') ->
  outcome_ok st x -> outcome_ok st' x.
Proof. destruct x as [[[id code] reply] early]. unfold outcome_ok. naive_solver. Qed.

Lemma Forall_outcome_mono st st' fin :
  (forall y, y ∈ replies st -> y ∈ replies st') -> (forall e, e ∈ errs st -> e ∈ errs st') ->
  Forall (outcome_ok st) fin -> Forall (outcome_ok st') fin.
Proof. intros ? ? Hf. eapply Forall_impl; [exact Hf|]. intros x. by apply outcome_ok_mono. Qed.

Lemma waits_mono st st' k id :
  pending_requests (client st') = pending_requests (client st) ->
  (forall y, y ∈ replies st -> y ∈ replies st') -> waits st k id -> waits st' k id.
Proof. unfold waits. intros ->. naive_solver. Qed.

(** The list after the request [r] of [l1 ++ r :: l2] was answered. *)
Definition after_reply rescode resp l1 r l2 : list (PendingRequest caps) :=
  if is_async r then l1 ++ l2 else l1 ++ settled rescode resp r :: l2.

Lemma after_reply_in rescode resp l1 r l2 x :
  x ∈ after_reply rescode resp l1 r l2 ->
  x ∈ l1 ++ r :: l2 \/ is_async r = false /\ x = settled rescode resp r.
Proof.
  unfold after_reply. destruct (is_async r); rewrite !elem_of_app, ?elem_of_cons; naive_solver.
Qed.

Lemma after_reply_other rescode resp l1 r l2 x :
  x ∈ l1 ++ r :: l2 -> pr_key x <> pr_key r -> x ∈ after_reply rescode resp l1 r l2.
Proof.
  unfold after_reply. intros Hx Hne. destruct (is_async r); rewrite ?elem_of_app, ?elem_of_cons in *;
    naive_solver.
Qed.

Lemma after_reply_keys rescode resp l1 r l2 :
  NoDup (pr_key <$> l1 ++ r :: l2) -> NoDup (pr_key <$> after_reply rescode resp l1 r l2).
Proof.
  unfold after_reply. destruct (is_async r).
  - rewrite !fmap_app, fmap_cons. rewrite <- Permutation_middle. by intros [_ ?]%NoDup_cons.
  - by rewrite !fmap_app, !fmap_cons.
Qed.

Lemma after_reply_callbacks rescode resp l1 r l2 :
  pr_callback <$> filter (fun r => is_async r = true) (l1 ++ r :: l2) ≡ₚ
  (if is_async r then [pr_callback r] else []) ++
  (pr_callback <$> filter (fun r => is_async r = true) (after_reply rescode resp l1 r l2)).
Proof.
  unfold after_reply. destruct (is_async r) eqn:Ha; rewrite !filter_app, !filter_cons.
  - rewrite decide_True by done. rewrite !fmap_app, fmap_cons. solve_Permutation.
  - assert (is_async (settled rescode resp r) = false) as Hs.
    { revert Ha. unfold is_async, settled. simpl.
      destruct (pr_result r), (bool_decide (rescode = FLORA_CLI_SUCCESS)); by vm_compute. }
    rewrite Hs, Ha. done.
Qed.

Lemma cinv_settled msgid rescode resp c c' l1 r l2 sd cs cl iss wr rp er fin :
  cinv (mkSys c sd cs cl iss wr rp er fin) -> msgid ∈ wr ->
  pending_requests c = l1 ++ r :: l2 -> pr_id r = msgid ->
  c' = (if is_async r then
          set_events (events c ++ [response (pr_callback r) rescode (told rescode resp)])
            (set_pending_requests (l1 ++ l2) c)
        else set_pending_requests (l1 ++ settled rescode resp r :: l2) c) ->
  cinv (mkSys c' sd cs cl iss wr (rp ++ [(msgid, rescode, resp)]) er fin).
Proof.
  intros [] Hw Hl Hid Hc'. simpl in *.
  assert (pending_requests c' = after_reply rescode resp l1 r l2) as Hp
    by (subst c'; unfold after_reply; by destruct (is_async r)).
  assert (next_key c' = next_key c /\ reqseq c' = reqseq c /\ connection c' = connection c /\
    close_reason c' = close_reason c) as (Hk & Hs & Hcn & Hr) by (subst c'; by destruct (is_async r)).
  assert (answered (events c') = answered (events c) ++ (if is_async r then [pr_callback r] else [])) as He.
  { subst c'. unfold answered. destruct (is_async r); simpl; [by rewrite omap_app|by rewrite app_nil_r]. }
  clear Hc'. assert (forall id, used c id -> used c' id) as Hmono by (intros; by apply (used_same c)).
  assert (conn_is_closed c' = conn_is_closed c) as Hcl by (unfold conn_is_closed; by rewrite Hcn).
  rewrite Hl in *. split; simpl; rewrite ?Hp, ?Hk, ?Hcl, ?Hcn, ?Hr, ?Hs; auto; try done.
  - by apply after_reply_keys.
  - intros x [Hx|[_ ->]]%after_reply_in; [auto|]. simpl. apply ci_fresh0, elem_of_app. right. by left.
  - intros x [Hx|[_ ->]]%after_reply_in; [|by left]. destruct (ci_used0 x Hx); auto.
  - intros k id Hin. destruct (ci_waits0 k id Hin) as [? (x & Hx & Hxk & Hxr & Hxi)]. split; [auto|].
    unfold waits. simpl in *. rewrite Hl in Hx. rewrite Hp.
    destruct (decide (pr_key x = pr_key r)) as [He'|Hne].
    + assert (x = r) as -> by (eapply (key_unique _ _ _ _ ci_keys0); [done|apply elem_of_app; right; by left|done]).
      assert (is_async r = false) as Ha by (unfold is_async; by apply bool_decide_eq_false).
      exists (settled rescode resp r). unfold after_reply. rewrite Ha. split_and!; [|done| |].
      * apply elem_of_app. right. by left.
      * simpl. by case_bool_decide.
      * right. simpl. split; [done|]. exists resp. split; [|by intros ->].
        destruct Hxi as [<-|[Hz _]]; [rewrite Hid; apply elem_of_app; right; by left|].
        apply ci_wire0, used_nonzero in Hw. congruence.
    + exists x. split_and!; [by apply after_reply_other|done..|]. destruct Hxi as [?|[? (y & ? & ?)]]; [by left|].
      right. split; [done|]. exists y. split; [|done]. apply elem_of_app. by left.
  - intros x [Hx|[Ha ->]]%after_reply_in Hres; [auto|].
    assert (pr_result r <> None) as Hrr by (by apply bool_decide_eq_false in Ha).
    destruct (ci_gone0 r) as [?|[? _]]; [apply elem_of_app; right; by left|done|by left|congruence].
  - intros b o Hbo. destruct (ci_send0 b o Hbo) as (?&?&?). by split_and!; auto.
  - unfold outstanding in *. simpl in *. rewrite ci_count0, Hp, He, Hl.
    rewrite (after_reply_callbacks rescode resp). solve_Permutation.
  - eapply Forall_outcome_mono; [..|done]; simpl; [|done]. intros y Hy. apply elem_of_app. by left.
Qed.

Lemma find_first {A} (Q : A -> Prop) `{!forall x, Decision (Q x)} l1 x l2 :
  (forall y, y ∈ l1 -> ~ Q y) -> Q x -> list_find Q (l1 ++ x :: l2) = Some (length l1, x).
Proof.
  intros Hn Hx. apply list_find_Some. split_and!; [by rewrite lookup_app_r, Nat.sub_diag|done|].
  intros j y Hj Hlt. apply Hn. rewrite lookup_app_l in Hj by done. by eapply list_elem_of_lookup_2.
Qed.

Lemma cinv_reply msgid rescode resp c sd cs cl iss wr rp er fin :
  cinv (mkSys c sd cs cl iss wr rp er fin) -> msgid ∈ wr ->
  dangling (mkSys c sd cs cl iss wr rp er fin) msgid = false /\
  wp (handle_reply msgid rescode resp) (fun _ c' =>
    cinv (mkSys c' sd cs cl iss wr (rp ++ [(msgid, rescode, resp)]) er fin)) c.
Proof.
  intros Hinv Hw. destruct (handle_reply_exact msgid rescode resp c) as [Hno Hyes].
  destruct (decide (msgid ∈ pr_id <$> pending_requests c)) as [Hin|Hnin].
  - destruct (split_id _ _ Hin) as (l1 & r & l2 & Hl & Hn & Hr). split.
    + unfold dangling. simpl. rewrite Hl, find_first; [|intros y Hy <-; apply Hn, list_elem_of_fmap; eauto|done].
      apply andb_false_iff. destruct (is_async r) eqn:Ha; [by left|right].
      apply bool_decide_eq_false. intros Hk.
      destruct Hinv. simpl in *. destruct (ci_gone0 r) as [?|[? _]]; [|by apply bool_decide_eq_false in Ha|done|].
      * rewrite Hl. apply elem_of_app. right. by left.
      * congruence.
    + unfold wpx. rewrite (Hyes l1 r l2) by done. by eapply cinv_settled.
  - split.
    + unfold dangling. simpl. destruct (list_find _ _) as [[i r]|] eqn:Hf; [|done].
      apply list_find_Some in Hf as (Hi & Hr & _). contradict Hnin. apply list_elem_of_fmap. exists r.
      split; [done|]. by eapply list_elem_of_lookup_2.
    + unfold wpx. rewrite Hno by done. destruct Hinv. split; simpl in *; auto; try done.
      * intros k id Hin. destruct (ci_waits0 k id Hin). split; [done|]. eapply waits_mono; [..|done]; simpl; [done|].
        intros. apply elem_of_app. by left.
      * eapply Forall_outcome_mono; [..|done]; simpl; [|done]. intros y Hy. apply elem_of_app. by left.
Qed.

(** *** A close *)

Lemma cinv_closing c c' sd cs cl cl' iss wr rp er er' fin :
  cinv (mkSys c sd cs cl iss wr rp er fin) ->
  next_key c' = next_key c -> reqseq c' = reqseq c -> connection c' <> None ->
  pending_requests c' = pending_requests c \/
    pending_requests c' = filter (fun r => is_async r = false) (pending_requests c) ->
  (forall e, e ∈ er -> e ∈ er') -> FLORA_CLI_SUCCESS ∉ er' ->
  (conn_is_closed c' = true -> (exists passive err, cl' = Shut passive err) \/ close_reason c' ∈ er') ->
  close_reason c' = r0 \/ close_reason c' ∈ er' ->
  (forall passive err, cl' = Shut passive err -> err ∈ er') ->
  (iss ≡ₚ answered (events c) ++ outstanding (mkSys c sd cs cl iss wr rp er fin) ->
   iss ≡ₚ answered (events c') ++ outstanding (mkSys c' sd cs cl' iss wr rp er' fin)) ->
  cinv (mkSys c' sd cs cl' iss wr rp er' fin).
Proof.
  intros [] Hk Hs Hco Hp Her Hne Hre Hold Hsh Hcount. simpl in *.
  assert (forall id, used c id -> used c' id) as Hmono by (intros; by apply (used_same c)).
  assert (forall r, r ∈ pending_requests c' -> r ∈ pending_requests c) as Hsub.
  { intros r. destruct Hp as [->| ->]; [done|]. by intros [_ ?]%list_elem_of_filter. }
  split; simpl; rewrite ?Hk, ?Hs; auto; try done.
  - destruct Hp as [->| ->]; [done|]. by apply NoDup_fmap_filter.
  - intros r Hr. destruct (ci_used0 r (Hsub r Hr)); auto.
  - intros k id Hin. destruct (ci_waits0 k id Hin) as [? (r & Hr & ? & Hres & ?)]. split; [auto|].
    exists r. split; [|done]. simpl in *. destruct Hp as [->| ->]; [done|].
    apply list_elem_of_filter. split; [|done]. by apply bool_decide_eq_false.
  - intros b o Hbo. destruct (ci_send0 b o Hbo) as (?&?&?). by split_and!; auto.
  - eapply Forall_outcome_mono; [..|done]; simpl; done.
Qed.

Lemma cinv_shut passive err c sd cs iss wr rp er fin :
  cinv (mkSys c sd cs NotClosing iss wr rp er fin) -> err <> FLORA_CLI_SUCCESS ->
  wp iclose_shut (fun go c' => cinv (mkSys c' sd cs (if go : bool then Shut passive err else NotClosing)
    iss wr rp (er ++ [err]) fin)) c.
Proof.
  intros Hi Herr. pose proof (ci_conn _ Hi) as Hco. pose proof (ci_errs _ Hi) as Hne.
  pose proof (ci_reason _ Hi) as Hre. simpl in *. unfold wpx. rewrite iclose_shut_eq.
  assert (forall e, e ∈ er -> e ∈ er ++ [err]) as Her by (intros; apply elem_of_app; by left).
  assert (FLORA_CLI_SUCCESS ∉ er ++ [err]) as Hne'.
  { rewrite not_elem_of_app, list_elem_of_singleton. auto. }
  destruct (connection c) as [cn|] eqn:Hcn; [|done].
  destruct (SocketConn.closed cn) eqn:Hcl.
  - eapply cinv_closing; try done; [by rewrite Hcn|by left| |].
    + intros Hcc. destruct (Hre Hcc) as [(? & ? & [=])|?]. right. by apply Her.
    + destruct (ci_old _ Hi) as [?|?]; [by left|right]. by apply Her.
  - eapply cinv_closing; try done; [by left| | |].
    + intros _. left. eauto.
    + destruct (ci_old _ Hi) as [?|?]; [by left|right]. by apply Her.
    + intros ? ? [= _ <-]. apply elem_of_app. right. by left.
Qed.

Lemma cinv_collect passive err c sd cs iss wr rp er fin :
  cinv (mkSys c sd cs (Shut passive err) iss wr rp er fin) ->
  wp (iclose_collect err) (fun cbs c' => cinv (mkSys c' sd cs (Collected passive err cbs) iss wr rp er fin)) c.
Proof.
  intros Hi. unfold iclose_collect. wsteps. eapply cinv_closing; try done; simpl.
  - apply Hi.
  - by right.
  - apply (ci_errs _ Hi).
  - intros _. right. by eapply (ci_shut _ Hi).
  - right. by eapply (ci_shut _ Hi).
  - intros Hc. unfold outstanding in *. simpl in *. rewrite Hc.
    assert (filter (fun r => is_async r = true)
      (filter (fun r => is_async r = false) (pending_requests c)) = []) as ->.
    { apply elem_of_nil_inv. intros r [? [? _]%list_elem_of_filter]%list_elem_of_filter. congruence. }
    simpl. by rewrite app_nil_r.
Qed.

Lemma wp_emit_responses err cbs (Q : unit -> t caps os -> Prop) : forall c,
  (forall l, answered l = answered (events c) ++ cbs -> Q tt (set_events l c)) ->
  wp (for_each cbs (fun cb => emit (response cb err empty_response))) Q c.
Proof.
  induction cbs as [|cb cbs IH]; intros c HQ; simpl.
  - apply wpx_ret. replace c with (set_events (events c) c) by (by destruct c). apply HQ.
    by rewrite app_nil_r.
  - unfold emit at 1. wsteps. apply IH. intros l Hl. apply (HQ l). rewrite Hl. simpl.
    unfold answered. rewrite omap_app. by rewrite <- app_assoc.
Qed.

Lemma cinv_notify passive err cbs c sd cs iss wr rp er fin :
  cinv (mkSys c sd cs (Collected passive err cbs) iss wr rp er fin) ->
  wp (iclose_notify passive err cbs) (fun _ c' => cinv (mkSys c' sd cs NotClosing iss wr rp er fin)) c.
Proof.
  intros Hi. assert (forall l, answered l = answered (events c) ++ cbs ->
    cinv (mkSys (set_events l c) sd cs NotClosing iss wr rp er fin)) as Hend.
  { intros l Hl. eapply cinv_closing; try done; simpl.
    - apply Hi.
    - by left.
    - apply (ci_errs _ Hi).
    - intros Hcc. destruct (ci_reason _ Hi Hcc) as [(? & ? & [=])|?]; by right.
    - apply (ci_old _ Hi).
    - intros Hc. etransitivity; [exact Hc|]. unfold outstanding. simpl. rewrite Hl. solve_Permutation. }
  unfold iclose_notify, tell_closed, tell_disconnected. wsteps. apply wp_emit_responses. intros l Hl. unfold emit.
  wsteps; simpl; apply Hend; unfold answered in *; rewrite ?omap_app, Hl; simpl; by rewrite ?app_nil_r.
Qed.

(** ** Every step preserves the invariant *)

Lemma wp_after {A} (m : M (t caps os) A) c (f : A -> t caps os -> sys caps os) (Q : sys caps os -> Prop) res :
  Some (after (m c) f) = Some res -> wp m (fun a c' => Q (f a c')) c ->
  exists st', res = Next st' /\ Q st'.
Proof.
  intros [= <-]. unfold wpx, after. destruct (m c) as [[a c']|u]; [eauto|done].
Qed.

Lemma exec_cinv st lb res :
  cinv st -> exec st lb = Some res -> orderly st lb -> exists st', res = Next st' /\ cinv st'.
Proof.
  intros Hi He Ho. pose proof (ci_conn _ Hi) as Hco. destruct st as [c sd cs cl iss wr rp er fin].
  cbn [exec orderly client wire close_state] in *.
  destruct lb as [name msg target reply timeout|name msg target cb timeout| |k to|id code resp|p err| |].
  - destruct sd; [done|]. eapply wp_after; [exact He|]. eapply wpx_mono; [by apply wp_call_prepare|].
    intros [code|[[b k] tp]] c' Hp; [by eapply cinv_refused|]. by eapply (cinv_added _ _ _ _ _ (Some reply)).
  - destruct sd; [done|]. eapply wp_after; [exact He|]. eapply wpx_mono; [by apply wp_call_prepare|].
    intros [code|[[b k] tp]] c' Hp; [by eapply cinv_refused|]. by eapply (cinv_added _ _ _ _ _ None).
  - destruct sd as [[b k]|]; [|done]. eapply wp_after; [exact He|]. eapply wpx_mono; [by apply wp_call_sent|].
    intros code c' (Hsame & Hb & Hcode). by eapply cinv_sent.
  - destruct (list_find _ cs) as [[i [k' id]]|] eqn:Hf; [|done].
    apply list_find_Some in Hf as (Hi' & Hk & _). simpl in Hk. subst k'. apply list_elem_of_lookup_2 in Hi'.
    destruct (bool_decide _) eqn:Hsd; [done|]. apply bool_decide_eq_false in Hsd.
    destruct (ci_waits _ Hi _ _ Hi') as [_ (r & Hr & Hrk & _)]. simpl in *.
    eapply wp_after; [exact He|]. eapply wpx_mono; [by apply (wp_call_wake k to r), Hrk; [|apply Hi|]|].
    intros o c' Hw. pose proof (cinv_woken _ _ _ _ _ to _ o _ _ _ _ _ _ _ Hi Hi' Hsd Hr Hrk Hw) as Hn.
    by destruct o as [[? ?]|].
  - destruct (cinv_reply id code resp _ _ _ _ _ _ _ _ _ Hi Ho) as [Hd Hw]. rewrite Hd in He.
    by eapply wp_after; [exact He|].
  - destruct cl; [|done..]. eapply wp_after; [exact He|]. by apply cinv_shut.
  - destruct cl; try done. eapply wp_after; [exact He|]. by apply cinv_collect.
  - destruct cl; try done. eapply wp_after; [exact He|]. by apply cinv_notify.
Qed.

End Invariant.

Lemma reachable_cinv c st : connected c -> steps step (start c) st -> cinv (close_reason c) st.
Proof.
  intros Hc Hs. eapply (steps_invariant step (cinv _)); [|done|by apply cinv_start].
  intros s s' Hi (lb & He & Ho). destruct (exec_cinv _ _ _ _ Hi He Ho) as (? & [= <-] & ?). done.
Qed.

(** ** What the protocol guarantees *)

(** C8. No orderly interleaving of callers, receive thread and close reaches
    undefined behaviour: a waiting call always finds its request, no reply is
    written to a call that has returned, the connection is never missing. *)
Theorem calls_safe c st lb u :
  connected c -> steps step (start c) st -> orderly st lb -> exec st lb <> Some (Crash u).
Proof.
  intros Hc Hs Ho He. destruct (exec_cinv _ st lb _ (reachable_cinv c st Hc Hs) He Ho) as (? & ? & ?). done.
Qed.

(** C11. Every callback given to a call is accounted for once, whatever the
    interleaving: those told a result and those still held by a request or by the
    close in progress are together exactly those that were issued, so no callback
    is called twice and none is lost. *)
Theorem callbacks_once c st :
  connected c -> steps step (start c) st ->
  issued st ≡ₚ answered (events (client st)) ++ outstanding st /\
  (NoDup (issued st) -> NoDup (answered (events (client st)))).
Proof.
  intros Hc Hs. pose proof (ci_count _ _ (reachable_cinv c st Hc Hs)) as Hp. split; [done|].
  rewrite Hp. by intros [? _]%NoDup_app.
Qed.

(** C12. A call that waits returns the code of a reply to its own id, with that
    reply's response on success, or a timeout, or a send error, or the reason of a
    close. The one exception, in any interleaving, is a call that wakes after a close
    has closed the connection and before it has stored its reason, with no reply and no
    timeout: it may return the reason the client held at the start. Every other call
    reports success only with the response it was sent. *)
Theorem call_outcomes c st id code reply early :
  connected c -> steps step (start c) st -> (id, code, reply, early) ∈ finished st ->
  ((exists resp, (id, code, resp) ∈ replies st /\ (code = FLORA_CLI_SUCCESS -> reply = Some resp)) \/
   code = FLORA_CLI_ETIMEOUT \/ code = FLORA_CLI_ECONN \/ code ∈ errs st \/
   early = true /\ code = close_reason c) /\
  (code = FLORA_CLI_SUCCESS ->
   (exists resp, (id, FLORA_CLI_SUCCESS, resp) ∈ replies st /\ reply = Some resp) \/
   early = true /\ close_reason c = FLORA_CLI_SUCCESS).
Proof.
  intros Hc Hs Hin. pose proof (reachable_cinv c st Hc Hs) as Hi.
  pose proof (proj1 (Forall_forall _ _) (ci_done _ _ Hi) _ Hin) as Hok. split; [done|].
  intros ->. destruct Hok as [(resp & ? & ?)|[Hx|[Hx|[Hx|[? Hx]]]]]; [by eauto|done..| |by right].
  by apply (ci_errs _ _ Hi) in Hx.
Qed.

(** C40. (Deviation.) Between the close of the connection and the critical section
    that stores the reason, a waiting call that wakes returns the old reason: before
    the first close that is 0, which is success, with the caller's [Response]
    untouched. *)
Theorem call_close_race c cn k r :
  connection c = Some cn -> SocketConn.closed cn = false -> close_reason c = 0 ->
  NoDup (pr_key <$> pending_requests c) -> r ∈ pending_requests c -> pr_key r = k -> pr_id r <> 0 ->
  exists c' c'', iclose_shut c = Done (true, c') /\
    call_wake k false c' = Done (Some (FLORA_CLI_SUCCESS, pr_result r), c'').
Proof.
  intros Hcn Hcl Hre Hnd Hin Hk Hid. rewrite iclose_shut_eq, Hcn, Hcl.
  exists (set_connection (Some (SocketConn.close cn)) c). eexists. split; [done|].
  unfold call_wake, call_poll, call_end, mbind, M_bind, gets, modify. simpl.
  rewrite (find_request_in k _ r) by done. rewrite bool_decide_false by done.
  unfold conn_closed, with_connection, mbind, M_bind, gets, modify.
  cbn -[SocketConn.closed SocketConn.close find_request]. rewrite SocketConn.close_closed.
  cbn -[find_request]. rewrite (find_request_in k _ r) by done. by rewrite Hre.
Qed.
End Calls.
