(* ===== verification/ClientThreads.v ===== *)
(** * The client's threads: [connect], the receive and the keepalive thread, [close]

    [Client::connect] starts a thread that receives, waits for the answer to its
    authentication and starts a thread that keeps the connection alive; [close] joins
    both. Here the three threads are programs over the operations of [Cli.v], a step of
    one being one critical section or one access to what they share: the connection,
    [auth_result], the two condition variables. The steps interleave anywhere. What a
    read returns, and whether a wait times out, is part of a step's label. Waits are
    not woken without a notification. *)
From S2P Require Import Prelude Defs Caps SerHelper SockAdap SockConn DispState Cli.
Import Client Cli.

Module ClientThreads.

(** The arguments of [connect], and the process id. *)
Record args := mkArgs {
  arg_uri : option string;
  arg_ccb : bool;             (** whether there is a [ClientCallback] *)
  arg_mcb : bool;
  arg_noresp_timeout : Z;
  arg_pid : Z
}.

(** Where a thread is in [iclose]. *)
Inductive iclosing : Type :=
  | ITest                      (** before the test of [closed()] *)
  | IShut                      (** before [connection->close()] *)
  | ICollect                   (** before [req_mutex.lock()] *)
  | INotify (cbs : list nat)   (** before the callbacks *)
  | IWake.                     (** before [ka_mutex.lock()] *)

(** The thread that calls [connect] and later [close]. *)
Inductive main_loc : Type :=
  | MConnect
  | MAuth                                 (** the receive thread has been started *)
  | MSend (b : bytes)                     (** in [auth], holding [amutex] *)
  | MWait (notified : bool)               (** in [acond.wait] *)
  | MAuthed (r : Z)                       (** [auth] has returned *)
  | MConnected                            (** [connect] has returned FLORA_CLI_SUCCESS *)
  | MClose (p : iclosing) (ret : option Z)   (** in [close]; [Some r]: [connect] is failing with [r] *)
  | MJoinR (ret : option Z)
  | MJoinK (ret : option Z)
  | MFailed (r : Z)                       (** [connect] has returned [r] *)
  | MClosed.

(** [recv_loop] *)
Inductive recv_loc : Type :=
  | RNone
  | RTop
  | RReading                              (** in [connection->recv], past the test of [sock_ready] *)
  | RGot (d : bytes)
  | RFrames (size off : Z)                (** in the loop of [handle_received] *)
  | RFailed                               (** before the test of [auth_result] *)
  | RSaw                                  (** [auth_result] was not null; before [amutex.lock()] *)
  | RTold                                 (** before [auth_result = nullptr] *)
  | RClose (p : iclosing) (err : Z)
  | RDone.

(** [keepalive_loop]; [ka_mutex] is held but in the wait. *)
Inductive ka_loc : Type :=
  | KNone
  | KTop
  | KWait (notified : bool)
  | KDone.

Section Ops.
Context {caps : Type} `{!CapsOps caps, !CapsFlags} {os : Type} `{!SockOS os, !SockConnect os}.
Context `{!SteadyClock, !UriParser}.

Record sys := mkSys {
  cli : t caps os;
  given : args;
  main : main_loc;
  recv : recv_loc;
  ka : ka_loc;
  ares : Z                    (** [result] of the [AuthResult] of [auth] *)
}.

Inductive label : Type :=
  | LMain
  | LRecv (r : Z + bytes)     (** what a read in progress returns *)
  | LKa (timed_out : bool)
  | LClose.                   (** the user calls [close] *)

Definition start (bufsize flags : Z) (a : args) : sys :=
  mkSys (new bufsize flags) a MConnect RNone KNone FLORA_CLI_EAUTH.

Definition set_main (m : main_loc) (st : sys) : sys := mkSys (cli st) (given st) m (recv st) (ka st) (ares st).
Definition set_recv (r : recv_loc) (st : sys) : sys := mkSys (cli st) (given st) (main st) r (ka st) (ares st).
Definition set_ka (k : ka_loc) (st : sys) : sys := mkSys (cli st) (given st) (main st) (recv st) k (ares st).
Definition set_cli (c : t caps os) (st : sys) : sys := mkSys c (given st) (main st) (recv st) (ka st) (ares st).
Definition set_ares (z : Z) (st : sys) : sys := mkSys (cli st) (given st) (main st) (recv st) (ka st) z.

(** An operation on the client, and what follows from its result. *)
Definition on_cli {A} (m : M (t caps os) A) (f : A -> sys -> sys) (st : sys) : outcome sys :=
  match m (cli st) with
  | Done (a, c) => Done (f a (set_cli c st))
  | Undef u => Undef u
  end.

(** The part of the URI after [#]. *)
Definition fragment_of (a : args) : string :=
  default EmptyString (fragment <$> (arg_uri a ≫= fun u => uri_parse (c_str u))).

(** ** [iclose] *)

(** [ka_cond.notify_one()] *)
Definition notify_ka (k : ka_loc) : ka_loc := match k with KWait _ => KWait true | _ => k end.

(** [ka_mutex] is held by the keepalive thread, when it does not wait. *)
Definition ka_locked (k : ka_loc) : bool := match k with KTop => true | _ => false end.

(** One step of [iclose]; [goto p] is the place for [p], [end_] the one after it. *)
Definition iclose_step {P} (set : P -> sys -> sys) (goto : iclosing -> P) (end_ : P) (passive : bool) (err : Z)
    (p : iclosing) (st : sys) : option (outcome sys) :=
  match p with
  | ITest => Some (on_cli iclose_open (fun go => set (if go : bool then goto IShut else end_)) st)
  | IShut => Some (on_cli conn_close (fun _ => set (goto ICollect)) st)
  | ICollect => Some (on_cli (iclose_collect err) (fun cbs => set (goto (INotify cbs))) st)
  | INotify cbs => Some (on_cli (tell_closed err cbs) (fun _ => set (goto IWake)) st)
  | IWake =>
      if ka_locked (ka st) then None
      else Some (on_cli (tell_disconnected passive) (fun _ => set end_) (set_ka (notify_ka (ka st)) st))
  end.

(** ** [connect] and [close] *)

Definition main_step (st : sys) : option (outcome sys) :=
  let a := given st in
  match main st with
  | MConnect =>
      Some (on_cli (connect_open (arg_noresp_timeout a) (arg_uri a) (arg_mcb a)) (fun o st =>
        match o with
        | Some code => set_main (MFailed code) st
        | None => set_recv RTop (set_main MAuth st)
        end) st)
  | MAuth =>
      Some (on_cli (auth_begin (arg_pid a) (fragment_of a)) (fun o =>
        set_main (match o with Some b => MSend b | None => MAuthed FLORA_CLI_EAUTH end)) st)
  | MSend b =>
      Some (on_cli (auth_sent b) (fun o =>
        set_main (match o with Some code => MAuthed code | None => MWait false end)) st)
  | MWait false => None
  | MWait true => Some (on_cli (auth_result_of (ares st)) (fun r => set_main (MAuthed r)) st)
  | MAuthed r =>
      if bool_decide (r <> FLORA_CLI_SUCCESS) then
        Some (on_cli (modify (set_mon_callback false)) (fun _ => set_main (MClose ITest (Some r))) st)
      else
        Some (on_cli (modify (set_cli_callback (arg_ccb a)) ;; modify (set_auth_extra (fragment_of a)))
          (fun _ st => set_ka KTop (set_main MConnected st)) st)
  | MClose p ret =>
      iclose_step set_main (fun p => MClose p ret) (MJoinR ret) false FLORA_CLI_ECLOSED p st
  | MJoinR ret =>
      match recv st with
      | RNone | RDone =>
          Some (on_cli (modify (set_cmd_handler handle_cmd_before_auth)) (fun _ => set_main (MJoinK ret)) st)
      | _ => None
      end
  | MJoinK ret =>
      match ka st with
      | KNone | KDone => Some (Done (set_main (match ret with Some r => MFailed r | None => MClosed end) st))
      | _ => None
      end
  | MConnected | MFailed _ | MClosed => None
  end.

(** ** [recv_loop] *)

(** [acond.notify_one()] *)
Definition notify_auth (m : main_loc) : main_loc := match m with MWait _ => MWait true | _ => m end.

(** [amutex] is held by [auth], when it does not wait. *)
Definition auth_locked (m : main_loc) : bool := match m with MSend _ => true | _ => false end.

(** The message at [off] of [size] received bytes and its length, or how the loop ends. *)
Definition message_at (buf : bytes) (size off : Z) : received_result + bytes * Z :=
  if bool_decide (size <= off) then inl (Kept off)
  else if bool_decide (size - off < 8) then inl (Kept off)
  else
    match caps_binary_info (drop (Z.to_nat off) buf) with
    | None => inl Broken
    | Some (_, length) =>
        if bool_decide (size - off < length) then inl (Kept off)
        else inr (mem_read buf (Z.to_nat off) (Z.to_nat length), length)
    end.

(** [handle_cmd_before_auth] locks [amutex] for the answer to the authentication. *)
Definition takes_amutex (c : t caps os) (frame : bytes) : bool :=
  match cmd_handler c, caps_parse frame with
  | handle_cmd_before_auth, Some m => bool_decide ((caps_read_i32 m).1 = Some CMD_AUTH_RESP)
  | _, _ => false
  end.

(** After a message was handled: [handle_cmd_before_auth] told [auth] its result when
    it went on to the next handler. *)
Definition handled (before : CmdHandler) (next : recv_loc) (st : sys) : sys :=
  let st := set_recv next st in
  match before, cmd_handler (cli st), auth_result (cli st) with
  | handle_cmd_before_auth, handle_cmd_after_auth, Some v => set_ares v (set_main (notify_auth (main st)) st)
  | _, _, _ => st
  end.

(** The size of the space left in the receive buffer. *)
Definition space (c : t caps os) : Z := bufsize c - rbuf_off c.

Definition recv_step (r : Z + bytes) (st : sys) : option (outcome sys) :=
  let c := cli st in
  match recv st with
  | RNone | RDone => None
  | RTop =>
      if bool_decide (rbuf_off c = bufsize c) then Some (Done (set_recv (RClose ITest FLORA_CLI_EINSUFF_BUF) st))
      else Some (on_cli conn_closed (fun closed => set_recv (if closed : bool then RFailed else RReading)) st)
  | RReading =>
      match r with
      | inl _ | inr [] => Some (Done (set_recv RFailed st))
      | inr d => if bool_decide (Z.of_nat (length d) <= space c) then Some (Done (set_recv (RGot d) st)) else None
      end
  | RGot d => Some (on_cli (recv_store d) (fun size => set_recv (RFrames size 0)) st)
  | RFrames size off =>
      match message_at (rbuffer c) size off with
      | inl (Kept off) => Some (on_cli (keep_rest (rbuffer c) size off) (fun _ => set_recv RTop) st)
      | inl _ => Some (Done (set_recv RFailed st))
      | inr (frame, length) =>
          if takes_amutex c frame && auth_locked (main st) then None
          else Some (on_cli (handle_frame frame) (fun ok =>
            handled (cmd_handler c) (if ok : bool then RFrames size (off + length) else RFailed)) st)
      end
  | RFailed =>
      Some (Done (set_recv (match auth_result c with Some _ => RSaw | None => RClose ITest FLORA_CLI_ECONN end) st))
  | RSaw =>
      if auth_locked (main st) then None
      else Some (match auth_result c with
                 | None => Undef NullDeref
                 | Some _ => Done (set_recv RTold (set_main (notify_auth (main st)) st))
                 end)
  | RTold => Some (on_cli (modify (set_auth_result None)) (fun _ => set_recv (RClose ITest FLORA_CLI_EAUTH)) st)
  | RClose p err => iclose_step set_recv (fun p => RClose p err) RDone true err p st
  end.

(** ** [keepalive_loop] *)

Definition ka_step (timed_out : bool) (st : sys) : option (outcome sys) :=
  match ka st with
  | KNone | KDone => None
  | KTop => Some (on_cli conn_closed (fun closed => set_ka (if closed : bool then KDone else KWait false)) st)
  | KWait notified =>
      if timed_out then Some (on_cli ping (fun _ => set_ka KTop) st)
      else if notified then Some (Done (set_ka KTop st)) else None
  end.

Definition exec (st : sys) (lb : label) : option (outcome sys) :=
  match lb with
  | LMain => main_step st
  | LRecv r => recv_step r st
  | LKa timed_out => ka_step timed_out st
  | LClose => match main st with MConnected => Some (Done (set_main (MClose ITest None) st)) | _ => None end
  end.

Definition step (st st' : sys) : Prop := exists lb, exec st lb = Some (Done st').

(** A run, to where it crashes if it does. *)
Fixpoint execs (st : sys) (lbs : list label) : option (outcome sys) :=
  match lbs with
  | [] => Some (Done st)
  | lb :: lbs =>
      match exec st lb with
      | Some (Done st') => execs st' lbs
      | Some (Undef u) => match lbs with [] => Some (Undef u) | _ => None end
      | None => None
      end
  end.
End Ops.
Arguments sys caps os : clear implicits.
End ClientThreads.
