(* ===== verification/ClientLife.v ===== *)
(** * The life of a client: what [connect] and [close] leave

    The invariant of the client's three threads. [connect] leaves both threads of an
    authenticated connection running or none; [close] ends both, and nothing can keep
    it waiting. *)
From S2P Require Import Prelude Defs Caps SerHelper SockAdap SockConn DispState Cli ClientThreads.
Import Client Cli ClientThreads.

Section Life.
Context {caps : Type} `{!CapsOps caps, !CapsFlags} {os : Type} `{!SockOS os, !SockConnect os}.
Context `{!SteadyClock, !UriParser}.
Implicit Types (c : t caps os) (st : sys caps os).

(** ** What handling messages touches *)

(** The handler changes once, with a result. *)
Definition authd c c' : Prop :=
  (cmd_handler c' = cmd_handler c /\ auth_result c' = auth_result c) \/
  (cmd_handler c = handle_cmd_before_auth /\ cmd_handler c' = handle_cmd_after_auth /\
   is_Some (auth_result c) /\ is_Some (auth_result c')).

Record handles c c' : Prop := {
  ha_conn : connection c' = connection c;
  ha_ccb : cli_callback c' = cli_callback c;
  ha_extra : auth_extra c' = auth_extra c;
  ha_auth : authd c c'
}.

#[export] Instance handles_preorder : PreOrder handles.
Proof.
  split; [split; [done..|by left]|]. intros c1 c2 c3 [I1 I2 I3 I4] [J1 J2 J3 J4]. split; [congruence..|].
  destruct I4 as [[Hh Ha]|(Hh & Hh' & Ha & Ha')], J4 as [[Jh Ja]|(Jh & Jh' & Ja & Ja')]; unfold authd.
  - left. split; congruence.
  - right. rewrite <- Ha, <- Hh. done.
  - right. rewrite Jh, Ja. done.
  - congruence.
Qed.

Ltac handles_same := intros ?; split; [done..|by left].

Lemma handles_emit (e : event caps) : rels handles (emit e : M (t caps os) unit).
Proof. apply rels_modify. handles_same. Qed.

Lemma handles_parse {A} (p : P caps (Z * string) A) m : rels handles (Cli.parse p m : M (t caps os) _).
Proof.
  intros s. unfold Cli.parse, wpx. destruct (p (m, (tag s, sender_name s))) as [[a| |u|] [? [tg nm]]]; simpl; try done;
    by (split; [done..|by left]).
Qed.

#[local] Hint Resolve handles_emit handles_parse : rels.
Ltac handles_tac := repeat (eauto with rels typeclass_instances; first
  [ apply rels_bind; [apply _| |intros ?] | apply rels_modify; handles_same | case_match ]).

Lemma handles_before_auth cmd m c :
  cmd_handler c = handle_cmd_before_auth -> wlp (before_auth cmd m) (fun _ c' => handles c c') c.
Proof.
  intros Hb. unfold before_auth. case_match; [by wsteps|]. do 2 wstep. destruct (auth_result c) as [r0|] eqn:Ha; [|done].
  wstep. unfold Cli.parse, wpx at 1. destruct (ResponseParser.parse_auth _) as [[[r v]| |u|] [? [tg nm]]]; wsteps; try done;
    (split; [done..|]); [right|left; done..]. simpl. by rewrite Ha.
Qed.

Lemma handles_monitor fuel n h m : monitor_handlers fuel !! n = Some h -> rels handles (h m : M (t caps os) bool).
Proof.
  intros Hh. do 11 (destruct n as [|n]; [injection Hh as <-; unfold handle_monitor_list_all, handle_monitor_list_add,
    handle_monitor_list_remove, handle_monitor_sub_all, handle_monitor_sub_add, handle_monitor_sub_remove,
    handle_monitor_decl_all, handle_monitor_decl_add, handle_monitor_decl_remove, handle_monitor_post,
    handle_monitor_call, handle_monitor_detail; handles_tac|]). done.
Qed.

Lemma handles_reply id code resp : rels handles (handle_reply id code resp : M (t caps os) unit).
Proof. unfold handle_reply. handles_tac. Qed.

#[local] Hint Resolve handles_reply : rels.

Lemma handles_after_auth fuel cmd m : rels handles (after_auth fuel cmd m : M (t caps os) bool).
Proof.
  unfold after_auth. handles_tac. by eapply handles_monitor.
Qed.

Lemma handles_frame f : rels handles (handle_frame f : M (t caps os) bool).
Proof.
  unfold handle_frame. destruct (caps_parse f) as [m|]; [|handles_tac]. destruct (caps_read_i32 m) as [[cmd|] m']; [|handles_tac].
  intros c. unfold handle_cmd. do 2 wstep. destruct (cmd_handler c) eqn:Hc; [by apply handles_before_auth|apply handles_after_auth].
Qed.

(** A message that is not the awaited answer changes nothing before it. *)
Lemma not_taken f c : takes_amutex c f = false -> cmd_handler c = handle_cmd_before_auth ->
  wlp (handle_frame f) (fun _ c' => c' = c) c.
Proof.
  unfold takes_amutex, handle_frame. intros Ht Hb. rewrite Hb in Ht.
  destruct (caps_parse f) as [m|]; [|by wsteps]. destruct (caps_read_i32 m) as [[cmd|] m']; [|by wsteps].
  apply bool_decide_eq_false in Ht. unfold handle_cmd. do 2 wstep. rewrite Hb. unfold before_auth.
  rewrite bool_decide_true by (simpl in Ht; congruence). by wsteps.
Qed.

(** The loop of [handle_received] is its rounds. *)
Lemma received_loop_message fuel buf size off :
  received_loop (S fuel) buf size off =
    match message_at buf size off with
    | inl r => (mret r : M (t caps os) _)
    | inr (f, n) => ok ← handle_frame f; if ok : bool then received_loop fuel buf size (off + n) else mret Broken
    end.
Proof. simpl. unfold message_at. by repeat case_match. Qed.

(** ** What the other threads do to the client *)

Definition shut c : Prop := exists conn, connection c = Some conn /\ SocketConn.closed conn = true.

Record peer c c' : Prop := {
  pe_none : connection c' = None <-> connection c = None;
  pe_shut : shut c -> shut c';
  pe_ccb : cli_callback c' = cli_callback c;
  pe_extra : auth_extra c' = auth_extra c;
  pe_auth : auth_result c = None -> auth_result c' = None;
  pe_handler : cmd_handler c' = cmd_handler c
}.

#[export] Instance peer_preorder : PreOrder peer.
Proof.
  split; [by intros c; split|]. intros c1 c2 c3 [I1 I2 I3 I4 I5 I6] [J1 J2 J3 J4 J5 J6].
  split; [by rewrite J1|by auto|congruence..|by auto|congruence].
Qed.

Lemma handles_peer c c' : handles c c' -> cmd_handler c' = cmd_handler c -> peer c c'.
Proof.
  intros [Hc Hcb He Ha] Hh. split; rewrite ?Hc; try done; unfold shut; rewrite ?Hc; [done|].
  intros Hn. destruct Ha as [[_ ->]|(_ & _ & [v Hv] & _)]; [done|]. congruence.
Qed.

(** A change of the connection that does not open it. *)
Lemma peer_connection c conn conn' :
  connection c = Some conn -> (SocketConn.closed conn = true -> SocketConn.closed conn' = true) ->
  peer c (set_connection (Some conn') c).
Proof.
  intros Hc Hcl. split; try done; simpl; [by rewrite Hc|]. intros (x & Hx & ?). exists conn'. split; [done|].
  rewrite Hc in Hx. injection Hx as <-. auto.
Qed.

Lemma peer_same c c' : connection c' = connection c -> cli_callback c' = cli_callback c -> auth_extra c' = auth_extra c ->
  auth_result c' = auth_result c -> cmd_handler c' = cmd_handler c -> peer c c'.
Proof. intros Hc ? ? Ha ?. split; try done; unfold shut; by rewrite ?Hc, ?Ha. Qed.

Lemma peer_emit (e : event caps) : rels peer (emit e : M (t caps os) unit).
Proof. apply rels_modify. intros c. by apply peer_same. Qed.

Lemma peer_send d : rels peer (send d : M (t caps os) bool).
Proof.
  intros c. unfold send, with_connection. do 2 wstep. destruct (connection c) as [conn|] eqn:Hc; [|done].
  destruct (SocketConn.send d conn) as [ok conn'] eqn:Hs. wsteps. eapply peer_connection; [done|].
  apply SocketConn.send_sent in Hs as [_ ->]. done.
Qed.

#[local] Hint Resolve peer_emit peer_send : rels.
Ltac peer_tac := repeat (eauto with rels typeclass_instances; first
  [ apply rels_bind; [apply _| |intros ?] | apply rels_when; [apply _|] | apply rels_modify; intros ?; by apply peer_same
  | case_match ]).

Lemma peer_store d : rels peer (recv_store d : M (t caps os) Z).
Proof. unfold recv_store. peer_tac. Qed.

Lemma peer_keep buf size off : rels peer (keep_rest buf size off : M (t caps os) unit).
Proof. unfold keep_rest. peer_tac. Qed.

Lemma peer_ping : rels peer (ping : M (t caps os) unit).
Proof. unfold ping. peer_tac. Qed.

Lemma peer_collect err : rels peer (iclose_collect err : M (t caps os) _).
Proof. unfold iclose_collect. peer_tac. Qed.

Lemma peer_tell_closed err cbs : rels peer (tell_closed err cbs : M (t caps os) _).
Proof. unfold tell_closed. peer_tac. Qed.

Lemma peer_tell_disconnected b : rels peer (tell_disconnected b : M (t caps os) _).
Proof. unfold tell_disconnected. peer_tac. Qed.

(** Where there is a connection, looking at it and closing it cannot fail. *)
Lemma wp_conn_closed c conn : connection c = Some conn ->
  wp conn_closed (fun b c' => c' = c /\ b = SocketConn.closed conn) c.
Proof.
  intros Hc. unfold conn_closed, with_connection. do 2 wstep. rewrite Hc. wsteps. split; [|done].
  rewrite <- Hc. by destruct c.
Qed.

Lemma wp_open c conn : connection c = Some conn ->
  wp iclose_open (fun go c' => c' = c /\ go = negb (SocketConn.closed conn)) c.
Proof. intros Hc. unfold iclose_open. wsteps. by rewrite Hc. Qed.

Lemma wp_conn_close c conn : connection c = Some conn ->
  wp conn_close (fun _ c' => peer c c' /\ shut c') c.
Proof.
  intros Hc. unfold conn_close, with_connection. do 2 wstep. rewrite Hc. wsteps.
  split; [eapply peer_connection; [done|intros _; apply SocketConn.close_closed]|].
  eexists. split; [done|apply SocketConn.close_closed].
Qed.

(** ** The invariant *)

Definition started st : Prop := recv st <> RNone /\ connection (cli st) <> None.

(** Past [connection->close()] the connection is shut. *)
Definition closing_ok (p : iclosing) c : Prop := match p with ITest | IShut => True | _ => shut c end.

Lemma closing_ok_peer p c c' : (shut c -> shut c') -> closing_ok p c -> closing_ok p c'.
Proof. destruct p; auto. Qed.

(** What [close] was called for: a failing [connect] has no keepalive thread. *)
Definition ret_ok (ret : option Z) (k : ka_loc) : Prop :=
  match ret with Some r => r <> FLORA_CLI_SUCCESS /\ k = KNone | None => k <> KNone end.

Definition main_ok st : Prop :=
  let c := cli st in
  match main st with
  | MConnect => recv st = RNone /\ ka st = KNone /\ connection c = None /\ auth_result c = None /\
      cmd_handler c = handle_cmd_before_auth /\ ares st = FLORA_CLI_EAUTH
  | MAuth => started st /\ ka st = KNone /\ auth_result c = None /\ cmd_handler c = handle_cmd_before_auth /\
      ares st = FLORA_CLI_EAUTH /\ recv st <> RTold
  | MSend _ => started st /\ ka st = KNone /\ cmd_handler c = handle_cmd_before_auth /\
      ares st = FLORA_CLI_EAUTH /\ recv st <> RTold
  | MWait n => started st /\ ka st = KNone /\
      (cmd_handler c = handle_cmd_before_auth /\ ares st = FLORA_CLI_EAUTH \/
       cmd_handler c = handle_cmd_after_auth /\ n = true)
  | MAuthed r => started st /\ ka st = KNone /\ auth_result c = None /\
      (r = FLORA_CLI_SUCCESS -> cmd_handler c = handle_cmd_after_auth)
  | MConnected => started st /\ ka st <> KNone /\ auth_result c = None /\ cmd_handler c = handle_cmd_after_auth /\
      cli_callback c = arg_ccb (given st) /\ auth_extra c = fragment_of (given st)
  | MClose p ret => started st /\ auth_result c = None /\ ret_ok ret (ka st) /\ closing_ok p c
  | MJoinR ret => started st /\ auth_result c = None /\ ret_ok ret (ka st) /\ shut c
  | MJoinK ret => recv st = RDone /\ ret_ok ret (ka st) /\ shut c
  | MFailed r => r <> FLORA_CLI_SUCCESS /\ ka st = KNone /\
      (recv st = RNone /\ connection c = None \/ recv st = RDone /\ shut c)
  | MClosed => recv st = RDone /\ ka st = KDone /\ shut c
  end.

Record life st : Prop := {
  li_main : main_ok st;
  li_recv : match recv st with RDone => shut (cli st) | RClose p _ => closing_ok p (cli st) | _ => True end;
  li_ka : ka st = KDone -> shut (cli st)
}.

(** The receive thread has not ended. *)
Definition receiving (r : recv_loc) : Prop := r <> RNone /\ r <> RDone.

(** A step of the receive or the keepalive thread that leaves the others where they are. *)
Lemma main_ok_peer st st' :
  main_ok st -> peer (cli st) (cli st') -> main st' = main st -> given st' = given st -> ares st' = ares st ->
  (ka st' = KNone <-> ka st = KNone) -> (ka st = KDone -> ka st' = KDone) ->
  (recv st' = recv st \/ receiving (recv st) /\ recv st' <> RNone /\
    (recv st' = RTold -> main st <> MAuth /\ forall b, main st <> MSend b)) ->
  main_ok st'.
Proof.
  intros Hm [Pn Ps Pc Pe Pa Ph] Em Eg Ea Hk Hkd Hr. unfold main_ok, ret_ok in *. rewrite Em, Ea, Pc, Pe, Ph, Eg.
  assert (receiving (recv st) -> recv st' <> RNone) as Hrn by (destruct Hr as [->|(_ & ? & _)]; [by intros [? _]|done]).
  assert (started st -> started st') as Hst.
  { intros [? ?]. split; [|by rewrite Pn]. by destruct Hr as [->|(_ & ? & _)]. }
  assert (recv st = RDone -> recv st' = RDone) as Hd by (destruct Hr as [->|([_ ?] & _ & _)]; done).
  assert (recv st = RNone -> recv st' = RNone) as Hn by (destruct Hr as [->|([? _] & _ & _)]; done).
  assert (recv st <> RTold -> recv st' = RTold -> main st <> MAuth /\ forall b, main st <> MSend b) as Ht.
  { destruct Hr as [->|(_ & _ & ?)]; auto; congruence. }
  destruct (main st) as [| | |n| | |p ret|ret|ret| |] eqn:Hmain; try destruct ret as [r|]; rewrite ?Hk, ?Pn;
    try (destruct Hm as (? & ? & Hret & Hp); split; [by auto|split; [by auto|split];
      [clear Hp; naive_solver|by apply closing_ok_peer with (c := cli st)]]);
    clear Hmain; naive_solver.
Qed.

Lemma life_peer st st' :
  life st -> peer (cli st) (cli st') -> main st' = main st -> given st' = given st -> ares st' = ares st ->
  (ka st' = KNone <-> ka st = KNone) -> (ka st = KDone -> ka st' = KDone) -> (ka st' = KDone -> shut (cli st')) ->
  (recv st' = recv st \/ receiving (recv st) /\ recv st' <> RNone /\
    (recv st' = RTold -> main st <> MAuth /\ forall b, main st <> MSend b) /\
    match recv st' with RDone => shut (cli st') | RClose p _ => closing_ok p (cli st') | _ => True end) ->
  life st'.
Proof.
  intros [Hm Hr Hk] Hp Em Eg Ea Hkn Hkd Hks Hrr. split; [|destruct Hrr as [->|(_ & _ & _ & ?)]; [|done]|done].
  - eapply main_ok_peer; [done..|]. destruct Hrr as [?|(? & ? & ? & _)]; auto.
  - pose proof (pe_shut _ _ Hp). destruct (recv st); try done; [by eapply closing_ok_peer|auto].
Qed.

(** ** The steps keep it *)

Lemma on_cli_done {A} R (m : M (t caps os) A) f st st' :
  rels R m -> on_cli m f st = Done st' -> exists a c', R (cli st) c' /\ st' = f a (set_cli c' st).
Proof.
  intros Hm. unfold on_cli. specialize (Hm (cli st)). unfold wpx in Hm. destruct (m (cli st)) as [[x c']|]; [|done].
  intros [= <-]. eauto.
Qed.

Lemma on_cli_wp {A} E (Q : A -> t caps os -> Prop) (m : M (t caps os) A) f st st' :
  wpx E m Q (cli st) -> on_cli m f st = Done st' -> exists a c', Q a c' /\ st' = f a (set_cli c' st).
Proof. unfold wpx, on_cli. destruct (m (cli st)) as [[x c']|]; [|done]. intros ? [= <-]. eauto. Qed.

(** A thread that runs has a connection. *)
Lemma connected_of st : main_ok st -> receiving (recv st) \/ ka st <> KNone -> exists conn, connection (cli st) = Some conn.
Proof.
  intros Hm Hr. assert (connection (cli st) <> None -> exists conn, connection (cli st) = Some conn) as Hc
    by (destruct (connection (cli st)); eauto; done).
  unfold main_ok, started, receiving, shut in *. destruct (main st); naive_solver.
Qed.

Lemma shut_none c : shut c -> connection c <> None.
Proof. by intros (? & -> & _). Qed.

Lemma set_ka_id st : set_ka (ka st) st = st.
Proof. by destruct st. Qed.

(** The places a thread in [iclose] goes through, with the connection closed behind the first. *)
Lemma iclose_step_done {P} (set : P -> sys caps os -> sys caps os) goto end_ passive err p st st' :
  connection (cli st) <> None -> closing_ok p (cli st) ->
  iclose_step set goto end_ passive err p st = Some (Done st') ->
  exists c' k q, peer (cli st) c' /\ (k = ka st \/ k = notify_ka (ka st)) /\
    st' = set q (set_cli c' (set_ka k st)) /\
    (q = end_ /\ shut c' \/ exists p', q = goto p' /\ closing_ok p' c').
Proof.
  intros Hc Hp. destruct (connection (cli st)) as [conn|] eqn:Hconn; [|done].
  assert (shut (cli st) -> forall c', peer (cli st) c' -> shut c') as Hshut by (intros ? ? ?; by eapply pe_shut).
  destruct p as [| | |cbs|]; cbn [iclose_step]; intros Hs; [..|destruct (ka_locked (ka st)); [done|]];
    apply (inj Some) in Hs.
  - apply (on_cli_wp _ _ _ _ _ _ (wp_open _ _ Hconn)) in Hs as (go & c' & [-> ->] & ->).
    eexists _, (ka st), _. rewrite set_ka_id. split_and!; [done|by left|done|].
    destruct (SocketConn.closed conn) eqn:Hcl; simpl; [left|right; by eexists]. split; [done|]. by exists conn.
  - apply (on_cli_wp _ _ _ _ _ _ (wp_conn_close _ _ Hconn)) in Hs as (go & c' & [? ?] & ->).
    eexists c', (ka st), _. rewrite set_ka_id. split_and!; [done|by left|done|right; by eexists].
  - eapply on_cli_done in Hs as (cbs & c' & ? & ->); [|apply peer_collect].
    eexists c', (ka st), _. rewrite set_ka_id. split_and!; [done|by left|done|right; eexists; split; [done|by apply Hshut]].
  - eapply on_cli_done in Hs as (? & c' & ? & ->); [|apply peer_tell_closed].
    eexists c', (ka st), _. rewrite set_ka_id. split_and!; [done|by left|done|right; eexists; split; [done|by apply Hshut]].
  - eapply on_cli_done in Hs as (? & c' & ? & ->); [|apply peer_tell_disconnected].
    eexists c', _, _. split_and!; [done|by right|done|left; split; [done|by apply Hshut]].
Qed.

Lemma notify_ka_rel k : (notify_ka k = KNone <-> k = KNone) /\ (k = KDone -> notify_ka k = KDone) /\
  (notify_ka k = KDone -> k = KDone).
Proof. by destruct k. Qed.

Lemma ka_step_life b st st' : life st -> ka_step b st = Some (Done st') -> life st'.
Proof.
  intros Hl He. pose proof Hl as [Hm Hr Hk]. unfold ka_step in He. destruct (ka st) as [| |n|] eqn:Hka; try done.
  - destruct (connected_of st Hm ltac:(right; by rewrite Hka)) as [conn Hc]. apply (inj Some) in He.
    apply (on_cli_wp _ _ _ _ _ _ (wp_conn_closed _ _ Hc)) in He as (cl & c' & [-> ->] & ->).
    destruct st as [c a m r k z]. simpl in *. subst k.
    destruct (SocketConn.closed conn) eqn:Hcl; (eapply life_peer; [exact Hl|done..|by simpl| | |by left]); simpl; try done.
    intros _. by exists conn.
  - destruct b; [|destruct n; [|done]]; apply (inj Some) in He.
    + eapply on_cli_done in He as (? & c' & Hp & ->); [|apply peer_ping].
      eapply life_peer; [exact Hl|done..|by rewrite Hka|by rewrite Hka|done|by left].
    + injection He as <-. eapply life_peer; [exact Hl|done..|by rewrite Hka|by rewrite Hka|done|by left].
Qed.

(** [acond.notify_one()] changes only a wait. *)
Lemma life_notify st : life st -> (exists n, main st = MWait n) \/ notify_auth (main st) = main st ->
  life (set_main (notify_auth (main st)) st).
Proof.
  intros [Hm Hr Hk] [[n Hn]|He]; [|rewrite He; by destruct st]. split; simpl; [|done..].
  unfold main_ok, started in *. rewrite Hn in *. simpl. naive_solver.
Qed.

Lemma wait_of st : main_ok st -> auth_result (cli st) <> None -> receiving (recv st) ->
  (exists n, main st = MWait n) \/ (exists b, main st = MSend b).
Proof. intros Hm Ha [Hn Hd]. unfold main_ok in *. destruct (main st); naive_solver. Qed.

Lemma notify_auth_cases m : (exists n, m = MWait n) \/ notify_auth m = m.
Proof. destruct m; eauto. Qed.

(** A step of the receive thread inside its loop. *)
Lemma life_recv st c' r' :
  life st -> peer (cli st) c' -> receiving (recv st) -> receiving r' ->
  (r' = RTold -> exists n, main st = MWait n) ->
  match r' with RClose p _ => closing_ok p c' | _ => True end ->
  life (set_recv r' (set_cli c' st)).
Proof.
  intros Hl Hp Hr Hr' Ht Hc. eapply life_peer; [exact Hl|done..| |].
  - intros Hk. eapply pe_shut; [done|]. by apply Hl.
  - right. simpl. split_and!; [done|by destruct Hr'| |by destruct r', Hr'].
    intros ->. destruct Ht as [n ->]; done.
Qed.

Lemma handled_same st before next : cmd_handler (cli st) = before -> handled before next st = set_recv next st.
Proof. intros <-. unfold handled. simpl. by destruct (cmd_handler (cli st)). Qed.

Lemma frame_life f next st st' :
  life st -> receiving (recv st) -> takes_amutex (cli st) f && auth_locked (main st) = false ->
  (forall ok, receiving (next ok) /\ next ok <> RTold /\ forall p err, next ok <> RClose p err) ->
  on_cli (handle_frame f) (fun ok => handled (cmd_handler (cli st)) (next ok)) st = Done st' -> life st'.
Proof.
  intros Hl Hrr Hlk Hnext He.
  apply (on_cli_wp (fun _ => True) (fun _ c' => handles (cli st) c' /\
    (takes_amutex (cli st) f = false -> cmd_handler (cli st) = handle_cmd_before_auth -> c' = cli st))) in He
    as (ok & c' & [Hh Hnt] & ->).
  2: { unfold wpx. pose proof (handles_frame f (cli st)) as Hf1. pose proof (not_taken f (cli st)) as Hf2.
       unfold wpx in *. destruct (handle_frame f (cli st)) as [[ok c']|]; done. }
  destruct (Hnext ok) as (Hro & Ht & Hcl).
  destruct (ha_auth _ _ Hh) as [[Heq _]|(Hb & Hb' & [v Hv] & [v' Hv'])].
  - rewrite handled_same by done. apply life_recv; [done|by apply handles_peer|done..|].
    destruct (next ok); try done. by destruct (Hcl p err).
  - destruct (takes_amutex (cli st) f); [|rewrite Hnt in Hb' by done; congruence]. simpl in Hlk.
    destruct (wait_of st (li_main _ Hl) ltac:(by rewrite Hv) Hrr) as [[n Hn]|[b Hn]]; [|by rewrite Hn in Hlk].
    destruct Hl as [Hm _ Hk]. unfold handled. rewrite Hb. simpl. rewrite Hb', Hv', Hn. split; simpl.
    + unfold main_ok, started in *. rewrite Hn in Hm. destruct Hm as ([? ?] & ? & _). simpl.
      rewrite (ha_conn _ _ Hh). split_and!; [by destruct Hro|done..|by right].
    + destruct (next ok) as [| | | | | | | |p err|]; try done; [by destruct (Hcl p err)|by destruct Hro].
    + intros [x Hx]%Hk. exists x. by rewrite (ha_conn _ _ Hh).
Qed.

Lemma set_recv_cli st r : set_recv r st = set_recv r (set_cli (cli st) st).
Proof. done. Qed.

Lemma recv_step_life x st st' : life st -> recv_step x st = Some (Done st') -> life st'.
Proof.
  intros Hl He. pose proof Hl as [Hm Hr Hk]. unfold recv_step in He.
  destruct (recv st) as [| | |d|size off| | | |p err|] eqn:Hrc; try done;
    (assert (receiving (recv st)) as Hrr by (by rewrite Hrc)).
  - destruct (bool_decide _); [injection He as <-; rewrite set_recv_cli; apply life_recv; auto; done|].
    destruct (connected_of st Hm ltac:(by left)) as [conn Hc]. apply (inj Some) in He.
    apply (on_cli_wp _ _ _ _ _ _ (wp_conn_closed _ _ Hc)) in He as (cl & c' & [-> _] & ->). 
    apply life_recv; try done; by destruct cl.
  - destruct x as [z|[|b d]]; [..|case_match; [|done]]; injection He as <-; rewrite set_recv_cli; by apply life_recv.
  - apply (inj Some) in He. eapply on_cli_done in He as (size & c' & Hp & ->); [|apply peer_store]. by apply life_recv.
  - destruct (message_at _ _ _) as [[o| |]|[f n]].
    + apply (inj Some) in He. eapply on_cli_done in He as ([] & c' & Hp & ->); [|apply peer_keep]. by apply life_recv.
    + injection He as <-. rewrite set_recv_cli. by apply life_recv.
    + injection He as <-. rewrite set_recv_cli. by apply life_recv.
    + destruct (_ && _) eqn:Hlk; [done|]. apply (inj Some) in He. eapply frame_life; [done..| |exact He].
      intros []; by split_and!.
  - injection He as <-. rewrite set_recv_cli. apply life_recv; destruct (auth_result (cli st)); auto; done.
  - destruct (auth_locked (main st)) eqn:Hlk; [done|]. destruct (auth_result (cli st)) as [v|] eqn:Ha; [|done].
    injection He as <-. destruct (wait_of st Hm ltac:(by rewrite Ha) Hrr) as [[n Hn]|[b Hn]]; [|by rewrite Hn in Hlk].
    apply (life_recv (set_main (notify_auth (main st)) st) (cli st) RTold); [by apply life_notify; eauto|done..| |done].
    intros _. rewrite Hn. simpl. eauto.
  - injection He as <-. apply (life_recv st _ (RClose ITest FLORA_CLI_EAUTH)); [done|by split|done..].
  - destruct (connected_of st Hm ltac:(by left)) as [conn Hc].
    apply iclose_step_done in He as (c' & k & q & Hp & Hkk & -> & Hq); [|by rewrite Hc|done].
    pose proof (notify_ka_rel (ka st)) as (Hn1 & Hn2 & Hn3).
    eapply life_peer; [exact Hl|done..| | | |]; simpl; [by destruct Hkk as [-> | ->]|by destruct Hkk as [-> | ->]; auto| |].
    + intros Hd. eapply pe_shut; [done|]. apply Hk. destruct Hkk as [<-|Hq']; [done|]. apply Hn3. by rewrite <- Hq'.
    + right. rewrite Hrc. split_and!; [done| | |]; destruct Hq as [[-> ?] | (p' & -> & ?)]; done.
Qed.

(** ** What [connect] does to the client *)

Lemma wlp_connect_open rto uri mcb c :
  wlp (connect_open rto uri mcb) (fun o c' =>
    match o with
    | Some code => c' = c /\ code <> FLORA_CLI_SUCCESS
    | None => connection c' <> None /\ auth_result c' = auth_result c /\ cmd_handler c' = cmd_handler c
    end) c.
Proof.
  unfold connect_open. destruct uri as [u|]; [|by wsteps]. destruct (uri_parse _) as [u'|]; [|by wsteps].
  case_bool_decide; [|case_bool_decide; [|by wsteps]];
    (destruct (SocketConn.connect_unix _ _) as [[] ?] || destruct (SocketConn.connect_tcp _ _ _) as [[] ?]); by wsteps.
Qed.

Lemma wlp_auth_begin pid extra c :
  wlp (auth_begin pid extra) (fun o c' =>
    match o with
    | Some _ => connection c' = connection c /\ cmd_handler c' = cmd_handler c
    | None => c' = c
    end) c.
Proof. unfold auth_begin. do 6 wstep. destruct (RequestSerializer.serialize_auth _ _ _ _ _ _) as [[|x b]|]; by wsteps. Qed.

Lemma wlp_auth_sent b c :
  wlp (auth_sent b) (fun o c' =>
    (connection c' = None <-> connection c = None) /\ (shut c -> shut c') /\ cmd_handler c' = cmd_handler c /\
    match o with
    | Some code => code = FLORA_CLI_EAUTH /\ auth_result c' = None
    | None => True
    end) c.
Proof.
  unfold auth_sent. wstep. eapply wpx_mono; [apply peer_send|]. intros ok c' [Pn Ps _ _ _ Ph].
  destruct ok; wsteps; done.
Qed.

(** A step of the caller outside [close]. *)
Lemma life_main st c' m z k :
  life st -> main_ok (mkSys c' (given st) m (recv st) k z) -> (shut (cli st) -> shut c') -> (k = ka st \/ k <> KDone) ->
  life (mkSys c' (given st) m (recv st) k z).
Proof.
  intros [_ Hr Hk] Hm Hs Hkk. split; [done| |]; simpl.
  - destruct (recv st); try done; [by eapply closing_ok_peer|auto].
  - intros ->. destruct Hkk as [Heq|?]; [|done]. auto.
Qed.

Lemma shut_same c c' : connection c' = connection c -> shut c -> shut c'.
Proof. unfold shut. by intros ->. Qed.

Lemma main_step_life st st' : life st -> main_step st = Some (Done st') -> life st'.
Proof.
  intros Hl He. pose proof Hl as [Hm Hr Hk]. unfold main_step in He. unfold main_ok, started in Hm.
  destruct (main st) as [| |b|n|r| |p ret|ret|ret| |] eqn:Hmain; try done.
  - apply (inj Some) in He. apply (on_cli_wp _ _ _ _ _ _ (wlp_connect_open _ _ _ _)) in He as (o & c' & Ho & ->).
    destruct Hm as (Hrn & Hkn & Hc & Ha & Hh & Hz). destruct o as [code|].
    + destruct Ho as [-> Hne]. apply (life_main st _ _ (ares st)); [done| |done|by left]. split_and!; auto.
    + destruct Ho as (Hc' & Ha' & Hh'). split; simpl; [|done|by rewrite Hkn].
      unfold main_ok, started. simpl. rewrite Ha', Hh'. done.
  - apply (inj Some) in He. apply (on_cli_wp _ _ _ _ _ _ (wlp_auth_begin _ _ _)) in He as (o & c' & Ho & ->).
    destruct Hm as ([? ?] & Hkn & Ha & Hh & Hz & Ht). destruct o as [b|]; simpl.
    + destruct Ho as [Hc' Hh']. apply (life_main st); [done| |by apply (shut_same (cli st))|by left].
      unfold main_ok, started. simpl. by rewrite Hc', Hh'.
    + subst c'. apply (life_main st); [done| |done|by left]. by unfold main_ok, started.
  - apply (inj Some) in He. apply (on_cli_wp _ _ _ _ _ _ (wlp_auth_sent _ _)) in He as (o & c' & (Hn & Hs & Hh' & Ho) & ->).
    destruct Hm as ([? ?] & Hkn & Hh & Hz & Ht).
    destruct o as [code|]; (apply (life_main st); [done| |done|by left]); unfold main_ok, started; simpl; rewrite Hn, ?Hh'.
    + by destruct Ho as [-> ->].
    + split_and!; auto.
  - destruct n; [|done]. injection He as <-. destruct Hm as ([? ?] & Hkn & Hres).
    apply (life_main st); [done| |by apply (shut_same (cli st))|by left]. unfold main_ok, started. simpl. split_and!; try done.
    intros Hz. destruct Hres as [[_ Hz']|[? _]]; [by rewrite Hz in Hz'|done].
  - destruct Hm as ([? ?] & Hkn & Ha & Hh). case_bool_decide as Hz; injection He as <-.
    + apply (life_main st); [done| |by apply (shut_same (cli st))|by left]. by unfold main_ok, started.
    + apply (life_main st); [done| |by apply (shut_same (cli st))|by right]. unfold main_ok, started. simpl.
      split_and!; auto.
  - destruct Hm as ([? ?] & Ha & Hret & Hp).
    apply iclose_step_done in He as (c' & k & q & Hpe & Hkk & -> & Hq); [|done|done].
    pose proof (notify_ka_rel (ka st)) as (Hn1 & Hn2 & Hn3).
    assert (ret_ok ret k) as Hret' by (unfold ret_ok in *; destruct ret, Hkk as [-> | ->]; by rewrite ?Hn1).
    apply (life_main st); [done| |by apply pe_shut|].
    + unfold main_ok, started. destruct Hq as [[-> ?] | (p' & -> & ?)]; simpl;
        rewrite (pe_none _ _ Hpe), (pe_auth _ _ Hpe Ha); done.
    + destruct Hkk as [-> | ->]; [by left|]. destruct (ka st); simpl; auto.
  - destruct Hm as ([? ?] & Ha & Hret & Hs). destruct (recv st) eqn:Hrc; try done. injection He as <-.
    apply (life_main st); [done| |by apply (shut_same (cli st))|by left]. unfold main_ok. simpl. by rewrite Hrc.
  - destruct Hm as (Hrd & Hret & Hs). destruct (ka st) eqn:Hka; try done; injection He as <-;
      (apply (life_main st (cli st)); [done| |done|by left]); unfold main_ok, ret_ok in *; simpl; rewrite Hka in *;
      destruct ret; naive_solver.
Qed.

(** ** Reachable states *)

Variables (size flags : Z) (a : args).

Definition reachable st : Prop := steps step (start size flags a) st.

Lemma life_step st st' : life st -> step st st' -> life st'.
Proof.
  intros Hl [[|r|b|] He]; [by eapply main_step_life|by eapply recv_step_life|by eapply ka_step_life|].
  simpl in He. destruct (main st) eqn:Hmain; try done. injection He as <-.
  pose proof (li_main _ Hl) as Hm. unfold main_ok in Hm. rewrite Hmain in Hm.
  apply (life_main st (cli st)); [done| |done|by left]. unfold main_ok, ret_ok. simpl. naive_solver.
Qed.

Lemma reachable_life st : reachable st -> life st.
Proof.
  intros Hs. eapply (steps_invariant _ life); [by apply life_step|done|]. by split.
Qed.

(** The arguments are those of [connect]. *)
Lemma on_cli_given {A} (m : M (t caps os) A) f st st' :
  (forall x s, given s = given st -> given (f x s) = given st) -> on_cli m f st = Done st' -> given st' = given st.
Proof. unfold on_cli. destruct (m (cli st)) as [[x c']|]; [|done]. intros Hf [= <-]. by apply Hf. Qed.

Lemma handled_given before ok st : given (handled before ok st) = given st.
Proof. unfold handled. repeat case_match; done. Qed.

Lemma iclose_step_given {P} (set : P -> sys caps os -> sys caps os) goto end_ passive err p st st' :
  (forall q s, given (set q s) = given s) -> iclose_step set goto end_ passive err p st = Some (Done st') ->
  given st' = given st.
Proof.
  intros Hset He. destruct p as [| | |cbs|]; cbn [iclose_step] in He; [..|destruct (ka_locked (ka st)); [done|]];
    apply (inj Some) in He; eapply (on_cli_given _ _ _ _) in He; rewrite ?He; try done; intros; by rewrite Hset.
Qed.

Lemma step_given st st' : step st st' -> given st' = given st.
Proof.
  intros [[|r|b|] He]; simpl in He.
  - unfold main_step in He. repeat case_match; try done;
      first [injection He as <-; done | by eapply iclose_step_given in He | apply (inj Some) in He; eapply on_cli_given in He;
        [done|]; intros; by repeat case_match].
  - unfold recv_step in He. repeat case_match; try done;
      first [injection He as <-; done | by eapply iclose_step_given in He | apply (inj Some) in He; eapply on_cli_given in He;
        [done|]; intros; rewrite ?handled_given; by repeat case_match].
  - unfold ka_step in He. repeat case_match; try done;
      first [injection He as <-; done | apply (inj Some) in He; eapply on_cli_given in He; [done|]; intros; by repeat case_match].
  - repeat case_match; try done. by injection He as <-.
Qed.

Lemma reachable_given st : reachable st -> given st = a.
Proof.
  intros Hr. eapply (steps_invariant _ (fun s => given s = a)); [|exact Hr|done]. intros ? ? ? ?%step_given. congruence.
Qed.

(** C13. What [connect] and [close] leave behind, however the threads ran. When
    [connect] returns FLORA_CLI_SUCCESS both threads have been started, the service
    answered the authentication, and the callback and the name are those given. When it
    fails, it reports a failure, there is no keepalive thread, and the receive thread
    either never ran, without a connection, or has ended, with the connection shut.
    After [close] both threads have ended and the connection is shut. *)
Theorem connect_outcome st : reachable st ->
  match main st with
  | MConnected =>
      recv st <> RNone /\ ka st <> KNone /\ connection (cli st) <> None /\
      cmd_handler (cli st) = handle_cmd_after_auth /\ auth_result (cli st) = None /\
      cli_callback (cli st) = arg_ccb a /\ auth_extra (cli st) = fragment_of a
  | MFailed r =>
      r <> FLORA_CLI_SUCCESS /\ ka st = KNone /\
      (recv st = RNone /\ connection (cli st) = None \/ recv st = RDone /\ shut (cli st))
  | MClosed => recv st = RDone /\ ka st = KDone /\ shut (cli st)
  | _ => True
  end.
Proof.
  intros Hr. pose proof (reachable_given _ Hr) as Hg.
  pose proof (li_main _ (reachable_life _ Hr)) as Hm. unfold main_ok, started in Hm. rewrite Hg in Hm.
  destruct (main st); naive_solver.
Qed.
End Life.
