(* ===== verification/ClientClose.v ===== *)
(** * Closing a client ends its threads

    Once [close] is under way the three threads cannot keep each other waiting: behind
    [connection->close()] every step brings them closer to their end. *)
From S2P Require Import Prelude Defs Caps SerHelper SockAdap SockConn DispState Cli CliSpec ClientThreads ClientLife.
Import Client Cli ClientThreads.

Section Close.
Context {caps : Type} `{!CapsOps caps, !CapsFlags} {os : Type} `{!SockOS os, !SockConnect os}.
Context `{!SteadyClock, !UriParser}.
Context `{!CapsFraming caps}.
Implicit Types (c : t caps os) (st : sys caps os).

(** [close] was called, by the user or by a [connect] that fails, and the receive thread
    is not on its way to the lock of an [auth_result] that is gone. *)
Definition closing st : Prop :=
  started st /\ recv st <> RSaw /\
  match main st with MClose _ _ | MJoinR _ | MJoinK _ | MFailed _ | MClosed => True | _ => False end.

Definition finished st : Prop :=
  match main st with MFailed _ | MClosed => recv st = RDone /\ (ka st = KNone \/ ka st = KDone) | _ => False end.

(** ** The operations on the way *)

(** What the operations of the other threads leave of a connected client. *)
Record stays c c' : Prop := {
  sy_conn : connection c' <> None;
  sy_shut : shut c -> shut c';
  sy_size : bufsize c' = bufsize c;
  sy_off : rbuf_off c' = rbuf_off c
}.

Lemma stays_trans c1 c2 c3 : stays c1 c2 -> stays c2 c3 -> stays c1 c3.
Proof. intros [_ I1 I2 I3] [J0 J1 J2 J3]. split; [done|auto|congruence..]. Qed.

(** An operation that cannot fail on a connected client. *)
Definition safe {A} (m : M (t caps os) A) : Prop := forall c, connection c <> None -> wp m (fun _ c' => stays c c') c.

Lemma safe_bind {A B} (m : M (t caps os) A) (f : A -> M (t caps os) B) : safe m -> (forall x, safe (f x)) -> safe (m ≫= f).
Proof.
  intros Hm Hf c Hc. wstep. eapply wpx_mono; [by apply Hm|]. intros x c1 Hs1.
  eapply wpx_mono; [apply Hf, (sy_conn _ _ Hs1)|]. intros y c2 Hs2. by apply (stays_trans _ c1).
Qed.

Lemma safe_ret {A} (x : A) : safe (mret x).
Proof. intros c Hc. by wsteps. Qed.

Lemma safe_gets {A} (f : t caps os -> A) : safe (gets f).
Proof. intros c Hc. by wsteps. Qed.

Lemma safe_modify f :
  (forall c, connection (f c) = connection c /\ bufsize (f c) = bufsize c /\ rbuf_off (f c) = rbuf_off c) -> safe (modify f).
Proof. intros Hf c Hc. wsteps. destruct (Hf c) as (Hcn & ? & ?). split; unfold shut; by rewrite ?Hcn. Qed.

Lemma safe_when b (m : M (t caps os) unit) : safe m -> safe (when b m).
Proof. destruct b; [done|]. intros _. apply safe_ret. Qed.

Lemma safe_for_each {A} (l : list A) f : (forall x, safe (f x : M (t caps os) unit)) -> safe (for_each l f).
Proof. intros Hf. induction l as [|x l IH]; [apply safe_ret|]. simpl. by apply safe_bind. Qed.

Lemma safe_with {A} (f : SocketConn.t os -> A * SocketConn.t os) :
  (forall x, SocketConn.closed x = true -> SocketConn.closed (f x).2 = true) -> safe (with_connection f).
Proof.
  intros Hf c Hc. unfold with_connection. do 2 wstep. destruct (connection c) as [x|] eqn:Hx; [|done].
  destruct (f x) as [y x'] eqn:Hy. wsteps. split; try done. intros (x0 & Hx0 & Hcl). exists x'. split; [done|].
  rewrite Hx in Hx0. injection Hx0 as <-. specialize (Hf x Hcl). by rewrite Hy in Hf.
Qed.

Create HintDb safe.
#[local] Hint Resolve safe_bind safe_ret safe_gets safe_when safe_for_each safe_with : safe.
#[local] Hint Extern 1 (safe (modify _)) => by apply safe_modify : safe.

Lemma safe_send d : safe (send d).
Proof.
  apply safe_with. intros x Hx. destruct (SocketConn.send d x) as [ok x'] eqn:Hs. simpl.
  by apply SocketConn.send_sent in Hs as [_ ->].
Qed.

Lemma safe_conn_closed : safe conn_closed.
Proof. by apply safe_with. Qed.

Lemma safe_conn_close : safe conn_close.
Proof. apply safe_with. intros. apply SocketConn.close_closed. Qed.

#[local] Hint Resolve safe_send safe_conn_closed safe_conn_close : safe.

Lemma safe_ping : safe ping.
Proof.
  unfold ping. apply safe_bind; [auto with safe|intros size]. apply safe_bind; [auto with safe|intros sf].
  repeat case_match; auto with safe.
Qed.

Lemma safe_iclose passive err cbs :
  safe iclose_open /\ safe (iclose_collect err) /\ safe (tell_closed err cbs) /\ safe (tell_disconnected passive).
Proof.
  unfold iclose_open, iclose_collect, tell_closed, tell_disconnected, emit. split_and!; eauto 8 with safe.
Qed.

(** ** How far the threads are from their end *)

Definition iclose_rank (p : iclosing) : nat :=
  match p with ITest => 5 | IShut => 4 | ICollect => 3 | INotify _ => 2 | IWake => 1 end.

Definition main_rank (m : main_loc) : nat :=
  match m with MClose p _ => (2 + iclose_rank p)%nat | MJoinR _ => 2 | MJoinK _ => 1 | _ => 0 end.

Definition recv_rank c (r : recv_loc) : nat :=
  match r with
  | RReading => (10 + Z.to_nat (bufsize c))%nat
  | RGot d => (9 + Z.to_nat (rbuf_off c + Z.of_nat (length d)))%nat
  | RFrames size off => (8 + Z.to_nat (size - off))%nat
  | RTop => 7
  | RFailed | RTold => 6
  | RClose p _ => iclose_rank p
  | RNone | RSaw | RDone => 0
  end.

Definition ka_rank (k : ka_loc) : nat := match k with KWait _ => 2 | KTop => 1 | KNone | KDone => 0 end.

Definition delay st : nat := (main_rank (main st) + recv_rank (cli st) (recv st) + ka_rank (ka st))%nat.

Lemma iclose_rank_pos p : (0 < iclose_rank p)%nat.
Proof. destruct p; simpl; lia. Qed.

Lemma notify_ka_rank k : ka_rank (notify_ka k) = ka_rank k.
Proof. by destruct k. Qed.

(** ** Each thread's step *)

Lemma closing_auth st : life st -> closing st -> receiving (recv st) -> auth_result (cli st) = None.
Proof.
  intros Hl (Hs & _ & Hc) [Hn Hd]. pose proof (li_main _ Hl) as Hm. unfold main_ok in Hm.
  destruct (main st); naive_solver.
Qed.

Lemma closing_notify st : closing st -> notify_auth (main st) = main st /\ auth_locked (main st) = false.
Proof. intros (_ & _ & Hc). by destruct (main st). Qed.

Lemma shut_closed c conn : shut c -> connection c = Some conn -> SocketConn.closed conn = true.
Proof. intros (x & Hx & ?) ?. congruence. Qed.

Lemma on_cli_some {A} (m : M (t caps os) A) f st st' :
  on_cli m f st = Done st' -> exists x c', st' = f x (set_cli c' st).
Proof. unfold on_cli. destruct (m (cli st)) as [[x c']|]; [|done]. intros [= <-]. eauto. Qed.

Lemma on_cli_stays {A} (m : M (t caps os) A) f st st' :
  safe m -> connection (cli st) <> None -> on_cli m f st = Done st' ->
  exists x c', stays (cli st) c' /\ st' = f x (set_cli c' st).
Proof. intros Hm Hc. by apply (on_cli_wp (fun _ => False) (fun _ c' => stays (cli st) c')), Hm. Qed.

Lemma recv_rank_stays c c' r : stays c c' -> recv_rank c' r = recv_rank c r.
Proof. intros [_ _ Hs Ho]. unfold recv_rank. by rewrite Hs, Ho. Qed.

(** One step of [iclose] gets closer. *)
Lemma iclose_step_rank {P} (set : P -> sys caps os -> sys caps os) goto end_ passive err p st st' :
  connection (cli st) <> None -> iclose_step set goto end_ passive err p st = Some (Done st') ->
  exists q s, st' = set q s /\ main s = main st /\ recv s = recv st /\ stays (cli st) (cli s) /\
    ka_rank (ka s) = ka_rank (ka st) /\
    (q = end_ \/ exists p', q = goto p' /\ iclose_rank p' < iclose_rank p)%nat.
Proof.
  intros Hc He. destruct (safe_iclose passive err (match p with INotify cbs => cbs | _ => [] end)) as (? & ? & ? & ?).
  destruct p as [| | |cbs|]; cbn [iclose_step] in He; [..|destruct (ka_locked (ka st)); [done|]];
    apply (inj Some), on_cli_stays in He as (x & c' & Hst & ->); try done; try apply safe_conn_close;
    eexists _, _; (split; [reflexivity|]); (split_and!; [done..|simpl; by rewrite ?notify_ka_rank|]);
    try (destruct x; [|by left]); try (by left); right; eexists; (split; [reflexivity|simpl; lia]).
Qed.

Lemma main_step_rank st st' : closing st -> main_step st = Some (Done st') -> (delay st' < delay st)%nat.
Proof.
  intros ([_ Hcn] & _ & Hc) He. unfold main_step in He. unfold delay.
  destruct (main st) as [| |b|n|r| |p ret|ret|ret| |] eqn:Hm; try done.
  - apply iclose_step_rank in He as (q & s & -> & _ & Hr & Hst & Hk & Hq); [|done]. simpl.
    rewrite Hr, Hk, (recv_rank_stays _ _ _ Hst).
    pose proof (iclose_rank_pos p). destruct Hq as [->|(p' & -> & ?)]; simpl; lia.
  - destruct (recv st) eqn:Hr; try done; injection He as <-; simpl; rewrite Hr; simpl; lia.
  - destruct (ka st) eqn:Hk; try done; injection He as <-; destruct ret; simpl; rewrite Hk; simpl; lia.
Qed.

Lemma ka_step_rank b st st' :
  connection (cli st) <> None -> shut (cli st) -> ka_step b st = Some (Done st') -> (delay st' < delay st)%nat.
Proof.
  intros Hcn Hs He. unfold ka_step in He. unfold delay. destruct (ka st) as [| |n|] eqn:Hk; try done.
  - apply (inj Some) in He. destruct Hs as (conn & Hc & Hcl).
    apply (on_cli_wp _ _ _ _ _ _ (wp_conn_closed _ _ Hc)) in He as (cl & c' & [-> ->] & ->). rewrite Hcl. simpl. lia.
  - destruct b.
    + apply (inj Some), on_cli_stays in He as (x & c' & Hst & ->); [|apply safe_ping|done]. simpl.
      rewrite (recv_rank_stays _ _ _ Hst). lia.
    + destruct n; [|done]. injection He as <-. simpl. lia.
Qed.

Lemma handled_places st before next c : closing st ->
  let st' := handled before next (set_cli c st) in
  main st' = main st /\ recv st' = next /\ ka st' = ka st /\ cli st' = c.
Proof.
  intros Hc. pose proof (proj1 (closing_notify _ Hc)) as Hn. unfold handled. simpl.
  destruct before, (cmd_handler c), (auth_result c); simpl; by rewrite ?Hn.
Qed.

(** A message that is handled is not empty. *)
Lemma handled_length f c : wlp (handle_frame f) (fun ok _ => ok = true -> 8 <= Z.of_nat (length f)) c.
Proof.
  unfold handle_frame. destruct (caps_parse f) as [m|] eqn:Hp; [|by wsteps].
  apply parse_header in Hp. unfold wpx. destruct ((_ : M _ _) c) as [[ok c']|]; done.
Qed.

Lemma message_length buf size off f n : message_at buf size off = inr (f, n) ->
  off < size /\ n <= size - off /\ Z.of_nat (length f) <= Z.max 0 n.
Proof.
  unfold message_at. repeat case_bool_decide; try done. destruct (caps_binary_info _) as [[v k]|]; [|done].
  case_bool_decide; [done|]. intros [= <- <-]. unfold mem_read. rewrite length_take. lia.
Qed.

Lemma frames_step_rank size off x st st' : closing st -> recv st = RFrames size off ->
  recv_step x st = Some (Done st') -> (delay st' < delay st)%nat.
Proof.
  intros Hc Hr He. unfold recv_step in He. rewrite Hr in He. unfold delay. rewrite Hr. simpl.
  destruct (message_at _ _ _) as [[o| |]|[f n]] eqn:Hm.
  - apply (inj Some), on_cli_some in He as (? & ? & ->). simpl. lia.
  - injection He as <-. simpl. lia.
  - injection He as <-. simpl. lia.
  - destruct (_ && _); [done|]. apply (inj Some) in He.
    apply (on_cli_wp _ _ _ _ _ _ (handled_length f (cli st))) in He as (ok & c' & Hf & ->).
    destruct (handled_places st (cmd_handler (cli st)) (if ok then RFrames size (off + n) else RFailed) c' Hc)
      as (-> & -> & -> & ->). apply message_length in Hm. destruct ok; simpl; [specialize (Hf eq_refl)|]; lia.
Qed.

Lemma recv_step_rank x st st' :
  life st -> closing st -> shut (cli st) -> recv_step x st = Some (Done st') -> (delay st' < delay st)%nat.
Proof.
  intros Hl Hc Hs He. assert (receiving (recv st) -> auth_result (cli st) = None) as Ha by by apply closing_auth.
  destruct (recv st) as [| | |d|size off| | | |p err|] eqn:Hr; try (by eapply frames_step_rank);
    unfold recv_step in He; rewrite Hr in He; try done; unfold delay; rewrite Hr.
  - destruct (bool_decide _); [injection He as <-; simpl; lia|].
    apply (inj Some) in He. destruct Hs as (conn & Hcn & Hcl).
    apply (on_cli_wp _ _ _ _ _ _ (wp_conn_closed _ _ Hcn)) in He as (cl & c' & [_ ->] & ->). rewrite Hcl. simpl. lia.
  - destruct x as [z|[|b d]]; [injection He as <-; simpl; lia..|].
    case_bool_decide as Hsp; [|done]. injection He as <-. unfold space in Hsp. cbn [recv_rank set_recv recv main ka cli]. lia.
  - apply (inj Some) in He. apply (on_cli_wp (fun _ => False) (fun sz _ => sz = rbuf_off (cli st) + Z.of_nat (length d))) in He
      as (sz & c' & -> & ->); [|done]. simpl. lia.
  - rewrite Ha in He by done. injection He as <-. simpl. lia.
  - by destruct Hc as (_ & ? & _).
  - injection He as <-. simpl. lia.
  - apply iclose_step_rank in He as (q & s & -> & Hm & _ & _ & Hk & Hq); [|apply Hc]. simpl. rewrite Hm, Hk.
    pose proof (iclose_rank_pos p). destruct Hq as [->|(p' & -> & ?)]; simpl; lia.
Qed.

(** ** Nothing undoes the closing *)

Lemma closing_step st lb st' : life st -> closing st -> exec st lb = Some (Done st') -> closing st' .
Proof.
  intros Hl Hc He.
  assert (life st') as Hl' by (apply (life_step st); [done|by exists lb]).
  assert (recv st' <> RSaw /\ recv st' <> RNone /\
    match main st' with MClose _ _ | MJoinR _ | MJoinK _ | MFailed _ | MClosed => True | _ => False end) as (Hs & Hn & Hm).
  { pose proof Hc as ([Hn Hcn] & Hs & Hm). destruct lb as [|x|b|]; simpl in He.
    - unfold main_step in He. destruct (main st) as [| |b|n|r| |p ret|ret|ret| |] eqn:Hmain; try done.
      + apply iclose_step_rank in He as (q & s & -> & _ & Hr & _ & _ & Hq); [|done]. simpl. rewrite Hr.
        destruct Hq as [->|(p' & -> & _)]; done.
      + destruct (recv st) eqn:Hr; try done; injection He as <-; simpl; by rewrite Hr.
      + destruct (ka st); try done; injection He as <-; simpl; by destruct ret.
    - unfold recv_step in He. assert (receiving (recv st) -> auth_result (cli st) = None) as Ha by by apply closing_auth.
      destruct (recv st) as [| | |d|size off| | | |p err|] eqn:Hr; try done.
      + case_bool_decide; [injection He as <-; done|].
        apply (inj Some), on_cli_some in He as (cl & c' & ->). by destruct cl.
      + destruct x as [z|[|b d]]; [..|destruct (bool_decide _); [|done]]; injection He as <-; done.
      + by apply (inj Some), on_cli_some in He as (? & ? & ->).
      + destruct (message_at _ _ _) as [[o| |]|[f n]]; [|by injection He as <-..|].
        * by apply (inj Some), on_cli_some in He as (? & ? & ->).
        * destruct (_ && _); [done|]. apply (inj Some), on_cli_some in He as (ok & c' & ->).
          destruct (handled_places st (cmd_handler (cli st)) (if ok then RFrames size (off + n) else RFailed) c' Hc)
            as (-> & -> & _). by destruct ok.
      + rewrite Ha in He by done. by injection He as <-.
      + by injection He as <-.
      + apply iclose_step_rank in He as (q & s & -> & Hm' & _ & _ & _ & Hq); [|done]. simpl. rewrite Hm'.
        destruct Hq as [->|(p' & -> & _)]; done.
    - unfold ka_step in He. destruct (ka st) as [| |n|]; try done.
      + by apply (inj Some), on_cli_some in He as (cl & c' & ->).
      + destruct b; [by apply (inj Some), on_cli_some in He as (? & ? & ->)|]. destruct n; [|done]. by injection He as <-.
    - by destruct (main st). }
  split; [|done]. split; [done|]. pose proof (li_main _ Hl') as Hm'. unfold main_ok, started, shut in Hm'.
  destruct (main st'); naive_solver.
Qed.

(** How a step may end: where it blocks, and what it leaves of a shut connection. *)
Definition ends st (o : option (outcome (sys caps os))) (blocked : Prop) : Prop :=
  match o with
  | Some (Done st') => shut (cli st) -> shut (cli st')
  | Some (Undef _) => False
  | None => blocked
  end.

Lemma on_cli_safe {A} (m : M (t caps os) A) f st B :
  safe m -> connection (cli st) <> None -> (forall x s, cli (f x s) = cli s) ->
  forall st0, cli st0 = cli st -> ends st0 (Some (on_cli m f st)) B.
Proof.
  intros Hm Hc Hf st0 Hst0. destruct (wp_done _ _ _ (Hm _ Hc)) as (x & c' & He & Hs). unfold on_cli. rewrite He. simpl.
  rewrite Hf, Hst0. apply Hs.
Qed.

Lemma iclose_step_safe {P} (set : P -> sys caps os -> sys caps os) goto end_ passive err p st :
  (forall q s, cli (set q s) = cli s) -> connection (cli st) <> None ->
  ends st (iclose_step set goto end_ passive err p st) (ka st = KTop).
Proof.
  intros Hset Hc. destruct (safe_iclose passive err (match p with INotify cbs => cbs | _ => [] end)) as (? & ? & ? & ?).
  destruct p as [| | |cbs|]; cbn [iclose_step].
  - by apply on_cli_safe.
  - apply on_cli_safe; [apply safe_conn_close|done..].
  - by apply on_cli_safe.
  - by apply on_cli_safe.
  - destruct (ka st) eqn:Hk; cbn [ka_locked]; [|done|..]; by apply on_cli_safe.
Qed.

Lemma main_step_safe st : life st -> closing st ->
  ends st (main_step st) (receiving (recv st) \/ ka_rank (ka st) <> 0%nat \/ finished st).
Proof.
  intros Hl ([Hn Hc] & _ & Hm). pose proof (li_main _ Hl) as Hok. unfold main_step, main_ok, finished in *.
  destruct (main st) as [| |b|n|r| |p ret|ret|ret|r|] eqn:Hmain; try done.
  - pose proof (iclose_step_safe set_main (fun p => MClose p ret) (MJoinR ret) false FLORA_CLI_ECLOSED p st
      ltac:(done) Hc) as He. destruct (iclose_step _ _ _ _ _ _ _) as [[st'|u]|]; try done. simpl in *. rewrite He. auto.
  - destruct (recv st) eqn:Hr; try done; try (simpl; left; by split). simpl. unfold shut. done.
  - destruct (ka st) eqn:Hk; simpl; auto.
  - simpl. right. right. destruct Hok as (_ & -> & [[? _]|[? _]]); [done|]. auto.
  - simpl. right. right. destruct Hok as (? & ? & _). auto.
Qed.

Lemma ka_step_safe b st : connection (cli st) <> None ->
  ends st (ka_step b st) (ka st = KNone \/ ka st = KDone \/ b = false).
Proof.
  intros Hc. unfold ka_step. destruct (ka st) as [| |n|]; simpl; auto.
  - apply (on_cli_safe conn_closed _ _ True); [apply safe_conn_closed|done..].
  - destruct b; [|destruct n; simpl; auto]. apply (on_cli_safe ping _ _ True); [apply safe_ping|done..].
Qed.

Lemma recv_step_safe x st : closing st -> (forall size off, recv st <> RFrames size off) ->
  ends st (recv_step x st) (recv st = RDone \/ ka st = KTop \/ recv st = RReading /\ x <> inl (-1)).
Proof.
  intros Hcl Hg. destruct Hcl as ([Hn Hc] & Hsaw & _). unfold recv_step.
  destruct (recv st) as [| | |d|size off| | | |p err|] eqn:Hr; try done.
  - destruct (bool_decide _); [by simpl|]. apply (on_cli_safe conn_closed _ _ True); [apply safe_conn_closed|done..].
  - destruct x as [z|[|b d]]; [by simpl..|]. destruct (bool_decide _); simpl; [done|]. by right; right.
  - apply (on_cli_safe (recv_store d) _ _ True); [|done..]. unfold recv_store. eauto with safe.
  - by destruct (Hg size off).
  - by simpl.
  - apply (on_cli_safe _ _ _ True); [by apply safe_modify|done..].
  - pose proof (iclose_step_safe set_recv (fun p => RClose p err) RDone true err p st ltac:(done) Hc) as He.
    destruct (iclose_step _ _ _ _ _ _ _) as [[st'|u]|]; try done. simpl in *. auto.
  - by left.
Qed.

(** The message at hand. *)
Definition handling st (f : bytes) : Prop :=
  exists size off n, recv st = RFrames size off /\ message_at (rbuffer (cli st)) size off = inr (f, n).

Lemma frames_step x st size off : closing st -> recv st = RFrames size off ->
  match recv_step x st with
  | Some (Done st') => shut (cli st) -> shut (cli st')
  | Some (Undef u) => exists f, handling st f /\ handle_frame f (cli st) = Undef u
  | None => False
  end.
Proof.
  intros Hc Hr. unfold recv_step. rewrite Hr. destruct (message_at _ _ _) as [[o| |]|[f n]] eqn:Hm; simpl; try done.
  rewrite (proj2 (closing_notify _ Hc)), andb_false_r. unfold on_cli.
  pose proof (handles_frame f (cli st)) as Hf. unfold wpx in Hf.
  destruct (handle_frame f (cli st)) as [[ok c']|u] eqn:Hh.
  - destruct (handled_places st (cmd_handler (cli st)) (if ok then RFrames size (off + n) else RFailed) c' Hc)
      as (_ & _ & _ & ->). by apply shut_same, (ha_conn _ _ Hf).
  - exists f. split; [by exists size, off, n|done].
Qed.

(** ** The theorem *)

Variables (size flags : Z) (a : args).

Lemma frames_or_not st :
  (exists size off, recv st = RFrames size off) \/ (forall size off, recv st <> RFrames size off).
Proof. destruct (recv st); eauto. Qed.

Lemma closing_undef st lb u : life st -> closing st -> exec st lb = Some (Undef u) ->
  exists f, handling st f /\ handle_frame f (cli st) = Undef u.
Proof.
  intros Hl Hc He. pose proof Hc as ([_ Hcn] & _). destruct lb as [|x|b|]; simpl in He.
  - pose proof (main_step_safe st Hl Hc) as Hs. by rewrite He in Hs.
  - destruct (frames_or_not st) as [(sz & off & Hd)|Hn].
    + pose proof (frames_step x st sz off Hc Hd) as Hs. by rewrite He in Hs.
    + pose proof (recv_step_safe x st Hc Hn) as Hs. by rewrite He in Hs.
  - pose proof (ka_step_safe b st Hcn) as Hs. by rewrite He in Hs.
  - by destruct (main st).
Qed.

Lemma closing_shut st lb st' : life st -> closing st -> exec st lb = Some (Done st') -> shut (cli st) -> shut (cli st').
Proof.
  intros Hl Hc He. pose proof Hc as ([_ Hcn] & _). destruct lb as [|x|b|]; simpl in He.
  - pose proof (main_step_safe st Hl Hc) as Hs. by rewrite He in Hs.
  - destruct (frames_or_not st) as [(sz & off & Hd)|Hn].
    + pose proof (frames_step x st sz off Hc Hd) as Hs. by rewrite He in Hs.
    + pose proof (recv_step_safe x st Hc Hn) as Hs. by rewrite He in Hs.
  - pose proof (ka_step_safe b st Hcn) as Hs. by rewrite He in Hs.
  - destruct (main st); try done. by injection He as <-.
Qed.

Lemma closing_rank st lb st' : life st -> closing st -> shut (cli st) -> exec st lb = Some (Done st') -> (delay st' < delay st)%nat.
Proof.
  intros Hl Hc Hs. destruct lb as [|x|b|]; simpl.
  - by apply main_step_rank.
  - by apply recv_step_rank.
  - apply ka_step_rank; [apply Hc|done].
  - destruct Hc as (_ & _ & Hm). by destruct (main st).
Qed.

Lemma closing_runs st lbs r : life st -> closing st -> shut (cli st) -> execs st lbs = Some r -> (length lbs <= delay st)%nat.
Proof.
  revert st. induction lbs as [|lb lbs IH]; intros st Hl Hc Hs He; simpl in *; [lia|].
  destruct (exec st lb) as [[st'|u]|] eqn:Hx; [|destruct lbs; [|done]|done].
  - assert (life st') by (apply (life_step st); [done|by exists lb]).
    apply IH in He; [|done|by apply (closing_step st lb)|by apply (closing_shut st lb)]. pose proof (closing_rank _ _ _ Hl Hc Hs Hx). lia.
  - destruct (closing_undef _ _ _ Hl Hc Hx) as (f & (sz & off & n & Hr & _) & _). unfold delay. rewrite Hr. simpl. lia.
Qed.

Lemma closing_stuck st : life st -> closing st -> (forall lb, exec st lb = None) -> finished st.
Proof.
  intros Hl Hc Hx. pose proof Hc as ([Hn Hcn] & Hsaw & _).
  pose proof (ka_step_safe true st Hcn) as Hk. rewrite (Hx (LKa true) : ka_step true st = None) in Hk. simpl in Hk.
  assert (ka_rank (ka st) = 0%nat) as Hk0 by (destruct Hk as [Hk|[Hk|?]]; [by rewrite Hk..|done]).
  assert (~ receiving (recv st)) as Hr.
  { intros [_ Hd]. destruct (frames_or_not st) as [(sz & off & Hg)|Hg].
    - pose proof (frames_step (inl (-1)) st sz off Hc Hg) as Hs.
      by rewrite (Hx (LRecv (inl (-1))) : recv_step _ st = None) in Hs.
    - pose proof (recv_step_safe (inl (-1)) st Hc Hg) as Hs.
      rewrite (Hx (LRecv (inl (-1))) : recv_step _ st = None) in Hs. simpl in Hs.
      destruct Hs as [?|[Hkt|[_ Hni]]]; [done|by rewrite Hkt in Hk0|by apply Hni]. }
  pose proof (main_step_safe st Hl Hc) as Hm. rewrite (Hx LMain : main_step st = None) in Hm. simpl in Hm. naive_solver.
Qed.

(** Up to [connection->close()] nothing blocks [iclose]. *)
Lemma close_shuts st p ret : life st -> closing st -> main st = MClose p ret ->
  shut (cli st) \/ exists st', exec st LMain = Some (Done st') /\
    (shut (cli st') \/ p = ITest /\ main st' = MClose IShut ret).
Proof.
  intros Hl ([_ Hcn] & _) Hmain. pose proof (li_main _ Hl) as Hm. unfold main_ok in Hm. rewrite Hmain in Hm.
  destruct Hm as (_ & _ & _ & Hp). destruct (connection (cli st)) as [conn|] eqn:Hc; [|done].
  simpl. unfold main_step. rewrite Hmain. destruct p as [| | |cbs|]; try (by left); cbn [iclose_step]; unfold on_cli.
  - destruct (wp_done _ _ _ (wp_open _ _ Hc)) as (go & c' & -> & -> & ->).
    destruct (SocketConn.closed conn) eqn:Hcl; [left; by exists conn|right]. eexists. split; [done|]. by right.
  - destruct (wp_done _ _ _ (wp_conn_close _ _ Hc)) as ([] & c' & -> & _ & Hs). right. eexists. split; [done|]. by left.
Qed.

(** C14. [close] ends the client's threads, unless the receive thread is on its way to the
    lock of an [auth_result] that is gone, which [auth_races] shows to crash. While it has
    not shut the connection, its next step cannot block and brings it there; it stays under
    way whatever the other threads do; once the connection is shut, no run is longer than a bound that can be
    read off the threads' places; and where no thread can move all are done. On the way
    only the handling of a message already received can crash. *)
Theorem close_joins st :
  steps step (start size flags a) st -> closing st ->
  (shut (cli st) \/ exists p ret st', main st = MClose p ret /\ exec st LMain = Some (Done st') /\
     (shut (cli st') \/ p = ITest /\ main st' = MClose IShut ret)) /\
  (forall lb st', exec st lb = Some (Done st') -> closing st') /\
  (shut (cli st) -> forall lbs r, execs st lbs = Some r -> (length lbs <= delay st)%nat) /\
  ((forall lb, exec st lb = None) -> finished st) /\
  (forall lb u, exec st lb = Some (Undef u) -> exists f, handling st f /\ handle_frame f (cli st) = Undef u).
Proof.
  intros Hl%reachable_life Hc. split_and!;
    [|by intros; eapply closing_step|by intros; eapply closing_runs|by apply closing_stuck|by intros; eapply closing_undef].
  pose proof (li_main _ Hl) as Hm. pose proof Hc as ([? _] & _ & Hcl). unfold main_ok in Hm.
  destruct (main st) as [| |b|n|r| |p ret|ret|ret|r|] eqn:Hmain; try done; try (left; naive_solver).
  destruct (close_shuts st p ret) as [?|(st' & ? & ?)]; eauto 7.
Qed.
End Close.
