(* ===== verification/Peers.v ===== *)
(** * What each side makes of the other side's bytes

    The client's handlers on the service's encodings, and the service's parse of
    the client's: the lemmas from which the end-to-end theorems compose the two. *)
From S2P Require Import Prelude Defs Caps RefCaps Adap SerHelper SerRoundtrip SockAdap.
From S2P Require Import SockConn DispState Disp DispSpec Cli CliSpec.
Import Client.

(** ** The client on the service's messages *)
Section ClientSide.
Context {caps : Type} `{!CapsOps caps, !CapsFlags, !CapsLaws caps}.
Context {os : Type} `{!SockOS os, !SockConnect os, !SteadyClock, !UriParser}.
Implicit Types (s : t caps os) (b : bytes).

Lemma wp_cli_parse {A} (p : P caps (Z * string) A) c s (Q : option A -> t caps os -> Prop) :
  parses p c (tag s, sender_name s) (fun a _ v => Q (Some a) (set_sender_name v.2 (set_tag v.1 s))) ->
  wp (Cli.parse p c) Q s.
Proof. intros (a & c' & [tg nm] & Hp & HQ). unfold wpx, Cli.parse. by rewrite Hp. Qed.

(** A message [serialize_to] encoded is parsed, its command read first. *)
Lemma wp_handle_frame size flags c0 b cmd l (Q : bool -> t caps os -> Prop) s :
  is_u32 size -> serialize_to size flags c0 = Some b -> caps_content c0 = CInt cmd :: l ->
  (forall c, caps_rest c = l -> wp (Cli.handle_cmd (S (length b)) (i32 cmd) c) Q s) ->
  wp (Cli.handle_frame b) Q s.
Proof.
  intros Hs Hser Hc HQ. destruct (serialize_to_parse _ _ _ _ Hs Hser) as (c & Hp & _ & Hr).
  unfold Cli.handle_frame. rewrite Hp, Hc in *. apply read_i32_int in Hr as (c' & -> & Hr'). by apply HQ.
Qed.

Definition same_content (o o' : option caps) : Prop := caps_content <$> o' = caps_content <$> o.

(** A post the service encodes reaches the callback of an authenticated client
    once, with the name, type and content that were sent, and the tag and name of
    the sender. *)
Lemma frame_post name type args tg nm size flags b s :
  no_nul name -> is_u32 type -> is_u64 tg -> no_nul nm -> is_u32 size ->
  ResponseSerializer.serialize_post name type args tg nm size flags = Some b ->
  cmd_handler s = handle_cmd_after_auth -> cli_callback s = true ->
  exists args', same_content args args' /\
    Cli.handle_frame b s = Done (true, set_events (events s ++ [recv_post name type args' tg nm])
      (set_sender_name nm (set_tag tg s))).
Proof.
  intros Hn Ht Hg Hm Hs Hb Hh Hcb.
  enough (wp (Cli.handle_frame b) (fun ok s' => exists args', same_content args args' /\ ok = true /\
    s' = set_events (events s ++ [recv_post name type args' tg nm]) (set_sender_name nm (set_tag tg s))) s) as Hw.
  { apply wp_done in Hw as (ok & s' & Hd & args' & ? & -> & ->). eauto. }
  eapply wp_handle_frame; [done|exact Hb|by autorewrite with flora|].
  intros c Hc. simpl in Hc.
  unfold Cli.handle_cmd. wsteps. rewrite Hh. unfold Cli.after_auth. closed_ifs. wsteps. apply wp_cli_parse.
  unfold ResponseParser.parse_post. parse_steps. wsteps; [|simpl in *; congruence].
  unfold Cli.emit, Cli.put_tag, Cli.put_name. wsteps. exists o. split; [done|]. split; [done|].
  simpl. rewrite u64_u64, u32_u32, u64_small, u32_small by done. by rewrite Hn.
Qed.

(** A call reaches the callback with a handle that answers it. *)
Lemma frame_call name args id tg nm size flags b s :
  no_nul name -> is_i32 id -> is_u64 tg -> no_nul nm -> is_u32 size ->
  ResponseSerializer.serialize_call name args id tg nm size flags = Some b ->
  cmd_handler s = handle_cmd_after_auth -> cli_callback s = true ->
  exists args', same_content args args' /\
    Cli.handle_frame b s = Done (true, set_events (events s ++
        [recv_call name args' (Cli.new_reply (this_weak_ptr s) id) tg nm])
      (set_sender_name nm (set_tag tg s))).
Proof.
  intros Hn Hi Hg Hm Hs Hb Hh Hcb.
  enough (wp (Cli.handle_frame b) (fun ok s' => exists args', same_content args args' /\ ok = true /\
    s' = set_events (events s ++ [recv_call name args' (Cli.new_reply (this_weak_ptr s) id) tg nm])
           (set_sender_name nm (set_tag tg s))) s) as Hw.
  { apply wp_done in Hw as (ok & s' & Hd & args' & ? & -> & ->). eauto. }
  eapply wp_handle_frame; [done|exact Hb|by autorewrite with flora|]. intros c Hc. simpl in Hc.
  unfold Cli.handle_cmd. wsteps. rewrite Hh. unfold Cli.after_auth. closed_ifs. wsteps. apply wp_cli_parse.
  unfold ResponseParser.parse_call. parse_steps. wsteps; [|simpl in *; congruence].
  unfold Cli.emit, Cli.put_tag, Cli.put_name. wsteps. exists o. split; [done|]. split; [done|].
  simpl. rewrite u64_u64, i32_u32, u64_small, i32_small by done. by rewrite Hn.
Qed.

(** A reply is handled as [handle_reply] handles its parts. *)
Lemma frame_reply_ok id tg code data name size flags b s :
  is_i32 id -> is_u64 tg -> is_i32 code -> is_u32 size ->
  ResponseSerializer.serialize_reply id FLORA_CLI_SUCCESS (Some (mkResponse code data name)) tg size flags =
    Done (Some b) ->
  cmd_handler s = handle_cmd_after_auth ->
  exists data', same_content data data' /\
    Cli.handle_frame b s = (Cli.handle_reply id FLORA_CLI_SUCCESS (mkResponse code data' (c_str name)) ;;
      mret true) (set_tag tg s).
Proof.
  intros Hi Hg Hc Hs Hb Hh. unfold ResponseSerializer.serialize_reply in Hb.
  rewrite bool_decide_true in Hb by done. simpl in Hb. injection Hb as Hb.
  destruct (serialize_to_parse _ _ _ _ Hs Hb) as (c & Hp & _ & Hr).
  autorewrite with flora in Hr. simpl in Hr.
  unfold Cli.handle_frame. rewrite Hp. apply read_i32_int in Hr as (c' & -> & Hr').
  unfold Cli.handle_cmd, mbind at 1, M_bind at 1, gets. rewrite Hh. unfold Cli.after_auth.
  change (i32 (u32 CMD_REPLY_RESP)) with CMD_REPLY_RESP. closed_ifs. unfold Cli.parse.
  enough (parses (ResponseParser.parse_reply Cli.put_tag (@Cli.empty_response caps)) c' (tag s, sender_name s)
    (fun r _ v => v = (tg, sender_name s) /\ exists data', same_content data data' /\
       r = (id, FLORA_CLI_SUCCESS, mkResponse code data' (c_str name))))
    as (r & c'' & v & Hpr & -> & data' & Hd & ->).
  { exists data'. split; [done|]. unfold mbind at 1, M_bind at 1. by rewrite Hpr. }
  unfold ResponseParser.parse_reply. parse_steps. closed_ifs. parse_steps. unfold Cli.put_tag. simpl.
  rewrite u64_u64, !i32_u32, u64_small, !i32_small by done. eauto.
Qed.

Lemma frame_reply_error id rescode tg size flags b s :
  is_i32 id -> is_u64 tg -> is_i32 rescode -> is_u32 size -> rescode <> FLORA_CLI_SUCCESS ->
  ResponseSerializer.serialize_reply id rescode (@None (Response caps)) tg size flags = Done (Some b) ->
  cmd_handler s = handle_cmd_after_auth ->
  Cli.handle_frame b s = (Cli.handle_reply id rescode Cli.empty_response ;; mret true) (set_tag tg s).
Proof.
  intros Hi Hg Hc Hs Hne Hb Hh. unfold ResponseSerializer.serialize_reply in Hb.
  rewrite bool_decide_false in Hb by done. injection Hb as Hb.
  destruct (serialize_to_parse _ _ _ _ Hs Hb) as (c & Hp & _ & Hr).
  autorewrite with flora in Hr. simpl in Hr.
  unfold Cli.handle_frame. rewrite Hp. apply read_i32_int in Hr as (c' & -> & Hr').
  unfold Cli.handle_cmd, mbind at 1, M_bind at 1, gets. rewrite Hh. unfold Cli.after_auth.
  change (i32 (u32 CMD_REPLY_RESP)) with CMD_REPLY_RESP. closed_ifs. unfold Cli.parse.
  enough (parses (ResponseParser.parse_reply Cli.put_tag (@Cli.empty_response caps)) c' (tag s, sender_name s)
    (fun r _ v => v = (tg, sender_name s) /\ r = (id, rescode, Cli.empty_response)))
    as (r & c'' & v & Hpr & -> & ->).
  { unfold mbind at 1, M_bind at 1. by rewrite Hpr. }
  unfold ResponseParser.parse_reply. parse_steps. rewrite bool_decide_false by by rewrite i32_u32, i32_small.
  parse_steps. unfold Cli.put_tag. simpl. by rewrite u64_u64, !i32_u32, u64_small, !i32_small by done.
Qed.
End ClientSide.
