(* ===== verification/EndToEnd.v ===== *)
(** * From one client to another: what a message becomes on its way

    The compositions of a client's encoding, the dispatcher's handling and the
    other client's handling: a published message, a call and a reply. *)
From S2P Require Import Prelude Defs Caps RefCaps Adap Reader SerHelper SerRoundtrip SockAdap.
From S2P Require Import SockConn DispState Disp DispInv DispOps DispSpec DispCalls Cli CliSpec.
From S2P Require Import Peers.
Import Client.

Section EndToEnd.
Context {caps : Type} `{!CapsOps caps, !CapsFlags, !CapsLaws caps}.
Context {S : Type} `{!AdapterImpl S, !SteadyClock}.
Context {os : Type} `{!SockOS os, !SockConnect os, !UriParser}.
Implicit Types (s : Disp caps S) (a : aid) (cl : t caps os) (b : bytes).

(** ** The service on the clients' messages *)

(** The bytes of a request arrive at the dispatcher as a message whose command is
    [cmd] and which [p] then parses as something that satisfies [Q]. *)
Definition arrives {A} b (cmd : Z) (p : P caps unit A) (Q : A -> Prop) : Prop :=
  exists cm c', caps_parse b = Some cm /\ caps_read_i32 cm = (Some cmd, c') /\
    exists r, request p c' r /\ Q r.

Lemma arrives_sent {A} size flags c0 b cmd l (p : P caps unit A) (Q : A -> Prop) :
  is_u32 size -> serialize_to size flags c0 = Some b -> caps_content c0 = CInt cmd :: l ->
  (forall c, caps_rest c = l -> parses p c tt (fun r _ _ => Q r)) ->
  arrives b (i32 cmd) p Q.
Proof.
  intros Hs Hser Hc HQ. destruct (serialize_to_parse _ _ _ _ Hs Hser) as (cm & Hp & _ & Hr).
  rewrite Hc in Hr. apply read_i32_int in Hr as (c' & Hrd & Hr'). exists cm, c'. split_and!; [done..|].
  destruct (HQ c' Hr') as (r & ? & ? & Hpr & ?). exists r. split; [|done]. unfold request. by rewrite Hpr.
Qed.

Lemma post_arrives name type msg size flags b :
  no_nul name -> is_u32 type -> is_u32 size ->
  RequestSerializer.serialize_post name type msg size flags = Some b ->
  arrives b CMD_POST_REQ RequestParser.parse_post (fun r =>
    exists msg', same_content msg msg' /\ r = (name, type, msg')).
Proof.
  intros Hn Ht Hs Hb. change CMD_POST_REQ with (i32 (u32 CMD_POST_REQ)).
  eapply arrives_sent; [done|exact Hb|by autorewrite with flora|]. intros c Hc. simpl in Hc.
  unfold RequestParser.parse_post. parse_steps. rewrite u32_u32, u32_small by done. by exists o.
Qed.

Lemma call_arrives name msg target id timeout size flags b :
  no_nul name -> no_nul target -> is_i32 id -> is_u32 timeout -> is_u32 size ->
  RequestSerializer.serialize_call name msg target id timeout size flags = Some b ->
  arrives b CMD_CALL_REQ RequestParser.parse_call (fun r =>
    exists msg', same_content msg msg' /\ r = (name, msg', target, id, timeout)).
Proof.
  intros Hn Hg Hi Ht Hs Hb. change CMD_CALL_REQ with (i32 (u32 CMD_CALL_REQ)).
  eapply arrives_sent; [done|exact Hb|by autorewrite with flora|]. intros c Hc. simpl in Hc.
  unfold RequestParser.parse_call. parse_steps.
  rewrite i32_u32, i32_small, u32_u32, u32_small by done. by exists o.
Qed.

Lemma reply_arrives id code data size flags b :
  is_i32 id -> is_i32 code -> is_u32 size ->
  RequestSerializer.serialize_reply id code data size flags = Some b ->
  arrives b CMD_REPLY_REQ RequestParser.parse_reply (fun r =>
    exists data', same_content data data' /\ r = (id, code, data')).
Proof.
  intros Hi Hc' Hs Hb. change CMD_REPLY_REQ with (i32 (u32 CMD_REPLY_REQ)).
  eapply arrives_sent; [done|exact Hb|by autorewrite with flora|]. intros c Hc. simpl in Hc.
  unfold RequestParser.parse_reply. parse_steps. rewrite !i32_u32, !i32_small by done. by exists o.
Qed.

Lemma buf_u32 s todo : inv s todo -> is_u32 (DispState.buf_size s).
Proof.
  intros Hi. destruct (wf_buf _ (inv_wf _ _ Hi)) as [Hl Hu]. split; [|done].
  unfold DEFAULT_MSG_BUF_SIZE in Hl. lia.
Qed.

(** C2. Publishing, end to end: the bytes of a client's post, handled by the
    dispatcher, put one message into the connection of each open subscriber of the
    name and into no other, and an authenticated client that receives those bytes
    has its callback called once, with the name and type that were posted, the
    content that was posted, and the publisher's tag and registered name. *)
Theorem publish_end_to_end name type msg size flags b :
  is_valid_msgtype type = true -> is_u32 type -> is_u32 size -> c_str name <> EmptyString ->
  RequestSerializer.serialize_post (c_str name) type msg size flags = Some b ->
  exists cm, caps_parse b = Some cm /\ forall s a todo x i,
    inv s ((Some cm, a) :: todo) -> registered s a x i -> is_u64 (Adap.tag x) ->
    exists args s', same_content msg args /\
      Dispatcher.handle_cmd (Some cm) a s = Done (tt, s') /\
      delivered (recipients s (c_str name))
        (post_to (DispState.buf_size s) (c_str name) type args (Adap.tag x) (ai_name i))
        (adapters s) (adapters s') /\
      forall flags' b' cl,
        ResponseSerializer.serialize_post (c_str name) type args (Adap.tag x) (c_str (ai_name i))
          (DispState.buf_size s) flags' = Some b' ->
        cmd_handler cl = handle_cmd_after_auth -> cli_callback cl = true ->
        exists args' cl', same_content msg args' /\ Cli.handle_frame b' cl = Done (true, cl') /\
          events cl' = events cl ++ [recv_post (c_str name) type args' (Adap.tag x) (c_str (ai_name i))].
Proof.
  intros Hv Ht Hs Hne Hb.
  destruct (post_arrives _ _ _ _ _ _ (c_str_no_nul name) Ht Hs Hb) as (cm & c' & Hp & Hr & r & Hq & msg' & Hm & ->).
  exists cm. split; [done|]. intros s a todo x i Hi Hreg Htag. pose proof Hreg as (Hx & Hinf & _).
  destruct (handle_post_delivers cm a todo s c' x i _ _ _ Hi Hx Hinf Hq Hne Hv) as (m & Hm' & Hd).
  pose proof (handle_cmd_handled _ _ _ _ _ _ _ _ _ Hreg Hr eq_refl eq_refl Hd) as Hcmd.
  eexists msg', _. split_and!; [done|exact Hcmd|exact Hm'|]. intros flags' b' cl Hb' Hh Hcb.
  destruct (frame_post _ _ _ _ _ _ _ _ cl (c_str_no_nul _) Ht Htag (c_str_no_nul _)
    (buf_u32 _ _ Hi) Hb' Hh Hcb) as (args' & Ha & Hf).
  exists args'. eexists. split_and!; [|exact Hf|done]. unfold same_content in *. congruence.
Qed.

(** C3. A call, end to end: the bytes of a client's call to a method its target has
    declared are forwarded to the target's connection and to no other, the call is
    recorded under a service id behind the calls due before it, and the target's callback is called once, with the
    method, the content of the arguments, the caller's tag and registered name, and
    a handle that answers under that service id. *)
Theorem call_end_to_end name msg target id timeout size flags b :
  is_i32 id -> is_u32 timeout -> is_u32 size ->
  RequestSerializer.serialize_call (c_str name) msg (c_str target) id timeout size flags = Some b ->
  exists cm, caps_parse b = Some cm /\ forall s a todo x i t y,
    inv s ((Some cm, a) :: todo) -> registered s a x i -> is_u64 (Adap.tag x) ->
    call_target s (c_str target) (c_str name) = Some t -> adapters s !! t = Some y ->
    let svr := DispState.reqseq s + 1 in is_i32 svr ->
    exists args, same_content msg args /\ forall b',
      ResponseSerializer.serialize_call (c_str (c_str name)) args svr (Adap.tag x) (c_str (ai_name i))
        (DispState.buf_size s) (Adap.serialize_flags y) = Some b' ->
      (exists s', Dispatcher.handle_cmd (Some cm) a s = Done (tt, s') /\
         adapters s' = alter (receive (Some b')) t (adapters s) /\
         recorded (call_record a s id timeout t) (pending_calls s) (pending_calls s')) /\
      forall cl, cmd_handler cl = handle_cmd_after_auth -> cli_callback cl = true ->
        exists args' cl', same_content msg args' /\ Cli.handle_frame b' cl = Done (true, cl') /\
          events cl' = events cl ++
            [recv_call (c_str name) args' (Cli.new_reply (this_weak_ptr cl) svr) (Adap.tag x)
               (c_str (ai_name i))].
Proof.
  intros Hid Hto Hs Hb.
  destruct (call_arrives _ _ _ _ _ _ _ _ (c_str_no_nul name) (c_str_no_nul target) Hid Hto Hs Hb)
    as (cm & c' & Hp & Hr & r & Hq & msg' & Hm & ->).
  exists cm. split; [done|]. intros s a todo x i t y Hi Hreg Htag Ht Hy svr Hsvr.
  pose proof Hreg as (Hx & Hinf & _). exists msg'. split; [done|]. intros b' Hb'.
  pose proof (handle_call_forwards cm a todo s c' x y i _ _ _ _ _ t Hi Hx Hinf Hq Ht Hy (proj2 Hsvr)) as Hd.
  cbv zeta in Hd. change (svrid (call_record a s id timeout t)) with svr in Hd. rewrite Hb' in Hd. split.
  - eexists. split_and!; [exact (handle_cmd_handled _ _ _ _ _ _ _ _ _ Hreg Hr eq_refl eq_refl Hd)|done|].
    apply insert_call_recorded, (inv_calls _ _ Hi).
  - intros cl Hh Hcb. rewrite c_str_no_nul in Hb'.
    destruct (frame_call _ _ _ _ _ _ _ _ cl (c_str_no_nul _) Hsvr Htag (c_str_no_nul _)
      (buf_u32 _ _ Hi) Hb' Hh Hcb) as (args' & Ha & Hf).
    exists args'. eexists. split_and!; [|exact Hf|done]. unfold same_content in *. congruence.
Qed.

(** C4. A reply, end to end: the bytes with which a callee answers under a service
    id settle the pending call with that id that was made to this callee, the first of
    them should there be several, and no other, and put the answer into the caller's connection
    only, under the caller's own id; the caller that receives them has the waiting
    request with that id answered with the code and the content that were replied
    and the callee's registered name, and its other requests as they were. *)
Theorem reply_end_to_end svr code data size flags b :
  is_i32 svr -> is_i32 code -> is_u32 size ->
  RequestSerializer.serialize_reply svr code data size flags = Some b ->
  exists cm, caps_parse b = Some cm /\ forall s t todo x i l1 pc l2 y,
    inv s ((Some cm, t) :: todo) -> registered s t x i -> is_u64 (Adap.tag x) ->
    pending_calls s = l1 ++ pc :: l2 -> svrid pc = svr -> pc_target pc = t ->
    Forall (fun q => ~ (svrid q = svr /\ pc_target q = t)) l1 -> is_i32 (cliid pc) ->
    adapters s !! pc_sender pc = Some y -> adap_closed (impl y) = false ->
    exists data', same_content data data' /\ forall b',
      reply_message (DispState.buf_size s) (Adap.serialize_flags y) (cliid pc) (Adap.tag x) code data'
        (ai_name i) = Done (Some b') ->
      (exists s', Dispatcher.handle_cmd (Some cm) t s = Done (tt, s') /\
         adapters s' = alter (receive (Some b')) (pc_sender pc) (adapters s) /\
         pending_calls s' = l1 ++ l2) /\
      forall cl r1 r r2, cmd_handler cl = handle_cmd_after_auth ->
        pending_requests cl = r1 ++ r :: r2 -> cliid pc ∉ pr_id <$> r1 -> pr_id r = cliid pc ->
        Cli.is_async r = false ->
        exists data'' cl', same_content data data'' /\ Cli.handle_frame b' cl = Done (true, cl') /\
          pending_requests cl' = r1 ++ settled FLORA_CLI_SUCCESS
            (mkResponse code data'' (c_str (ai_name i))) r :: r2 /\ events cl' = events cl.
Proof.
  intros Hsv Hc Hs Hb.
  destruct (reply_arrives _ _ _ _ _ _ Hsv Hc Hs Hb) as (cm & c' & Hp & Hr & r & Hq & data' & Hm & ->).
  exists cm. split; [done|]. intros s t todo x i l1 pc l2 y Hi Hreg Htag Hl Hsvr Ht Hno Hcli Hy Hcl.
  pose proof Hreg as (Hx & Hinf & _). exists data'. split; [done|]. intros b' Hb'.
  pose proof (handle_reply_routes cm t todo s c' x y i _ _ _ l1 pc l2 b' Hi Hx Hinf Hq Hl Hsvr Ht Hno Hy Hcl Hb') as Hd.
  split.
  - eexists. split_and!; [exact (handle_cmd_handled _ _ _ _ _ _ _ _ _ Hreg Hr eq_refl eq_refl Hd)|done..].
  - intros cl r1 r r2 Hh Hpl Hn Hrid Hsync.
    destruct (frame_reply_ok _ _ _ _ _ _ _ _ cl Hcli Htag Hc (buf_u32 _ _ Hi) Hb' Hh) as (data'' & Hd'' & Hframe).
    destruct (handle_reply_exact (cliid pc) FLORA_CLI_SUCCESS (mkResponse code data'' (c_str (ai_name i)))
      (set_tag (Adap.tag x) cl)) as [_ Hex].
    specialize (Hex r1 r r2 Hpl Hn Hrid). rewrite Hsync in Hex.
    exists data''. eexists. split; [unfold same_content in *; congruence|].
    split; [rewrite Hframe; unfold mbind, M_bind; by rewrite Hex|]. done.
Qed.
End EndToEnd.
