(* ===== verification/ClientScenario.v ===== *)
(** * Runs of the client on concrete messages

    Orderly runs of the calls in progress can be evaluated with [exec_calls]. The
    lemmas at the end apply the client's theorems, and those from one client to
    another, at concrete states. *)
From S2P Require Import Prelude Defs Caps RefCaps Adap Framing SockAdap Reader SerHelper.
From S2P Require Import SerRoundtrip RefSock Disp DispInv DispSpec DispCalls SockConn Cli.
From S2P Require Import CliSpec CliCalls Peers EndToEnd Scenario.
Import Client Cli.

#[export] Instance ref_connect : SockConnect rsock := {|
  sys_socket := Some (7, quiet);
  sys_set_rcvtimeo _ _ s := s;
  sys_connect_unix _ s := (true, s);
  sys_gethostbyname _ := Some 16777343;
  sys_connect_tcp _ _ s := (true, s);
  EINTR := 4
|}.

(** A parser that knows one address. *)
#[export] Instance ref_uri : UriParser := {|
  uri_parse s := if bool_decide (s = "unix:flora#alice"%string)
                 then Some (mkUri "unix" "flora" EmptyString 0 "alice") else None
|}.

Abbreviation rclient := (Client.t rcaps rsock).

(** Evaluating orderly runs. *)
Section Exec.
Context {caps : Type} `{!CapsOps caps, !CapsFlags} {os : Type} `{!SockOS os, !SockConnect os}.
Context `{!SteadyClock}.
Import CallProtocol.

Definition call_orderlyb (st : sys caps os) (lb : label caps) : bool :=
  match lb with
  | LSync _ _ _ _ _ | LAsync _ _ _ _ _ => bool_decide (reqseq (client st) + 1 < two31)
  | LReply msgid _ _ => bool_decide (msgid ∈ wire st)
  | LShut _ err => negb (bool_decide (err = FLORA_CLI_SUCCESS))
  | _ => true
  end.

Lemma call_orderlyb_spec st lb : call_orderlyb st lb = true -> orderly st lb.
Proof.
  destruct lb; simpl; try done.
  1, 2, 3: by intros ?%bool_decide_eq_true.
  by intros ?%negb_true_iff%bool_decide_eq_false.
Qed.

Fixpoint exec_calls (st : sys caps os) (lbs : list (label caps)) : option (sys caps os) :=
  match lbs with
  | [] => Some st
  | lb :: lbs =>
      if call_orderlyb st lb then
        match exec st lb with Some (Next st') => exec_calls st' lbs | _ => None end
      else None
  end.

Lemma exec_calls_steps lbs : forall st st', exec_calls st lbs = Some st' -> steps step st st'.
Proof.
  induction lbs as [|lb lbs IH]; intros st st' Hex; simpl in Hex; simplify_eq; [constructor|].
  destruct (call_orderlyb st lb) eqn:Ho; [|done]. destruct (exec st lb) as [[st1|]|] eqn:He; try done.
  econstructor; [|by apply IH]. exists lb. split; [done|]. by apply call_orderlyb_spec.
Qed.
End Exec.

(** An authenticated client, with a buffer of 1024 bytes. *)
Definition linked : rclient :=
  set_cli_callback true (set_cmd_handler handle_cmd_after_auth (set_this_weak_ptr true
    (set_connection (Some (SocketConn.mk (Some (7, quiet)) 0 true [])) (Cli.new 1024 0)))).

Definition answer : Response rcaps := mkResponse 7 (Some payload) "bob".

(** ** The theorems at concrete inputs *)

(** A post and most of a second one have arrived. *)
Definition r_post := frame (ResponseSerializer.serialize_post "news" 1 (Some payload) 5 "alice" 1024 0).
Definition arrived : bytes := r_post ++ take 20 r_post.
Definition receiving : rclient := set_rbuffer (mem_write (rbuffer linked) 0 arrived) linked.
Definition arrived_size : Z := Z.of_nat (length arrived).

Lemma received_refines_split_witness :
  handle_received arrived_size receiving = received_spec (rbuffer receiving) arrived_size receiving /\
  split no_limit (mem_read (rbuffer receiving) 0 (Z.to_nat arrived_size)) = More [r_post] (take 20 r_post) /\
  mem_read (compact (rbuffer receiving) arrived_size 20) 0 20 = take 20 r_post.
Proof.
  destruct (received_refines_split arrived_size receiving) as [Hr Hc].
  - vm_compute. discriminate.
  - vm_compute. discriminate.
  - vm_compute. reflexivity.
  - assert (split no_limit (mem_read (rbuffer receiving) 0 (Z.to_nat arrived_size)) =
      More [r_post] (take 20 r_post)) as Hs by (vm_compute; reflexivity).
    split; [exact Hr|]. split; [exact Hs|].
    destruct (Hc _ _ Hs) as [Hm _]. exact Hm.
Defined.

Definition waiting_call : PendingRequest rcaps :=
  mkPendingRequest 0 1 0 (Some (mkResponse 0 None EmptyString)) 0.
Definition callback_call : PendingRequest rcaps := mkPendingRequest 1 2 0 None 40.
Definition asking : rclient := set_pending_requests [waiting_call; callback_call] linked.

Lemma reply_reaches_witness :
  handle_reply 2 FLORA_CLI_SUCCESS answer asking =
    Done (tt, set_events (events asking ++ [Client.response 40 FLORA_CLI_SUCCESS answer])
                (set_pending_requests [waiting_call] asking)) /\
  handle_reply 3 FLORA_CLI_SUCCESS answer asking = Done (tt, asking).
Proof.
  split.
  - destruct (reply_reaches 2 FLORA_CLI_SUCCESS answer asking) as [_ Hr].
    apply (Hr [waiting_call] callback_call []); [reflexivity| |reflexivity].
    apply (bool_decide_unpack _). vm_compute. exact I.
  - apply (reply_reaches 3 FLORA_CLI_SUCCESS answer asking).
    apply (bool_decide_unpack _). vm_compute. exact I.
Defined.

Lemma iclose_exact_witness :
  exists s', iclose true FLORA_CLI_ECONN asking = Done (tt, s') /\
    events s' = [Client.response 40 FLORA_CLI_ECONN empty_response; disconnected] /\
    pending_requests s' = [waiting_call] /\
    iclose false FLORA_CLI_ECLOSED s' = Done (tt, s').
Proof.
  destruct (iclose_exact true FLORA_CLI_ECONN asking (SocketConn.mk (Some (7, quiet)) 0 true []))
    as [Hd Hi]; [reflexivity..|].
  eexists. split; [exact Hd|]. split; [vm_compute; reflexivity|]. split; [vm_compute; reflexivity|].
  apply Hi.
Defined.

Lemma requests_exact_witness :
  exists code s', post (Some "news"%string) (Some payload) 1 linked = Done (code, s') /\
    request_outcome (RequestSerializer.serialize_post "news" 1 (Some payload) 1024 0) linked code s'.
Proof.
  assert (connection linked <> None) as Hc by (vm_compute; discriminate).
  destruct (requests_exact (Some "news"%string) (Some payload) 1 linked Hc
    (post (Some "news"%string) (Some payload) 1)
    (fun n size flags => if is_valid_msgtype 1 then
       RequestSerializer.serialize_post n 1 (Some payload) size flags else None)) as (code & s' & Hd & Hr).
  - simpl. auto 6.
  - exists code, s'. split; [exact Hd|exact Hr].
Defined.

(** A call that is answered and one that the close answers. *)
Definition call_run : list (CallProtocol.label rcaps) :=
  [ CallProtocol.LSync (Some "add"%string) (Some payload) "bob" empty_response 500; CallProtocol.LSend;
    CallProtocol.LAsync (Some "add"%string) (Some payload) "bob" 40 500; CallProtocol.LSend;
    CallProtocol.LReply 1 FLORA_CLI_SUCCESS answer; CallProtocol.LPoll 0 false;
    CallProtocol.LShut true FLORA_CLI_ECONN; CallProtocol.LCollect; CallProtocol.LNotify ].

Definition calls_after (n : nat) : CallProtocol.sys rcaps rsock :=
  default (CallProtocol.start linked) (exec_calls (CallProtocol.start linked) (take n call_run)).

Lemma calls_reached n :
  is_Some (exec_calls (CallProtocol.start linked) (take n call_run)) ->
  steps CallProtocol.step (CallProtocol.start linked) (calls_after n).
Proof. intros [st Hst]. unfold calls_after. rewrite Hst. by eapply exec_calls_steps. Qed.

Lemma linked_connected : CallProtocol.connected linked.
Proof. by vm_compute. Qed.

Lemma calls_safe_witness :
  CallProtocol.exec (calls_after 5) (CallProtocol.LPoll 0 false) <> Some (CallProtocol.Crash UseAfterFree).
Proof.
  apply (calls_safe linked); [exact linked_connected| |].
  - apply calls_reached. vm_compute. eexists. reflexivity.
  - apply call_orderlyb_spec. vm_compute. reflexivity.
Defined.

Lemma callbacks_once_witness :
  CallProtocol.issued (calls_after 9) = [40%nat] /\
  CallProtocol.issued (calls_after 9) ≡ₚ
    CallProtocol.answered (events (CallProtocol.client (calls_after 9))) ++
    CallProtocol.outstanding (calls_after 9).
Proof.
  split; [vm_compute; reflexivity|].
  apply (callbacks_once linked); [exact linked_connected|].
  apply calls_reached. vm_compute. eexists. reflexivity.
Defined.

Lemma call_outcomes_witness :
  exists resp, (1, FLORA_CLI_SUCCESS, resp) ∈ CallProtocol.replies (calls_after 9) /\
    Some answer = Some resp.
Proof.
  destruct (call_outcomes linked (calls_after 9) 1 FLORA_CLI_SUCCESS (Some answer) false) as [_ Hs].
  - exact linked_connected.
  - apply calls_reached. vm_compute. eexists. reflexivity.
  - replace (CallProtocol.finished (calls_after 9)) with [(1, FLORA_CLI_SUCCESS, Some answer, false)]
      by (vm_compute; reflexivity). by left.
  - destruct (Hs eq_refl) as [Hr|[He _]]; [exact Hr|discriminate He].
Defined.

Lemma call_close_race_witness :
  exists c' c'', iclose_shut asking = Done (true, c') /\
    CallProtocol.call_wake 0 false c' =
      Done (Some (FLORA_CLI_SUCCESS, Some (mkResponse 0 None EmptyString)), c'').
Proof.
  apply (call_close_race asking (SocketConn.mk (Some (7, quiet)) 0 true []) 0 waiting_call).
  - reflexivity.
  - reflexivity.
  - reflexivity.
  - apply (bool_decide_unpack _). vm_compute. exact I.
  - by left.
  - reflexivity.
  - discriminate.
Defined.

(** ** From one client to another, over the dispatcher's scenes *)

Lemma publish_end_to_end_witness :
  let s := sc_state post_scene in
  exists args s', same_content (Some payload) args /\
    Dispatcher.handle_cmd (Some (sc_caps post_scene)) alice s = Done (tt, s') /\
    delivered (recipients s "news")
      (post_to (buf_size s) "news" 1 args (Adap.tag (adapter_at s alice)) "alice") (adapters s) (adapters s').
Proof.
  destruct (publish_end_to_end (S:=conn) (os:=rsock) "news" 1 (Some payload) 4096 0 (f_post "news" 1))
    as (cm & Hp & H).
  - vm_compute. reflexivity.
  - split; vm_compute; [discriminate|reflexivity].
  - split; vm_compute; [discriminate|reflexivity].
  - vm_compute. discriminate.
  - vm_compute. reflexivity.
  - assert (sc_caps post_scene = cm) as <- by (vm_compute in Hp; injection Hp as <-; vm_compute; reflexivity).
    destruct (H (sc_state post_scene) alice (sc_todo post_scene)
      (adapter_at (sc_state post_scene) alice) (info_at (sc_state post_scene) alice)) as (args & s' & Ha & Hd & Hm & _).
    + apply scene_at_inv. vm_compute. reflexivity.
    + split; [vm_compute; reflexivity|split; vm_compute; reflexivity].
    + split; vm_compute; [discriminate|reflexivity].
    + exists args, s'. split; [exact Ha|]. split; [exact Hd|]. exact Hm.
Defined.

Lemma call_end_to_end_witness :
  let s := sc_state call_scene in
  exists args, same_content (Some payload) args /\ forall b',
    ResponseSerializer.serialize_call "add" args 1 (Adap.tag (adapter_at s alice)) "alice"
      (buf_size s) (Adap.serialize_flags (adapter_at s bob)) = Some b' ->
    exists args' cl', same_content (Some payload) args' /\ handle_frame b' linked = Done (true, cl') /\
      events cl' = [recv_call "add" args' (new_reply true 1) (Adap.tag (adapter_at s alice)) "alice"].
Proof.
  destruct (call_end_to_end (S:=conn) (os:=rsock) "add" (Some payload) "bob" 9 500 4096 0
    (f_call "add" "bob" 9 500)) as (cm & Hp & H).
  - split; vm_compute; [discriminate|reflexivity].
  - split; vm_compute; [discriminate|reflexivity].
  - split; vm_compute; [discriminate|reflexivity].
  - vm_compute. reflexivity.
  - assert (sc_caps call_scene = cm) as <- by (vm_compute in Hp; injection Hp as <-; vm_compute; reflexivity).
    destruct (H (sc_state call_scene) alice (sc_todo call_scene)
      (adapter_at (sc_state call_scene) alice) (info_at (sc_state call_scene) alice) bob
      (adapter_at (sc_state call_scene) bob)) as (args & Ha & Hb).
    + apply scene_at_inv. vm_compute. reflexivity.
    + split; [vm_compute; reflexivity|split; vm_compute; reflexivity].
    + split; vm_compute; [discriminate|reflexivity].
    + vm_compute. reflexivity.
    + vm_compute. reflexivity.
    + split; vm_compute; [discriminate|reflexivity].
    + exists args. split; [exact Ha|]. intros b' Hb'. destruct (Hb b' Hb') as [_ Hc].
      exact (Hc linked eq_refl eq_refl).
Defined.

(** Alice's client waits for the reply to its call 9. *)
Definition calling : rclient :=
  set_pending_requests [mkPendingRequest 0 9 0 (Some empty_response) 0] linked.

Lemma reply_end_to_end_witness :
  let s := sc_state reply_scene in
  exists data', same_content (Some payload) data' /\ forall b',
    reply_message (buf_size s) (Adap.serialize_flags (adapter_at s alice)) 9 (Adap.tag (adapter_at s bob)) 7 data' "bob" =
      Done (Some b') ->
    exists data'' cl', same_content (Some payload) data'' /\ handle_frame b' calling = Done (true, cl') /\
      pending_requests cl' = [mkPendingRequest 0 0 0 (Some (mkResponse 7 data'' "bob")) 0].
Proof.
  destruct (reply_end_to_end (S:=conn) (os:=rsock) 1 7 (Some payload) 4096 0 (f_reply 1 7)) as (cm & Hp & H).
  - split; vm_compute; [discriminate|reflexivity].
  - split; vm_compute; [discriminate|reflexivity].
  - split; vm_compute; [discriminate|reflexivity].
  - vm_compute. reflexivity.
  - assert (sc_caps reply_scene = cm) as <- by (vm_compute in Hp; injection Hp as <-; vm_compute; reflexivity).
    destruct (H (sc_state reply_scene) bob (sc_todo reply_scene)
      (adapter_at (sc_state reply_scene) bob) (info_at (sc_state reply_scene) bob)
      [] (the_call (sc_state reply_scene)) [] (adapter_at (sc_state reply_scene) alice)) as (data' & Ha & Hb).
    + apply scene_at_inv. vm_compute. reflexivity.
    + split; [vm_compute; reflexivity|split; vm_compute; reflexivity].
    + split; vm_compute; [discriminate|reflexivity].
    + vm_compute. reflexivity.
    + vm_compute. reflexivity.
    + vm_compute. reflexivity.
    + constructor.
    + split; vm_compute; [discriminate|reflexivity].
    + vm_compute. reflexivity.
    + vm_compute. reflexivity.
    + exists data'. split; [exact Ha|]. intros b' Hb'. destruct (Hb b' Hb') as [_ Hc].
      destruct (Hc calling [] (mkPendingRequest 0 9 0 (Some empty_response) 0) []) as (d & cl' & Hd & Hf & Hpr & _).
      * reflexivity.
      * reflexivity.
      * apply not_elem_of_nil.
      * reflexivity.
      * reflexivity.
      * exists d, cl'. split; [exact Hd|]. split; [exact Hf|]. exact Hpr.
Defined.
