(* ===== verification/ClientRaces.v ===== *)
(** * The races of the client's threads

    From which states of [connect], the receive thread and [close] the threads get in each
    other's way, whatever they then do; and runs on concrete messages that lead there, with
    the theorems about the threads at concrete states. *)
From S2P Require Import Prelude Defs Caps RefCaps Framing SockAdap SerHelper RefSock SockConn DispState Cli Scenario.
From S2P Require Import ClientThreads ClientLife ClientClose ClientScenario.
Import Client Cli ClientThreads.

Abbreviation rsys := (sys rcaps rsock).

Section Runs.
Context {caps : Type} `{!CapsOps caps, !CapsFlags} {os : Type} `{!SockOS os, !SockConnect os}.
Context `{!SteadyClock, !UriParser}.

Lemma thread_execs_steps lbs : forall (st st' : sys caps os), execs st lbs = Some (Done st') -> steps step st st'.
Proof.
  induction lbs as [|lb lbs IH]; intros st st' He; simpl in He; [injection He as <-; constructor|].
  destruct (exec st lb) as [[st1|u]|] eqn:Hx; [|by destruct lbs|done]. econstructor; [by exists lb|by apply IH].
Qed.

(** A run whose end passes a test. *)
Lemma run_to (test : sys caps os -> bool) st lbs :
  match execs st lbs with Some (Done st') => test st' | _ => false end = true ->
  exists st', execs st lbs = Some (Done st') /\ test st' = true.
Proof. destruct (execs st lbs) as [[st'|]|]; [eauto|done..]. Qed.

End Runs.

(** ** The races *)
Section Races.
Context {caps : Type} `{!CapsOps caps, !CapsFlags} {os : Type} `{!SockOS os, !SockConnect os}.
Context `{!SteadyClock, !UriParser, !CapsFraming caps}.
Implicit Types (st : sys caps os).

(** [auth] has returned, and the client has not been closed yet. *)
Definition past_auth st : Prop :=
  match main st with MAuthed _ | MConnected | MClose _ _ | MJoinR _ => True | _ => False end.

(** The receive thread ends without a word to [auth]: it has ended, is in [iclose], or finds
    its buffer full. *)
Definition silent st : Prop :=
  match recv st with
  | RClose _ _ | RDone => True
  | RTop => rbuf_off (cli st) = bufsize (cli st)
  | _ => False
  end.

(** A [connect] that waits for a receive thread that will not wake it. *)
Definition abandoned st : Prop :=
  connection (cli st) <> None /\ main st = MWait false /\ ka_rank (ka st) = 0%nat /\ silent st.

Lemma abandoned_step st lb st' : abandoned st -> exec st lb = Some (Done st') -> abandoned st'.
Proof.
  intros (Hc & Hm & Hk & Hr) He. destruct lb as [|x|b|]; simpl in He; [..|by rewrite Hm in He].
  - unfold main_step in He. by rewrite Hm in He.
  - unfold recv_step, silent in *. destruct (recv st) as [| | | | | | | |p err|] eqn:Hrv; try done.
    + rewrite bool_decide_true in He by done. injection He as <-. by split_and!.
    + apply iclose_step_rank in He as (q & s & -> & Hm' & _ & Hst & Hk' & Hq); [|done].
      unfold abandoned, silent. simpl. rewrite Hm', Hk'. split_and!; [apply Hst|done..|].
      by destruct Hq as [->|(p' & -> & _)].
  - unfold ka_step in He. by destruct (ka st).
Qed.

(** A [connect] about to return FLORA_CLI_SUCCESS, or that did, for a connection that ended. *)
Record unheeded (evs : list (event caps)) st : Prop := {
  un_recv : recv st = RDone;
  un_shut : shut (cli st);
  un_events : events (cli st) = evs;
  un_main : main st = MAuthed FLORA_CLI_SUCCESS /\ ka st = KNone \/
    main st = MConnected /\ (ka st = KTop \/ ka st = KDone)
}.

Lemma unheeded_step evs st lb st' :
  unheeded evs st -> lb <> LClose -> exec st lb = Some (Done st') -> unheeded evs st'.
Proof.
  intros [Hr Hs He Hm] Hl Hx. destruct lb as [|x|b|]; simpl in Hx; [..|done].
  - unfold main_step in Hx. destruct Hm as [[Hm Hk]|[Hm _]]; rewrite Hm in Hx; [|done].
    rewrite bool_decide_false in Hx by auto. injection Hx as <-. split; simpl; auto.
  - unfold recv_step in Hx. by rewrite Hr in Hx.
  - unfold ka_step in Hx. destruct Hm as [[_ Hk]|[Hm [Hk|Hk]]]; rewrite Hk in Hx; [done| |done].
    pose proof Hs as (conn & Hcn & Hcl). apply (inj Some) in Hx.
    destruct (on_cli_wp _ _ _ _ _ _ (wp_conn_closed _ _ Hcn) Hx) as (cl & c' & [Hc' Hcl'] & Hst').
    rewrite Hc', Hcl', Hcl in Hst'. subst st'. split; simpl; auto.
Qed.

Lemma unheeded_runs evs lbs : forall st st',
  unheeded evs st -> LClose ∉ lbs -> execs st lbs = Some (Done st') -> unheeded evs st'.
Proof.
  induction lbs as [|lb lbs IH]; intros st st' Hu Hl He; simpl in He; [by injection He as <-|].
  apply not_elem_of_cons in Hl as [Hn Hl]. destruct (exec st lb) as [[st1|u]|] eqn:Hx; [|by destruct lbs|done].
  apply (IH st1); [|done..]. by eapply unheeded_step.
Qed.

Variables (size flags : Z) (a : args).

End Races.

(** ** Runs to these states *)

Definition to_flora : args := mkArgs (Some "unix:flora#alice"%string) true false 0 77.
Definition at_start : rsys := start 256 0 to_flora.

(** The service's answers to the authentication. *)
Definition welcome : bytes := frame (ResponseSerializer.serialize_auth FLORA_CLI_SUCCESS FLORA_VERSION 256 0).

(** A read of one message: the test, the read, storing it, handling it, keeping nothing. *)
Definition reads (d : bytes) : list label := repeat (LRecv (inr d)) 5.
Definition hangs_up : label := LRecv (inr []).

(** [connect] up to its wait, the answer, and the rest of [connect]. *)
Definition to_wait : list label := [LMain; LMain; LMain].
Definition connects : list label := to_wait ++ reads welcome ++ [LMain; LMain].

(** A service that knows the name already: its refusal, and the end of the connection. *)
Definition refusal : bytes := frame (ResponseSerializer.serialize_auth FLORA_CLI_EDUPID FLORA_VERSION 256 0).
Definition refused : list label := to_wait ++ reads refusal ++ [hangs_up; hangs_up; hangs_up].

(** The connection ends before [auth] has set [auth_result]. *)
Definition unheard : list label :=
  [LMain; hangs_up; hangs_up; hangs_up; LMain; LMain] ++ repeat hangs_up 5.

Definition long : string := String.concat "" (repeat "flora news "%string 30).

(** More of one message than the receive buffer holds, in the place of an answer. *)
Definition overlong : bytes :=
  take 256 (frame (ResponseSerializer.serialize_post "news" 1 (Some (mkRcaps [CStr long] [CStr long])) 5 "alice"
    1024 0)).
Definition overflown : list label := to_wait ++ repeat (LRecv (inr overlong)) 4 ++ repeat hangs_up 6.

(** The connection ends between the answer and the end of [connect]. *)
Definition unannounced : list label := to_wait ++ reads welcome ++ [LMain] ++ repeat hangs_up 8.

(** ** What is tested at the end of a run *)

Definition is_connected (st : rsys) : bool := match main st with MConnected => true | _ => false end.
Definition is_closing (st : rsys) : bool :=
  match main st, recv st with MClose ITest None, RTop => true | _, _ => false end.
Definition is_told (st : rsys) : bool :=
  match main st, recv st with MWait true, RSaw => true | _, _ => false end.
Definition waits_alone (st : rsys) : bool :=
  match main st, recv st with MWait false, RDone => true | _, _ => false end.
Definition is_late (st : rsys) : bool :=
  match main st, recv st with MAuthed r, RDone => bool_decide (r = FLORA_CLI_SUCCESS) | _, _ => false end.

Lemma is_connected_true st : is_connected st = true -> main st = MConnected.
Proof. unfold is_connected. by destruct (main st). Qed.

Lemma is_told_true st : is_told st = true -> recv st = RSaw /\ main st = MWait true.
Proof. unfold is_told. by destruct (main st) as [| | |[]| | | | | | |], (recv st). Qed.

Lemma waits_alone_true st : waits_alone st = true -> main st = MWait false /\ silent st.
Proof. unfold waits_alone, silent. by destruct (main st) as [| | |[]| | | | | | |], (recv st). Qed.

Lemma is_late_true st : is_late st = true -> main st = MAuthed FLORA_CLI_SUCCESS /\ recv st = RDone.
Proof. unfold is_late. destruct (main st), (recv st); try done. by intros ->%bool_decide_eq_true. Qed.

(** ** The theorems at concrete states *)


Lemma connect_outcome_witness :
  exists st, execs at_start connects = Some (Done st) /\ main st = MConnected /\
    cli_callback (cli st) = true /\ auth_extra (cli st) = "alice"%string.
Proof.
  destruct (run_to is_connected at_start connects) as (st & He & Ht%is_connected_true); [vm_compute; reflexivity|].
  exists st. split; [exact He|]. split; [exact Ht|].
  pose proof (connect_outcome 256 0 to_flora st (thread_execs_steps _ _ _ He)) as Ho. rewrite Ht in Ho.
  destruct Ho as (_ & _ & _ & _ & _ & Hc & Hx). split; [exact Hc|]. rewrite Hx. vm_compute. reflexivity.
Defined.

Lemma is_closing_closing st : is_closing st = true -> connection (cli st) <> None -> closing st.
Proof.
  unfold is_closing, closing, started. destruct (main st) as [| | | | | |[] []| | | |]; try done. by destruct (recv st).
Qed.

Lemma close_joins_witness :
  exists st, execs at_start (connects ++ [LClose]) = Some (Done st) /\ closing st /\
    ((forall lb, exec st lb = None) -> finished st).
Proof.
  destruct (run_to (fun st => is_closing st && negb (bool_decide (connection (cli st) = None))) at_start (connects ++ [LClose]))
    as (st & He & Ht); [vm_compute; reflexivity|].
  apply andb_true_iff in Ht as [Hc Hn]. apply negb_true_iff, bool_decide_eq_false in Hn.
  exists st. split; [exact He|]. assert (closing st) as Hcl by (apply is_closing_closing; assumption).
  split; [exact Hcl|].
  exact (proj1 (proj2 (proj2 (proj2 (close_joins 256 0 to_flora st (thread_execs_steps _ _ _ He) Hcl))))).
Defined.
