(* ===== verification/StrMap.v ===== *)
(** * Iterating a [std::map<std::string, T>]

    A [std::map] keeps its keys in the order of [std::string], that of the bytes;
    an iterator is the key it points to, [None] at the end. What [begin()] and
    [++it] give depends on the map as it is then, so a map that changes while it is
    iterated needs no other model. *)
From S2P Require Import Prelude.

(** [operator<] of [std::string]. *)
Fixpoint str_ltb (s t : string) : bool :=
  match s, t with
  | _, EmptyString => false
  | EmptyString, String _ _ => true
  | String a s, String b t =>
      N.ltb (Ascii.N_of_ascii a) (Ascii.N_of_ascii b)
      || (bool_decide (a = b) && str_ltb s t)
  end.

Definition str_lt (s t : string) : Prop := str_ltb s t = true.

#[export] Instance str_lt_dec s t : Decision (str_lt s t) := bool_eq_dec _ _.

Lemma ascii_trichotomy a b :
  N.lt (Ascii.N_of_ascii a) (Ascii.N_of_ascii b) \/ a = b \/ N.lt (Ascii.N_of_ascii b) (Ascii.N_of_ascii a).
Proof.
  destruct (N.lt_trichotomy (Ascii.N_of_ascii a) (Ascii.N_of_ascii b)) as [|[He|]]; auto.
  right; left. rewrite <- (Ascii.ascii_N_embedding a), He. apply Ascii.ascii_N_embedding.
Qed.

Lemma str_lt_cons a s b t :
  str_lt (String a s) (String b t) <->
  N.lt (Ascii.N_of_ascii a) (Ascii.N_of_ascii b) \/ (a = b /\ str_lt s t).
Proof.
  unfold str_lt. simpl. rewrite orb_true_iff, N.ltb_lt, andb_true_iff, bool_decide_eq_true. done.
Qed.

Lemma str_lt_irrefl s : ~ str_lt s s.
Proof.
  induction s as [|a s IH]; [done|]. rewrite str_lt_cons. intros [Hl|[_ Hl]]; [lia|done].
Qed.

Lemma str_lt_trans s t u : str_lt s t -> str_lt t u -> str_lt s u.
Proof.
  revert t u. induction s as [|a s IH]; intros [|b t] [|c u]; try done.
  rewrite !str_lt_cons. intros [H1|[-> H1]] [H2|[-> H2]]; [left; lia|by left|by left|].
  right. split; [done|]. by eapply IH.
Qed.

Lemma str_lt_total s t : str_lt s t \/ s = t \/ str_lt t s.
Proof.
  revert t. induction s as [|a s IH]; intros [|b t]; [auto|by left|by right; right|].
  rewrite !str_lt_cons.
  destruct (ascii_trichotomy a b) as [?|[->|?]]; [auto| |auto].
  destruct (IH t) as [?|[->|?]]; auto.
Qed.

(** The least of the keys. *)
Fixpoint least (l : list string) : option string :=
  match l with
  | [] => None
  | k :: l =>
      match least l with
      | Some m => Some (if str_ltb m k then m else k)
      | None => Some k
      end
  end.

Lemma least_none l : least l = None <-> l = [].
Proof. destruct l as [|k l]; simpl; [done|]. by destruct (least l). Qed.

Lemma least_some l k : least l = Some k -> k ∈ l /\ forall x, x ∈ l -> ~ str_lt x k.
Proof.
  revert k. induction l as [|y l IH]; intros k; simpl; [done|].
  destruct (least l) as [m|] eqn:Hm.
  - destruct (IH m eq_refl) as [Hin Hle]. destruct (str_ltb m y) eqn:Hlt; intros [= <-].
    + split; [by right|]. intros x [->|Hx]%elem_of_cons; [|by apply Hle].
      intros Hy. by eapply str_lt_irrefl, str_lt_trans.
    + split; [by left|]. intros x [->|Hx]%elem_of_cons; [apply str_lt_irrefl|]. intros Hy.
      destruct (str_lt_total m x) as [H1|[->|H1]]; [|by unfold str_lt in Hy; congruence|by eapply Hle].
      assert (str_lt m y) as H2 by (by eapply str_lt_trans). unfold str_lt in H2. congruence.
  - apply least_none in Hm as ->. intros [= <-]. split; [by left|].
    intros x ->%list_elem_of_singleton. apply str_lt_irrefl.
Qed.

Section Iter.
Context {A : Type}.
Implicit Types m : gmap string A.

Definition keys m : list string := (map_to_list m).*1.

(** [m.begin()] *)
Definition begin m : option string := least (keys m).

(** [++it] when [it] points to [k] *)
Definition next (k : string) m : option string := least (filter (str_lt k) (keys m)).

Lemma elem_of_keys m k : k ∈ keys m <-> k ∈ dom m.
Proof.
  unfold keys. rewrite list_elem_of_fmap, elem_of_dom. split.
  - intros ([x v] & -> & Hx%elem_of_map_to_list). by exists v.
  - intros [v Hv]. exists (k, v). split; [done|]. by apply elem_of_map_to_list.
Qed.

(** The keys an iterator has passed. *)
Definition passed (it : option string) (k : string) : Prop :=
  match it with Some p => str_lt k p | None => True end.

#[export] Instance passed_dec it k : Decision (passed it k).
Proof. destruct it; apply _. Defined.

Lemma begin_passed m k : k ∈ dom m -> ~ passed (begin m) k.
Proof.
  rewrite <- elem_of_keys. unfold passed, begin. intros Hk.
  destruct (least (keys m)) as [p|] eqn:Hp; [by eapply least_some|].
  apply least_none in Hp. rewrite Hp in Hk. by apply elem_of_nil in Hk.
Qed.

Lemma begin_in m k : begin m = Some k -> k ∈ dom m.
Proof. intros [Hk _]%least_some. by apply elem_of_keys. Qed.

Lemma next_in m k p : next k m = Some p -> p ∈ dom m.
Proof. intros [Hp _]%least_some. apply list_elem_of_filter in Hp as [_ Hp]. by apply elem_of_keys. Qed.

(** [++it] passes exactly the key it pointed to. *)
Lemma next_passed m k x : x ∈ dom m -> passed (next k m) x <-> str_lt x k \/ x = k.
Proof.
  rewrite <- elem_of_keys. unfold passed, next. intros Hx.
  assert (str_lt k x -> x ∈ filter (str_lt k) (keys m)) as Hin by (intros; by apply list_elem_of_filter).
  destruct (least (filter (str_lt k) (keys m))) as [p|] eqn:Hp.
  - apply least_some in Hp as [Hp Hle]. apply list_elem_of_filter in Hp as [Hkp _].
    split; [|intros [?| ->]; [by eapply str_lt_trans|done]]. intros Hxp.
    destruct (str_lt_total x k) as [|[|Hkx]]; [auto|auto|]. by destruct (Hle x (Hin Hkx)).
  - apply least_none in Hp. split; [intros _|done].
    destruct (str_lt_total x k) as [|[|Hkx]]; [auto|auto|].
    apply Hin in Hkx. rewrite Hp in Hkx. by apply elem_of_nil in Hkx.
Qed.
End Iter.
