(* ===== verification/AgentState.v ===== *)
(** * The agent's state ([src/flora-agent.cc], [include/flora-agent.h])

    [flora::Agent] keeps a client connected: its thread connects, asks the new
    client for every subscription and method, publishes it in [flora_cli] and waits;
    the other threads use the client that is published. A client is the number of
    its connection. The state holds the data members, the local variables of [run]
    with the place its thread is at, and the functions of the agent that other
    threads are in the middle of. *)
From S2P Require Import Prelude Defs StrMap.

Module Agent.
(** The class [Agent::Options]; of [mon_callback], whether it is set. *)
Record Options := mkOptions {
  uri : string;
  bufsize : Z;
  reconn_interval : Z;   (** milliseconds *)
  flags : Z;
  mon_callback : bool;
  beep_interval : Z;
  noresp_timeout : Z
}.

Definition default_options : Options :=
  mkOptions EmptyString 0 10000 0 false FLORA_CLI_DEFAULT_BEEP_INTERVAL FLORA_CLI_DEFAULT_NORESP_TIMEOUT.

(** [flora::ClientOptions] *)
Record ClientOptions := mkClientOptions {
  opt_bufsize : Z;
  opt_flags : Z;
  opt_beep_interval : Z;
  opt_noresp_timeout : Z
}.

Definition default_client_options : ClientOptions :=
  mkClientOptions 0 0 FLORA_CLI_DEFAULT_BEEP_INTERVAL FLORA_CLI_DEFAULT_NORESP_TIMEOUT.

(** A call of a member function of [flora::Client]. Names and targets are C
    strings; [callback] is the function a call is given, [None] when it waits for
    its response. *)
Inductive request (caps : Type) : Type :=
  | Subscribe (name : string)
  | Unsubscribe (name : string)
  | DeclareMethod (name : string)
  | RemoveMethod (name : string)
  | Post (name : string) (msg : option caps) (msgtype : Z)
  | Call (name : string) (msg : option caps) (target : string) (callback : option nat) (timeout : Z)
  | Close.
Arguments Subscribe {caps}.
Arguments Unsubscribe {caps}.
Arguments DeclareMethod {caps}.
Arguments RemoveMethod {caps}.
Arguments Post {caps}.
Arguments Call {caps}.
Arguments Close {caps}.

(** The places of [run] between which other threads may run. *)
Inductive run_place : Type :=
  | Idle                            (** [run] was never called *)
  | Starting                        (** before [working = true] *)
  | Top                             (** at [while (working)] *)
  | Connecting                      (** in [Client::connect] *)
  | InitPost (pit : option string)  (** in the first loop of [init_cli] *)
  | InitCall (cit : option string)  (** in the second loop of [init_cli] *)
  | Publish                         (** before [locker.lock()] with a new client *)
  | WaitFor (woken : bool)          (** in [conn_cond.wait_for] *)
  | Wait (woken : bool)             (** in [conn_cond.wait] *)
  | Unlocked                        (** before [clean_gabages] *)
  | Cleaning (i : nat)              (** in the loop of [clean_gabages], at element [i] *)
  | Exited.

#[export] Instance run_place_eq_dec : EqDecision run_place.
Proof. solve_decision. Defined.

(** What is left of a function of the agent after a critical section. A thread that
    is the receive thread of a client is told by [from]. *)
Inductive task (H K caps : Type) : Type :=
  | TRequest (c : nat) (r : request caps)     (** [cli->...] *)
  | TDestroy (r : request caps) (code : Z)    (** [destroy_client()] before [return code] *)
  | TPost (c : nat) (h : H) (name : string) (msg : option caps) (msgtype : Z)  (** [cb(name, msg, msgtype)] *)
  | TCall (c : nat) (k : K) (name : string) (msg : option caps)                 (** [cb(name, msg, reply)] *)
  | TReturn (c : nat)                         (** inside the callback *)
  | TClose (c : option nat) (from : option nat)    (** [close] before [cg_mutex.lock()] *)
  | TClosing (c : option nat) (from : option nat)  (** [close] with [cg_mutex] *)
  | TDetached (c : nat)                       (** [tmp]: [cli->close(false)] *)
  | TJoin (from : option nat).                (** [close] before [run_thread.join()] *)
Arguments TRequest {H K caps}.
Arguments TDestroy {H K caps}.
Arguments TPost {H K caps}.
Arguments TCall {H K caps}.
Arguments TReturn {H K caps}.
Arguments TClose {H K caps}.
Arguments TClosing {H K caps}.
Arguments TDetached {H K caps}.
Arguments TJoin {H K caps}.

Inductive event (H K caps : Type) : Type :=
  | Connect (uri : string) (opts : ClientOptions) (mon_callback : bool)
  | Handled (h : H) (name : string) (msg : option caps) (msgtype : Z)
  | Answered (k : K) (name : string) (msg : option caps)
  | Returned (r : request caps) (code : Z)
  | Started
  | Closed.
Arguments Connect {H K caps}.
Arguments Handled {H K caps}.
Arguments Answered {H K caps}.
Arguments Returned {H K caps}.
Arguments Started {H K caps}.
Arguments Closed {H K caps}.

Record t (H K caps : Type) := mk {
  options : Options;  (** [Options options] *)
  post_handlers : gmap string H;  (** [PostHandlerMap] *)
  call_handlers : gmap string K;  (** [CallHandlerMap] *)
  flora_cli : option nat;  (** the client in use, null when there is none *)
  working : bool;
  joinable : bool;  (** [run_thread.joinable()] *)
  cg_mutex : bool;  (** whether it is locked *)
  pl : run_place;  (** where the thread of [run] is *)
  cliopts : ClientOptions;  (** a local variable of [run] *)
  cli : option nat;  (** a local variable of [run] *)
  gabages : list (option nat);  (** a local variable of [run] *)
  starter : option bool;  (** a thread waits on [start_cond] in [start]; whether it was woken *)
  connected : nat;  (** how many clients were connected: they are numbered in this order *)
  in_callback : gset nat;  (** the clients whose receive thread is in a callback *)
  tasks : list (task H K caps);  (** the other threads inside a function of the agent *)
  requests : list (nat * request caps);  (** the requests made to the clients, in order *)
  events : list (event H K caps)  (** the calls of handlers and the results returned, in order *)
}.
Arguments mk {H K caps}.
Arguments options {H K caps}.
Arguments post_handlers {H K caps}.
Arguments call_handlers {H K caps}.
Arguments flora_cli {H K caps}.
Arguments working {H K caps}.
Arguments joinable {H K caps}.
Arguments cg_mutex {H K caps}.
Arguments pl {H K caps}.
Arguments cliopts {H K caps}.
Arguments cli {H K caps}.
Arguments gabages {H K caps}.
Arguments starter {H K caps}.
Arguments connected {H K caps}.
Arguments in_callback {H K caps}.
Arguments tasks {H K caps}.
Arguments requests {H K caps}.
Arguments events {H K caps}.

Section Setters.
Context {H K caps : Type}.

Definition set_options (v : Options) (s : t H K caps) : t H K caps :=
  mk v (post_handlers s) (call_handlers s) (flora_cli s) (working s) (joinable s) (cg_mutex
    s) (pl s) (cliopts s) (cli s) (gabages s) (starter s) (connected s) (in_callback s)
    (tasks s) (requests s) (events s).
Definition set_post_handlers (v : gmap string H) (s : t H K caps) : t H K caps :=
  mk (options s) v (call_handlers s) (flora_cli s) (working s) (joinable s) (cg_mutex s) (pl
    s) (cliopts s) (cli s) (gabages s) (starter s) (connected s) (in_callback s) (tasks s)
    (requests s) (events s).
Definition set_call_handlers (v : gmap string K) (s : t H K caps) : t H K caps :=
  mk (options s) (post_handlers s) v (flora_cli s) (working s) (joinable s) (cg_mutex s) (pl
    s) (cliopts s) (cli s) (gabages s) (starter s) (connected s) (in_callback s) (tasks s)
    (requests s) (events s).
Definition set_flora_cli (v : option nat) (s : t H K caps) : t H K caps :=
  mk (options s) (post_handlers s) (call_handlers s) v (working s) (joinable s) (cg_mutex s)
    (pl s) (cliopts s) (cli s) (gabages s) (starter s) (connected s) (in_callback s) (tasks
    s) (requests s) (events s).
Definition set_working (v : bool) (s : t H K caps) : t H K caps :=
  mk (options s) (post_handlers s) (call_handlers s) (flora_cli s) v (joinable s) (cg_mutex
    s) (pl s) (cliopts s) (cli s) (gabages s) (starter s) (connected s) (in_callback s)
    (tasks s) (requests s) (events s).
Definition set_joinable (v : bool) (s : t H K caps) : t H K caps :=
  mk (options s) (post_handlers s) (call_handlers s) (flora_cli s) (working s) v (cg_mutex
    s) (pl s) (cliopts s) (cli s) (gabages s) (starter s) (connected s) (in_callback s)
    (tasks s) (requests s) (events s).
Definition set_cg_mutex (v : bool) (s : t H K caps) : t H K caps :=
  mk (options s) (post_handlers s) (call_handlers s) (flora_cli s) (working s) (joinable s)
    v (pl s) (cliopts s) (cli s) (gabages s) (starter s) (connected s) (in_callback s)
    (tasks s) (requests s) (events s).
Definition set_pl (v : run_place) (s : t H K caps) : t H K caps :=
  mk (options s) (post_handlers s) (call_handlers s) (flora_cli s) (working s) (joinable s)
    (cg_mutex s) v (cliopts s) (cli s) (gabages s) (starter s) (connected s) (in_callback s)
    (tasks s) (requests s) (events s).
Definition set_cliopts (v : ClientOptions) (s : t H K caps) : t H K caps :=
  mk (options s) (post_handlers s) (call_handlers s) (flora_cli s) (working s) (joinable s)
    (cg_mutex s) (pl s) v (cli s) (gabages s) (starter s) (connected s) (in_callback s)
    (tasks s) (requests s) (events s).
Definition set_cli (v : option nat) (s : t H K caps) : t H K caps :=
  mk (options s) (post_handlers s) (call_handlers s) (flora_cli s) (working s) (joinable s)
    (cg_mutex s) (pl s) (cliopts s) v (gabages s) (starter s) (connected s) (in_callback s)
    (tasks s) (requests s) (events s).
Definition set_gabages (v : list (option nat)) (s : t H K caps) : t H K caps :=
  mk (options s) (post_handlers s) (call_handlers s) (flora_cli s) (working s) (joinable s)
    (cg_mutex s) (pl s) (cliopts s) (cli s) v (starter s) (connected s) (in_callback s)
    (tasks s) (requests s) (events s).
Definition set_starter (v : option bool) (s : t H K caps) : t H K caps :=
  mk (options s) (post_handlers s) (call_handlers s) (flora_cli s) (working s) (joinable s)
    (cg_mutex s) (pl s) (cliopts s) (cli s) (gabages s) v (connected s) (in_callback s)
    (tasks s) (requests s) (events s).
Definition set_connected (v : nat) (s : t H K caps) : t H K caps :=
  mk (options s) (post_handlers s) (call_handlers s) (flora_cli s) (working s) (joinable s)
    (cg_mutex s) (pl s) (cliopts s) (cli s) (gabages s) (starter s) v (in_callback s) (tasks
    s) (requests s) (events s).
Definition set_in_callback (v : gset nat) (s : t H K caps) : t H K caps :=
  mk (options s) (post_handlers s) (call_handlers s) (flora_cli s) (working s) (joinable s)
    (cg_mutex s) (pl s) (cliopts s) (cli s) (gabages s) (starter s) (connected s) v (tasks
    s) (requests s) (events s).
Definition set_tasks (v : list (task H K caps)) (s : t H K caps) : t H K caps :=
  mk (options s) (post_handlers s) (call_handlers s) (flora_cli s) (working s) (joinable s)
    (cg_mutex s) (pl s) (cliopts s) (cli s) (gabages s) (starter s) (connected s)
    (in_callback s) v (requests s) (events s).
Definition set_requests (v : list (nat * request caps)) (s : t H K caps) : t H K caps :=
  mk (options s) (post_handlers s) (call_handlers s) (flora_cli s) (working s) (joinable s)
    (cg_mutex s) (pl s) (cliopts s) (cli s) (gabages s) (starter s) (connected s)
    (in_callback s) (tasks s) v (events s).
Definition set_events (v : list (event H K caps)) (s : t H K caps) : t H K caps :=
  mk (options s) (post_handlers s) (call_handlers s) (flora_cli s) (working s) (joinable s)
    (cg_mutex s) (pl s) (cliopts s) (cli s) (gabages s) (starter s) (connected s)
    (in_callback s) (tasks s) (requests s) v.
End Setters.

(** A new agent. *)
Definition new {H K caps} : t H K caps :=
  mk default_options ∅ ∅ None false false false Idle default_client_options None [] None 0 ∅ [] [] [].
End Agent.
