(* ===== verification/Agent.v ===== *)
(** * The agent's operations ([src/flora-agent.cc])

    One definition per member function of [flora::Agent]; a function that leaves the
    critical section of [conn_mutex] and goes on becomes a task, and [run] a step
    function on its place. [exec] interleaves them. A wait may also end without a
    notification. *)
From S2P Require Import Prelude Defs StrMap.
From S2P Require Export AgentState.

Module AgentOps.
Import Agent.
Section Ops.
Context {H K caps : Type}.

Abbreviation MA := (M (t H K caps)).

Definition emit (e : event H K caps) : MA unit := modify (fun s => set_events (events s ++ [e]) s).
Definition spawn (k : task H K caps) : MA unit := modify (fun s => set_tasks (tasks s ++ [k]) s).
Definition request_to (c : nat) (r : request caps) : MA unit :=
  modify (fun s => set_requests (requests s ++ [(c, r)]) s).
Definition goto (l : run_place) : MA unit := modify (set_pl l).

(** ** [config] *)

(** An argument of a variadic function. *)
Inductive vararg : Type := VStr (s : string) | VU32 (z : Z) | VCallback (set : bool).

Definition config (key : Z) (ap : list vararg) : MA unit :=
  o ← gets options;
  if bool_decide (key = FLORA_AGENT_CONFIG_URI) then
    match ap with
    | VStr s :: _ =>
        modify (set_options (mkOptions s (bufsize o) (reconn_interval o) (flags o) (mon_callback o)
          (beep_interval o) (noresp_timeout o)))
    | _ => undefined BadVarArg
    end
  else if bool_decide (key = FLORA_AGENT_CONFIG_BUFSIZE) then
    match ap with
    | VU32 z :: _ =>
        modify (set_options (mkOptions (uri o) z (reconn_interval o) (flags o) (mon_callback o)
          (beep_interval o) (noresp_timeout o)))
    | _ => undefined BadVarArg
    end
  else if bool_decide (key = FLORA_AGENT_CONFIG_RECONN_INTERVAL) then
    match ap with
    | VU32 z :: _ =>
        modify (set_options (mkOptions (uri o) (bufsize o) z (flags o) (mon_callback o)
          (beep_interval o) (noresp_timeout o)))
    | _ => undefined BadVarArg
    end
  else if bool_decide (key = FLORA_AGENT_CONFIG_MONITOR) then
    match ap with
    | VU32 z :: rest =>
        if has_flag z FLORA_CLI_FLAG_MONITOR then
          match rest with
          | VCallback set :: _ =>
              modify (set_options (mkOptions (uri o) (bufsize o) (reconn_interval o) z set
                (beep_interval o) (noresp_timeout o)))
          | _ => undefined BadVarArg
          end
        else
          modify (set_options (mkOptions (uri o) (bufsize o) (reconn_interval o) z (mon_callback o)
            (beep_interval o) (noresp_timeout o)))
    | _ => undefined BadVarArg
    end
  else if bool_decide (key = FLORA_AGENT_CONFIG_KEEPALIVE) then
    match ap with
    | VU32 i :: VU32 n :: _ =>
        modify (set_options (mkOptions (uri o) (bufsize o) (reconn_interval o) (flags o)
          (mon_callback o) i n))
    | _ => undefined BadVarArg
    end
  else mret tt.

(** ** Handlers *)

(** [map::insert] keeps the element that is there. *)
Definition insert_new {A} (name : string) (x : A) (m : gmap string A) : gmap string A :=
  match m !! name with Some _ => m | None => <[name := x]> m end.

(** The request after the critical section of one of the next four functions. *)
Definition forward (changed : bool) (r : request caps) : MA unit :=
  c ← gets flora_cli;
  match c with
  | Some c => when changed (spawn (TRequest c r))
  | None => mret tt
  end.

Definition subscribe (name : string) (cb : H) : MA unit :=
  m ← gets post_handlers;
  modify (set_post_handlers (insert_new name cb m)) ;;
  forward (bool_decide (m !! name = None)) (Subscribe name).

Definition unsubscribe (name : string) : MA unit :=
  m ← gets post_handlers;
  modify (set_post_handlers (delete name m)) ;;
  forward (bool_decide (m !! name <> None)) (Unsubscribe name).

Definition declare_method (name : string) (cb : K) : MA unit :=
  m ← gets call_handlers;
  modify (set_call_handlers (insert_new name cb m)) ;;
  forward (bool_decide (m !! name = None)) (DeclareMethod name).

Definition remove_method (name : string) : MA unit :=
  m ← gets call_handlers;
  modify (set_call_handlers (delete name m)) ;;
  forward (bool_decide (m !! name <> None)) (RemoveMethod name).

(** ** Waking *)

Definition notify (l : run_place) : run_place :=
  match l with
  | WaitFor _ => WaitFor true
  | Wait _ => Wait true
  | l => l
  end.

(** [conn_cond.notify_one()]: only [run] waits on it. *)
Definition notify_conn : MA unit := modify (fun s => set_pl (notify (pl s)) s).

(** [start_cond.notify_one()] *)
Definition notify_start : MA unit := modify (fun s => set_starter ((fun _ => true) <$> starter s) s).

Definition destroy_client : MA unit := notify_conn.

(** ** Messages *)

(** [post] and the three [call]s. *)
Definition send_message (r : request caps) : MA unit :=
  c ← gets flora_cli;
  match c with
  | None => emit (Returned r FLORA_CLI_ECONN)
  | Some c => spawn (TRequest c r)
  end.

Definition post (name : string) (msg : option caps) (msgtype : Z) : MA unit :=
  send_message (Post name msg msgtype).

Definition call (name : string) (msg : option caps) (target : string) (cb : option nat) (timeout : Z)
  : MA unit := send_message (Call name msg target cb timeout).

Definition recv_post (c : nat) (name : string) (msgtype : Z) (msg : option caps) : MA unit :=
  m ← gets post_handlers;
  match m !! name with
  | None => mret tt
  | Some cb =>
      modify (fun s => set_in_callback ({[c]} ∪ in_callback s) s) ;;
      spawn (TPost c cb name msg msgtype)
  end.

Definition recv_call (c : nat) (name : string) (msg : option caps) : MA unit :=
  m ← gets call_handlers;
  match m !! name with
  | None => mret tt
  | Some cb =>
      modify (fun s => set_in_callback ({[c]} ∪ in_callback s) s) ;;
      spawn (TCall c cb name msg)
  end.

Definition disconnected : MA unit := destroy_client.

(** [get_socket]; [sock] is [get_socket] of the clients. *)
Definition get_socket (sock : nat -> Z) : MA Z :=
  c ← gets flora_cli;
  mret (match c with Some c => sock c | None => -1 end).

(** ** The thread *)

(** [start(block)]; two threads that run the agent at once are not modelled. *)
Definition start (block : bool) : MA unit :=
  if block then goto Starting
  else
    j ← gets joinable;
    if j : bool then undefined StdTerminate
    else modify (set_joinable true) ;; modify (set_starter (Some false)) ;; goto Starting.

(** The owners of a client: [gabages], [flora_cli], the local variable of [run], the
    functions that use it, and the copy [clean_gabages] makes. *)
Definition holds (c : nat) (k : task H K caps) : bool :=
  match k with
  | TRequest c' _ | TDetached c' => bool_decide (c' = c)
  | TClose (Some c') _ | TClosing (Some c') _ => bool_decide (c' = c)
  | _ => false
  end.

Definition use_count (c : nat) (s : t H K caps) : nat :=
  (length (filter (fun x => x = Some c) (gabages s))
   + (if bool_decide (flora_cli s = Some c) then 1 else 0)
   + (if bool_decide (cli s = Some c) then 1 else 0)
   + length (filter (fun k => holds c k = true) (tasks s)) + 1)%nat.

(** [cli->close(false)] from a thread that is not the receive thread of [c]; it joins
    that thread, so it returns only when no callback runs in it. *)
Definition client_close (c : nat) : MA unit := request_to c Close.

Definition blocked (c : nat) (s : t H K caps) : bool := bool_decide (c ∈ in_callback s).

(** One round of the loop of [clean_gabages]. *)
Definition clean_step (i : nat) : MA unit :=
  g ← gets gabages;
  match g !! i with
  | None => modify (set_cg_mutex false) ;; goto Top
  | Some None => goto (Cleaning (S i))
  | Some (Some c) =>
      client_close c ;;
      n ← gets (use_count c);
      if bool_decide (n = 1%nat) then modify (set_gabages (delete i g)) ;; goto (Cleaning i)
      else goto (Cleaning (S i))
  end.

(** [run()] from one place to the next; [result] is what [Client::connect] returns. *)
Definition run_step (result : Z) : MA unit :=
  l ← gets pl;
  match l with
  | Idle | Exited => mret tt
  | Starting =>
      modify (set_working true) ;;
      o ← gets options;
      modify (set_cli None) ;; modify (set_gabages []) ;;
      modify (set_cliopts (mkClientOptions (bufsize o) (flags o) (beep_interval o) (noresp_timeout o))) ;;
      goto Top
  | Top =>
      w ← gets working;
      if w : bool then
        o ← gets options;
        co ← gets cliopts;
        emit (Connect (uri o) co (mon_callback o)) ;; goto Connecting
      else modify (set_cli None) ;; modify (set_gabages []) ;; goto Exited
  | Connecting =>
      if bool_decide (result <> FLORA_CLI_SUCCESS) then notify_start ;; goto (WaitFor false)
      else
        n ← gets connected;
        modify (set_connected (S n)) ;; modify (set_cli (Some n)) ;;
        m ← gets post_handlers;
        goto (InitPost (begin m))
  | InitPost None => m ← gets call_handlers; goto (InitCall (begin m))
  | InitPost (Some k) =>
      m ← gets post_handlers;
      c ← gets cli;
      match m !! k, c with
      | Some _, Some c => request_to c (Subscribe k) ;; goto (InitPost (next k m))
      | None, _ => undefined InvalidIterator
      | _, None => undefined NullDeref
      end
  | InitCall None => goto Publish
  | InitCall (Some k) =>
      m ← gets call_handlers;
      c ← gets cli;
      match m !! k, c with
      | Some _, Some c => request_to c (DeclareMethod k) ;; goto (InitCall (next k m))
      | None, _ => undefined InvalidIterator
      | _, None => undefined NullDeref
      end
  | Publish =>
      c ← gets cli;
      modify (fun s => set_gabages (gabages s ++ [c]) s) ;;
      old ← gets flora_cli;
      modify (set_flora_cli c) ;; modify (set_cli old) ;;
      notify_start ;; goto (Wait false)
  | WaitFor _ => goto Unlocked
  | Wait _ => modify (set_flora_cli None) ;; goto Unlocked
  | Unlocked => modify (set_cg_mutex true) ;; goto (Cleaning 0)
  | Cleaning i => clean_step i
  end.

(** Whether [run] can go on: it waits for a notification, for [cg_mutex], or for the
    receive thread of a client it closes. *)
Definition runnable (s : t H K caps) : bool :=
  match pl s with
  | Idle | Exited => false
  | WaitFor woken | Wait woken => woken
  | Unlocked => negb (cg_mutex s)
  | Cleaning i => match gabages s !! i with Some (Some c) => negb (blocked c s) | _ => true end
  | _ => true
  end.

(** [close()] up to its unlock. [from] is the client whose receive thread calls it. *)
Definition close (from : option nat) : MA unit :=
  w ← gets working;
  if w : bool then
    modify (set_working false) ;;
    notify_conn ;;
    c ← gets flora_cli;
    modify (set_flora_cli None) ;;
    modify (set_post_handlers ∅) ;; modify (set_call_handlers ∅) ;;
    spawn (TClose c from)
  else emit Closed.

(** ** The other threads *)

Definition is_message (r : request caps) : bool :=
  match r with Post _ _ _ | Call _ _ _ _ _ => true | _ => false end.

(** What a thread at [k] does next; it is taken off the tasks first. [result] is what
    the client's function returns. *)
Definition task_step (k : task H K caps) (result : Z) : MA unit :=
  match k with
  | TRequest c r =>
      request_to c r ;;
      if is_message r then
        if bool_decide (result = FLORA_CLI_ECONN) then spawn (TDestroy r result)
        else emit (Returned r result)
      else mret tt
  | TDestroy r code => destroy_client ;; emit (Returned r code)
  | TPost c h name msg msgtype => emit (Handled h name msg msgtype) ;; spawn (TReturn c)
  | TCall c k name msg => emit (Answered k name msg) ;; spawn (TReturn c)
  | TReturn c => modify (fun s => set_in_callback (in_callback s ∖ {[c]}) s)
  | TClose c from => modify (set_cg_mutex true) ;; spawn (TClosing c from)
  | TClosing c from =>
      match c with
      | Some c =>
          if bool_decide (from = Some c) then spawn (TDetached c)   (** FLORA_CLI_EDEADLOCK *)
          else client_close c
      | None => mret tt
      end ;;
      modify (set_cg_mutex false) ;; spawn (TJoin from)
  | TDetached c => client_close c
  | TJoin _ => modify (set_joinable false) ;; emit Closed
  end.

(** The receive thread a task runs in while its callback has not returned. *)
Definition task_from (k : task H K caps) : option nat :=
  match k with
  | TClose _ from | TClosing _ from | TJoin from => from
  | _ => None
  end.

(** Whether a thread at [k] can go on. *)
Definition ready (k : task H K caps) (s : t H K caps) : bool :=
  match k with
  | TReturn c => forallb (fun k => bool_decide (task_from k <> Some c)) (tasks s)
  | TClose _ _ => negb (cg_mutex s)
  | TClosing (Some c) from => bool_decide (from = Some c) || negb (blocked c s)
  | TDetached c => negb (blocked c s)
  | TJoin _ => negb (joinable s) || bool_decide (pl s = Exited)
  | _ => true
  end.

(** ** The system *)

Inductive label : Type :=
  | LConfig (key : Z) (ap : list vararg)
  | LSubscribe (name : string) (cb : H)
  | LUnsubscribe (name : string)
  | LDeclareMethod (name : string) (cb : K)
  | LRemoveMethod (name : string)
  | LStart (block : bool)
  | LStarted                                  (** [start] returns *)
  | LPost (name : string) (msg : option caps) (msgtype : Z)
  | LCall (name : string) (msg : option caps) (target : string) (cb : option nat) (timeout : Z)
  | LClose (from : option nat)
  | LRecvPost (c : nat) (name : string) (msgtype : Z) (msg : option caps)
  | LRecvCall (c : nat) (name : string) (msg : option caps)
  | LDisconnected (c : nat)
  | LTask (i : nat) (result : Z)
  | LRun (result : Z)
  | LTimeout                                  (** [wait_for] ends by itself *)
  | LSpurious.                                (** [wait] ends by itself *)

Inductive sys : Type :=
  | Running (s : t H K caps)
  | Crashed (u : ub).

Definition result_of (o : outcome (unit * t H K caps)) : sys :=
  match o with Done (_, s) => Running s | Undef u => Crashed u end.

(** Whether the receive thread of [c] may call the agent. *)
Definition receiving (c : nat) (s : t H K caps) : bool :=
  bool_decide (c < connected s)%nat && negb (blocked c s).

Definition exec_agent (s : t H K caps) (lb : label) : option (MA unit) :=
  match lb with
  | LConfig key ap => Some (config key ap)
  | LSubscribe name cb => Some (subscribe name cb)
  | LUnsubscribe name => Some (unsubscribe name)
  | LDeclareMethod name cb => Some (declare_method name cb)
  | LRemoveMethod name => Some (remove_method name)
  | LStart block =>
      if bool_decide (pl s = Idle \/ pl s = Exited) || (negb block && joinable s)
      then Some (start block) else None
  | LStarted =>
      if bool_decide (starter s = Some true) then Some (modify (set_starter None) ;; emit Started) else None
  | LPost name msg msgtype => Some (post name msg msgtype)
  | LCall name msg target cb timeout => Some (call name msg target cb timeout)
  | LClose from =>
      match from with
      | Some c => if blocked c s then Some (close from) else None
      | None => Some (close from)
      end
  | LRecvPost c name msgtype msg => if receiving c s then Some (recv_post c name msgtype msg) else None
  | LRecvCall c name msg => if receiving c s then Some (recv_call c name msg) else None
  | LDisconnected c => if receiving c s then Some disconnected else None
  | LTask i result =>
      k ← tasks s !! i;
      if ready k s then Some (modify (fun s => set_tasks (delete i (tasks s)) s) ;; task_step k result)
      else None
  | LRun result => if runnable s then Some (run_step result) else None
  | LTimeout => match pl s with WaitFor _ => Some (goto (WaitFor true)) | _ => None end
  | LSpurious => match pl s with Wait _ => Some (goto (Wait true)) | _ => None end
  end.

Definition exec (st : sys) (lb : label) : option sys :=
  match st with
  | Crashed _ => None
  | Running s => (fun m => result_of (m s)) <$> exec_agent s lb
  end.

Definition step (st st' : sys) : Prop := exists lb, exec st lb = Some st'.

Fixpoint execs (st : sys) (lbs : list label) : option sys :=
  match lbs with
  | [] => Some st
  | lb :: lbs => match exec st lb with Some st' => execs st' lbs | None => None end
  end.
End Ops.
Arguments label : clear implicits.
Arguments sys : clear implicits.
End AgentOps.
