(* ===== verification/Monitor.v ===== *)
(** * The monitor tool ([monitor/main.cc])

    A [MonitorView] keeps the list of the clients connected to the service and draws
    it: the callbacks of its [MonitorCallback] change the list, and every change is
    drawn again, a line for each client. The calls of curses are recorded in order. *)
From Stdlib Require Import Strings.Ascii.
From Stdlib Require Strings.String.
From stdpp Require Import pretty.
From S2P Require Import Prelude Defs SerHelper CliState AgentState Agent.

Module MonitorView.
Record FloraClientInfo := mkClientInfo {
  fc_id : Z;
  fc_pid : Z;
  fc_name : string;
  fc_flags : Z
}.

#[export] Instance FloraClientInfo_eq_dec : EqDecision FloraClientInfo.
Proof. solve_decision. Defined.

(** The functions of curses that draw. *)
Inductive draw : Type :=
  | Clear
  | Printw (text : string)
  | Refresh.

#[export] Instance draw_eq_dec : EqDecision draw.
Proof. solve_decision. Defined.

Record t := mk {
  floraClients : list FloraClientInfo;
  textBuffer : list Ascii.ascii;  (** the static buffer of 64 characters *)
  drawn : list draw
}.

Definition set_floraClients (v : list FloraClientInfo) (s : t) : t := mk v (textBuffer s) (drawn s).
Definition set_textBuffer (v : list Ascii.ascii) (s : t) : t := mk (floraClients s) v (drawn s).

Abbreviation MV := (M t).

(** ** Drawing *)

Definition COLUMN_WIDTH : list Z := [8; 32].
Definition COLUMN_PAD : Z := 1.
Definition COLUMN_HEADER_TEXT : list string := ["PID"; "NAME"].

Definition emit (d : draw) : MV unit := modify (fun s => mk (floraClients s) (textBuffer s) (drawn s ++ [d])).

(** [memset(textBuffer, c, n)], [memcpy(textBuffer, l, length l)] *)
Definition buf_write (l : list Ascii.ascii) : MV unit :=
  b ← gets textBuffer;
  if bool_decide (length l <= length b)%nat then modify (set_textBuffer (l ++ drop (length l) b))
  else undefined BufferOverflow.

(** [textBuffer[i] = c] *)
Definition buf_set (i : nat) (c : Ascii.ascii) : MV unit :=
  b ← gets textBuffer;
  if bool_decide (i < length b)%nat then modify (set_textBuffer (<[i := c]> b))
  else undefined BufferOverflow.

(** A C string: the characters before the first NUL. *)
Definition c_string (b : list Ascii.ascii) : string := c_str (String.string_of_list_ascii b).

(** [len > COLUMN_WIDTH[idx]] compares the [int32_t] as an unsigned number. *)
Definition printTabCell (idx : nat) (content : string) : MV unit :=
  match COLUMN_WIDTH !! idx with
  | None => undefined HandlerIndex
  | Some w =>
      let width := Z.to_nat (w + COLUMN_PAD) in
      buf_write (replicate width " "%char) ;;
      buf_set width Ascii.zero ;;
      let content := c_str content in
      let len := i32 (Z.of_nat (String.length content)) in
      let len := if bool_decide (w < u32 len) then w else len in
      buf_write (take (Z.to_nat len) (String.list_ascii_of_string content)) ;;
      b ← gets textBuffer;
      emit (Printw (c_string b))
  end.

Definition newline : string := String "010"%char EmptyString.

Definition printTabHeader : MV unit :=
  for_each (seq 0 (length COLUMN_WIDTH)) (fun i => printTabCell i (default EmptyString (COLUMN_HEADER_TEXT !! i))) ;;
  emit (Printw newline).

(** What [snprintf] leaves in a buffer of [size] characters. *)
Definition snprintf (size : nat) (text : string) : string := String.substring 0 (size - 1) text.

Definition printTabLine (info : FloraClientInfo) : MV unit :=
  printTabCell 0 (snprintf 16 (pretty (fc_pid info))) ;;
  printTabCell 1 (fc_name info) ;;
  emit (Printw newline).

Definition updateMonitorScreen : MV unit :=
  emit Clear ;;
  printTabHeader ;;
  l ← gets floraClients;
  for_each l printTabLine ;;
  emit Refresh.

(** ** The callbacks *)

Definition client_info (i : MonitorListItem) : FloraClientInfo :=
  mkClientInfo (ml_id i) (ml_pid i) (ml_name i) (ml_flags i).

Definition list_all (items : list MonitorListItem) : MV unit :=
  modify (fun s => set_floraClients (floraClients s ++ (client_info <$> items)) s) ;;
  updateMonitorScreen.

Definition list_add (item : MonitorListItem) : MV unit :=
  modify (fun s => set_floraClients (floraClients s ++ [client_info item]) s) ;;
  updateMonitorScreen.

(** The first client with the id, erased; [None] when there is none. *)
Fixpoint erase_client (id : Z) (l : list FloraClientInfo) : option (list FloraClientInfo) :=
  match l with
  | [] => None
  | c :: r => if bool_decide (fc_id c = id) then Some r else cons c <$> erase_client id r
  end.

Definition list_remove (id : Z) : MV unit :=
  l ← gets floraClients;
  match erase_client id l with
  | None => mret tt
  | Some l' => modify (set_floraClients l') ;; updateMonitorScreen
  end.

(** The view as the callback of a client: the functions it does not override do
    nothing. *)
Definition on_event {caps} (e : Client.event caps) : MV unit :=
  match e with
  | Client.list_all items => list_all items
  | Client.list_add item => list_add item
  | Client.list_remove id => list_remove id
  | _ => mret tt
  end.

(** A new view; the static buffer starts zeroed. *)
Definition new : t := mk [] (replicate 64 Ascii.zero) [].

(** [doMonitor], up to [agent.start()]. *)
Definition doMonitor {H K caps} (floraUri : string) : M (Agent.t H K caps) unit :=
  AgentOps.config FLORA_AGENT_CONFIG_URI [AgentOps.VStr (c_str (floraUri +:+ "#flora-monitor"))] ;;
  AgentOps.config FLORA_AGENT_CONFIG_MONITOR [AgentOps.VU32 FLORA_CLI_FLAG_MONITOR; AgentOps.VCallback true].
End MonitorView.

(** * What the view shows *)
Section Spec.
Import MonitorView.

(** ** Cells *)

(** A text in a column: cut off at the column's width, padded to one more. *)
Definition cell (w : nat) (content : string) : list Ascii.ascii :=
  let text := take w (String.list_ascii_of_string (c_str content)) in
  text ++ replicate (S w - length text) " "%char.

Definition short (content : string) : Prop := is_u32 (Z.of_nat (String.length content)).

Lemma length_chars s : length (String.list_ascii_of_string s) = String.length s.
Proof. induction s; simpl; congruence. Qed.

Lemma chars_no_nul s : no_nul s -> Forall (fun c => c <> Ascii.zero) (String.list_ascii_of_string s).
Proof.
  unfold no_nul. induction s as [|c s IH]; [constructor|]. simpl. case_bool_decide; [done|].
  intros [= Hs]. constructor; [done|]. by apply IH.
Qed.

(** The characters before the first NUL. *)
Lemma c_string_app l r :
  Forall (fun c => c <> Ascii.zero) l -> c_string (l ++ Ascii.zero :: r) = String.string_of_list_ascii l.
Proof.
  unfold c_string. induction 1 as [|c l Hc _ IH]; simpl; [done|].
  by rewrite bool_decide_false, IH by done.
Qed.

Lemma length_c_str s : (String.length (c_str s) <= String.length s)%nat.
Proof. induction s as [|c s IH]; simpl; [lia|]. case_bool_decide; simpl; lia. Qed.

(** How many characters the code copies. *)
Lemma cut_length w (n : nat) :
  0 <= w < two31 -> is_u32 (Z.of_nat n) ->
  Z.to_nat (if bool_decide (w < u32 (i32 (Z.of_nat n))) then w else i32 (Z.of_nat n)) = (Z.to_nat w `min` n)%nat.
Proof.
  intros Hw Hn. rewrite u32_i32, u32_small by done. case_bool_decide; [lia|].
  rewrite i32_nonneg; [lia|]. unfold is_u32 in Hn. lia.
Qed.

(** What is in the buffer after the three writes. *)
Lemma cell_buffer (b text : list Ascii.ascii) w :
  length b = 64%nat -> (S w < 64)%nat -> (length text <= w)%nat ->
  let b1 := replicate (S w) " "%char ++ drop (S w) b in
  let b2 := <[S w := Ascii.zero]> b1 in
  text ++ drop (length text) b2 =
    text ++ replicate (S w - length text) " "%char ++ Ascii.zero :: drop (S (S w)) b.
Proof.
  intros Hb Hw Ht b1 b2. f_equal. subst b2 b1.
  rewrite insert_app_r_alt, length_replicate, Nat.sub_diag by (rewrite length_replicate; lia).
  destruct (drop (S w) b) as [|c r] eqn:Hd; [apply (f_equal length) in Hd; rewrite length_drop in Hd; simpl in Hd; lia|].
  assert (drop (S (S w)) b = r) as ->.
  { change r with (drop 1 (c :: r)). rewrite <- Hd, drop_drop. f_equal. lia. }
  simpl (<[0%nat:=_]> _). rewrite drop_app_le by (rewrite length_replicate; lia). by rewrite drop_replicate.
Qed.

(** The view after something was drawn; the buffer keeps its size. *)
Definition drew (ds : list draw) (s s' : t) : Prop :=
  floraClients s' = floraClients s /\ drawn s' = drawn s ++ ds /\ length (textBuffer s') = length (textBuffer s).

Lemma drew_trans ds ds' s1 s2 s3 : drew ds s1 s2 -> drew ds' s2 s3 -> drew (ds ++ ds') s1 s3.
Proof. intros (? & Hd & ?) (? & Hd' & ?). split_and!; [congruence| |congruence]. by rewrite Hd', Hd, app_assoc. Qed.

Lemma drew_nil s : drew [] s s.
Proof. split_and!; try done. by rewrite app_nil_r. Qed.

Definition draws (m : MV unit) (ds : list draw) : Prop :=
  forall s, length (textBuffer s) = 64%nat -> wp m (fun _ s' => drew ds s s') s.

Lemma draws_emit d : draws (emit d) [d].
Proof. by intros s Hs. Qed.

Lemma draws_bind m m' ds ds' : draws m ds -> draws m' ds' -> draws (m ;; m') (ds ++ ds').
Proof.
  intros Hm Hm' s Hs. apply wpx_bind. eapply wpx_mono; [by apply Hm|]. intros [] s1 H1.
  eapply wpx_mono; [apply Hm'; by rewrite (proj2 (proj2 H1))|]. intros [] s2 H2. by eapply drew_trans.
Qed.

Lemma draws_for_each {A} (l : list A) f g :
  (forall x, x ∈ l -> draws (f x) (g x)) -> draws (for_each l f) (mjoin (g <$> l)).
Proof.
  induction l as [|x l IH]; intros Hf; [intros s Hs; apply drew_nil|]. simpl.
  apply draws_bind; [apply Hf; by left|]. apply IH. intros y Hy. apply Hf. by right.
Qed.

Lemma draws_cell idx w content :
  COLUMN_WIDTH !! idx = Some w -> short content ->
  draws (printTabCell idx content) [Printw (String.string_of_list_ascii (cell (Z.to_nat w) content))].
Proof.
  intros Hw Hc s Hs. unfold printTabCell. rewrite Hw.
  assert (0 <= w <= 32) as Hwr by (by destruct idx as [|[|]]; simpl in Hw; simplify_eq).
  replace (Z.to_nat (w + COLUMN_PAD)) with (S (Z.to_nat w)) by (unfold COLUMN_PAD; lia).
  set (text := take (Z.to_nat w) (String.list_ascii_of_string (c_str content))).
  assert (length text <= Z.to_nat w)%nat as Ht by (unfold text; rewrite length_take; lia).
  unfold buf_write, buf_set. do 3 wstep.
  rewrite length_replicate, bool_decide_true by lia. do 4 wstep. cbn [textBuffer set_textBuffer].
  rewrite bool_decide_true by (rewrite length_app, length_replicate, length_drop; lia). do 4 wstep.
  cbn [textBuffer set_textBuffer].
  rewrite cut_length by (try (unfold two31; lia); unfold short, is_u32 in *; pose proof (length_c_str content); lia).
  replace (take _ _) with text.
  2: { unfold text. rewrite <- length_chars. destruct (decide (length (String.list_ascii_of_string (c_str content)) <= Z.to_nat w)%nat).
       - rewrite Nat.min_r by done. by rewrite !firstn_all2 by lia.
       - by rewrite Nat.min_l by lia. }
  rewrite bool_decide_true by (rewrite length_insert, length_app, length_replicate, length_drop; lia).
  do 3 wstep. unfold emit. wstep. cbn [textBuffer set_textBuffer].
  rewrite (cell_buffer _ _ (Z.to_nat w)) by (done || lia). rewrite app_assoc, c_string_app.
  - split_and!; [done|done|]. simpl. rewrite Hs, !length_app, length_replicate. simpl. rewrite length_drop. lia.
  - apply Forall_app. split; [apply Forall_take, chars_no_nul, c_str_no_nul|by apply Forall_replicate].
Qed.

(** ** The screen *)

Definition print_cell (w : nat) (content : string) : draw := Printw (String.string_of_list_ascii (cell w content)).

Definition client_line (c : FloraClientInfo) : list draw :=
  [print_cell 8 (pretty (fc_pid c)); print_cell 32 (fc_name c); Printw newline].

(** The whole screen for a list of clients. *)
Definition screen (l : list FloraClientInfo) : list draw :=
  [Clear; print_cell 8 "PID"; print_cell 32 "NAME"; Printw newline] ++ mjoin (client_line <$> l) ++ [Refresh].

(** The name of a client is not longer than an [int32_t] can say. *)
Definition printable (c : FloraClientInfo) : Prop := short (fc_name c).

Lemma take_substring k n s : (k <= n)%nat ->
  take k (String.list_ascii_of_string (c_str (String.substring 0 n s))) =
  take k (String.list_ascii_of_string (c_str s)).
Proof.
  revert k n. induction s as [|c s IH]; intros k n Hk; [by destruct n|].
  destruct n as [|n]; [by replace k with 0%nat by lia|]. simpl. case_bool_decide; [done|].
  destruct k as [|k]; [done|]. simpl. f_equal. apply IH. lia.
Qed.

Lemma length_substring n s : (String.length (String.substring 0 n s) <= n)%nat.
Proof. revert n. induction s as [|c s IH]; intros [|n]; simpl; try lia. specialize (IH n). lia. Qed.

(** The buffer for a process id is larger than its column. *)
Lemma cell_snprintf text : cell 8 (snprintf 16 text) = cell 8 text.
Proof. unfold cell, snprintf. by rewrite (take_substring 8 15) by lia. Qed.

Lemma draws_line c : printable c -> draws (printTabLine c) (client_line c).
Proof.
  intros Hn. apply (draws_bind _ _ [_] [_; _]).
  { unfold print_cell. rewrite <- cell_snprintf. apply (draws_cell 0 8); [done|]. unfold short, snprintf.
    pose proof (length_substring 15 (pretty (fc_pid c))). unfold is_u32, two32. simpl. lia. }
  apply (draws_bind _ _ [_] [_]); [by apply (draws_cell 1 32)|apply draws_emit].
Qed.

Lemma draws_header : draws printTabHeader [print_cell 8 "PID"; print_cell 32 "NAME"; Printw newline].
Proof.
  apply (draws_bind _ _ [_; _] [_]); [|apply draws_emit].
  apply (draws_bind _ _ [_] [_]); [by apply (draws_cell 0 8)|].
  apply (draws_bind _ _ [_] []); [by apply (draws_cell 1 32)|]. intros s _. apply drew_nil.
Qed.

Lemma wp_update s :
  length (textBuffer s) = 64%nat -> Forall printable (floraClients s) ->
  wp updateMonitorScreen (fun _ s' => drew (screen (floraClients s)) s s') s.
Proof.
  intros Hs Hl. unfold updateMonitorScreen, screen.
  apply wpx_bind. eapply wpx_mono; [by apply draws_emit|]. intros [] s1 H1.
  pose proof H1 as (Hc & _ & Hb). rewrite Hs in Hb.
  apply wpx_bind. eapply wpx_mono; [by apply draws_header|]. intros [] s2 H2.
  pose proof H2 as (Hc2 & _ & Hb2). rewrite Hb in Hb2. do 2 wstep. rewrite Hc2, Hc.
  eapply wpx_mono; [apply (draws_bind _ _ (mjoin (client_line <$> floraClients s)) [Refresh]); [|apply draws_emit|done]|].
  - apply draws_for_each. intros c Hin. apply draws_line. by eapply Forall_forall in Hl.
  - intros [] s3 H3. eapply drew_trans; [|exact H3]. by eapply (drew_trans [Clear]).
Qed.

(** ** The list of clients *)

(** What a callback makes of the list. *)
Definition step_list {caps} (l : list FloraClientInfo) (e : Client.event caps) : list FloraClientInfo :=
  match e with
  | Client.list_all items => l ++ (client_info <$> items)
  | Client.list_add item => l ++ [client_info item]
  | Client.list_remove id => default l (erase_client id l)
  | _ => l
  end.

(** The list after the callbacks, in order. *)
Definition list_after {caps} (es : list (Client.event caps)) : list FloraClientInfo := foldl step_list [] es.

Definition printable_event {caps} (e : Client.event caps) : Prop :=
  match e with
  | Client.list_all items => Forall printable (client_info <$> items)
  | Client.list_add item => printable (client_info item)
  | _ => True
  end.

(** The screen shows the list, or nothing was drawn yet. *)
Definition up_to_date (s : t) : Prop :=
  (drawn s = [] /\ floraClients s = []) \/ exists pre, drawn s = pre ++ screen (floraClients s).

Definition view_ok (s : t) : Prop :=
  length (textBuffer s) = 64%nat /\ Forall printable (floraClients s) /\ up_to_date s.

Lemma erase_client_sub id l l' : erase_client id l = Some l' -> l' `sublist_of` l.
Proof.
  revert l'. induction l as [|c l IH]; intros l'; simpl; [done|]. case_bool_decide; [intros [= <-]; by constructor|].
  destruct (erase_client id l) as [r|]; [|done]. intros [= <-]. constructor. by apply IH.
Qed.

Lemma wp_changed f l s :
  view_ok s -> Forall printable l -> f s = set_floraClients l s ->
  wp (modify f ;; updateMonitorScreen) (fun _ s' => view_ok s' /\ floraClients s' = l) s.
Proof.
  intros (Hb & _ & _) Hl Hf. do 2 wstep. rewrite Hf. eapply wpx_mono; [by apply wp_update|].
  intros [] s' (Hc & Hd & Hb'). simpl in *. split; [|done]. split_and!; [congruence|by rewrite Hc|].
  right. exists (drawn s). by rewrite Hc.
Qed.

Lemma wp_on_event {caps} (e : Client.event caps) s :
  view_ok s -> printable_event e ->
  wp (on_event e) (fun _ s' => view_ok s' /\ floraClients s' = step_list (floraClients s) e) s.
Proof.
  intros Hs He. pose proof Hs as (Hb & Hl & Hu). destruct e; simpl in *; try (by wsteps).
  - unfold list_all. apply wp_changed; [done| |done]. by apply Forall_app.
  - unfold list_add. apply wp_changed; [done| |done]. apply Forall_app. split; [done|]. by apply Forall_singleton.
  - unfold list_remove. do 2 wstep. destruct (erase_client id (floraClients s)) as [l'|] eqn:He'; [|by wsteps].
    apply wp_changed; [done| |done]. simpl. apply Forall_forall. intros c Hc.
    eapply Forall_forall in Hl; [done|]. eapply elem_of_sublist; [done|]. by eapply erase_client_sub.
Qed.

Lemma wp_on_events {caps} (es : list (Client.event caps)) : forall s,
  view_ok s -> Forall printable_event es ->
  wp (for_each es on_event) (fun _ s' => view_ok s' /\ floraClients s' = foldl step_list (floraClients s) es) s.
Proof.
  induction es as [|e es IH]; intros s Hs He; [by wsteps|]. apply Forall_cons in He as [He Hes]. simpl.
  wstep. eapply wpx_mono; [by apply wp_on_event|]. intros [] s1 [Hs1 <-]. by apply IH.
Qed.

(** C37. Whatever the service announces, the monitor's screen is up to date and its
    fixed buffers are not overrun: after any sequence of callbacks the list is what the
    announcements make of it, and the last thing drawn is one line for each client of
    the list, its process id cut or padded to eight columns and its name to 32. *)
Theorem screen_up_to_date {caps} (es : list (Client.event caps)) :
  Forall printable_event es ->
  exists v, for_each es on_event new = Done (tt, v) /\ floraClients v = list_after es /\ up_to_date v.
Proof.
  intros He. assert (view_ok new) as Hn by (split_and!; [done|constructor|by left]).
  destruct (wp_done _ _ _ (wp_on_events es new Hn He)) as ([] & v & Hd & (_ & _ & Hu) & Hl). by exists v.
Qed.

(** After a reconnection the service sends the whole list again, and the clients of
    the old connection stay on the screen. *)
Lemma reconnection_duplicates {caps} (items items' : list MonitorListItem) :
  list_after [Client.list_all (caps:=caps) items; Client.mon_disconnected; Client.list_all items'] =
    (client_info <$> items) ++ (client_info <$> items').
Proof. done. Qed.
End Spec.
