(* ===== verification/MonitorPeer.v ===== *)
(** * What a monitor's client makes of the service's announcements

    The service announces the whole list of clients to a new monitor and every arrival
    and departure to all of them. A monitor's client that receives the encoded
    announcements makes exactly the calls of [MonitorCallback] that they say. *)
From S2P Require Import Prelude Defs Caps RefCaps Adap SerHelper SerRoundtrip SockAdap.
From S2P Require Import SockConn DispState Cli CliSpec Peers Monitor.
Import Client.

(** A member of a message takes at least a byte. *)
Class CapsSized (caps : Type) `{!CapsOps caps, !CapsLaws caps} := {
  serialize_members c flags size r b : caps_serialize c flags size = (r, b) -> 0 <= r <= size ->
    (length (caps_content c) <= length b)%nat
}.

#[export] Instance ref_sized : CapsSized rcaps.
Proof.
  split. intros c flags size r b Hs Hr. destruct (ref_serialize_fits _ _ _ _ _ Hs Hr) as (_ & _ & _ & Hd).
  apply (f_equal length) in Hd. rewrite length_drop in Hd. unfold body in Hd. rewrite length_app in Hd.
  change (caps_content c) with (rc_content c).
  enough (length (rc_content c) <= length (flat_map enc (rc_content c)))%nat by (simpl in Hd; lia).
  clear. induction (rc_content c) as [|v l IH]; simpl; [lia|]. rewrite length_app.
  assert (1 <= length (enc v))%nat by (destruct v as [| | |[|]]; simpl; lia). lia.
Qed.

(** ** Announcements *)
Inductive announcement : Type :=
  | AllClients (infos : gmap aid AdapterInfo)
  | ClientAdded (i : AdapterInfo)
  | ClientRemoved (id : Z).

Section Peer.
Context {caps : Type} `{!CapsOps caps, !CapsFlags, !CapsLaws caps, !CapsSized caps}.
Context {os : Type} `{!SockOS os, !SockConnect os, !SteadyClock, !UriParser}.
Implicit Types (s : t caps os) (b : bytes).

(** The bytes of an announcement. *)
Definition encode (size flags : Z) (n : announcement) : option bytes :=
  match n with
  | AllClients infos => ResponseSerializer.serialize_monitor_list_all (caps:=caps) infos size flags
  | ClientAdded i => ResponseSerializer.serialize_monitor_list_add (caps:=caps) i size flags
  | ClientRemoved id => ResponseSerializer.serialize_monitor_list_remove (caps:=caps) id size flags
  end.

Definition items (infos : gmap aid AdapterInfo) : list MonitorListItem := list_item <$> (map_to_list infos).*2.

(** The call it becomes. *)
Definition callback (n : announcement) : event caps :=
  match n with
  | AllClients infos => list_all (items infos)
  | ClientAdded i => list_add (list_item i)
  | ClientRemoved id => list_remove id
  end.

Definition ann_wf (n : announcement) : Prop :=
  match n with
  | AllClients infos => map_Forall (fun _ => info_wf) infos /\ Z.of_nat (size infos) < two31
  | ClientAdded i => info_wf i
  | ClientRemoved id => is_u32 id
  end.

Lemma serialize_to_members size flags c b :
  is_u32 size -> serialize_to size flags c = Some b -> (length (caps_content c) <= length b)%nat.
Proof.
  intros Hs. unfold serialize_to. destruct (caps_serialize c flags size) as [r d] eqn:He.
  case_bool_decide; [done|]. case_bool_decide as Hr; [done|]. intros [= <-].
  eapply serialize_members; [done|]. pose proof (serialize_i32 _ _ _ _ _ He) as Hi.
  rewrite u32_small in Hr by (unfold is_u32, is_i32, two31, two32 in *; lia). lia.
Qed.

(** A monitor's client that handles a monitor message. *)
Lemma wp_monitor_frame size flags c0 b sub l h s (Q : bool -> t caps os -> Prop) :
  is_u32 size -> serialize_to size flags c0 = Some b ->
  caps_content c0 = CInt (u32 CMD_MONITOR_RESP) :: CInt (u32 sub) :: l ->
  cmd_handler s = handle_cmd_after_auth -> mon_callback s = true ->
  0 <= sub < MONITOR_SUBTYPE_NUM ->
  Cli.monitor_handlers (S (length b)) !! Z.to_nat sub = Some h ->
  (forall c, caps_rest c = l -> wp (h c) Q s) ->
  wp (Cli.handle_frame b) Q s.
Proof.
  intros Hs Hb Hc Hh Hm Hsub Hl HQ. eapply wp_handle_frame; [done|exact Hb|exact Hc|].
  intros c Hr. unfold Cli.handle_cmd. wsteps. rewrite Hh. unfold Cli.after_auth.
  change (i32 (u32 CMD_MONITOR_RESP)) with CMD_MONITOR_RESP. closed_ifs. do 2 wstep. rewrite Hm. cbn [negb].
  destruct (read_u32_int _ _ _ Hr) as (c' & -> & Hr').
  rewrite u32_u32, u32_small by (unfold MONITOR_SUBTYPE_NUM, is_u32, two32 in *; lia).
  rewrite bool_decide_false by lia. rewrite Hl. by apply HQ.
Qed.

Lemma same_thread s : set_sender_name (sender_name s) (set_tag (tag s) s) = s.
Proof. by destruct s. Qed.

(** One announcement is one call. *)
Lemma frame_announcement size flags n b s :
  is_u32 size -> ann_wf n -> encode size flags n = Some b ->
  cmd_handler s = handle_cmd_after_auth -> mon_callback s = true ->
  Cli.handle_frame b s = Done (true, set_events (events s ++ [callback n]) s).
Proof.
  intros Hs Hn Hb Hh Hm.
  enough (wp (Cli.handle_frame b) (fun ok s' => ok = true /\ s' = set_events (events s ++ [callback n]) s) s) as Hw.
  { by destruct (wp_done _ _ _ Hw) as (? & ? & ? & -> & ->). }
  destruct n as [infos|i|id]; cbn [ann_wf encode callback] in *.
  - unfold ResponseSerializer.serialize_monitor_list_all in Hb. destruct Hn as [Hwf Hn].
    rewrite <- length_map_to_list, <- (length_fmap snd) in Hn.
    assert (Forall info_wf (map_to_list infos).*2) as Hl.
    { apply Forall_fmap, Forall_forall. intros [k i] Hin. by apply (Hwf k), elem_of_map_to_list. }
    pose proof (serialize_to_members _ _ _ _ Hs Hb) as Hlen. rewrite content_list_items in Hlen by done.
    rewrite length_app, length_map in Hlen.
    eapply (wp_monitor_frame _ _ _ _ MONITOR_LIST_ALL); [done|exact Hb| |done..| ].
    { rewrite content_list_items by done. autorewrite with flora. reflexivity. }
    intros c Hc. unfold Cli.handle_monitor_list_all. wsteps. apply wp_cli_parse.
    rewrite <- (length_fmap snd) in Hc.
    eapply parses_monitor_list_all; [done|done|lia|exact Hc|]. intros _. cbn [fst snd]. rewrite same_thread.
    unfold Cli.emit. by wsteps.
  - unfold ResponseSerializer.serialize_monitor_list_add in Hb.
    eapply (wp_monitor_frame _ _ _ _ MONITOR_LIST_ADD); [done|exact Hb|by autorewrite with flora|done..|].
    intros c Hc. unfold Cli.handle_monitor_list_add. wsteps. apply wp_cli_parse. simpl in Hc.
    rewrite content_list_item in Hc by done. unfold ResponseParser.parse_monitor_list_add.
    apply read_caps_sub in Hc as (sub & c' & Hr & _ & _ & Hsub).
    apply parses_bind. exists (Some sub), c', (tag s, sender_name s). split; [unfold rd; by rewrite Hr|].
    apply parses_on_sub. eapply parses_list_item; [done..|]. intros _. cbn [fst snd]. rewrite same_thread.
    unfold Cli.emit. by wsteps.
  - unfold ResponseSerializer.serialize_monitor_list_remove in Hb.
    eapply (wp_monitor_frame size _ _ _ MONITOR_LIST_REMOVE); [done|exact Hb|by autorewrite with flora|done..|].
    intros c Hc. unfold Cli.handle_monitor_list_remove. wsteps. apply wp_cli_parse. simpl in Hc.
    unfold ResponseParser.parse_monitor_list_remove. eapply parses_u32; [done|].
    intros _ _. cbn [fst snd]. rewrite same_thread, u32_u32, u32_small by done. unfold Cli.emit. by wsteps.
Qed.
(** ** A whole connection *)

(** The announcements, one message each. *)
Definition encodes (size flags : Z) (n : announcement) b : Prop := ann_wf n /\ encode size flags n = Some b.

Lemma frames_announcements size flags ns bs : is_u32 size -> Forall2 (encodes size flags) ns bs ->
  forall s, cmd_handler s = handle_cmd_after_auth -> mon_callback s = true ->
  CliSpec.handle_frames bs s = Done (true, set_events (events s ++ (callback <$> ns)) s).
Proof.
  intros Hs. induction 1 as [|n b ns bs [Hn Hb] _ IH]; intros s Hh Hm; simpl.
  - rewrite app_nil_r. by destruct s.
  - unfold mbind, M_bind. rewrite (frame_announcement _ _ _ _ _ Hs Hn Hb Hh Hm). rewrite IH by done.
    simpl. by rewrite <- app_assoc.
Qed.

(** The answer to an authentication that succeeded. *)
Lemma frame_auth version size flags b s r0 :
  is_u32 size -> ResponseSerializer.serialize_auth FLORA_CLI_SUCCESS version size flags = Some b ->
  cmd_handler s = handle_cmd_before_auth -> auth_result s = Some r0 ->
  Cli.handle_frame b s = Done (true,
    set_cmd_handler handle_cmd_after_auth (set_auth_result (Some FLORA_CLI_SUCCESS) s)).
Proof.
  intros Hs Hb Hh Ha.
  enough (wp (Cli.handle_frame b) (fun ok s' => ok = true /\
    s' = set_cmd_handler handle_cmd_after_auth (set_auth_result (Some FLORA_CLI_SUCCESS) s)) s) as Hw.
  { by destruct (wp_done _ _ _ Hw) as (? & ? & ? & -> & ->). }
  eapply wp_handle_frame; [done|exact Hb|by autorewrite with flora|]. intros c Hc. simpl in Hc.
  unfold Cli.handle_cmd. wsteps. rewrite Hh. unfold Cli.before_auth.
  rewrite bool_decide_false by (intros Hne; by apply Hne). do 2 wstep. rewrite Ha. wsteps. apply wp_cli_parse.
  unfold ResponseParser.parse_auth. parse_steps. cbn [fst snd]. rewrite same_thread. by wsteps.
Qed.

(** The log of a monitor's connection: the answer to its authentication and then
    announcements. *)
Definition monitor_log (size flags : Z) (ns : list announcement) (bs : list bytes) : Prop :=
  exists b bs', bs = b :: bs' /\
    ResponseSerializer.serialize_auth (caps:=caps) FLORA_CLI_SUCCESS FLORA_VERSION size flags = Some b /\
    Forall2 (encodes size flags) ns bs'.

(** A client that waits for the answer to its authentication as a monitor. *)
Definition authenticating s : Prop :=
  cmd_handler s = handle_cmd_before_auth /\ is_Some (auth_result s) /\ mon_callback s = true.

Lemma frames_log size flags ns bs s :
  is_u32 size -> monitor_log size flags ns bs -> authenticating s ->
  exists s', CliSpec.handle_frames bs s = Done (true, s') /\ events s' = events s ++ (callback <$> ns).
Proof.
  intros Hs (b & bs' & -> & Hb & Hbs) (Hh & [r0 Ha] & Hm). simpl.
  eexists. unfold mbind, M_bind. rewrite (frame_auth _ _ _ _ _ r0) by done.
  rewrite (frames_announcements _ _ _ _ Hs Hbs) by done. done.
Qed.

(** ** What the view makes of it *)
Import MonitorView.

Definition shown_client (i : AdapterInfo) : FloraClientInfo := client_info (list_item i).

(** The clients of the service, as the view shows them. *)
Definition clients (infos : gmap aid AdapterInfo) : list FloraClientInfo := shown_client <$> (map_to_list infos).*2.

Definition view_of (ns : list announcement) : list FloraClientInfo := list_after (callback <$> ns).

Lemma view_of_snoc ns n : view_of (ns ++ [n]) = step_list (view_of ns) (callback n).
Proof. unfold view_of, list_after. by rewrite fmap_app, foldl_app. Qed.

Lemma view_all infos : view_of [AllClients infos] = clients infos.
Proof. unfold view_of, list_after, clients. simpl. unfold items. by rewrite <- list_fmap_compose. Qed.

(** The view follows an arrival. *)
Lemma clients_insert infos k i :
  infos !! k = None -> clients (<[k := i]> infos) ≡ₚ clients infos ++ [shown_client i].
Proof. intros Hk. unfold clients. rewrite map_to_list_insert by done. simpl. by rewrite Permutation_cons_append. Qed.

Lemma erase_client_perm id (l l' : list FloraClientInfo) c :
  l ≡ₚ c :: l' -> fc_id c = id -> NoDup (fc_id <$> l) -> exists r, erase_client id l = Some r /\ r ≡ₚ l'.
Proof.
  revert l'. induction l as [|d l IH]; intros l' Hp Hc Hn; [by apply Permutation_nil_cons in Hp|]. simpl.
  case_bool_decide as Hd.
  - exists l. split; [done|]. apply (Permutation_cons_inv (a := c)). rewrite <- Hp.
    replace d with c; [done|]. apply (key_unique fc_id _ _ _ Hn); [rewrite Hp; by left|by left|congruence].
  - assert (d ∈ c :: l') as Hin by (rewrite <- Hp; by left).
    apply elem_of_cons in Hin as [->|Hin]; [done|]. apply elem_of_Permutation in Hin as [l'' Hl'].
    destruct (IH l'') as (r & Hr & Hrp); [|done|by inversion Hn|].
    { apply (Permutation_cons_inv (a := d)). rewrite Hp, Hl'. apply Permutation_swap. }
    rewrite Hr. exists (d :: r). split; [done|]. by rewrite Hrp, Hl'.
Qed.

Definition ids_distinct (infos : gmap aid AdapterInfo) : Prop :=
  forall k k' i i', infos !! k = Some i -> infos !! k' = Some i' -> ai_id i = ai_id i' -> k = k'.

Lemma clients_ids infos : ids_distinct infos -> NoDup (fc_id <$> clients infos).
Proof.
  intros Hd. unfold clients. rewrite <- !list_fmap_compose. apply NoDup_fmap_2_strong; [|apply NoDup_map_to_list].
  intros [k i] [k' i'] Hk%elem_of_map_to_list Hk'%elem_of_map_to_list He. simpl in He.
  pose proof (Hd _ _ _ _ Hk Hk' He) as ->. congruence.
Qed.

(** The view follows a departure. *)
Lemma view_remove v infos k i :
  ids_distinct infos -> infos !! k = Some i -> v ≡ₚ clients infos ->
  default v (erase_client (ai_id i) v) ≡ₚ clients (delete k infos).
Proof.
  intros Hd Hk Hv. assert (clients infos ≡ₚ shown_client i :: clients (delete k infos)) as Hc.
  { unfold clients. rewrite <- (insert_delete_id infos k i) at 1 by done.
    by rewrite map_to_list_insert by apply lookup_delete_eq. }
  destruct (erase_client_perm (ai_id i) v (clients (delete k infos)) (shown_client i)) as (r & -> & Hr); try done.
  - by rewrite Hv.
  - rewrite Hv. by apply clients_ids.
Qed.
End Peer.
