(* ===== verification/AgentSpec.v ===== *)
(** * What the agent keeps

    The client an agent publishes is asked for exactly the names that have a handler,
    whatever the agent's other threads do meanwhile, as long as handlers are not added
    or removed while [init_cli] runs without the lock and the requests for one name are
    made in the order of the calls they come from. *)
From S2P Require Import Prelude Defs StrMap Agent.
Import Agent AgentOps.

(** What a request says about a name: whether it is one of the posts ([true]) or one
    of the methods, and whether it adds or removes it. *)
Definition topic {caps} (r : request caps) : option (bool * string * bool) :=
  match r with
  | Subscribe n => Some (true, n, true)
  | Unsubscribe n => Some (true, n, false)
  | DeclareMethod n => Some (false, n, true)
  | RemoveMethod n => Some (false, n, false)
  | _ => None
  end.

Section Spec.
Context {H K caps : Type}.
Implicit Types s : t H K caps.

(** The names with a handler. *)
Definition names (k : bool) s : gset string := if k then dom (post_handlers s) else dom (call_handlers s).

Definition about (k : bool) (n : string) (c : nat) (p : nat * request caps) : option bool :=
  match topic p.2 with
  | Some (k', n', b) => if bool_decide (p.1 = c /\ k' = k /\ n' = n) then Some b else None
  | None => None
  end.

Definition task_request (k : task H K caps) : option (nat * request caps) :=
  match k with TRequest c r => Some (c, r) | _ => None end.

(** What client [c] was asked about a name, and what it is going to be asked. *)
Definition asked k n c s : list bool := omap (about k n c) (requests s).
Definition queued k n c s : list bool := omap (fun x => task_request x ≫= about k n c) (tasks s).

(** The places between the connection of a client and its publication, and the names
    that are asked for by then. *)
Definition building (l : run_place) : bool :=
  match l with InitPost _ | InitCall _ | Publish => true | _ => false end.

Definition visited (k : bool) (l : run_place) (n : string) : Prop :=
  match l with
  | InitPost it => if k then passed it n else False
  | InitCall it => if k then True else passed it n
  | _ => True
  end.

#[export] Instance visited_dec k l n : Decision (visited k l n).
Proof. destruct l, k; apply _. Defined.

Definition iter_ok s : Prop :=
  match pl s with
  | InitPost (Some n) => n ∈ names true s
  | InitCall (Some n) => n ∈ names false s
  | _ => True
  end.

Record agent_ok s : Prop := {
  ok_fresh c k n : (connected s <= c)%nat -> asked k n c s = [] /\ queued k n c s = [];
  ok_iter : iter_ok s;
  ok_build : building (pl s) = true ->
    exists c, cli s = Some c /\ (c < connected s)%nat /\
      forall k n, queued k n c s = [] /\
        asked k n c s = if decide (n ∈ names k s /\ visited k (pl s) n) then [true] else [];
  ok_wait c : flora_cli s = Some c ->
    ((c < connected s)%nat /\ Some c ∈ gabages s) /\ exists w, pl s = Wait w;
  ok_synced c : flora_cli s = Some c ->
    forall k n, n ∈ names k s <-> last (asked k n c s ++ queued k n c s) = Some true
}.

(** ** Steps that say nothing about names *)

(** The same place up to a notification. *)
Definition same_place (l l' : run_place) : Prop := l' = l \/ l' = notify l.

Record same_view s s' : Prop := {
  sv_names k : names k s' = names k s;
  sv_flora : flora_cli s' = flora_cli s;
  sv_place : same_place (pl s) (pl s');
  sv_cli : cli s' = cli s;
  sv_gabages : gabages s' = gabages s;
  sv_connected : connected s' = connected s;
  sv_asked k n c : asked k n c s' = asked k n c s;
  sv_queued k n c : queued k n c s' = queued k n c s
}.

Lemma same_view_refl s : same_view s s.
Proof. split; try done. by left. Qed.

Lemma same_view_ok s s' : same_view s s' -> agent_ok s -> agent_ok s'.
Proof.
  intros [Hn Hf Hp Hc Hg Hk Ha Hq] [O1 O2 O3 O4 O5].
  assert (building (pl s') = building (pl s)) as Hb by (destruct Hp as [->| ->]; [done|]; by destruct (pl s)).
  assert (forall k n, visited k (pl s') n <-> visited k (pl s) n) as Hv.
  { intros k n. destruct Hp as [->| ->]; [done|]. by destruct (pl s). }
  split.
  - intros c k n. rewrite Ha, Hq, Hk. apply O1.
  - unfold iter_ok in *. rewrite !Hn. destruct Hp as [->| ->]; [done|]. by destruct (pl s).
  - rewrite Hb. intros (c & H1 & H2 & H3)%O3. exists c. rewrite Hc, Hk. split_and!; [done..|].
    intros k n. rewrite Ha, Hq. destruct (H3 k n) as [? ->]. split; [done|].
    apply decide_ext. by rewrite Hn, Hv.
  - intros c. rewrite Hf, Hk, Hg. intros [? [w Hw]]%O4. split; [done|].
    destruct Hp as [->| ->]; rewrite Hw; simpl; eauto.
  - intros c. rewrite Hf. intros Hc' k n. rewrite Hn, Ha, Hq. by apply O5.
Qed.

(** A handler is added or removed. *)
Lemma change_ok k0 n0 (b changed : bool) s s' :
  agent_ok s -> building (pl s) = false ->
  (forall k n, n ∈ names k s' <-> if bool_decide (k = k0 /\ n = n0) then b = true else n ∈ names k s) ->
  (changed = true <-> (n0 ∈ names k0 s <-> b = false)) ->
  flora_cli s' = flora_cli s -> pl s' = pl s -> connected s' = connected s -> gabages s' = gabages s ->
  (forall k n c, asked k n c s' = asked k n c s) ->
  (forall k n c, queued k n c s' = queued k n c s ++
     if bool_decide (k = k0 /\ n = n0 /\ flora_cli s = Some c /\ changed = true) then [b] else []) ->
  agent_ok s'.
Proof.
  intros [O1 O2 O3 O4 O5] Hb Hn Hch Hf Hp Hk Hg Ha Hq. split.
  - intros c k n. rewrite Hk, Ha, Hq. intros Hc. destruct (O1 c k n Hc) as [-> ->]. split; [done|].
    case_bool_decide as Hd; [|done]. destruct Hd as (_ & _ & [[? _] _]%O4 & _). lia.
  - unfold iter_ok. rewrite Hp. by destruct (pl s).
  - congruence.
  - intros c. rewrite Hf, Hk, Hp, Hg. apply O4.
  - intros c. rewrite Hf. intros Hc k n. rewrite Hn, Ha, Hq, app_assoc.
    specialize (O5 c Hc k n). destruct (bool_decide (k = k0 /\ n = n0)) eqn:Hkn.
    + apply bool_decide_eq_true in Hkn as [-> ->]. destruct changed.
      * rewrite bool_decide_true by done. rewrite last_snoc. destruct b; split; congruence.
      * rewrite bool_decide_false by naive_solver. rewrite app_nil_r, <- O5.
        destruct (decide (n0 ∈ names k0 s)) as [Hin|Hin]; destruct b; naive_solver.
    + apply bool_decide_eq_false in Hkn. rewrite bool_decide_false by naive_solver.
      by rewrite app_nil_r.
Qed.

(** ** The functions of the agent *)

Definition hints (k : bool) n c (x : task H K caps) : option bool := task_request x ≫= about k n c.

Lemma queued_spawn s x k n c :
  queued k n c (set_tasks (tasks s ++ [x]) s) = queued k n c s ++ option_list (hints k n c x).
Proof. unfold queued, hints. simpl. rewrite omap_app. simpl. by destruct (_ ≫= _). Qed.

Lemma asked_request s c r k n c' :
  asked k n c' (set_requests (requests s ++ [(c, r)]) s) = asked k n c' s ++ option_list (about k n c' (c, r)).
Proof. unfold asked. simpl. rewrite omap_app. simpl. by destruct (about k n c' (c, r)). Qed.

Lemma about_topic k n c p : topic p.2 = None -> about k n c p = None.
Proof. unfold about. by intros ->. Qed.

Lemma message_topic (r : request caps) : is_message r = true -> topic r = None.
Proof. by destruct r. Qed.

Lemma about_eq k n c c' (r : request caps) k' n' b :
  topic r = Some (k', n', b) ->
  about k n c (c', r) = if bool_decide (c' = c /\ k' = k /\ n' = n) then Some b else None.
Proof. unfold about. simpl. by intros ->. Qed.

(** A task that asks nothing about a name is of no account. *)
Lemma spawn_view s x : (forall k n c, hints k n c x = None) -> same_view s (set_tasks (tasks s ++ [x]) s).
Proof.
  intros Hx. split; try done; [by left|]. intros k n c. rewrite queued_spawn, Hx. apply app_nil_r.
Qed.

Lemma request_view s c r : topic r = None -> same_view s (set_requests (requests s ++ [(c, r)]) s).
Proof.
  intros Hr. split; try done; [by left|]. intros k n c'. rewrite asked_request, about_topic by done.
  apply app_nil_r.
Qed.

Lemma same_view_trans s1 s2 s3 : same_view s1 s2 -> same_view s2 s3 -> same_view s1 s3.
Proof.
  intros [? ? Hp ? ? ? ? ?] [? ? Hq ? ? ? ? ?]. split; intros; try congruence.
  unfold same_place in *. destruct Hp as [Hp|Hp], Hq as [Hq|Hq]; rewrite Hq, Hp; auto.
  right. by destruct (pl s1).
Qed.

(** The view of a step that changes only what the invariant does not look at. *)
Ltac same_view := split; try done; simpl; solve [by left | by right].

Abbreviation keeps m := (forall s, agent_ok s -> wp m (fun _ s' => agent_ok s') s).

Lemma view_keeps (m : M (t H K caps) unit) :
  (forall s, wp m (fun _ s' => same_view s s') s) -> keeps m.
Proof. intros Hm s Hs. eapply wpx_mono; [apply Hm|]. intros [] s' Hv. by eapply same_view_ok. Qed.

Lemma send_message_view r s : is_message r = true -> wp (send_message r) (fun _ s' => same_view s s') s.
Proof.
  intros Hr%message_topic. unfold send_message. wsteps. destruct (flora_cli s) as [c|].
  - apply spawn_view. intros k n c'. unfold hints. simpl. by apply about_topic.
  - wsteps. same_view.
Qed.

Lemma recv_post_view c name msgtype msg s :
  wp (recv_post c name msgtype msg) (fun _ s' => same_view s s') s.
Proof.
  unfold recv_post. wsteps. destruct (_ !! name) as [cb|]; wsteps; [|apply same_view_refl].
  eapply same_view_trans; [|by apply spawn_view]. same_view.
Qed.

Lemma recv_call_view c name msg s : wp (recv_call c name msg) (fun _ s' => same_view s s') s.
Proof.
  unfold recv_call. wsteps. destruct (_ !! name) as [cb|]; wsteps; [|apply same_view_refl].
  eapply same_view_trans; [|by apply spawn_view]. same_view.
Qed.

Lemma notify_view s : wp notify_conn (fun _ s' => same_view s s') s.
Proof. unfold notify_conn. wsteps. same_view. Qed.

(** [config] reads the arguments its key announces. *)
Definition config_args (key : Z) (ap : list vararg) : bool :=
  if bool_decide (key = FLORA_AGENT_CONFIG_URI) then match ap with VStr _ :: _ => true | _ => false end
  else if bool_decide (key = FLORA_AGENT_CONFIG_BUFSIZE) then match ap with VU32 _ :: _ => true | _ => false end
  else if bool_decide (key = FLORA_AGENT_CONFIG_RECONN_INTERVAL) then
    match ap with VU32 _ :: _ => true | _ => false end
  else if bool_decide (key = FLORA_AGENT_CONFIG_MONITOR) then
    match ap with
    | VU32 z :: VCallback _ :: _ => true
    | VU32 z :: _ => negb (has_flag z FLORA_CLI_FLAG_MONITOR)
    | _ => false
    end
  else if bool_decide (key = FLORA_AGENT_CONFIG_KEEPALIVE) then
    match ap with VU32 _ :: VU32 _ :: _ => true | _ => false end
  else true.

Lemma config_view key ap s : config_args key ap = true -> wp (config key ap) (fun _ s' => same_view s s') s.
Proof.
  unfold config_args, config. intros Ha. wsteps.
  repeat match goal with
    | |- context [bool_decide ?P] => destruct (bool_decide P);
        [destruct ap as [|[] ap]; try done; try solve [wsteps; same_view]|]
    end; [| |by wsteps; apply same_view_refl].
  - destruct (has_flag _ _) eqn:Hf; [|wsteps; same_view].
    destruct ap as [|[] ap]; try done; try (by rewrite Hf in Ha). wsteps. same_view.
  - destruct ap as [|[] ap]; try done. wsteps. same_view.
Qed.

(** *** Handlers *)

Lemma insert_new_dom {A} name (x : A) m : dom (insert_new name x m) = {[name]} ∪ dom m.
Proof.
  unfold insert_new. destruct (m !! name) as [y|] eqn:Hm; [|apply dom_insert_L].
  apply elem_of_dom_2 in Hm. set_solver.
Qed.

(** What [forward] leaves to be asked. *)
Lemma forward_queued changed r s k0 n0 b :
  topic r = Some (k0, n0, b) ->
  wp (forward changed r) (fun _ s' =>
    (forall k, names k s' = names k s) /\ flora_cli s' = flora_cli s /\ pl s' = pl s /\
    connected s' = connected s /\ gabages s' = gabages s /\
    (forall k n c, asked k n c s' = asked k n c s) /\
    forall k n c, queued k n c s' = queued k n c s ++
      if bool_decide (k = k0 /\ n = n0 /\ flora_cli s = Some c /\ changed = true) then [b] else []) s.
Proof.
  intros Hr. unfold forward, when. wsteps.
  destruct (flora_cli s) as [c0|] eqn:Hc; [destruct changed|]; wsteps; split_and!; try done; intros k n c.
  2,3: by rewrite bool_decide_false, app_nil_r by naive_solver.
  rewrite queued_spawn. f_equal. unfold hints. simpl. rewrite (about_eq _ _ _ _ _ _ _ _ Hr).
  repeat case_bool_decide; naive_solver.
Qed.

Lemma handler_keeps k0 n0 b changed r s s1 :
  topic r = Some (k0, n0, b) -> agent_ok s -> building (pl s) = false ->
  (forall k n, n ∈ names k s1 <-> if bool_decide (k = k0 /\ n = n0) then b = true else n ∈ names k s) ->
  (changed = true <-> (n0 ∈ names k0 s <-> b = false)) ->
  flora_cli s1 = flora_cli s -> pl s1 = pl s -> connected s1 = connected s ->
  gabages s1 = gabages s ->
  requests s1 = requests s -> tasks s1 = tasks s ->
  wp (forward changed r) (fun _ s' => agent_ok s') s1.
Proof.
  intros Hr Hok Hb Hn Hch Hf Hp Hk Hg Hq Ht.
  eapply wpx_mono; [by apply (forward_queued _ _ _ _ _ _ Hr)|].
  intros [] s' (Hn' & Hf' & Hp' & Hk' & Hg' & Ha' & Hq'). simpl.
  eapply (change_ok k0 n0 b changed s); try done; try congruence.
  - intros k n. by rewrite Hn'.
  - intros k n c. rewrite Ha'. unfold asked. by rewrite Hq.
  - intros k n c. rewrite Hq', Hf. unfold queued. by rewrite Ht.
Qed.

Lemma subscribe_ok name cb s :
  agent_ok s -> building (pl s) = false -> wp (subscribe name cb) (fun _ s' => agent_ok s') s.
Proof.
  intros Hok Hb. unfold subscribe. wsteps.
  eapply (handler_keeps true name true); try done.
  - intros [] n; simpl; [rewrite insert_new_dom|]; try case_bool_decide; set_solver.
  - rewrite bool_decide_eq_true. simpl. rewrite elem_of_dom. destruct (_ !! name); simpl; naive_solver.
Qed.

Lemma unsubscribe_ok name s :
  agent_ok s -> building (pl s) = false -> wp (unsubscribe name) (fun _ s' => agent_ok s') s.
Proof.
  intros Hok Hb. unfold unsubscribe. wsteps.
  eapply (handler_keeps true name false); try done.
  - intros [] n; simpl; [rewrite dom_delete_L|]; try case_bool_decide; set_solver.
  - rewrite bool_decide_eq_true. simpl. rewrite elem_of_dom. destruct (_ !! name); simpl; naive_solver.
Qed.

Lemma declare_method_ok name cb s :
  agent_ok s -> building (pl s) = false -> wp (declare_method name cb) (fun _ s' => agent_ok s') s.
Proof.
  intros Hok Hb. unfold declare_method. wsteps.
  eapply (handler_keeps false name true); try done.
  - intros [] n; simpl; [|rewrite insert_new_dom]; try case_bool_decide; set_solver.
  - rewrite bool_decide_eq_true. simpl. rewrite elem_of_dom. destruct (_ !! name); simpl; naive_solver.
Qed.

Lemma remove_method_ok name s :
  agent_ok s -> building (pl s) = false -> wp (remove_method name) (fun _ s' => agent_ok s') s.
Proof.
  intros Hok Hb. unfold remove_method. wsteps.
  eapply (handler_keeps false name false); try done.
  - intros [] n; simpl; [|rewrite dom_delete_L]; try case_bool_decide; set_solver.
  - rewrite bool_decide_eq_true. simpl. rewrite elem_of_dom. destruct (_ !! name); simpl; naive_solver.
Qed.

(** *** [close] *)

(** With no client published, no names to ask for and no client being made, only the
    numbering of the clients matters. *)
Lemma idle_ok s s' :
  agent_ok s -> flora_cli s' = None -> building (pl s') = false -> (connected s <= connected s')%nat ->
  (forall k n c, asked k n c s' = asked k n c s /\ queued k n c s' = queued k n c s) -> agent_ok s'.
Proof.
  intros [O1 O2 O3 O4 O5] Hf Hb Hk Haq. split.
  - intros c k n Hc. destruct (Haq k n c) as [-> ->]. apply O1. lia.
  - unfold iter_ok. by destruct (pl s').
  - congruence.
  - by rewrite Hf.
  - by rewrite Hf.
Qed.

Lemma close_ok from s :
  agent_ok s -> building (pl s) = false -> wp (close from) (fun _ s' => agent_ok s') s.
Proof.
  intros Hok Hb. unfold close. wsteps. destruct (working s).
  - unfold notify_conn. wsteps. eapply (idle_ok s); try done; simpl.
    + by destruct (pl s).
    + intros k n c. split; [done|]. unfold queued. simpl. rewrite omap_app. simpl. apply app_nil_r.
  - wsteps. eapply same_view_ok; [|done]. same_view.
Qed.

(** *** The other threads *)

Lemma queued_delete s i x k n c :
  tasks s !! i = Some x ->
  (hints k n c x = None \/ omap (hints k n c) (take i (tasks s)) = []) ->
  queued k n c s = option_list (hints k n c x) ++ queued k n c (set_tasks (delete i (tasks s)) s).
Proof.
  intros Hi Hx. unfold queued, hints in *. simpl. rewrite delete_take_drop.
  rewrite <- (take_drop_middle _ _ _ Hi) at 1. rewrite !omap_app. simpl.
  destruct Hx as [->|Hx]; [done|]. by rewrite Hx; destruct (_ ≫= _).
Qed.

(** The requests about one name are made in order. *)
Definition in_order i s : Prop :=
  match tasks s !! i with
  | Some x => forall k n c, hints k n c x = None \/ omap (hints k n c) (take i (tasks s)) = []
  | None => True
  end.

(** A request goes from what is queued to what was asked. *)
Lemma request_moved_ok s s' :
  agent_ok s -> (forall k, names k s' = names k s) -> flora_cli s' = flora_cli s -> pl s' = pl s ->
  cli s' = cli s -> connected s' = connected s -> gabages s' = gabages s ->
  (forall k n c, exists h, queued k n c s = h ++ queued k n c s' /\ asked k n c s' = asked k n c s ++ h) ->
  agent_ok s'.
Proof.
  intros [O1 O2 O3 O4 O5] Hn Hf Hp Hc Hk Hg Hh. split.
  - intros c k n. rewrite Hk. intros Hc'. destruct (O1 c k n Hc') as [Ha Hq].
    destruct (Hh k n c) as (h & Hq' & ->). rewrite Hq in Hq'.
    symmetry in Hq'. apply app_eq_nil in Hq' as [-> ->]. by rewrite Ha.
  - unfold iter_ok in *. by rewrite Hp, !Hn.
  - rewrite Hp, Hc, Hk. intros (c & Hcli & Hlt & Hb)%O3. exists c. split_and!; [done..|]. intros k n.
    destruct (Hb k n) as [Hq Ha]. destruct (Hh k n c) as (h & Hq' & ->). rewrite Hq in Hq'.
    symmetry in Hq'. apply app_eq_nil in Hq' as [-> ->]. by rewrite Ha, app_nil_r, Hn.
  - intros c. rewrite Hf, Hp, Hk, Hg. apply O4.
  - intros c. rewrite Hf. intros Hc' k n. destruct (Hh k n c) as (h & Hq & ->).
    by rewrite <- app_assoc, <- Hq, Hn, (O5 c Hc' k n).
Qed.

(** Taking off a task that asks nothing about a name. *)
Lemma delete_view s i x :
  tasks s !! i = Some x -> (forall k n c, hints k n c x = None) ->
  same_view s (set_tasks (delete i (tasks s)) s).
Proof.
  intros Hi Hx. split; try done; [by left|]. intros k n c.
  by rewrite (queued_delete s i x k n c), Hx by auto.
Qed.

(** A task that makes a request about a name. *)
Lemma request_task_ok s i c r p :
  agent_ok s -> tasks s !! i = Some (TRequest c r) -> in_order i s -> topic r = Some p ->
  let s' := set_tasks (delete i (tasks s)) s in
  agent_ok (set_requests (requests s' ++ [(c, r)]) s').
Proof.
  intros Hok Hi Ho Hr s'. eapply (request_moved_ok s); try done. intros k n c'.
  unfold in_order in Ho. rewrite Hi in Ho.
  exists (option_list (about k n c' (c, r))). split; [by apply (queued_delete s i (TRequest c r))|].
  rewrite asked_request. done.
Qed.

(** What a task without a request leaves is of no account. *)
Lemma rest_view x res s :
  task_request x = None -> wp (task_step x res) (fun _ s' => same_view s s') s.
Proof.
  intros Hx. destruct x as [|r code|c h name msg ty|c k name msg|c|c from|c from|c|from]; simpl; try done.
  - unfold destroy_client, notify_conn, emit. wsteps. same_view.
  - unfold emit, spawn. wsteps. eapply same_view_trans; [|by apply spawn_view]. same_view.
  - unfold emit, spawn. wsteps. eapply same_view_trans; [|by apply spawn_view]. same_view.
  - wsteps. same_view.
  - unfold spawn. wsteps. eapply same_view_trans; [|by apply spawn_view]. same_view.
  - unfold spawn. destruct c as [c|]; [case_bool_decide|]; wsteps;
      (eapply same_view_trans; [|by apply spawn_view]).
    + eapply (same_view_trans _ (set_tasks (tasks s ++ [TDetached c]) s)); [by apply spawn_view|]. same_view.
    + eapply same_view_trans; [by apply (request_view s c Close)|]. same_view.
    + same_view.
  - unfold client_close, request_to. wsteps. by apply request_view.
  - unfold emit. wsteps. same_view.
Qed.

Lemma task_ok i x res s :
  agent_ok s -> tasks s !! i = Some x -> in_order i s ->
  wp (modify (fun s => set_tasks (delete i (tasks s)) s) ;; task_step x res) (fun _ s' => agent_ok s') s.
Proof.
  intros Hok Hi Ho. wsteps. destruct (task_request x) as [p|] eqn:Hx.
  - destruct x as [c r| | | | | | | |]; try done. simpl. unfold request_to. wsteps.
    destruct (topic r) as [tp|] eqn:Hr.
    + replace (is_message r) with false by (by destruct r). wsteps. by eapply request_task_ok.
    + assert (agent_ok (set_requests (requests (set_tasks (delete i (tasks s)) s) ++ [(c, r)])
        (set_tasks (delete i (tasks s)) s))) as Hok'.
      { eapply same_view_ok; [|done]. eapply same_view_trans; [eapply delete_view; [done|]|by apply request_view].
        intros. by apply about_topic. }
      destruct (is_message r); [|by wsteps]. case_bool_decide; unfold spawn, emit; wsteps;
        (eapply same_view_ok; [|exact Hok']).
      * by apply spawn_view.
      * same_view.
  - eapply wpx_mono; [by apply rest_view|]. intros [] s' Hv. eapply same_view_ok; [exact Hv|].
    eapply same_view_ok; [|done]. eapply delete_view; [done|]. intros. unfold hints. by rewrite Hx.
Qed.

(** *** The thread *)

(** [use_count] in [clean_gabages] is never 1, so no client leaves [gabages]. *)
Lemma use_count_cleaning s i c : gabages s !! i = Some (Some c) -> use_count c s <> 1%nat.
Proof.
  intros Hi. unfold use_count. assert (0 < length (filter (fun x => x = Some c) (gabages s)))%nat; [|lia].
  assert (Some c ∈ filter (fun x => x = Some c) (gabages s)) as Hin.
  { apply list_elem_of_filter. split; [done|]. by eapply list_elem_of_lookup_2. }
  destruct (filter _ _); [by apply elem_of_nil in Hin|simpl; lia].
Qed.

(** One round closes the client at [i] and goes on; the last one leaves the loop. *)
Lemma clean_step_eq i s :
  clean_step i s = Done (tt,
    match gabages s !! i with
    | None => set_pl Top (set_cg_mutex false s)
    | Some None => set_pl (Cleaning (S i)) s
    | Some (Some c) => set_pl (Cleaning (S i)) (set_requests (requests s ++ [(c, Close)]) s)
    end).
Proof.
  unfold clean_step. unfold mbind, M_bind, gets. destruct (gabages s !! i) as [[c|]|] eqn:Hi; try done.
  unfold client_close, request_to, modify.
  rewrite bool_decide_false; [done|]. by eapply use_count_cleaning.
Qed.

Lemma flora_waits s : agent_ok s -> (forall w, pl s <> Wait w) -> flora_cli s = None.
Proof.
  intros Hok Hp. destruct (flora_cli s) as [c|] eqn:Hc; [|done].
  destruct (ok_wait s Hok c Hc) as [_ [w Hw]]. by destruct (Hp w).
Qed.

Lemma agent_start_ok block s :
  agent_ok s -> pl s = Idle \/ pl s = Exited -> block = true \/ joinable s = false ->
  wp (start block) (fun _ s' => agent_ok s') s.
Proof.
  intros Hok Hp Hb.
  assert (flora_cli s = None) as Hf by (apply flora_waits; [done|]; intros w; destruct Hp; congruence).
  unfold start, goto. destruct block; wsteps; [by apply (idle_ok s)|].
  destruct Hb as [Hb|Hb]; [done|]. rewrite Hb. wsteps. by apply (idle_ok s).
Qed.

(** A round of a loop of [init_cli]. *)
Lemma init_round_ok k0 n0 s s' c r :
  agent_ok s -> building (pl s) = true -> building (pl s') = true -> flora_cli s = None ->
  cli s = Some c -> topic r = Some (k0, n0, true) -> n0 ∈ names k0 s -> ~ visited k0 (pl s) n0 ->
  (forall k n, n ∈ names k s -> visited k (pl s') n <-> visited k (pl s) n \/ (k = k0 /\ n = n0)) ->
  iter_ok s' ->
  s' = set_pl (pl s') (set_requests (requests s ++ [(c, r)]) s) -> agent_ok s'.
Proof.
  intros [O1 O2 O3 O4 O5] Hb Hb' Hf Hc Hr Hin Hnv Hv Hi Hs'.
  destruct (O3 Hb) as (c' & Hc' & Hlt & Hq). assert (c' = c) as -> by congruence.
  assert (forall k n c', asked k n c' s' = asked k n c' s ++
    if bool_decide (c = c' /\ k0 = k /\ n0 = n) then [true] else []) as Ha.
  { intros k n c''. rewrite Hs'.
    change (asked k n c'' (set_pl (pl s') (set_requests (requests s ++ [(c, r)]) s)))
      with (asked k n c'' (set_requests (requests s ++ [(c, r)]) s)).
    rewrite asked_request, (about_eq _ _ _ _ _ _ _ _ Hr). f_equal. by case_bool_decide. }
  assert (forall k, names k s' = names k s) as Hn by (intros k; by rewrite Hs').
  assert (connected s' = connected s) as Hk by (by rewrite Hs').
  split; [|done| | |].
  - intros c'' k n. rewrite Hk, Ha. intros Hle. destruct (O1 c'' k n Hle) as [-> Hq'].
    rewrite bool_decide_false by (intros (-> & _); lia). split; [done|]. rewrite Hs'. apply Hq'.
  - intros _. exists c. rewrite Hk. split_and!; [by rewrite Hs'|done|]. intros k n.
    destruct (Hq k n) as [Hq1 Hq2]. split; [rewrite Hs'; apply Hq1|]. rewrite Ha, Hq2, Hn.
    destruct (decide (n ∈ names k s)) as [Hnin|Hnin].
    + specialize (Hv k n Hnin). destruct (bool_decide (c = c /\ k0 = k /\ n0 = n)) eqn:Hd.
      * apply bool_decide_eq_true in Hd as (_ & <- & <-).
        rewrite decide_False by tauto. rewrite decide_True by tauto. done.
      * apply bool_decide_eq_false in Hd. rewrite app_nil_r. apply decide_ext. naive_solver.
    + rewrite !decide_False by tauto. rewrite bool_decide_false; [done|]. naive_solver.
  - intros c''. rewrite Hs'. simpl. by rewrite Hf.
  - intros c''. rewrite Hs'. simpl. by rewrite Hf.
Qed.

(** From one place before the publication to the next, with nothing asked. *)
Lemma build_move_ok l s :
  agent_ok s -> building (pl s) = true -> building l = true -> flora_cli s = None ->
  (forall k n, n ∈ names k s -> visited k l n <-> visited k (pl s) n) -> iter_ok (set_pl l s) ->
  agent_ok (set_pl l s).
Proof.
  intros [O1 O2 O3 O4 O5] Hb Hb' Hf Hv Hi. split; try done.
  - intros _. destruct (O3 Hb) as (c & Hc & Hlt & Hq). exists c. split_and!; [done..|].
    intros k n. destruct (Hq k n) as [Hq1 Hq2]. split; [done|]. etransitivity; [exact Hq2|].
    apply decide_ext. simpl. naive_solver.
  - intros c. simpl. by rewrite Hf.
Qed.

Lemma init_post_ok r s :
  agent_ok s -> (exists it, pl s = InitPost it) -> wp (run_step r) (fun _ s' => agent_ok s') s.
Proof.
  intros Hok [it Hp].
  assert (flora_cli s = None) as Hf by (apply (flora_waits s Hok); congruence).
  assert (building (pl s) = true) as Hb by (by rewrite Hp).
  pose proof (ok_iter s Hok) as Hi. unfold iter_ok in Hi. rewrite Hp in Hi.
  destruct (ok_build s Hok Hb) as (c & Hc & _).
  unfold run_step. wsteps. rewrite Hp. destruct it as [n0|]; unfold request_to, goto; wsteps.
  - destruct (proj1 (elem_of_dom _ _) Hi) as [h Hh]. rewrite Hh, Hc. wsteps.
    eapply (init_round_ok true n0 s _ c (Subscribe n0)); try done.
    + rewrite Hp. simpl. apply str_lt_irrefl.
    + rewrite Hp. intros [] n Hn; simpl; [rewrite (next_passed _ _ _ Hn)|]; naive_solver.
    + unfold iter_ok. simpl. destruct (next _ _) eqn:He; [|done]. by eapply next_in.
  - apply build_move_ok; try done.
    + rewrite Hp. intros [] n Hn; simpl; [done|]. split; [|done]. by eapply begin_passed.
    + unfold iter_ok. simpl. destruct (begin _) eqn:He; [|done]. by apply begin_in.
Qed.

Lemma init_call_ok r s :
  agent_ok s -> (exists it, pl s = InitCall it) -> wp (run_step r) (fun _ s' => agent_ok s') s.
Proof.
  intros Hok [it Hp].
  assert (flora_cli s = None) as Hf by (apply (flora_waits s Hok); congruence).
  assert (building (pl s) = true) as Hb by (by rewrite Hp).
  pose proof (ok_iter s Hok) as Hi. unfold iter_ok in Hi. rewrite Hp in Hi.
  destruct (ok_build s Hok Hb) as (c & Hc & _).
  unfold run_step. wsteps. rewrite Hp. destruct it as [n0|]; unfold request_to, goto; wsteps.
  - destruct (proj1 (elem_of_dom _ _) Hi) as [h Hh]. rewrite Hh, Hc. wsteps.
    eapply (init_round_ok false n0 s _ c (DeclareMethod n0)); try done.
    + rewrite Hp. simpl. apply str_lt_irrefl.
    + rewrite Hp. intros [] n Hn; simpl; [|rewrite (next_passed _ _ _ Hn)]; naive_solver.
    + unfold iter_ok. simpl. destruct (next _ _) eqn:He; [|done]. by eapply next_in.
  - apply build_move_ok; try done. rewrite Hp. by intros [].
Qed.

Lemma publish_ok r s :
  agent_ok s -> pl s = Publish -> wp (run_step r) (fun _ s' => agent_ok s') s.
Proof.
  intros Hok Hp. assert (flora_cli s = None) as Hf by (apply (flora_waits s Hok); congruence).
  destruct Hok as [O1 O2 O3 O4 O5]. rewrite Hp in O3. destruct (O3 eq_refl) as (c & Hc & Hlt & Hq).
  unfold run_step, notify_start, goto. wsteps. rewrite Hp. wsteps. split; try done.
  - intros c'. simpl. rewrite Hc. intros [= <-]. split; [split; [done|]|by eexists].
    apply elem_of_app. right. by apply list_elem_of_singleton.
  - intros c'. simpl. rewrite Hc. intros [= <-] k n. destruct (Hq k n) as [Hq1 Hq2]. simpl.
    change (n ∈ names k s <-> last (asked k n c s ++ queued k n c s) = Some true).
    rewrite Hq1, Hq2, app_nil_r. destruct (decide _) as [[? _]|Hn]; [done|]. split; [|done].
    intros Hin. destruct Hn. split; [done|]. by destruct k.
Qed.

Lemma connecting_ok r s :
  agent_ok s -> pl s = Connecting -> wp (run_step r) (fun _ s' => agent_ok s') s.
Proof.
  intros Hok Hp. assert (flora_cli s = None) as Hf by (apply (flora_waits s Hok); congruence).
  unfold run_step, notify_start, goto. wsteps. rewrite Hp. case_bool_decide; wsteps.
  - by apply (idle_ok s).
  - destruct Hok as [O1 O2 O3 O4 O5]. split; simpl.
    + intros c k n Hle. apply O1. simpl in Hle. lia.
    + unfold iter_ok. simpl. destruct (begin _) eqn:He; [|done]. by apply begin_in.
    + intros _. exists (connected s). split_and!; [done|lia|]. intros k n.
      destruct (O1 (connected s) k n) as [Ha Hq]; [done|]. split; [done|]. etransitivity; [exact Ha|].
      rewrite decide_False; [done|]. intros [Hn Hv]. destruct k; simpl in Hv; [|done].
      by eapply begin_passed.
    + intros c. by rewrite Hf.
    + intros c. by rewrite Hf.
Qed.

Lemma agent_run_step_ok r s : agent_ok s -> wp (run_step r) (fun _ s' => agent_ok s') s.
Proof.
  intros Hok. destruct (pl s) as [| | | |it|it| |w|w| |i|] eqn:Hp.
  4: by apply connecting_ok.
  4: by apply (init_post_ok r s Hok); eauto.
  4: by apply (init_call_ok r s Hok); eauto.
  4: by apply (publish_ok r s Hok).
  all: unfold run_step, goto, emit; wsteps; rewrite Hp; wsteps; try done.
  - apply (idle_ok s); try done. apply (flora_waits s Hok). congruence.
  - destruct (working s); wsteps; (apply (idle_ok s); try done);
      (apply (flora_waits s Hok); congruence).
  - apply (idle_ok s); try done. apply (flora_waits s Hok). congruence.
  - by apply (idle_ok s).
  - apply (idle_ok s); try done. apply (flora_waits s Hok). congruence.
  - assert (flora_cli s = None) as Hf by (apply (flora_waits s Hok); congruence).
    unfold wpx. rewrite clean_step_eq.
    destruct (gabages s !! i) as [[c|]|]; apply (idle_ok s); try done.
    intros k n c'. split; [|done]. rewrite <- (app_nil_r (asked k n c' s)).
    change (asked k n c' (set_requests (requests s ++ [(c, Close)]) s) = asked k n c' s ++ []).
    by rewrite asked_request.
Qed.

(** ** The agent's threads together *)

(** Handlers are not changed while [init_cli] runs, requests for a name are made in
    order, [config] gets the arguments of its key, and [start] is not called twice. *)
Definition orderly s (lb : label H K caps) : Prop :=
  match lb with
  | LConfig key ap => config_args key ap = true
  | LSubscribe _ _ | LUnsubscribe _ | LDeclareMethod _ _ | LRemoveMethod _ | LClose _ => building (pl s) = false
  | LStart block => block = true \/ joinable s = false
  | LTask i _ => in_order i s
  | _ => True
  end.

Definition agent_step (st st' : sys H K caps) : Prop :=
  exists s lb, st = Running s /\ exec st lb = Some st' /\ orderly s lb.

Lemma label_ok s lb m :
  agent_ok s -> orderly s lb -> exec_agent s lb = Some m -> wp m (fun _ s' => agent_ok s') s.
Proof.
  intros Hok Ho.
  destruct lb as [key ap|n h|n|n k|n|b| |n msg ty|n msg tg cb tm|from|c n ty msg|c n msg|c|i r|r| |]; simpl in *.
  - intros [= <-]. eapply view_keeps; [|done]. intros. by apply config_view.
  - intros [= <-]. by apply subscribe_ok.
  - intros [= <-]. by apply unsubscribe_ok.
  - intros [= <-]. by apply declare_method_ok.
  - intros [= <-]. by apply remove_method_ok.
  - destruct (bool_decide (pl s = Idle \/ pl s = Exited)) eqn:Hp; simpl.
    + apply bool_decide_eq_true in Hp. intros [= <-]. by apply agent_start_ok.
    + destruct b; [done|]. destruct Ho as [Ho|Ho]; [done|]. by rewrite Ho.
  - case_bool_decide; [|done]. intros [= <-]. unfold emit. wsteps. eapply same_view_ok; [|done]. same_view.
  - intros [= <-]. eapply view_keeps; [|done]. intros. by apply send_message_view.
  - intros [= <-]. eapply view_keeps; [|done]. intros. by apply send_message_view.
  - destruct from as [c|]; [destruct (blocked c s); [|done]|]; intros [= <-]; by apply close_ok.
  - destruct (receiving c s); [|done]. intros [= <-]. eapply view_keeps; [|done]. intros. by apply recv_post_view.
  - destruct (receiving c s); [|done]. intros [= <-]. eapply view_keeps; [|done]. intros. by apply recv_call_view.
  - destruct (receiving c s); [|done]. intros [= <-]. eapply view_keeps; [|done]. intros. by apply notify_view.
  - destruct (tasks s !! i) as [x|] eqn:Hi; [|done]. simpl. destruct (ready x s); [|done].
    intros [= <-]. by apply task_ok.
  - destruct (runnable s); [|done]. intros [= <-]. by apply agent_run_step_ok.
  - destruct (pl s) eqn:Hp; try done. intros [= <-]. unfold goto. wsteps.
    eapply same_view_ok; [|done]. split; try done. rewrite Hp. by right.
  - destruct (pl s) eqn:Hp; try done. intros [= <-]. unfold goto. wsteps.
    eapply same_view_ok; [|done]. split; try done. rewrite Hp. by right.
Qed.
End Spec.
