(* ===== verification/AgentRun.v ===== *)
(** * What the agent does

    The client in use is asked for every handler; what [post] and [call] return; and which
    handler a message reaches. *)
From S2P Require Import Prelude Defs StrMap Agent AgentSpec.
Import Agent AgentOps.

Section Run.
Context {H K caps : Type}.
Implicit Types s : t H K caps.

Lemma new_ok : agent_ok (new : t H K caps).
Proof. split; try done. Qed.

Lemma agent_steps_ok (st : sys H K caps) :
  steps agent_step (Running new) st -> exists s, st = Running s /\ agent_ok s.
Proof.
  intros Hst. apply (steps_invariant agent_step (fun st => exists s, st = Running s /\ agent_ok s))
    with (s := Running new); [|done|exists new; split; [done|apply new_ok]].
  intros st1 st2 (s & -> & Hok) (s0 & lb & [= <-] & He & Ho). unfold exec in He.
  destruct (exec_agent s lb) as [m|] eqn:Hm; [|done]. injection He as <-.
  pose proof (label_ok s lb m Hok Ho Hm) as Hwp.
  destruct (wp_done _ _ _ Hwp) as ([] & s' & -> & Hok'). by exists s'.
Qed.

(** C9. Whatever the order in which the agent's threads run, the agent never fails, and
    for the client it has published every name with a handler, and no other, is one the
    client was last asked to subscribe or declare, counting the requests that other
    threads are about to make. *)
Theorem agent_synced (st : sys H K caps) :
  steps agent_step (Running new) st ->
  exists s, st = Running s /\
    forall c, flora_cli s = Some c ->
      (exists w, pl s = Wait w) /\
      forall k n, n ∈ names k s <-> last (asked k n c s ++ queued k n c s) = Some true.
Proof.
  intros (s & -> & Hok)%agent_steps_ok. exists s. split; [done|]. intros c Hc. split.
  - by destruct (ok_wait s Hok c Hc) as [_ ?].
  - by apply ok_synced.
Qed.

(** ** Messages *)

Lemma tasks_last s x : (set_tasks (tasks s ++ [x]) s : t H K caps) = set_tasks (tasks s ++ [x]) s /\
  (tasks s ++ [x]) !! length (tasks s) = Some x /\ delete (length (tasks s)) (tasks s ++ [x]) = tasks s.
Proof.
  split_and!; [done| |].
  - by rewrite lookup_app_r, Nat.sub_diag by done.
  - rewrite delete_take_drop, take_app_length, drop_ge; [apply app_nil_r|].
    rewrite length_app. simpl. lia.
Qed.

(** The thread at the last task goes on. *)
Lemma exec_last s x r :
  ready x (set_tasks (tasks s ++ [x]) s) = true ->
  exec (Running (set_tasks (tasks s ++ [x]) s)) (LTask (length (tasks s)) r) =
    Some (result_of (task_step x r s)).
Proof.
  intros Hr. destruct (tasks_last s x) as (_ & Hl & Hd). simpl. rewrite Hl. simpl. rewrite Hr.
  unfold mbind, M_bind, modify. simpl. rewrite Hd. by destruct s.
Qed.

Definition message_label (r : request caps) : label H K caps :=
  match r with
  | Post name msg msgtype => LPost name msg msgtype
  | Call name msg target cb timeout => LCall name msg target cb timeout
  | _ => LStarted
  end.

(** A message is refused with FLORA_CLI_ECONN at once when no client is published;
    otherwise it is handed once to the published client and the caller gets what that
    client answered, and an answer of FLORA_CLI_ECONN wakes the agent before it is
    returned. *)
Theorem message_returns s (r : request caps) (res : Z) :
  is_message r = true ->
  let i := length (tasks s) in
  match flora_cli s with
  | None => exec (Running s) (message_label r) =
      Some (Running (set_events (events s ++ [Returned r FLORA_CLI_ECONN]) s))
  | Some c =>
      let s1 := set_requests (requests s ++ [(c, r)]) s in
      let s2 := set_events (events s ++ [Returned r res]) s1 in
      if bool_decide (res = FLORA_CLI_ECONN)
      then execs (Running s) [message_label r; LTask i res; LTask i 0] =
             Some (Running (set_pl (notify (pl s)) s2))
      else execs (Running s) [message_label r; LTask i res] = Some (Running s2)
  end.
Proof.
  intros Hr i. subst i.
  assert (exec (Running s) (message_label r) = Some (result_of (send_message r s))) as Hx by (by destruct r).
  unfold send_message, mbind, M_bind, gets in Hx. destruct (flora_cli s) as [c|] eqn:Hc; [|exact Hx].
  change (result_of _) with (Running (set_tasks (tasks s ++ [TRequest c r]) s)) in Hx.
  cbv zeta. case_bool_decide as Hres; cbn [execs]; rewrite Hx, exec_last by done; simpl task_step; rewrite Hr.
  - rewrite bool_decide_true by done.
    change (result_of _) with (Running (set_tasks (tasks s ++ [TDestroy r res])
      (set_requests (requests s ++ [(c, r)]) s))).
    pose proof (exec_last (set_requests (requests s ++ [(c, r)]) s) (TDestroy r res) 0 eq_refl) as He.
    simpl tasks in He. by rewrite He.
  - by rewrite bool_decide_false by done.
Qed.

(** A post or call that a client receives is given to the handler registered under
    its name at that moment, once and with its own content, and to nothing when there
    is none; registering a name again does not replace its handler. *)
Theorem handlers_exact s (c : nat) (name : string) (msgtype : Z) (msg : option caps) (h' : H) :
  receiving c s = true ->
  let i := length (tasks s) in
  let in_cb := set_in_callback ({[c]} ∪ in_callback s) s in
  let back := set_tasks (tasks s ++ [TReturn c]) in_cb in
  execs (Running s) [LRecvPost c name msgtype msg; LTask i 0] =
    match post_handlers s !! name with
    | Some h => Some (Running (set_events (events s ++ [Handled h name msg msgtype]) back))
    | None => exec (Running s) (LTask i 0)
    end /\
  execs (Running s) [LRecvCall c name msg; LTask i 0] =
    match call_handlers s !! name with
    | Some k => Some (Running (set_events (events s ++ [Answered k name msg]) back))
    | None => exec (Running s) (LTask i 0)
    end /\
  (forall h, post_handlers s !! name = Some h ->
     exec (Running s) (LSubscribe name h') = Some (Running s)).
Proof.
  intros Hr i in_cb back. split_and!.
  - cbn [execs]. change (exec (Running s) (LRecvPost c name msgtype msg)) with
      ((fun m => result_of (m s)) <$> (if receiving c s then Some (recv_post c name msgtype msg) else None)).
    rewrite Hr. unfold recv_post, mbind, M_bind, gets. simpl fmap.
    destruct (post_handlers s !! name) as [h|]; cbv iota beta; [|simpl; by destruct (_ <$> _)].
    change (result_of _) with (Running (set_tasks (tasks in_cb ++ [TPost c h name msg msgtype]) in_cb)).
    by rewrite (exec_last in_cb) by done.
  - cbn [execs]. change (exec (Running s) (LRecvCall c name msg)) with
      ((fun m => result_of (m s)) <$> (if receiving c s then Some (recv_call c name msg) else None)).
    rewrite Hr. unfold recv_call, mbind, M_bind, gets. simpl fmap.
    destruct (call_handlers s !! name) as [h|]; cbv iota beta; [|simpl; by destruct (_ <$> _)].
    change (result_of _) with (Running (set_tasks (tasks in_cb ++ [TCall c h name msg]) in_cb)).
    by rewrite (exec_last in_cb) by done.
  - intros h Hh. simpl. unfold subscribe, insert_new, forward, mbind, M_bind, gets, modify. simpl.
    rewrite Hh. rewrite bool_decide_false by done. simpl.
    destruct (flora_cli s) eqn:Hf; destruct s; simpl in *; by subst.
Qed.
End Run.
