(* ===== verification/AgentClose.v ===== *)
(** * Closing the agent

    [close] joins the thread of [run], which leaves its loop only when it is notified
    while it waits and when it can close its clients. Two ways in which it does not:
    [close] called in a callback, and [close] called while the agent connects. *)
From S2P Require Import Prelude Defs StrMap Agent AgentSpec AgentRun.
Import Agent AgentOps.

Section Close.
Context {H K caps : Type}.
Implicit Types s : t H K caps.

(** ** In a callback *)

(** The receive thread of [c] is in [close], and [run] has not come past [c] in
    [clean_gabages]. *)
Record hung (c : nat) s : Prop := {
  h_joinable : joinable s = true;
  h_callback : c ∈ in_callback s;
  h_task : exists k, k ∈ tasks s /\ task_from k = Some c;
  h_place : exists j, gabages s !! j = Some (Some c) /\
    match pl s with Wait _ | Unlocked => True | Cleaning i => (i <= j)%nat | _ => False end
}.

(** What no step of [hung] looks at. *)
Lemma hung_frame c s s' :
  hung c s -> joinable s' = joinable s -> (c ∈ in_callback s -> c ∈ in_callback s') ->
  tasks s ⊆ tasks s' -> gabages s' = gabages s -> same_place (pl s) (pl s') -> hung c s'.
Proof.
  intros [Hj Hc (k & Hk & Hf) (j & Hg & Hp)] Ej Ec Et Eg Ep. split; [congruence|auto|..].
  - exists k. split; [by apply Et|done].
  - exists j. rewrite Eg. split; [done|]. destruct Ep as [->| ->]; [done|]. by destruct (pl s).
Qed.

Lemma hung_not_started c s : hung c s -> pl s <> Idle /\ pl s <> Exited.
Proof. intros [_ _ _ (j & _ & Hp)]. by destruct (pl s). Qed.


(** A list of tasks that is kept, or added to at the end. *)
Ltac kept := first [done | apply list_subseteq_app_l; done | set_solver].
Ltac frame s := eapply (hung_frame _ s); [done|done|first [done|set_solver]|kept|done|try (by left); try (by right)].

Abbreviation stays c m := (forall s, hung c s -> wlp m (fun _ s' => hung c s') s).

Lemma forward_hung c ch r : stays c (forward ch r).
Proof.
  intros s Hs. unfold forward. wsteps. destruct (flora_cli s); [|by wsteps].
  unfold when. destruct ch; unfold spawn; wsteps; [|done]. frame s.
Qed.

Lemma send_message_hung c r : stays c (send_message r).
Proof.
  intros s Hs. unfold send_message, spawn, emit. wsteps. destruct (flora_cli s); wsteps; frame s.
Qed.

Lemma config_hung c key ap : stays c (config key ap).
Proof.
  intros s Hs. unfold config. wsteps.
  repeat (case_bool_decide; [destruct ap as [|[] ap]; try done|]); wsteps; try done; try frame s.
  - destruct (has_flag _ _); [|wsteps; frame s]. destruct ap as [|[] ap]; try done. wsteps. frame s.
  - destruct ap as [|[] ap]; try done. wsteps. frame s.
Qed.

Lemma close_hung c from : stays c (close from).
Proof.
  intros s Hs. unfold close, notify_conn, spawn, emit. wsteps. destruct (working s); wsteps; frame s.
Qed.

Lemma run_hung c r s : hung c s -> runnable s = true -> wlp (run_step r) (fun _ s' => hung c s') s.
Proof.
  intros Hs Hr. destruct Hs as [Hj Hc Ht (j & Hg & Hp)].
  unfold run_step, goto. wsteps. destruct (pl s) as [| | | |it|it| |w|w| |i|] eqn:Hl; try done; wsteps.
  - split; [done..|]. by exists j.
  - split; [done..|]. exists j. split; [done|]. simpl. lia.
  - unfold wpx. rewrite clean_step_eq. unfold runnable in Hr. rewrite Hl in Hr.
    destruct (decide (i = j)) as [->|Hne].
    + rewrite Hg in Hr. unfold blocked in Hr. rewrite bool_decide_true in Hr by done. done.
    + assert (is_Some (gabages s !! i)) as [x Hx].
      { apply lookup_lt_is_Some. apply lookup_lt_Some in Hg. lia. }
      rewrite Hx. destruct x as [c'|]; (split; [done..|]); exists j; (split; [done|]); simpl; lia.
Qed.

Lemma tasks_delete s i (x k : task H K caps) :
  tasks s !! i = Some x -> k ∈ tasks s -> k = x \/ k ∈ delete i (tasks s).
Proof.
  intros Hi Hk. rewrite <- (take_drop_middle _ _ _ Hi) in Hk. rewrite delete_take_drop.
  rewrite elem_of_app, elem_of_cons in *. tauto.
Qed.

(** A task of another thread leaves the hung one where it is; its own goes to the join. *)
Lemma task_hung c i x r s :
  hung c s -> tasks s !! i = Some x -> ready x s = true ->
  wlp (modify (fun s => set_tasks (delete i (tasks s)) s) ;; task_step x r) (fun _ s' => hung c s') s.
Proof.
  intros Hs Hi Hr. pose proof (hung_not_started c s Hs) as [_ Hne].
  destruct Hs as [Hj Hc (k & Hk & Hf) (j & Hg & Hp)].
  assert (forall s', joinable s' = joinable s -> c ∈ in_callback s' -> gabages s' = gabages s ->
    same_place (pl s) (pl s') -> (exists k, k ∈ tasks s' /\ task_from k = Some c) -> hung c s') as Hfr.
  { intros s' E1 E2 E3 E4 E5. split; [congruence|done|done|]. exists j. rewrite E3. split; [done|].
    destruct E4 as [->| ->]; [done|]. by destruct (pl s). }
  assert (task_from x = Some c \/ exists k, k ∈ delete i (tasks s) /\ task_from k = Some c) as Hx.
  { destruct (tasks_delete s i x k Hi Hk) as [->|Hk']; eauto. }
  clear k Hk Hf. wsteps.
  assert (forall y s', (task_from x = Some c -> task_from y = Some c) -> tasks s' = delete i (tasks s) ++ [y] ->
    exists k, k ∈ tasks s' /\ task_from k = Some c) as Hy.
  { intros y s' Hxy ->. destruct Hx as [Hx|(k & Hk & Hf)]; [exists y|exists k]; (split; [|auto]); set_solver. }
  destruct x as [c' rq|rq code|c' h n m ty|c' h n m|c'|c' from|c' from|c'|from]; simpl in Hx;
    unfold task_step, request_to, destroy_client, notify_conn, client_close, emit, spawn, goto; wsteps.
  - destruct (is_message rq); [case_bool_decide|]; wsteps; apply Hfr; try done; try (by left).
    all: first [by apply (Hy (TDestroy rq r))|by destruct Hx as [|Hx]].
  - apply Hfr; try done; [by right|]. destruct Hx as [|Hx]; done.
  - apply Hfr; try done; [by left|]. by apply (Hy (TReturn c')).
  - apply Hfr; try done; [by left|]. by apply (Hy (TReturn c')).
  - assert (c' <> c) as Hcc.
    { intros ->. destruct Hx as [|(k & Hk & Hf)]; [done|]. simpl in Hr. rewrite forallb_forall in Hr.
      specialize (Hr k). rewrite bool_decide_eq_true in Hr. apply Hr; [|done].
      apply list_elem_of_In. rewrite delete_take_drop in Hk.
      rewrite <- (take_drop_middle _ _ _ Hi). set_solver. }
    apply Hfr; try done; [simpl; set_solver|by left|]. by destruct Hx as [|Hx].
  - apply Hfr; try done; [by left|]. by apply (Hy (TClosing c' from)).
  - destruct c' as [c'|]; [case_bool_decide|]; wsteps; apply Hfr; try done; try (by left).
    all: destruct Hx as [Hx|(k & Hk & Hf)]; [exists (TJoin from)|exists k]; simpl; set_solver.
  - apply Hfr; try done; [by left|]. by destruct Hx as [|Hx].
  - simpl in Hr. rewrite Hj in Hr. simpl in Hr. by rewrite bool_decide_false in Hr.
Qed.

Lemma label_hung c s lb m :
  hung c s -> exec_agent s lb = Some m -> wlp m (fun _ s' => hung c s') s.
Proof.
  intros Hs. pose proof (hung_not_started c s Hs) as [Hni Hne].
  destruct lb as [key ap|n h|n|n k|n|b| |n msg ty|n msg tg cb tm|from|c' n ty msg|c' n msg|c'|i r|r| |]; simpl.
  - intros [= <-]. by apply config_hung.
  - intros [= <-]. unfold subscribe. wsteps. apply forward_hung. frame s.
  - intros [= <-]. unfold unsubscribe. wsteps. apply forward_hung. frame s.
  - intros [= <-]. unfold declare_method. wsteps. apply forward_hung. frame s.
  - intros [= <-]. unfold remove_method. wsteps. apply forward_hung. frame s.
  - rewrite bool_decide_false by tauto. simpl. destruct (negb b && joinable s) eqn:Hb; [|done].
    apply andb_true_iff in Hb as [Hb Hj]. intros [= <-]. unfold start. destruct b; [done|].
    wsteps. by rewrite Hj.
  - case_bool_decide; [|done]. intros [= <-]. unfold emit. wsteps. frame s.
  - intros [= <-]. by apply send_message_hung.
  - intros [= <-]. by apply send_message_hung.
  - destruct from as [c''|]; [destruct (blocked c'' s); [|done]|]; intros [= <-]; by apply close_hung.
  - destruct (receiving c' s); [|done]. intros [= <-]. unfold recv_post, spawn. wsteps.
    destruct (_ !! n); wsteps; [|done]. frame s.
  - destruct (receiving c' s); [|done]. intros [= <-]. unfold recv_call, spawn. wsteps.
    destruct (_ !! n); wsteps; [|done]. frame s.
  - destruct (receiving c' s); [|done]. intros [= <-]. unfold disconnected, destroy_client, notify_conn.
    wsteps. frame s.
  - destruct (tasks s !! i) as [x|] eqn:Hi; [|done]. simpl. destruct (ready x s) eqn:Hr; [|done].
    intros [= <-]. by apply task_hung.
  - destruct (runnable s) eqn:Hr; [|done]. intros [= <-]. by apply run_hung.
  - destruct (pl s) eqn:Hp; try done. intros [= <-]. unfold goto. wsteps.
    eapply (hung_frame c s); try done; try set_solver. rewrite Hp. by right.
  - destruct (pl s) eqn:Hp; try done. intros [= <-]. unfold goto. wsteps.
    eapply (hung_frame c s); try done; try set_solver. rewrite Hp. by right.
Qed.

(** An invariant that no step breaks without a crash. *)
Lemma steps_running (I : t H K caps -> Prop) (R : sys H K caps -> sys H K caps -> Prop) :
  (forall st st', R st st' -> exists s m, st = Running s /\ st' = result_of (m s) /\
     (I s -> wlp m (fun _ s' => I s') s)) ->
  forall s s2, I s -> steps R (Running s) (Running s2) -> I s2.
Proof.
  intros HR s s2 Hs Hst.
  refine (steps_invariant R (fun st => match st with Running s => I s | Crashed _ => True end) _ _ _ Hst Hs).
  intros st st' Hs1 (s1 & m & -> & -> & Hw)%HR. specialize (Hw Hs1). unfold wpx in Hw.
  by destruct (m s1) as [[[] s']|u].
Qed.

(** C35. A callback that closes its agent never returns: [close] waits for the thread of
    [run], which waits in [clean_gabages] for the receive thread the callback runs in.
    Whatever the other threads do, [run] has not ended and [close] has not returned. *)
Theorem close_in_callback_hangs c s (st : sys H K caps) s2 :
  steps agent_step (Running new) (Running s) ->
  flora_cli s = Some c -> c ∈ in_callback s -> working s = true -> joinable s = true ->
  exec (Running s) (LClose (Some c)) = Some st -> steps step st (Running s2) ->
  pl s2 <> Exited /\ c ∈ in_callback s2 /\ joinable s2 = true /\
  exists k, k ∈ tasks s2 /\ task_from k = Some c.
Proof.
  intros Hreach Hf Hc Hw Hj He Hst.
  apply agent_steps_ok in Hreach as (s0 & [= <-] & Hok).
  destruct (ok_wait s Hok c Hf) as [[_ Hg] [w Hp]].
  simpl in He. unfold blocked in He. rewrite bool_decide_true in He by done. injection He as <-.
  unfold close, mbind, M_bind, gets in Hst. rewrite Hw in Hst. simpl in Hst. rewrite Hp in Hst. simpl in Hst.
  apply list_elem_of_lookup in Hg as [j Hg].
  assert (hung c s2) as [Hj2 Hc2 Ht2 Hp2].
  { eapply (steps_running (hung c) step); [| |exact Hst].
    - intros [s1|u] st' [lb He]; [|done]. simpl in He. destruct (exec_agent s1 lb) as [m|] eqn:Hm; [|done].
      injection He as <-. exists s1, m. split_and!; [done..|]. intros Hs1. by eapply label_hung.
    - split; try done; simpl.
      + exists (TClose (flora_cli s) (Some c)). split; [set_solver|done].
      + exists j. done. }
  split_and!; try done. intros He. by destruct Hp2 as (j' & _ & Hp2); rewrite He in Hp2.
Qed.

(** ** While connecting *)

(** A step that does not notify the thread of [run] of a lost connection. *)
Definition calm s (lb : label H K caps) : bool :=
  match lb with
  | LDisconnected _ | LSpurious => false
  | LTask i _ => match tasks s !! i with Some (TDestroy _ _) => false | _ => true end
  | _ => true
  end.

Definition calm_step (st st' : sys H K caps) : Prop :=
  exists s lb, st = Running s /\ calm s lb = true /\ exec st lb = Some st'.

(** [run] waits, its agent is closed, and [close] waits for it. *)
Record waiting s : Prop := {
  w_place : pl s = Wait false;
  w_working : working s = false;
  w_joinable : joinable s = true;
  w_task : TJoin None ∈ tasks s
}.

Lemma waiting_frame s s' :
  waiting s -> pl s' = pl s -> working s' = working s -> joinable s' = joinable s -> tasks s ⊆ tasks s' -> waiting s'.
Proof. intros [] ? ? ? Ht. split; try congruence. by apply Ht. Qed.

Lemma send_message_waiting r s : waiting s -> wlp (send_message r) (fun _ s' => waiting s') s.
Proof.
  intros Hs. unfold send_message, spawn, emit. wsteps.
  destruct (flora_cli s); wsteps; apply (waiting_frame s); try done. kept.
Qed.

Lemma forward_waiting ch r s : waiting s -> wlp (forward ch r) (fun _ s' => waiting s') s.
Proof.
  intros Hs. unfold forward. wsteps. destruct (flora_cli s); [|by wsteps].
  unfold when. destruct ch; unfold spawn; wsteps; [|done]. apply (waiting_frame s); try done. kept.
Qed.

Lemma config_waiting key ap s : waiting s -> wlp (config key ap) (fun _ s' => waiting s') s.
Proof.
  intros Hs. unfold config. wsteps.
  repeat (case_bool_decide; [destruct ap as [|[] ap]; try done|]); wsteps; try done;
    try by apply (waiting_frame s).
  - destruct (has_flag _ _); [|by wsteps; apply (waiting_frame s)].
    destruct ap as [|[] ap]; try done. wsteps. by apply (waiting_frame s).
  - destruct ap as [|[] ap]; try done. wsteps. by apply (waiting_frame s).
Qed.

Lemma task_waiting i x r s :
  waiting s -> tasks s !! i = Some x -> ready x s = true -> (forall q z, x <> TDestroy q z) ->
  wlp (modify (fun s => set_tasks (delete i (tasks s)) s) ;; task_step x r) (fun _ s' => waiting s') s.
Proof.
  intros [Hp Hw Hj Ht] Hi Hr Hnd.
  assert (forall from, x <> TJoin from) as Hnj.
  { intros from ->. simpl in Hr. rewrite Hj in Hr. simpl in Hr. rewrite bool_decide_false in Hr; [done|]. congruence. }
  destruct (tasks_delete s i x (TJoin None) Hi Ht) as [<-|Ht']; [by destruct (Hnj None)|].
  assert (forall s', pl s' = pl s -> working s' = working s -> joinable s' = joinable s ->
    delete i (tasks s) ⊆ tasks s' -> waiting s') as Hfr.
  { intros s' ??? Hsub. split; try congruence. by apply Hsub. }
  wsteps. destruct x as [c' rq|rq code|c' h n m ty|c' h n m|c'|c' from|c' from|c'|from];
    unfold task_step, request_to, client_close, emit, spawn, goto; wsteps; try (by destruct (Hnd rq code));
    try (by destruct (Hnj from)); try (apply Hfr; [done|done|done|simpl; kept]).
  - destruct (is_message rq); [case_bool_decide|]; wsteps; (apply Hfr; [done|done|done|simpl; kept]).
  - destruct c' as [c'|]; [case_bool_decide|]; wsteps; (apply Hfr; [done|done|done|simpl; kept]).
Qed.

Lemma label_waiting s lb m :
  waiting s -> calm s lb = true -> exec_agent s lb = Some m -> wlp m (fun _ s' => waiting s') s.
Proof.
  intros Hs Hcalm. pose proof Hs as [Hp Hw Hj Ht].
  destruct lb as [key ap|n h|n|n k|n|b| |n msg ty|n msg tg cb tm|from|c' n ty msg|c' n msg|c'|i r|r| |];
    simpl in Hcalm; try done; simpl.
  - intros [= <-]. by apply config_waiting.
  - intros [= <-]. unfold subscribe. wsteps. apply forward_waiting. by apply (waiting_frame s).
  - intros [= <-]. unfold unsubscribe. wsteps. apply forward_waiting. by apply (waiting_frame s).
  - intros [= <-]. unfold declare_method. wsteps. apply forward_waiting. by apply (waiting_frame s).
  - intros [= <-]. unfold remove_method. wsteps. apply forward_waiting. by apply (waiting_frame s).
  - rewrite bool_decide_false by (rewrite Hp; naive_solver). simpl.
    destruct (negb b && joinable s) eqn:Hb; [|done]. apply andb_true_iff in Hb as [Hb _].
    intros [= <-]. unfold start. destruct b; [done|]. wsteps. by rewrite Hj.
  - case_bool_decide; [|done]. intros [= <-]. unfold emit. wsteps. by apply (waiting_frame s).
  - intros [= <-]. by apply send_message_waiting.
  - intros [= <-]. by apply send_message_waiting.
  - destruct from as [c''|]; [destruct (blocked c'' s); [|done]|]; intros [= <-]; unfold close, emit;
      wsteps; rewrite Hw; wsteps; by apply (waiting_frame s).
  - destruct (receiving c' s); [|done]. intros [= <-]. unfold recv_post, spawn. wsteps.
    destruct (_ !! n); wsteps; [|done]. apply (waiting_frame s); try done. kept.
  - destruct (receiving c' s); [|done]. intros [= <-]. unfold recv_call, spawn. wsteps.
    destruct (_ !! n); wsteps; [|done]. apply (waiting_frame s); try done. kept.
  - destruct (tasks s !! i) as [x|] eqn:Hi; [|done]. simpl. destruct (ready x s) eqn:Hr; [|done].
    intros [= <-]. apply task_waiting; try done. intros q z ->. done.
  - unfold runnable. by rewrite Hp.
  - by rewrite Hp.
Qed.

(** Evaluates a sequence of steps. *)
Ltac run_labels :=
  match goal with
  | |- context [execs ?a ?b] =>
      let r := eval vm_compute in (execs a b) in
      assert (execs a b = r) as -> by (vm_compute; reflexivity)
  end.

(** C36. [close] called while the agent connects loses its notification: when the
    connection then succeeds, [run] publishes the client of a closed agent and waits,
    and [close] waits for [run] until the connection is lost. *)
Theorem close_while_connecting_waits s :
  pl s = Connecting -> working s = true -> joinable s = true -> tasks s = [] -> cg_mutex s = false ->
  flora_cli s = None ->
  exists s', execs (Running s) [LClose None; LTask 0 0; LTask 0 0; LRun FLORA_CLI_SUCCESS; LRun 0; LRun 0; LRun 0]
      = Some (Running s') /\
    flora_cli s' = Some (connected s) /\ working s' = false /\ pl s' = Wait false /\
    forall s2, steps calm_step (Running s') (Running s2) -> pl s2 = Wait false /\ TJoin None ∈ tasks s2.
Proof.
  intros Hp Hw Hj Ht Hg Hf.
  destruct s as [o ph ch f w j g p co cl gs st cn ic ts rq es].
  cbn [pl working joinable tasks cg_mutex flora_cli connected] in *. subst.
  run_labels. eexists. split; [reflexivity|]. split_and!; [done..|]. intros s2 Hst.
  assert (waiting s2) as [Hp2 _ _ Ht2]; [|done].
  eapply (steps_running waiting calm_step); [| |exact Hst].
  - intros st1 st' (s1 & lb & -> & Hc & He). simpl in He.
    destruct (exec_agent s1 lb) as [m|] eqn:Hm; [|done]. injection He as <-.
    exists s1, m. split_and!; [done..|]. intros Hs1. by eapply label_waiting.
  - split; try done. by left.
Qed.

End Close.
