(* ===== verification/AgentLife.v ===== *)
(** * The agent's life: reconnecting and closing

    What the thread of [run] does once it is woken, and how [close] ends it, whatever the
    other threads do meanwhile. Both are told of the clients the agent has published since
    [run] was called, a list that is read off the run and is not the agent's own. *)
From S2P Require Import Prelude Defs StrMap Agent AgentSpec AgentRun AgentClose.
Import Agent AgentOps.

Section Life.
Context {H K caps : Type}.
Implicit Types (s : t H K caps) (x : task H K caps) (lb : label H K caps) (l : list nat).

(** How many steps a thread in [close] still makes. *)
Definition closing_rank x : nat :=
  match x with TClose _ _ => 3 | TClosing _ _ => 2 | TJoin _ => 1 | _ => 0 end.
Definition closing_sum (ts : list (task H K caps)) : nat := sum_list_with closing_rank ts.

(** The thread runs in a callback of [c]. *)
Definition in_call (c : nat) x : Prop :=
  match x with TPost c' _ _ _ _ | TCall c' _ _ _ | TReturn c' => c' = c | _ => False end.

(** ** What the other threads change *)

(** A function of the agent that does not close it. *)
Record mild s s' : Prop := {
  mi_flora : flora_cli s' = flora_cli s;
  mi_place : same_place (pl s) (pl s');
  mi_gabages : gabages s' = gabages s;
  mi_cli : cli s' = cli s;
  mi_connected : connected s' = connected s;
  mi_working : working s' = working s;
  mi_joinable : joinable s' = joinable s;
  mi_mutex : cg_mutex s' = cg_mutex s;
  mi_requests : requests s' = requests s;
  mi_tasks : exists ts, tasks s' = tasks s ++ ts /\ Forall (fun x => closing_rank x = 0%nat) ts;
  mi_calls c : c ∈ in_callback s' -> c ∈ in_callback s \/ exists x, x ∈ tasks s' /\ in_call c x
}.

Lemma same_place_trans (l1 l2 l3 : run_place) : same_place l1 l2 -> same_place l2 l3 -> same_place l1 l3.
Proof. intros [-> | ->] [-> | ->]; [by left|by right..|]. right. by destruct l1. Qed.

#[export] Instance mild_preorder : PreOrder mild.
Proof.
  split.
  - intros s. split; auto; [by left|]. exists []. by rewrite app_nil_r.
  - intros s1 s2 s3 [] [mf mp mg mc mn mw mj mm mr (ts2 & Ht2 & Hr2) mca].
    destruct mi_tasks0 as (ts1 & Ht1 & Hr1). split; try congruence.
    + by eapply same_place_trans.
    + exists (ts1 ++ ts2). rewrite Ht2, Ht1, <- app_assoc. split; [done|]. by apply Forall_app.
    + intros c [Hc|?]%mca; [|by right]. apply mi_calls0 in Hc as [?|(x & Hx & ?)]; [by left|right].
      exists x. rewrite Ht2. split; [set_solver|done].
Qed.

Ltac mild_same := split; simpl; try done; try (by left); try (by right); try (by auto); try (exists []; simpl; by rewrite app_nil_r).

Lemma mild_spawn x : closing_rank x = 0%nat -> rels mild (spawn x).
Proof.
  intros Hx. apply rels_modify. intros s. split; try done; [by left| |by auto]. exists [x]. split; [done|by constructor].
Qed.

Lemma mild_emit e : rels mild (emit (H:=H) (K:=K) (caps:=caps) e).
Proof. apply rels_modify. intros s. mild_same. Qed.

Lemma mild_notify_conn : rels mild (notify_conn (H:=H) (K:=K) (caps:=caps)).
Proof. apply rels_modify. intros s. mild_same. Qed.

Lemma mild_forward ch r : rels mild (forward (H:=H) (K:=K) ch r).
Proof.
  apply (rels_bind mild); [apply (rels_gets mild)|]. intros [c|]; [|apply (rels_ret mild)].
  apply (rels_when mild). by apply mild_spawn.
Qed.

Lemma mild_send r : rels mild (send_message (H:=H) (K:=K) r).
Proof.
  apply (rels_bind mild); [apply (rels_gets mild)|]. intros [c|]; [by apply mild_spawn|apply mild_emit].
Qed.

Lemma mild_config key ap : rels mild (config (H:=H) (K:=K) (caps:=caps) key ap).
Proof.
  apply (rels_bind mild); [apply (rels_gets mild)|]. intros o.
  repeat case_match; try apply (rels_ret mild); try apply (rels_undefined mild); apply rels_modify; intros s1; mild_same.
Qed.

(** A callback begins. *)
Lemma mild_callback c x :
  closing_rank x = 0%nat -> in_call c x ->
  rels mild (modify (fun s => set_in_callback ({[c]} ∪ in_callback s) s) ;; spawn x).
Proof.
  intros Hx Hc s. unfold spawn. wsteps. split; simpl; try done; [by left| |].
  - exists [x]. split; [done|by constructor].
  - intros c' [->%elem_of_singleton|?]%elem_of_union; [right|by left]. exists x. split; [set_solver|done].
Qed.

Definition mild_label lb : bool := match lb with LRun _ | LStart _ | LClose _ | LTask _ _ => false | _ => true end.

Lemma label_mild s lb m :
  mild_label lb = true -> exec_agent s lb = Some m -> wlp m (fun _ s' => mild s s') s.
Proof.
  destruct lb as [key ap|n h|n|n k|n|b| |n msg ty|n msg tg cb tm|from|c n ty msg|c n msg|c|i r|r| |]; simpl; try done; intros _.
  - intros [= <-]. apply mild_config.
  - intros [= <-]. unfold subscribe. wsteps. eapply wpx_mono; [apply mild_forward|]. intros [] s' Hs.
    etrans; [|exact Hs]. mild_same.
  - intros [= <-]. unfold unsubscribe. wsteps. eapply wpx_mono; [apply mild_forward|]. intros [] s' Hs.
    etrans; [|exact Hs]. mild_same.
  - intros [= <-]. unfold declare_method. wsteps. eapply wpx_mono; [apply mild_forward|]. intros [] s' Hs.
    etrans; [|exact Hs]. mild_same.
  - intros [= <-]. unfold remove_method. wsteps. eapply wpx_mono; [apply mild_forward|]. intros [] s' Hs.
    etrans; [|exact Hs]. mild_same.
  - case_bool_decide; [|done]. intros [= <-]. unfold emit. wsteps. mild_same.
  - intros [= <-]. apply mild_send.
  - intros [= <-]. apply mild_send.
  - destruct (receiving c s); [|done]. intros [= <-]. unfold recv_post. wstep. wstep.
    destruct (_ !! n); [by apply mild_callback|wsteps; reflexivity].
  - destruct (receiving c s); [|done]. intros [= <-]. unfold recv_call. wstep. wstep.
    destruct (_ !! n); [by apply mild_callback|wsteps; reflexivity].
  - destruct (receiving c s); [|done]. intros [= <-]. apply mild_notify_conn.
  - destruct (pl s) eqn:Hp; try done. intros [= <-]. unfold goto. wsteps. mild_same. rewrite Hp. by right.
  - destruct (pl s) eqn:Hp; try done. intros [= <-]. unfold goto. wsteps. mild_same. rewrite Hp. by right.
Qed.

(** What a task leaves of the thread it belongs to. *)
Record follows x (ts : list (task H K caps)) : Prop := {
  fo_rank : closing_sum ts = pred (closing_rank x);
  fo_from : Forall (fun y => task_from y = None \/ task_from y = task_from x) ts;
  fo_call c : in_call c x -> x = TReturn c \/ exists y, y ∈ ts /\ in_call c y;
  fo_lock : match x with TClose c from => TClosing c from ∈ ts | _ => True end
}.

(** A thread inside a function of the agent goes on. *)
Record tasked (i : nat) x s s' : Prop := {
  ta_flora : flora_cli s' = flora_cli s;
  ta_place : same_place (pl s) (pl s');
  ta_gabages : gabages s' = gabages s;
  ta_cli : cli s' = cli s;
  ta_connected : connected s' = connected s;
  ta_working : working s' = working s;
  ta_joinable : joinable s' = match x with TJoin _ => false | _ => joinable s end;
  ta_mutex : cg_mutex s' = match x with TClose _ _ => true | TClosing _ _ => false | _ => cg_mutex s end;
  ta_requests : exists rs, requests s' = requests s ++ rs;
  ta_calls : in_callback s' = match x with TReturn c => in_callback s ∖ {[c]} | _ => in_callback s end;
  ta_tasks : exists ts, tasks s' = delete i (tasks s) ++ ts /\ follows x ts
}.

Ltac easy_goal := first [by left | by right | by eexists | split; try done; constructor].

Lemma label_tasked i x r s :
  tasks s !! i = Some x ->
  wp (modify (fun s => set_tasks (delete i (tasks s)) s) ;; task_step x r) (fun _ s' => tasked i x s s') s.
Proof.
  intros Hi. wsteps.
  assert (forall ts s', flora_cli s' = flora_cli s -> same_place (pl s) (pl s') -> gabages s' = gabages s ->
    cli s' = cli s -> connected s' = connected s -> working s' = working s ->
    joinable s' = match x with TJoin _ => false | _ => joinable s end ->
    cg_mutex s' = match x with TClose _ _ => true | TClosing _ _ => false | _ => cg_mutex s end ->
    (exists rs, requests s' = requests s ++ rs) ->
    in_callback s' = match x with TReturn c => in_callback s ∖ {[c]} | _ => in_callback s end ->
    tasks s' = delete i (tasks s) ++ ts -> follows x ts -> tasked i x s s') as Hgo by (intros; split; eauto).
  assert (follows x [] -> forall s', flora_cli s' = flora_cli s -> same_place (pl s) (pl s') -> gabages s' = gabages s ->
    cli s' = cli s -> connected s' = connected s -> working s' = working s ->
    joinable s' = match x with TJoin _ => false | _ => joinable s end ->
    cg_mutex s' = match x with TClose _ _ => true | TClosing _ _ => false | _ => cg_mutex s end ->
    (exists rs, requests s' = requests s ++ rs) ->
    in_callback s' = match x with TReturn c => in_callback s ∖ {[c]} | _ => in_callback s end ->
    tasks s' = delete i (tasks s) -> tasked i x s s') as Hend.
  { intros Hf s' ??????????. intros Ht. apply (Hgo [] s'); try done. by rewrite app_nil_r. }
  assert (exists rs, requests s = requests s ++ rs) as Hrs by (exists []; by rewrite app_nil_r).
  destruct x as [c rq|rq code|c h n msg ty|c k n msg|c|c from|c from|c|from];
    unfold task_step, request_to, destroy_client, notify_conn, client_close, emit, spawn; wsteps.
  - destruct (is_message rq); [case_bool_decide|]; wsteps.
    + apply (Hgo [TDestroy rq r]); try done; [by left|by eexists|]. split; try done. apply Forall_singleton; by left.
    + apply Hend; try done; easy_goal.
    + apply Hend; try done; easy_goal.
  - apply Hend; try done; easy_goal.
  - apply (Hgo [TReturn c]); try done; [by left|]. split; try done; [apply Forall_singleton; by left|].
    simpl. intros c' ->. right. exists (TReturn c'). split; [by left|done].
  - apply (Hgo [TReturn c]); try done; [by left|]. split; try done; [apply Forall_singleton; by left|].
    simpl. intros c' ->. right. exists (TReturn c'). split; [by left|done].
  - apply Hend; try done; [|by left]. split; try done. simpl. intros c' ->. by left.
  - apply (Hgo [TClosing c from]); try done; [by left|]. split; try done;
      [apply Forall_singleton; by right|apply list_elem_of_singleton; done].
  - destruct c as [c|]; [case_bool_decide|]; wsteps.
    + apply (Hgo [TDetached c; TJoin from]); try done; [by left|simpl; by rewrite <- app_assoc|].
      split; try done. apply Forall_cons; split; [by left|]. apply Forall_singleton; by right.
    + apply (Hgo [TJoin from]); try done; [by left|by eexists|]. split; try done. apply Forall_singleton; by right.
    + apply (Hgo [TJoin from]); try done; [by left|]. split; try done. apply Forall_singleton; by right.
  - apply Hend; try done; easy_goal.
  - apply Hend; try done; easy_goal.
Qed.

(** [close], up to the lock of [cg_mutex]. *)
Record closed_by (from : option nat) s s' : Prop := {
  cb_flora : flora_cli s' = None;
  cb_place : pl s' = notify (pl s);
  cb_gabages : gabages s' = gabages s;
  cb_cli : cli s' = cli s;
  cb_connected : connected s' = connected s;
  cb_working : working s' = false;
  cb_joinable : joinable s' = joinable s;
  cb_mutex : cg_mutex s' = cg_mutex s;
  cb_requests : requests s' = requests s;
  cb_calls : in_callback s' = in_callback s;
  cb_tasks : tasks s' = tasks s ++ [TClose (flora_cli s) from]
}.

Lemma close_done from s :
  wp (close from) (fun _ s' => if working s then closed_by from s s' else mild s s') s.
Proof.
  unfold close, notify_conn, spawn. wsteps. destruct (working s); wsteps; [by split|]. unfold emit. wsteps. mild_same.
Qed.

(** ** What a step does *)

Lemma exec_wlp s lb s' (Q : t H K caps -> Prop) :
  exec (Running s) lb = Some (Running s') -> (forall m, exec_agent s lb = Some m -> wlp m (fun _ => Q) s) -> Q s'.
Proof.
  simpl. destruct (exec_agent s lb) as [m|]; [|done]. simpl. intros He Hw. specialize (Hw m eq_refl). unfold wpx in Hw.
  destruct (m s) as [[[] s1]|u]; [|done]. by injection He as <-.
Qed.

(** Only an agent that was never started or whose [run] has ended is started. *)
Definition restarted s s' : Prop :=
  (pl s = Idle \/ pl s = Exited) /\ pl s' = Starting /\ flora_cli s' = flora_cli s /\ connected s' = connected s /\
  cg_mutex s' = cg_mutex s /\ tasks s' = tasks s /\ in_callback s' = in_callback s.

Lemma label_did s lb s' :
  exec (Running s) lb = Some (Running s') ->
  match lb with
  | LRun r => runnable s = true /\ run_step r s = Done (tt, s')
  | LStart _ => restarted s s'
  | LClose from => if working s then closed_by from s s' else mild s s'
  | LTask i r => exists x, tasks s !! i = Some x /\ ready x s = true /\ tasked i x s s'
  | _ => mild s s'
  end.
Proof.
  intros He. destruct (mild_label lb) eqn:Hm.
  { assert (mild s s') as Hs; [|by destruct lb]. apply (exec_wlp s lb s' _ He). intros m. by apply label_mild. }
  destruct lb as [| | | | |b| | | |from| | | |i r|r| |]; try done; simpl in He.
  - destruct (bool_decide (pl s = Idle \/ pl s = Exited)) eqn:Hp; simpl in He.
    + apply bool_decide_eq_true in Hp. destruct b; [by injection He as <-|].
      revert He. unfold start, mbind, M_bind, gets. destruct (joinable s); [done|]. by intros [= <-].
    + destruct (negb b && joinable s) eqn:Hb; [|done]. apply andb_true_iff in Hb as [Hb Hj]. revert He.
      unfold start, mbind, M_bind, gets. destruct b; [done|]. simpl. by rewrite Hj.
  - assert (forall o : option unit, exec (Running s) (LClose from) = Some (Running s') ->
      if working s then closed_by from s s' else mild s s') as Hc; [|by apply (Hc None)].
    intros _ Hx. apply (exec_wlp s (LClose from) s' (fun s' => if working s then closed_by from s s' else mild s s') Hx).
    intros m Hm'. assert (m = close from) as -> by (simpl in Hm'; destruct from; repeat case_match; by simplify_eq).
    eapply wpx_weaken; [apply close_done|done].
  - destruct (tasks s !! i) as [x|] eqn:Hi; [|done]. exists x. split; [done|]. simpl in He.
    destruct (ready x s); [|done]. split; [done|]. pose proof (label_tasked i x r s Hi) as Hw.
    destruct (wp_done _ _ _ Hw) as ([] & s1 & Hd & Ht). simpl in He. rewrite Hd in He. by injection He as <-.
  - destruct (runnable s); [|done]. split; [done|]. simpl in He. destruct (run_step r s) as [[[] s1]|]; [|done].
    by injection He as <-.
Qed.

(** ** Who holds the mutex, and what callbacks are for *)

(** [cg_mutex] is locked by [clean_gabages] or by a thread in [close], and a receive thread
    in a callback is one of the tasks. *)
Record tidy s : Prop := {
  td_lock : cg_mutex s = true -> (exists i, pl s = Cleaning i) \/ exists c from, TClosing c from ∈ tasks s;
  td_calls c : c ∈ in_callback s -> exists x, x ∈ tasks s /\ in_call c x
}.

Lemma place_cleaning (p p' : run_place) i : same_place p p' -> p = Cleaning i -> p' = Cleaning i.
Proof. intros [->| ->]; [done|]. by intros ->. Qed.

Lemma mild_tidy s s' : tidy s -> mild s s' -> tidy s'.
Proof.
  intros [Hl Hc] Hm. pose proof (mi_tasks _ _ Hm) as (ts & Ht & _). split.
  - rewrite (mi_mutex _ _ Hm). intros [[i Hi]|(c & from & Hin)]%Hl; [left; exists i|right; exists c, from].
    + eapply place_cleaning; [apply (mi_place _ _ Hm)|done].
    + rewrite Ht. set_solver.
  - intros c [Hin|?]%(mi_calls _ _ Hm); [|done]. apply Hc in Hin as (x & Hx & ?). exists x. rewrite Ht. set_solver.
Qed.

Lemma tasked_tidy i x s s' : tidy s -> tasks s !! i = Some x -> tasked i x s s' -> tidy s'.
Proof.
  intros [Hl Hc] Hi Ht. pose proof (ta_tasks _ _ _ _ Ht) as (ts & Hts & [_ _ Hcall Hlock]). split.
  - rewrite (ta_mutex _ _ _ _ Ht). intros Hm. assert ((exists c f, x = TClose c f) \/ cg_mutex s = true /\ forall c f, x <> TClosing c f)
      as [(c & f & ->)|[Hg Hne]].
    { destruct x; try (right; by split). left. eauto. }
    + right. exists c, f. rewrite Hts. set_solver.
    + destruct (Hl Hg) as [[j Hj]|(c & f & Hin)]; [left; exists j|right; exists c, f].
      * eapply place_cleaning; [apply (ta_place _ _ _ _ Ht)|done].
      * rewrite Hts. destruct (tasks_delete _ _ _ _ Hi Hin) as [He|?]; [by destruct (Hne c f)|set_solver].
  - intros c Hin. rewrite (ta_calls _ _ _ _ Ht) in Hin.
    assert (c ∈ in_callback s /\ x <> TReturn c) as [Hin' Hne] by (destruct x; set_solver).
    apply Hc in Hin' as (k & Hk & Hck). destruct (tasks_delete _ _ _ _ Hi Hk) as [->|?].
    + destruct (Hcall c Hck) as [|(y & ? & ?)]; [done|]. exists y. rewrite Hts. set_solver.
    + exists k. rewrite Hts. set_solver.
Qed.

Lemma closed_tidy from s s' : tidy s -> closed_by from s s' -> tidy s'.
Proof.
  intros [Hl Hc] Hb. split.
  - rewrite (cb_mutex _ _ _ Hb). intros [[i Hi]|(c & f & Hin)]%Hl; [left; exists i|right; exists c, f].
    + by rewrite (cb_place _ _ _ Hb), Hi.
    + rewrite (cb_tasks _ _ _ Hb). set_solver.
  - intros c. rewrite (cb_calls _ _ _ Hb). intros (x & Hx & ?)%Hc. exists x. rewrite (cb_tasks _ _ _ Hb). set_solver.
Qed.

(** The thread of [run] leaves the other threads alone. *)
Lemma run_others r s s' :
  run_step r s = Done (tt, s') ->
  tasks s' = tasks s /\ in_callback s' = in_callback s /\ joinable s' = joinable s /\
  (cg_mutex s' = true -> (exists i, pl s' = Cleaning i) \/ cg_mutex s = true /\ forall i, pl s <> Cleaning i).
Proof.
  intros Hr. assert (wlp (run_step r) (fun _ s' => tasks s' = tasks s /\ in_callback s' = in_callback s /\
    joinable s' = joinable s /\
    (cg_mutex s' = true -> (exists i, pl s' = Cleaning i) \/ cg_mutex s = true /\ forall i, pl s <> Cleaning i)) s) as Hw.
  2: { unfold wpx in Hw. by rewrite Hr in Hw. }
  clear Hr. unfold run_step, goto, emit, request_to, notify_start. wsteps. destruct (pl s) as [| | | |[n|]|[n|]| |w|w| |i|] eqn:Hp;
    try (repeat (wsteps; try case_match); try done; split_and!; simpl; eauto; fail).
  unfold wpx. rewrite clean_step_eq. destruct (gabages s !! i) as [[c|]|]; simpl; split_and!; try done; intros _; left; eauto.
Qed.

Lemma tidy_step s lb s' : tidy s -> exec (Running s) lb = Some (Running s') -> tidy s'.
Proof.
  intros Ht Hd%label_did. destruct lb as [| | | | |b| | | |from| | | |i r|r| |]; try by eapply mild_tidy.
  - destruct Hd as (Hp & Hp' & _ & _ & Hg & Hts & Hc), Ht as [Hl Hcs]. split; [|by rewrite Hc, Hts].
    rewrite Hg, Hts. intros [[i Hi]|?]%Hl; [destruct Hp; congruence|by right].
  - destruct (working s); [by eapply closed_tidy|by eapply mild_tidy].
  - destruct Hd as (x & Hi & _ & Hd). by eapply tasked_tidy.
  - destruct Hd as [_ (Hts & Hc & _ & Hg)%run_others], Ht as [Hl Hcs]. split; [|by rewrite Hc, Hts].
    intros [?|[Hm Hn]]%Hg; [by left|]. rewrite Hts. apply Hl in Hm as [[i Hi]|?]; [by destruct (Hn i)|by right].
Qed.

(** ** The clients the agent has published *)

(** The clients published since [run] was called: one more when a step puts a new client in
    [flora_cli], and none when [run] begins. *)
Definition track s s' l : list nat :=
  if bool_decide (pl s = Starting /\ pl s' <> Starting) then []
  else match flora_cli s' with
       | Some c => if bool_decide (flora_cli s = Some c) then l else l ++ [c]
       | None => l
       end.

(** A run of the agent, orderly, to [s], and the clients it published. *)
Inductive ran : list nat -> t H K caps -> Prop :=
  | ran_new : ran [] new
  | ran_step l s lb s' :
      ran l s -> orderly s lb -> exec (Running s) lb = Some (Running s') -> ran (track s s' l) s'.

(** Where [run] is in its loop. *)
Definition in_loop (p : run_place) : bool := match p with Idle | Starting | Exited => false | _ => true end.

Record tracked l s : Prop := {
  tr_nodup : NoDup l;
  tr_bound : Forall (fun c => c < connected s)%nat l;
  tr_gabages : in_loop (pl s) = true -> gabages s = Some <$> l;
  tr_cli : building (pl s) = true -> exists c, cli s = Some c /\ (c < connected s)%nat /\ c ∉ l;
  tr_flora c : flora_cli s = Some c -> c ∈ l
}.

Lemma track_same s s' l :
  flora_cli s' = flora_cli s \/ flora_cli s' = None -> (pl s = Starting -> pl s' = Starting) -> track s s' l = l.
Proof.
  intros Hf Hp. unfold track. rewrite bool_decide_false by naive_solver. destruct Hf as [->| ->]; [|done].
  destruct (flora_cli s); [|done]. by rewrite bool_decide_true.
Qed.

Lemma same_starting (p p' : run_place) : same_place p p' -> p = Starting -> p' = Starting.
Proof. intros [->| ->]; [done|]. by intros ->. Qed.

(** A step that publishes nothing and leaves what [run] has to itself. *)
Lemma tracked_frame l s s' :
  tracked l s -> flora_cli s' = flora_cli s \/ flora_cli s' = None -> same_place (pl s) (pl s') ->
  gabages s' = gabages s -> cli s' = cli s -> connected s' = connected s -> tracked (track s s' l) s'.
Proof.
  intros [Tn Tb Tg Tc Tf] Hf Hp Hg Hc Hn. rewrite track_same by (done || by apply same_starting).
  assert (in_loop (pl s') = in_loop (pl s) /\ building (pl s') = building (pl s)) as [El Eb]
    by (destruct Hp as [->| ->]; [done|]; by destruct (pl s)).
  split; rewrite ?El, ?Eb, ?Hg, ?Hc, ?Hn; try done. intros c Hfc. destruct Hf as [Hf|Hf]; rewrite Hf in Hfc; auto; done.
Qed.

Lemma tracked_run l s r s' : agent_ok s -> tracked l s -> run_step r s = Done (tt, s') -> tracked (track s s' l) s'.
Proof.
  intros Hok Htr Hr. pose proof Htr as [Tn Tb Tg Tc Tf].
  assert (flora_cli s = None \/ exists w, pl s = Wait w) as Hfl.
  { destruct (flora_cli s) as [c|] eqn:Hc; [right|by left]. by apply (ok_wait s Hok c Hc). }
  assert (wlp (run_step r) (fun _ s' => tracked (track s s' l) s') s) as Hw.
  2: { unfold wpx in Hw. by rewrite Hr in Hw. }
  clear Hr. unfold run_step, goto, emit, request_to, notify_start. wsteps.
  assert (forall s', flora_cli s' = flora_cli s \/ flora_cli s' = None -> pl s <> Starting -> connected s' = connected s ->
    (in_loop (pl s') = true -> gabages s' = Some <$> l) ->
    (building (pl s') = true -> building (pl s) = true /\ cli s' = cli s) -> tracked (track s s' l) s') as Hmove.
  { intros s1 Hf Hs Hn Hg Hb. rewrite track_same by (done || by intros ?). split; rewrite ?Hn; try done.
    - intros [Hb' ->]%Hb. by apply Tc.
    - intros c Hfc. destruct Hf as [Hf|Hf]; rewrite Hf in Hfc; auto; done. }
  assert (tracked (track s s l) s) as Hsame by (apply tracked_frame; auto; by left).
  destruct (pl s) as [| | | |it|it| |w|w| |i|] eqn:Hp; try (by wsteps).
  - destruct Hfl as [Hfl|[? ?]]; [|done]. wsteps. unfold track. simpl. rewrite Hp, bool_decide_true by done.
    split; simpl; try done; try constructor. intros c. by rewrite Hfl.
  - wsteps. destruct (working s); wsteps; apply Hmove; simpl; auto; done.
  - destruct Hfl as [Hfl|[? ?]]; [|done]. case_bool_decide; wsteps; [apply Hmove; simpl; auto|].
    unfold track. simpl. rewrite Hp, bool_decide_false by (by intros [? _]). rewrite Hfl. split; simpl; auto.
    + eapply Forall_impl; [exact Tb|]. simpl. lia.
    + intros _. exists (connected s). split_and!; [done|lia|]. intros Hin. rewrite Forall_forall in Tb. apply Tb in Hin. lia.
  - destruct it as [n|]; wsteps; [repeat (case_match; wsteps; try done)|]; apply Hmove; simpl; auto; done.
  - destruct it as [n|]; wsteps; [repeat (case_match; wsteps; try done)|]; apply Hmove; simpl; auto; done.
  - destruct Hfl as [Hfl|[? ?]]; [|done]. destruct (Tc eq_refl) as (c & Hc & Hlt & Hnew). wsteps. unfold track. simpl.
    rewrite Hp, bool_decide_false by (by intros [? _]). rewrite Hc, Hfl, bool_decide_false by done. split; simpl.
    + apply NoDup_app. split_and!; [done| |apply NoDup_singleton]. by intros ? ? ->%list_elem_of_singleton.
    + apply Forall_app. split; [done|by constructor].
    + intros _. rewrite Tg by done. by rewrite fmap_app.
    + done.
    + intros ? [= <-]. set_solver.
  - wsteps. apply Hmove; simpl; auto; done.
  - wsteps. apply Hmove; simpl; auto; done.
  - wsteps. apply Hmove; simpl; auto; done.
  - unfold wpx. rewrite clean_step_eq. destruct (gabages s !! i) as [[c|]|]; apply Hmove; simpl; auto; done.
Qed.

Lemma ran_tracked l s : ran l s -> agent_ok s /\ tidy s /\ tracked l s.
Proof.
  induction 1 as [|l s lb s' Hr (Hok & Htd & Htr) Ho He].
  { split_and!; [apply new_ok|by split|by split; try done; constructor]. }
  split_and!; [|by eapply tidy_step|].
  - apply (exec_wlp s lb s' agent_ok He). intros m Hm. eapply wpx_weaken; [by apply (label_ok s lb)|done].
  - apply label_did in He. destruct lb as [| | | | |b| | | |from| | | |i r|r| |]; try by destruct He; apply tracked_frame; auto.
    + destruct He as (Hp & Hp' & Hf & Hc & _). rewrite track_same by (auto || (intros; destruct Hp; congruence)).
      destruct Htr as [Tn Tb Tg Tc Tf]. split; rewrite ?Hp', ?Hc, ?Hf; try done.
    + destruct (working s); destruct He; apply tracked_frame; auto. by right.
    + destruct He as (x & _ & _ & []). apply tracked_frame; auto.
    + destruct He as [_ He]. by eapply tracked_run.
Qed.

(** ** Reconnecting *)

(** A run from [s0] in which the agent is not started again: how many of its steps are
    [mine], and the requests these made. *)
Inductive turns (mine : t H K caps -> label H K caps -> bool) s0 : nat -> list (nat * request caps) -> t H K caps -> Prop :=
  | turns_refl : turns mine s0 0 [] s0
  | turns_step k rs s lb s' :
      turns mine s0 k rs s -> (forall b, lb <> LStart b) -> exec (Running s) lb = Some (Running s') ->
      turns mine s0 (if mine s lb then S k else k)
        (if mine s lb then rs ++ drop (length (requests s)) (requests s') else rs) s'.

(** The steps of [run]. *)
Definition of_run s lb : bool := match lb with LRun _ => true | _ => false end.

(** A notified [run], in one of its two waits. *)
Definition awake s : Prop := pl s = Wait true \/ pl s = WaitFor true.

(** Where [run] is [k] of its own steps after it woke, with [n] clients to close. *)
Definition at_turn (n k : nat) s : Prop :=
  match k with
  | O => awake s
  | S O => pl s = Unlocked
  | S (S i) =>
      if decide (i <= n)%nat then pl s = Cleaning i
      else if decide (i = S n) then pl s = Top
      else if decide (i = S (S n)) then pl s = Connecting \/ pl s = Exited else True
  end.

(** What [run] may have to wait for: a thread in [close], or a callback of the client it is
    to close. *)
Definition held_up l s : Prop :=
  (pl s = Unlocked /\ exists c from, TClosing c from ∈ tasks s) \/
  exists i c, pl s = Cleaning i /\ l !! i = Some c /\ exists x, x ∈ tasks s /\ in_call c x.

(** The next round of the loop, or the end of [run]. *)
Definition next_round s s' : Prop :=
  if working s
  then pl s' = Connecting /\ gabages s' = gabages s /\
       events s' = events s ++ [Connect (uri (options s)) (cliopts s) (mon_callback (options s))]
  else pl s' = Exited.

(** What is kept [k] steps after [run] woke. *)
Record waking l (k : nat) (rs : list (nat * request caps)) s : Prop := {
  wk_tidy : tidy s;
  wk_turn : (k <= length l + 4)%nat -> at_turn (length l) k s;
  wk_flora : (k <= length l + 4)%nat -> pl s = Wait true \/ flora_cli s = None;
  wk_gabages : (k <= length l + 3)%nat -> gabages s = Some <$> l;
  wk_requests : (k <= length l + 4)%nat -> rs = (fun c => (c, Close)) <$> take (k - 2) l
}.

Lemma waking_frame l k rs s s' :
  waking l k rs s -> tidy s' -> flora_cli s' = flora_cli s \/ flora_cli s' = None -> same_place (pl s) (pl s') ->
  gabages s' = gabages s -> waking l k rs s'.
Proof.
  intros [_ Ht Hf Hg Hr] Htd Hfl Hp Hgb. split; try done.
  - intros Hk. specialize (Ht Hk). unfold at_turn, awake in *.
    assert (forall p, notify p = p -> pl s = p -> pl s' = p) as Hkeep by (intros p Hn Hs; destruct Hp as [->| ->]; congruence).
    destruct k as [|[|i]]; [destruct Ht; [left|right]; by apply Hkeep|by apply Hkeep|].
    repeat case_decide; try (by apply Hkeep); try done. destruct Ht; [left|right]; by apply Hkeep.
  - intros Hk. destruct (Hf Hk) as [Hw|Hn]; [left|right; destruct Hfl; congruence].
    destruct Hp as [->| ->]; by rewrite Hw.
  - intros Hk. rewrite Hgb. auto.
Qed.

Lemma at_turn_place n k s p : at_turn n k s -> pl s = p -> (k <= n + 4)%nat ->
  match p with
  | Wait true | WaitFor true => k = 0%nat
  | Unlocked => k = 1%nat
  | Cleaning i => k = S (S i) /\ (i <= n)%nat
  | Top => k = (n + 3)%nat
  | Connecting | Exited => k = (n + 4)%nat
  | _ => False
  end.
Proof.
  unfold at_turn, awake. intros Ht <- Hk. destruct k as [|[|i]]; [by destruct Ht as [->| ->]|by rewrite Ht|].
  repeat case_decide; try (rewrite Ht; lia); [|lia]. destruct Ht as [->| ->]; lia.
Qed.

Lemma waking_run l k rs s r s' :
  waking l k rs s -> tidy s' -> runnable s = true -> run_step r s = Done (tt, s') ->
  waking l (S k) (rs ++ drop (length (requests s)) (requests s')) s'.
Proof.
  intros [_ Ht Hf Hg Hr] Htd Hrun He. destruct (decide (k <= length l + 3)%nat) as [Hk|Hk].
  2: { split; try done; lia. }
  specialize (Ht ltac:(lia)). specialize (Hf ltac:(lia)). specialize (Hg Hk). specialize (Hr ltac:(lia)).
  pose proof (at_turn_place _ _ _ (pl s) Ht eq_refl ltac:(lia)) as Hpk.
  unfold run_step, mbind, M_bind, gets in He. unfold runnable in Hrun.
  destruct (pl s) as [| | | |it|it| |[]|[]| |i|] eqn:Hp; try done; try lia.
  - (* Top *) subst k. assert (take (length l + 3 - 2) l = l) as Hl by (apply take_ge; lia). rewrite Hl in Hr.
    assert (requests s' = requests s /\ flora_cli s' = flora_cli s /\ (pl s' = Connecting \/ pl s' = Exited)) as (Hq & Hfs & Hps).
    { destruct (working s); injection He as <-; simpl; auto. }
    split; [done|..].
    + intros _. replace (S (length l + 3)) with (S (S (length l + 2))) by lia. simpl.
      repeat case_decide; try lia. done.
    + intros _. right. destruct Hf as [?|Hf]; [done|]. congruence.
    + lia.
    + intros _. rewrite Hq, drop_all, app_nil_r, Hr, take_ge by lia. done.
  - (* WaitFor *) subst k. injection He as <-. destruct Hf as [?|Hf]; [done|]. split; simpl; auto.
    intros _. rewrite drop_all, app_nil_r. by rewrite Hr.
  - (* Wait *) subst k. injection He as <-. split; simpl; auto. intros _. rewrite drop_all, app_nil_r. by rewrite Hr.
  - (* Unlocked *) subst k. injection He as <-. destruct Hf as [?|Hf]; [done|]. split; simpl; auto.
    intros _. rewrite drop_all, app_nil_r. by rewrite Hr.
  - (* Cleaning *) destruct Hpk as [-> Hi]. destruct Hf as [?|Hf]; [done|]. rewrite clean_step_eq, Hg, list_lookup_fmap in He.
    replace (S (S i) - 2)%nat with i in Hr by lia.
    destruct (l !! i) as [c|] eqn:Hc; simpl in He; injection He as <-; simpl.
    + apply lookup_lt_Some in Hc as Hlt. split; simpl; auto.
      * intros _. by rewrite decide_True by lia.
      * intros _. rewrite drop_app_length, Hr. erewrite take_S_r by done. by rewrite fmap_app.
    + apply lookup_ge_None in Hc. assert (i = length l) as -> by lia. split; simpl; auto.
      * intros _. rewrite decide_False by lia. by rewrite decide_True.
      * intros _. rewrite drop_all, app_nil_r, Hr, !take_ge by lia. done.
Qed.

Lemma turns_waking l s k rs s' : waking l 0 [] s -> turns of_run s k rs s' -> waking l k rs s'.
Proof.
  intros Hw. induction 1 as [|k rs s1 lb s2 Ht IH Hn He]; [done|].
  pose proof (tidy_step _ _ _ (wk_tidy _ _ _ _ IH) He) as Htd. apply label_did in He.
  destruct lb as [| | | | |b| | | |from| | | |i r|r| |]; simpl; try by destruct He; eapply waking_frame; eauto.
  - by destruct (Hn b).
  - destruct (working s1); destruct He; eapply waking_frame; eauto. by right.
  - destruct He as (x & _ & _ & []). eapply waking_frame; eauto.
  - destruct He. by eapply waking_run.
Qed.

(** The places on the way from a wait to the end of the round. *)
Definition returning s : Prop :=
  match pl s with Wait w | WaitFor w => w = true | Unlocked | Cleaning _ | Top => True | _ => False end.

Lemma exec_run s r : runnable s = true -> exec (Running s) (LRun r) = Some (result_of (run_step r s)).
Proof. intros Hr. simpl. by rewrite Hr. Qed.

(** On this way [run] can take its next step, unless it is held up. *)
Lemma returning_moves l s :
  tidy s -> gabages s = Some <$> l -> returning s ->
  held_up l s \/ exists s', exec (Running s) (LRun 0) = Some (Running s') /\ (pl s = Top -> next_round s s').
Proof.
  intros [Hl Hc] Hg Hp. unfold returning in Hp.
  assert (runnable s = true -> forall s', run_step 0 s = Done (tt, s') -> (pl s = Top -> next_round s s') ->
    held_up l s \/ exists s', exec (Running s) (LRun 0) = Some (Running s') /\ (pl s = Top -> next_round s s')) as Hgo.
  { intros Hr s' He Hn. right. exists s'. split; [|done]. by rewrite exec_run, He. }
  unfold run_step, mbind, M_bind, gets in Hgo. unfold runnable in Hgo.
  destruct (pl s) as [| | | |it|it| |w|w| |i|] eqn:Hpl; try done; try subst w.
  - unfold next_round in *. destruct (working s); by eapply Hgo.
  - by eapply Hgo.
  - by eapply Hgo.
  - destruct (cg_mutex s) eqn:Hm; [|by eapply Hgo]. left. left. split; [done|].
    destruct (Hl eq_refl) as [[i Hi]|?]; [congruence|done].
  - rewrite clean_step_eq, Hg, list_lookup_fmap in Hgo. destruct (l !! i) as [c|] eqn:Hi; simpl in Hgo; [|by eapply Hgo].
    unfold blocked in Hgo. case_bool_decide as Hb; [|by eapply Hgo]. left. right. exists i, c. split_and!; [done..|].
    by apply Hc.
Qed.

(** C21. A woken agent connects again. From any state it can reach in which [run] was
    notified in its wait, whatever the other threads do, [run] withdraws its client in its
    first step, closes in its own steps the clients it has published since it was called,
    each exactly once, in order and without forgetting any, and is at the end of its loop
    after as many steps as there are such clients and three more; the next one connects again
    with the options of that moment, keeping the clients, or leaves [run] when the agent was
    closed. It can take each of these steps, unless a thread in [close] holds [cg_mutex] or
    the client at hand is in a callback. *)
Theorem woken_reconnects l s k rs s' :
  ran l s -> awake s -> turns of_run s k rs s' -> (k <= length l + 4)%nat ->
  NoDup l /\ at_turn (length l) k s' /\ (pl s' = Wait true \/ flora_cli s' = None) /\
  rs = (fun c => (c, Close)) <$> take (k - 2) l /\
  ((k < length l + 4)%nat -> gabages s' = Some <$> l /\
     (held_up l s' \/ exists s2, exec (Running s') (LRun 0) = Some (Running s2) /\ (pl s' = Top -> next_round s' s2))).
Proof.
  intros Hr Ha Ht Hk. destruct (ran_tracked _ _ Hr) as (Hok & Htd & Htr).
  assert (waking l 0 [] s) as Hw.
  { split; try done.
    - intros _. destruct Ha as [?|Ha]; [by left|right]. apply (flora_waits s Hok). congruence.
    - intros _. apply Htr. by destruct Ha as [->| ->]. }
  destruct (turns_waking _ _ _ _ _ Hw Ht) as [Wtd Wt Wf Wg Wr]. split; [apply Htr|]. split_and!; auto.
  intros Hlt. split; [apply Wg; lia|]. apply returning_moves; [done|apply Wg; lia|]. specialize (Wt Hk).
  unfold at_turn, awake in Wt. unfold returning. destruct k as [|[|i]]; [by destruct Wt as [->| ->]|by rewrite Wt|].
  repeat case_decide; try (by rewrite Wt); lia.
Qed.

(** ** Closing *)

(** The steps of [run] and of a thread in [close]. *)
Definition of_closing s lb : bool :=
  match lb with
  | LRun _ => true
  | LTask i _ => match tasks s !! i with Some x => bool_decide (closing_rank x <> 0%nat) | None => false end
  | _ => false
  end.

(** How many steps [run] still makes to its end, with [n] clients. *)
Definition run_left (n : nat) (p : run_place) : nat :=
  match p with
  | Wait _ | WaitFor _ => n + 4
  | Unlocked => n + 3
  | Cleaning i => 2 + (n - i)
  | Top => 1
  | _ => 0
  end.

Definition steps_left l s : nat := (run_left (length l) (pl s) + closing_sum (tasks s))%nat.

(** How many of the clients are closed at a place of the loop. *)
Definition closed_upto l (p : run_place) : nat :=
  match p with Cleaning i => i | Top | Exited => length l | _ => 0 end.

(** The clients [l] without the first [i0] have been closed as far as [run] has got, since
    the requests were [R]. *)
Definition closed_since l (i0 : nat) (R : list (nat * request caps)) s : Prop :=
  exists rs, requests s = R ++ rs /\
    forall j c, l !! j = Some c -> (i0 <= j < closed_upto l (pl s))%nat -> (c, Close) ∈ rs.

(** What is kept once [close] has been called. *)
Record shutting l i0 R s : Prop := {
  sh_tidy : tidy s;
  sh_working : working s = false;
  sh_flora : flora_cli s = None;
  sh_place : returning s \/ pl s = Exited;
  sh_gabages : returning s -> gabages s = Some <$> l;
  sh_joinable : joinable s = true \/ pl s = Exited;
  sh_from : Forall (fun x => task_from x = None) (tasks s);
  sh_closer : closing_sum (tasks s) = 0%nat -> pl s = Exited /\ joinable s = false;
  sh_closed : closed_since l i0 R s
}.

Lemma returning_same s s' : returning s \/ pl s = Exited -> same_place (pl s) (pl s') -> pl s' = pl s.
Proof. unfold returning. intros Hp [->| ->]; [done|]. destruct (pl s); try done; by destruct Hp as [->|]. Qed.

Lemma closing_sum_app ts us : closing_sum (ts ++ us) = (closing_sum ts + closing_sum us)%nat.
Proof. apply sum_list_with_app. Qed.

Lemma closing_sum_zero ts : Forall (fun x => closing_rank x = 0%nat) ts -> closing_sum ts = 0%nat.
Proof. unfold closing_sum. induction 1 as [|x ts Hx _ IH]; simpl; [done|]. by rewrite Hx. Qed.

Lemma closing_sum_delete ts i x :
  ts !! i = Some x -> closing_sum ts = (closing_rank x + closing_sum (delete i ts))%nat.
Proof. intros Hi. unfold closing_sum. by rewrite (delete_Permutation _ _ _ Hi) at 1. Qed.

Lemma closing_sum_pos ts : closing_sum ts <> 0%nat -> exists x, x ∈ ts /\ closing_rank x <> 0%nat.
Proof.
  unfold closing_sum. induction ts as [|x ts IH]; simpl; [done|]. intros Hs.
  destruct (decide (closing_rank x = 0%nat)) as [Hx|Hx]; [|exists x; split; [by left|done]].
  destruct IH as (y & Hy & ?); [lia|]. exists y. split; [by right|done].
Qed.

Lemma rank_from x : closing_rank x = 0%nat -> task_from x = None.
Proof. by destruct x. Qed.

(** A step of a thread that is not [run]. *)
Lemma shutting_frame l i0 R s s' :
  shutting l i0 R s -> tidy s' -> working s' = false -> flora_cli s' = None -> same_place (pl s) (pl s') ->
  gabages s' = gabages s -> (joinable s' = joinable s \/ pl s = Exited) ->
  Forall (fun x => task_from x = None) (tasks s') ->
  (closing_sum (tasks s') = 0%nat -> pl s = Exited /\ joinable s' = false) ->
  (exists rs, requests s' = requests s ++ rs) -> shutting l i0 R s'.
Proof.
  intros [St Sw Sf Sp Sg Sj Sfr Sc Scl] Ht Hw Hf Hp Hg Hj Hfr Hc [qs Hq].
  pose proof (returning_same _ _ Sp Hp) as Hpl. assert (returning s' <-> returning s) as Hret by (unfold returning; by rewrite Hpl).
  split; try done.
  - rewrite Hpl, Hret. done.
  - rewrite Hg, Hret. done.
  - rewrite Hpl. destruct Hj as [->|?]; auto.
  - rewrite Hpl. done.
  - destruct Scl as (rs & Hr & Hall). exists (rs ++ qs). rewrite Hq, Hr, app_assoc, Hpl. split; [done|].
    intros j c Hj' Hlt. apply elem_of_app. left. by eapply Hall.
Qed.

Lemma shutting_mild l i0 R s s' : shutting l i0 R s -> tidy s' -> mild s s' -> shutting l i0 R s'.
Proof.
  intros Hs Ht [Mf Mp Mg Mc Mn Mw Mj Mm Mr (ts & Mt & Mrk) _]. apply (shutting_frame l i0 R s); try done.
  - rewrite Mw. apply Hs.
  - rewrite Mf. apply Hs.
  - by left.
  - rewrite Mt. apply Forall_app. split; [apply Hs|]. eapply Forall_impl; [exact Mrk|]. apply rank_from.
  - rewrite Mt, closing_sum_app, (closing_sum_zero ts Mrk), Nat.add_0_r, Mj. apply Hs.
  - exists []. by rewrite app_nil_r.
Qed.

Lemma shutting_task l i0 R i x s s' :
  shutting l i0 R s -> tidy s' -> tasks s !! i = Some x -> ready x s = true -> tasked i x s s' -> shutting l i0 R s'.
Proof.
  intros Hs Ht Hi Hr Hd. destruct (ta_tasks _ _ _ _ Hd) as (ts & Hts & [Frk Ffr _ _]).
  assert (forall f, x = TJoin f -> pl s = Exited) as Hjoin.
  { intros f ->. simpl in Hr. destruct (sh_joinable _ _ _ _ Hs) as [Hj|?]; [|done]. rewrite Hj in Hr. simpl in Hr.
    by apply bool_decide_eq_true in Hr. }
  assert (task_from x = None) as Hx.
  { pose proof (sh_from _ _ _ _ Hs) as Hf. rewrite Forall_forall in Hf. apply Hf. by eapply list_elem_of_lookup_2. }
  destruct Hd as [Df Dp Dg Dc Dn Dw Dj Dm Dq _ _]. apply (shutting_frame l i0 R s); try done.
  - rewrite Dw. apply Hs.
  - rewrite Df. apply Hs.
  - rewrite Dj. destruct x; try (by left). right. by eapply Hjoin.
  - rewrite Hts. apply Forall_app. split; [apply Forall_delete, Hs|]. eapply Forall_impl; [exact Ffr|]. simpl. intros y [?|?]; congruence.
  - rewrite Hts, closing_sum_app, Frk. intros Hz.
    pose proof (closing_sum_delete _ _ _ Hi) as Hsum. rewrite Dj. destruct (closing_rank x) as [|[|n]] eqn:Hrk; [| |lia].
    + destruct (sh_closer _ _ _ _ Hs) as [? ?]; [lia|]. split; [done|]. by destruct x.
    + destruct x; try done. split; [by eapply Hjoin|done].
Qed.

Lemma shutting_run l i0 R s r s' :
  shutting l i0 R s -> tidy s' -> runnable s = true -> run_step r s = Done (tt, s') -> shutting l i0 R s'.
Proof.
  intros Hs Ht Hrun He. destruct (run_others _ _ _ He) as (Hts & _ & Hj & _).
  destruct Hs as [St Sw Sf Sp Sg Sj Sfr Sc (rs & Hq & Scl)].
  destruct Sp as [Sp|Sp]; [|unfold runnable in Hrun; by rewrite Sp in Hrun]. specialize (Sg Sp).
  assert (closing_sum (tasks s) <> 0%nat) as Hz.
  { intros Hz. destruct (Sc Hz) as [Hp _]. unfold returning in Sp. by rewrite Hp in Sp. }
  assert (joinable s = true) as Hjt by (destruct Sj as [?|Hp]; [done|]; unfold returning in Sp; by rewrite Hp in Sp).
  unfold run_step, mbind, M_bind, gets in He. unfold returning in Sp.
  destruct (pl s) as [| | | |it|it| |w|w| |i|] eqn:Hp; try done; try subst w.
  - rewrite Sw in He. injection He as <-. split; simpl; auto; try done. exists rs. split; [done|]. simpl. intros j c Hjc Hlt.
    apply (Scl j c Hjc). simpl. lia.
  - injection He as <-. split; simpl; auto; try done; first [by left|exists rs; split; [done|]; simpl; lia].
  - injection He as <-. split; simpl; auto; try done; first [by left|exists rs; split; [done|]; simpl; lia].
  - injection He as <-. split; simpl; auto; try done; first [by left|exists rs; split; [done|]; simpl; lia].
  - rewrite clean_step_eq, Sg, list_lookup_fmap in He. destruct (l !! i) as [c|] eqn:Hc; simpl in He; injection He as <-.
    + split; simpl; auto; try done; try (by left). exists (rs ++ [(c, Close)]). simpl. rewrite Hq, app_assoc. split; [done|].
      intros j c' Hjc Hlt. apply elem_of_app. destruct (decide (j = i)) as [->|Hne].
      * right. rewrite Hc in Hjc. injection Hjc as <-. by left.
      * left. apply (Scl j c' Hjc). simpl. lia.
    + split; simpl; auto; try done; try (by left). exists rs. split; [done|]. intros j c' Hjc Hlt. apply (Scl j c' Hjc).
      apply lookup_ge_None in Hc. apply lookup_lt_Some in Hjc. simpl in *. lia.
Qed.

Lemma shutting_step l i0 R s lb s' :
  shutting l i0 R s -> (forall b, lb <> LStart b) -> exec (Running s) lb = Some (Running s') -> shutting l i0 R s'.
Proof.
  intros Hs Hn He. pose proof (tidy_step _ _ _ (sh_tidy _ _ _ _ Hs) He) as Htd. apply label_did in He.
  destruct lb as [| | | | |b| | | |from| | | |i r|r| |]; try by eapply shutting_mild.
  - by destruct (Hn b).
  - rewrite (sh_working _ _ _ _ Hs) in He. by eapply shutting_mild.
  - destruct He as (x & Hi & Hr & Hd). by eapply shutting_task.
  - destruct He. by eapply shutting_run.
Qed.

(** *** How many steps are left *)

(** The steps of [run] and of [close] use the steps left up; no other step adds to them. *)
Lemma steps_left_step l i0 R s lb s' :
  shutting l i0 R s -> (forall b, lb <> LStart b) -> exec (Running s) lb = Some (Running s') ->
  ((if of_closing s lb then 1 else 0) + steps_left l s' <= steps_left l s)%nat.
Proof.
  intros Hs Hn He. apply label_did in He. unfold steps_left.
  assert (mild s s' -> (run_left (length l) (pl s') + closing_sum (tasks s') <= run_left (length l) (pl s) + closing_sum (tasks s))%nat) as Hmild.
  { intros Hm. rewrite (returning_same _ _ (sh_place _ _ _ _ Hs) (mi_place _ _ Hm)).
    destruct (mi_tasks _ _ Hm) as (ts & -> & Hts). rewrite closing_sum_app, (closing_sum_zero _ Hts). lia. }
  destruct lb as [| | | | |b| | | |from| | | |i r|r| |]; simpl; try by apply Hmild.
  - by destruct (Hn b).
  - rewrite (sh_working _ _ _ _ Hs) in He. by apply Hmild.
  - destruct He as (x & Hi & _ & Hd). rewrite Hi.
    rewrite (returning_same _ _ (sh_place _ _ _ _ Hs) (ta_place _ _ _ _ Hd)), (closing_sum_delete _ _ _ Hi).
    destruct (ta_tasks _ _ _ _ Hd) as (ts & -> & [Frk _ _ _]). rewrite closing_sum_app, Frk. case_bool_decide; lia.
  - destruct He as [Hrun He]. destruct (run_others _ _ _ He) as (-> & _).
    assert (run_left (length l) (pl s') < run_left (length l) (pl s))%nat; [|lia].
    destruct (sh_place _ _ _ _ Hs) as [Sp|Sp]; [|unfold runnable in Hrun; by rewrite Sp in Hrun].
    pose proof (sh_gabages _ _ _ _ Hs Sp) as Sg. pose proof (sh_working _ _ _ _ Hs) as Sw. unfold returning in Sp.
    unfold run_step, mbind, M_bind, gets in He.
    destruct (pl s) as [| | | |it|it| |w|w| |i|]; try done.
    + rewrite Sw in He. injection He as <-. simpl. lia.
    + injection He as <-. simpl. lia.
    + injection He as <-. simpl. lia.
    + injection He as <-. simpl. lia.
    + rewrite clean_step_eq, Sg, list_lookup_fmap in He. destruct (l !! i) as [c|] eqn:Hc; simpl in He; injection He as <-; simpl; [|lia].
      apply lookup_lt_Some in Hc. lia.
Qed.

(** *** Somebody can move *)

(** [run], a thread in [close] or a callback in progress can take its next step. *)
Definition moves s : Prop :=
  exists lb s', (lb = LRun 0 \/ exists i x, lb = LTask i 0 /\ tasks s !! i = Some x /\
    (closing_rank x <> 0%nat \/ exists c, in_call c x)) /\ exec (Running s) lb = Some (Running s').

Lemma task_moves s x :
  x ∈ tasks s -> ready x s = true -> closing_rank x <> 0%nat \/ (exists c, in_call c x) -> moves s.
Proof.
  intros [i Hi]%list_elem_of_lookup Hr Hx. destruct (wp_done _ _ _ (label_tasked i x 0 s Hi)) as ([] & s' & Hd & _).
  exists (LTask i 0), s'. split; [right; by exists i, x|]. simpl. rewrite Hi. simpl. rewrite Hr. simpl. by rewrite Hd.
Qed.

Lemma callback_moves l i0 R s c x : shutting l i0 R s -> x ∈ tasks s -> in_call c x -> moves s.
Proof.
  intros Hs Hx Hc. apply (task_moves s x Hx); [|right; by exists c].
  destruct x; try done. simpl. apply forallb_forall. intros y Hy%list_elem_of_In. apply bool_decide_eq_true.
  pose proof (sh_from _ _ _ _ Hs) as Hf. rewrite Forall_forall in Hf. by rewrite (Hf y Hy).
Qed.

Lemma closing_moves l i0 R s c from : shutting l i0 R s -> TClosing c from ∈ tasks s -> moves s.
Proof.
  intros Hs Hx. destruct c as [c|]; [|by apply (task_moves s _ Hx); [|left]].
  destruct (blocked c s) eqn:Hb.
  - apply bool_decide_eq_true in Hb. destruct (td_calls _ (sh_tidy _ _ _ _ Hs) c Hb) as (y & Hy & Hc). by eapply callback_moves.
  - apply (task_moves s _ Hx); [|by left]. simpl. rewrite Hb. by rewrite orb_true_r.
Qed.

Lemma returning_shutting l i0 R s : shutting l i0 R s -> returning s -> moves s.
Proof.
  intros Hs Hp. destruct (returning_moves l s (sh_tidy _ _ _ _ Hs) (sh_gabages _ _ _ _ Hs Hp) Hp) as [[Hh|Hh]|(s' & He & _)].
  - destruct Hh as (_ & c & from & Hx). by eapply closing_moves.
  - destruct Hh as (i & c & _ & _ & x & Hx & Hc). by eapply callback_moves.
  - exists (LRun 0), s'. split; [by left|done].
Qed.

Lemma shutting_moves l i0 R s : shutting l i0 R s -> closing_sum (tasks s) <> 0%nat -> moves s.
Proof.
  intros Hs (x & Hx & Hrk)%closing_sum_pos. destruct (sh_place _ _ _ _ Hs) as [Hp|Hp]; [by eapply returning_shutting|].
  assert (forall c from, TClosing c from ∈ tasks s -> moves s) as Hclosing by (intros; by eapply closing_moves).
  destruct x as [| | | | |c from|c from| |from]; try done; [..|by eapply Hclosing|].
  - destruct (cg_mutex s) eqn:Hm.
    + destruct (td_lock _ (sh_tidy _ _ _ _ Hs) Hm) as [[i Hi]|(c' & f & ?)]; [congruence|by eapply Hclosing].
    + apply (task_moves s _ Hx); [simpl; by rewrite Hm|by left].
  - apply (task_moves s _ Hx); [|by left]. simpl. rewrite bool_decide_true by done. by rewrite orb_true_r.
Qed.

(** *** The theorem *)

(** [run] is past its connection, waiting or in the rest of its loop. *)
Definition settled (p : run_place) : Prop :=
  match p with Wait _ | WaitFor _ | Unlocked | Cleaning _ | Top => True | _ => False end.

Lemma close_shutting l s s0 :
  ran l s -> working s = true -> joinable s = true -> settled (pl s) ->
  Forall (fun x => closing_rank x = 0%nat) (tasks s) -> exec (Running s) (LClose None) = Some (Running s0) ->
  shutting l (closed_upto l (pl s)) (requests s) s0 /\ (steps_left l s0 <= length l + 7)%nat.
Proof.
  intros Hr Hw Hj Hp Hts He. destruct (ran_tracked _ _ Hr) as (Hok & Htd & Htr).
  pose proof (tidy_step _ _ _ Htd He) as Htd'. apply label_did in He. rewrite Hw in He.
  destruct He as [Cf Cp Cg Cc Cn Cw Cj Cm Cr Ccb Ct].
  assert (closing_sum (tasks s0) = 3%nat) as Hsum by (rewrite Ct, closing_sum_app, (closing_sum_zero _ Hts); done).
  assert (returning s0) as Hret by (unfold returning; rewrite Cp; by destruct (pl s)).
  split; [split; try done|].
  - by left.
  - intros _. rewrite Cg. apply Htr. by destruct (pl s).
  - left. congruence.
  - rewrite Ct. apply Forall_app. split; [|by repeat constructor]. eapply Forall_impl; [exact Hts|]. apply rank_from.
  - by rewrite Hsum.
  - exists []. rewrite app_nil_r. split; [done|]. intros j c Hc Hlt. rewrite Cp in Hlt.
    destruct (pl s); simpl in Hlt; lia.
  - unfold steps_left. rewrite Hsum, Cp. destruct (pl s); simpl; lia.
Qed.

Lemma shutting_turns l i0 R s0 n k rs s :
  shutting l i0 R s0 -> (steps_left l s0 <= n)%nat -> turns of_closing s0 k rs s ->
  shutting l i0 R s /\ (k + steps_left l s <= n)%nat.
Proof.
  intros Hs Hn. induction 1 as [|k rs s1 lb s2 Ht [IH Hk] Hl He]; [done|].
  split; [by eapply shutting_step|]. pose proof (steps_left_step _ _ _ _ _ _ IH Hl He). destruct (of_closing s1 lb); lia.
Qed.

(** C22. [close] ends the agent. Called, not in a callback, in any state the agent can reach
    in which [run] is past its connection (the other case is [close_while_connecting_waits]),
    its thread can be joined and no other thread is in [close], then at every later moment,
    whatever the other threads do, as long as the agent is not started again: no client is
    published; [run] and the closing thread have taken at most as many steps as there are
    clients and seven more; until [close] has returned, one of them, or a callback in
    progress, can take its next step; and once it has returned, [run] has ended and was
    joined, and all the clients published since it was called, without those it had closed
    in the round it was in, have been closed since. *)
Theorem close_returns l s s0 k rs s' :
  ran l s -> working s = true -> joinable s = true -> settled (pl s) ->
  Forall (fun x => closing_rank x = 0%nat) (tasks s) ->
  exec (Running s) (LClose None) = Some (Running s0) -> turns of_closing s0 k rs s' ->
  flora_cli s' = None /\ (k <= length l + 7)%nat /\
  if decide (closing_sum (tasks s') = 0%nat)
  then pl s' = Exited /\ joinable s' = false /\ exists rq, requests s' = requests s ++ rq /\
       forall c, c ∈ drop (closed_upto l (pl s)) l -> (c, Close) ∈ rq
  else moves s'.
Proof.
  intros Hr Hw Hj Hp Hts He Ht. destruct (close_shutting l s s0 Hr Hw Hj Hp Hts He) as [Hs Hn].
  destruct (shutting_turns _ _ _ _ _ _ _ _ Hs Hn Ht) as [Hs' Hk]. split; [apply Hs'|]. split; [lia|].
  case_decide as Hz; [|by eapply shutting_moves]. destruct (sh_closer _ _ _ _ Hs' Hz) as [He' Hj'].
  destruct (sh_closed _ _ _ _ Hs') as (rq & Hq & Hall). split_and!; [done..|]. exists rq. split; [done|].
  intros c [j Hc]%list_elem_of_lookup. rewrite lookup_drop in Hc. apply (Hall _ _ Hc). rewrite He'. simpl.
  apply lookup_lt_Some in Hc. lia.
Qed.
End Life.
