(* ===== verification/AgentScenario.v ===== *)
(** * The agent at work

    An agent with a subscription and a method connects, publishes its client, gets a
    message, loses the connection, and is closed. *)
From S2P Require Import Prelude Defs StrMap Agent AgentSpec AgentRun AgentClose AgentLife.
Import Agent AgentOps.

Abbreviation A := (t nat nat nat).
Abbreviation L := (label nat nat nat).

(** Orderly steps that can be checked by evaluation. *)
Definition plain (s : A) (lb : L) : bool :=
  match lb with
  | LConfig key ap => config_args key ap
  | LSubscribe _ _ | LUnsubscribe _ | LDeclareMethod _ _ | LRemoveMethod _ | LClose _ => negb (building (pl s))
  | LStart block => block || negb (joinable s)
  | LTask i _ => bool_decide (i = 0%nat)
  | _ => true
  end.

Lemma plain_orderly s lb : plain s lb = true -> orderly s lb.
Proof.
  destruct lb; simpl; try done; try by destruct (building (pl s)).
  - destruct block, (joinable s); auto.
  - rewrite bool_decide_eq_true. intros ->. unfold in_order. destruct (tasks s !! 0%nat); [|done].
    intros. by right.
Qed.

Fixpoint run_plain (s : A) (lbs : list L) : option A :=
  match lbs with
  | [] => Some s
  | lb :: lbs =>
      if plain s lb then
        match exec (Running s) lb with
        | Some (Running s') => run_plain s' lbs
        | _ => None
        end
      else None
  end.

Lemma run_plain_steps lbs : forall s s', run_plain s lbs = Some s' -> steps agent_step (Running s) (Running s').
Proof.
  induction lbs as [|lb lbs IH]; intros s s'; simpl; [intros [= <-]; constructor|].
  destruct (plain s lb) eqn:Hp; [|done].
  destruct (exec_agent s lb) as [m|] eqn:Hm; [|done]. simpl.
  destruct (m s) as [[[] s1]|u] eqn:Hs; [|done]. simpl. intros Hr.
  eapply steps_step; [|by apply IH]. exists s, lb. split_and!; [done| |by apply plain_orderly].
  simpl. rewrite Hm. simpl. by rewrite Hs.
Qed.

(** The agent up to its first published client. *)
Definition setup : list L :=
  [LConfig FLORA_AGENT_CONFIG_URI [VStr "unix:/tmp/flora.sock#agent"];
   LConfig FLORA_AGENT_CONFIG_KEEPALIVE [VU32 1000; VU32 2000];
   LSubscribe "news" 1%nat; LDeclareMethod "add" 2%nat; LStart false].

Definition connect_ok : list L :=
  [LRun 0; LRun 0; LRun FLORA_CLI_SUCCESS; LRun 0; LRun 0; LRun 0; LRun 0; LRun 0].

Definition state_after (lbs : list L) : A := default new (run_plain new lbs).

(** Published, with a further subscription still to be asked. *)
Definition published : A := state_after (setup ++ connect_ok ++ [LStarted; LSubscribe "sport" 3%nat]).

Lemma published_run :
  run_plain new (setup ++ connect_ok ++ [LStarted; LSubscribe "sport" 3%nat]) = Some published.
Proof. vm_compute. reflexivity. Qed.

Lemma agent_synced_witness :
  flora_cli published = Some 0%nat /\
  requests published = [(0%nat, Subscribe "news"); (0%nat, DeclareMethod "add")] /\
  tasks published = [TRequest 0%nat (Subscribe "sport")] /\
  exists s, Running published = Running s /\
    forall c, flora_cli s = Some c ->
      (exists w, pl s = Wait w) /\
      forall k n, n ∈ names k s <-> last (asked k n c s ++ queued k n c s) = Some true.
Proof.
  split_and!; [vm_compute; reflexivity..|].
  apply agent_synced. apply (run_plain_steps _ _ _ published_run).
Defined.

(** The service goes away; the client's receive thread says so. *)
Definition lost : A :=
  state_after (setup ++ connect_ok ++ [LStarted; LDisconnected 0%nat]).

(** The clients published in a sequence of steps. *)
Fixpoint published_by (l : list nat) (s : A) (lbs : list L) : list nat :=
  match lbs with
  | [] => l
  | lb :: lbs =>
      match exec (Running s) lb with
      | Some (Running s') => published_by (track s s' l) s' lbs
      | _ => l
      end
  end.

Lemma run_plain_ran lbs : forall l s s', ran l s -> run_plain s lbs = Some s' -> ran (published_by l s lbs) s'.
Proof.
  induction lbs as [|lb lbs IH]; intros l s s' Hr He; cbn [run_plain published_by] in *; [by injection He as <-|].
  destruct (plain s lb) eqn:Hp; [|done]. destruct (exec (Running s) lb) as [[s1|u]|] eqn:Hx; [|done..].
  apply (IH _ s1); [|done]. eapply ran_step; [exact Hr|by apply plain_orderly|exact Hx].
Qed.

(** A run in which the agent is not started again, with its own steps counted. *)
Fixpoint run_turns (mine : A -> L -> bool) (k : nat) (rs : list (nat * request nat)) (s : A) (lbs : list L) :
    option (nat * list (nat * request nat) * A) :=
  match lbs with
  | [] => Some (k, rs, s)
  | lb :: lbs =>
      match lb, exec (Running s) lb with
      | LStart _, _ => None
      | _, Some (Running s') =>
          run_turns mine (if mine s lb then S k else k)
            (if mine s lb then rs ++ drop (length (requests s)) (requests s') else rs) s' lbs
      | _, _ => None
      end
  end.

Lemma run_turns_spec mine s0 lbs : forall k rs s k' rs' s',
  turns mine s0 k rs s -> run_turns mine k rs s lbs = Some (k', rs', s') -> turns mine s0 k' rs' s'.
Proof.
  induction lbs as [|lb lbs IH]; intros k rs s k' rs' s' Ht Hr; cbn [run_turns] in Hr; [by injection Hr as <- <- <-|].
  assert ((forall b, lb <> LStart b) /\ exists s1, exec (Running s) lb = Some (Running s1) /\
    run_turns mine (if mine s lb then S k else k)
      (if mine s lb then rs ++ drop (length (requests s)) (requests s1) else rs) s1 lbs = Some (k', rs', s')) as [Hn (s1 & He & Hr')].
  { destruct lb; try done; (destruct (exec (Running s) _) as [[s1|u]|]; [|done..]); (split; [done|by exists s1]). }
  eapply IH; [|exact Hr']. by apply turns_step.
Qed.

Lemma lost_ran : ran [0%nat] lost.
Proof.
  assert (run_plain new (setup ++ connect_ok ++ [LStarted; LDisconnected 0%nat]) = Some lost) as Hr by (vm_compute; reflexivity).
  assert (published_by [] new (setup ++ connect_ok ++ [LStarted; LDisconnected 0%nat]) = [0%nat]) as Hp by (vm_compute; reflexivity).
  rewrite <- Hp. exact (run_plain_ran _ _ _ _ ran_new Hr).
Qed.

(** A post comes in between, and is refused. *)
Definition after_loss : list L := [LRun 0; LPost "hi" None 0; LRun 0; LRun 0; LRun 0; LRun 0].
Definition reconnecting : A := default new (snd <$> run_turns of_run 0 [] lost after_loss).

Lemma woken_reconnects_witness :
  awake lost /\ turns of_run lost 5 [(0%nat, Close)] reconnecting /\
  (pl reconnecting = Connecting \/ pl reconnecting = Exited) /\ flora_cli reconnecting = None /\
  gabages reconnecting = [Some 0%nat].
Proof.
  assert (awake lost) as Ha by (left; vm_compute; reflexivity). split; [exact Ha|].
  assert (run_turns of_run 0 [] lost after_loss = Some (5%nat, [(0%nat, Close)], reconnecting)) as Hr
    by (vm_compute; reflexivity).
  pose proof (run_turns_spec of_run lost _ _ _ _ _ _ _ (turns_refl _ _) Hr) as Ht. split; [exact Ht|].
  destruct (woken_reconnects [0%nat] lost _ _ _ lost_ran Ha Ht) as (_ & Hturn & Hf & _ & _); [simpl; lia|].
  split; [exact Hturn|]. split; [|vm_compute; reflexivity].
  destruct Hf as [Hw|Hf]; [|exact Hf]. assert (pl reconnecting = Connecting) as Hp by (vm_compute; reflexivity).
  rewrite Hp in Hw. discriminate Hw.
Defined.

Lemma message_returns_witness :
  is_message (Post "hi" (Some 5%nat) 0) = true /\
  execs (Running published) [LPost "hi" (Some 5%nat) 0; LTask 1 FLORA_CLI_ECONN; LTask 1 0] =
    Some (Running (set_pl (Wait true)
      (set_events (events published ++ [Returned (Post "hi" (Some 5%nat) 0) FLORA_CLI_ECONN])
         (set_requests (requests published ++ [(0%nat, Post "hi" (Some 5%nat) 0)]) published)))).
Proof.
  split; [reflexivity|].
  exact (message_returns published (Post "hi" (Some 5%nat) 0) FLORA_CLI_ECONN eq_refl).
Defined.

(** The handler of "news" runs in the receive thread of client 0. *)
Definition idle : A := state_after (setup ++ connect_ok ++ [LStarted]).
Definition in_handler : A :=
  state_after (setup ++ connect_ok ++ [LStarted; LRecvPost 0%nat "news" 0 (Some 9%nat); LTask 0 0]).

Lemma handlers_exact_witness :
  receiving 0 idle = true /\
  execs (Running idle) [LRecvPost 0%nat "news" 0 (Some 9%nat); LTask 0 0] = Some (Running in_handler) /\
  events in_handler = events idle ++ [Handled 1%nat "news" (Some 9%nat) 0].
Proof.
  assert (receiving 0 idle = true) as Hr by (vm_compute; reflexivity). split; [exact Hr|].
  destruct (handlers_exact idle 0 "news" 0 (Some 9%nat) 4%nat Hr) as (Hp & _ & _).
  split; [|vm_compute; reflexivity].
  etransitivity; [exact Hp|]. vm_compute. reflexivity.
Defined.

Lemma in_handler_run :
  run_plain new (setup ++ connect_ok ++ [LStarted; LRecvPost 0%nat "news" 0 (Some 9%nat); LTask 0 0])
    = Some in_handler.
Proof. vm_compute. reflexivity. Qed.

(** Every step of a sequence is a step. *)
Lemma agent_execs_steps (lbs : list L) : forall st st', execs st lbs = Some st' -> steps step st st'.
Proof.
  induction lbs as [|lb lbs IH]; intros st st'; simpl; [intros [= <-]; constructor|].
  destruct (exec st lb) as [st1|] eqn:He; [|done]. intros Hr.
  eapply steps_step; [by exists lb|by apply IH].
Qed.

Definition state_of (st : option (sys nat nat nat)) : A :=
  match st with Some (Running s) => s | _ => new end.

(** The agent's thread gets as far as closing client 0. *)
Definition stuck : A := state_of (execs (Running in_handler)
  [LClose (Some 0%nat); LTask 1 0; LTask 1 0; LRun 0; LRun 0]).

Lemma close_in_callback_hangs_witness :
  pl stuck = Cleaning 0 /\ runnable stuck = false /\
  (pl stuck <> Exited /\ 0%nat ∈ in_callback stuck /\ joinable stuck = true /\
   exists k, k ∈ tasks stuck /\ task_from k = Some 0%nat).
Proof.
  split; [vm_compute; reflexivity|]. split; [vm_compute; reflexivity|].
  apply (close_in_callback_hangs 0 in_handler
    (Running (state_of (exec (Running in_handler) (LClose (Some 0%nat)))))).
  - apply (run_plain_steps _ _ _ in_handler_run).
  - vm_compute. reflexivity.
  - change (in_callback in_handler) with ({[0%nat]} ∪ ∅ : gset nat). set_solver.
  - vm_compute. reflexivity.
  - vm_compute. reflexivity.
  - vm_compute. reflexivity.
  - apply (agent_execs_steps [LTask 1 0; LTask 1 0; LRun 0; LRun 0]). vm_compute. reflexivity.
Defined.

(** The agent is closed while it connects. *)
Definition connecting : A := state_after (setup ++ [LRun 0; LRun 0]).

Lemma close_while_connecting_waits_witness :
  pl connecting = Connecting /\
  exists s', execs (Running connecting)
      [LClose None; LTask 0 0; LTask 0 0; LRun FLORA_CLI_SUCCESS; LRun 0; LRun 0; LRun 0]
      = Some (Running s') /\
    flora_cli s' = Some 0%nat /\ working s' = false /\ pl s' = Wait false /\
    forall s2, steps calm_step (Running s') (Running s2) -> pl s2 = Wait false /\ TJoin None ∈ tasks s2.
Proof.
  split; [vm_compute; reflexivity|].
  apply (close_while_connecting_waits connecting); vm_compute; reflexivity.
Defined.

Lemma idle_ran : ran [0%nat] idle.
Proof.
  assert (run_plain new (setup ++ connect_ok ++ [LStarted]) = Some idle) as Hr by (vm_compute; reflexivity).
  assert (published_by [] new (setup ++ connect_ok ++ [LStarted]) = [0%nat]) as Hp by (vm_compute; reflexivity).
  rewrite <- Hp. exact (run_plain_ran _ _ _ _ ran_new Hr).
Qed.

(** [close] while a message arrives: its handler is gone. *)
Definition closing_idle : A := state_of (exec (Running idle) (LClose None)).
Definition to_the_end : list L :=
  [LTask 0 0; LRecvPost 0%nat "news" 0 (Some 9%nat); LTask 0 0; LRun 0; LRun 0; LRun 0; LRun 0; LRun 0; LTask 0 0].
Definition closed_idle : A := default new (snd <$> run_turns of_closing 0 [] closing_idle to_the_end).

Lemma close_returns_witness :
  turns of_closing closing_idle 8 [(0%nat, Close); (0%nat, Close)] closed_idle /\
  flora_cli closed_idle = None /\ pl closed_idle = Exited /\ joinable closed_idle = false /\
  exists rq, requests closed_idle = requests idle ++ rq /\ (0%nat, Close) ∈ rq.
Proof.
  assert (run_turns of_closing 0 [] closing_idle to_the_end = Some (8%nat, [(0%nat, Close); (0%nat, Close)], closed_idle)) as Hr
    by (vm_compute; reflexivity).
  pose proof (run_turns_spec of_closing closing_idle _ _ _ _ _ _ _ (turns_refl _ _) Hr) as Ht. split; [exact Ht|].
  assert (exec (Running idle) (LClose None) = Some (Running closing_idle)) as He by (vm_compute; reflexivity).
  assert (pl idle = Wait false) as Hp by (vm_compute; reflexivity).
  assert (tasks idle = []) as Hts by (vm_compute; reflexivity).
  destruct (close_returns [0%nat] idle closing_idle 8 [(0%nat, Close); (0%nat, Close)] closed_idle idle_ran) as (Hf & _ & Hend).
  - vm_compute. reflexivity.
  - vm_compute. reflexivity.
  - rewrite Hp. exact I.
  - rewrite Hts. constructor.
  - exact He.
  - exact Ht.
  - split; [exact Hf|]. rewrite decide_True in Hend by (vm_compute; reflexivity).
    destruct Hend as (Hex & Hj & rq & Hq & Hall). split; [exact Hex|]. split; [exact Hj|]. exists rq. split; [exact Hq|].
    apply Hall. rewrite Hp. simpl. by left.
Defined.
