(* ===== verification/CApi.v ===== *)
(** * The C interface of the client and of the agent ([src/cli.cc], [src/flora-agent.cc])

    The C functions over the client, the adapters that call C callbacks, and the
    objects they allocate: the handles of messages, of replies and the strings of
    results. A message handle belongs to the [Caps] library, whose functions are
    parameters; what is allocated with [new] is kept in tables, so that what is
    never deleted can be seen. *)
From S2P Require Import Prelude Defs Caps SerHelper SockAdap SockConn DispState CliState Cli CliSpec.
From S2P Require AgentState Agent.
Import Client Cli.

(** [caps_t Caps::convert(shared_ptr<Caps> &)], [shared_ptr<Caps> Caps::convert(caps_t)] and
    [caps_destroy] of the [Caps] library, in the state [W] of its handles. *)
Class CapsHandles (caps W : Type) := {
  to_handle : option caps -> W -> Z * W;
  of_handle : Z -> W -> option caps;
  caps_destroy : Z -> W -> W
}.

(** The handles that were made and not destroyed; 0 is none. *)
Class CapsHandleLaws (caps W : Type) `{!CapsHandles caps W} := {
  live : W -> gset Z;
  live_new m w h w' : to_handle m w = (h, w') ->
    h ∉ live w /\ of_handle h w' = m /\ live w' = (if bool_decide (h = 0) then ∅ else {[h]}) ∪ live w;
  live_zero w : 0 ∉ live w;
  live_destroy h w : live (caps_destroy h w) = live w ∖ {[h]}
}.

(** [flora_call_result]; [cr_extra] is the address of a string, [None] for null. *)
Record call_result := mkCallResult {
  cr_ret_code : Z;
  cr_data : Z;
  cr_extra : option nat
}.

(** ** [flora::Client::connect]

    The static functions that make a client. *)
Module ClientConnect.
Import AgentState.Agent.
Section Ops.
Context {caps os : Type} `{!SockOS os}.

(** The options in use; [None]: a null pointer. *)
Definition effective (opts : option ClientOptions) : ClientOptions :=
  let o := default default_client_options opts in
  if bool_decide (opt_bufsize o < DEFAULT_MSG_BUF_SIZE)
  then mkClientOptions DEFAULT_MSG_BUF_SIZE (opt_flags o) (opt_beep_interval o) (opt_noresp_timeout o)
  else o.

(** Up to [cli->connect]. *)
Definition connect_begin (opts : option ClientOptions) : ClientOptions * Client.t caps os :=
  let o := effective opts in (o, Cli.new (opt_bufsize o) (opt_flags o)).

(** From its result on: the client that is given out. *)
Definition connect_end (r : Z) (c : Client.t caps os) : Z * option (Client.t caps os) :=
  if bool_decide (r <> FLORA_CLI_SUCCESS) then (r, None) else (r, Some (Client.set_this_weak_ptr true c)).

(** The overload with a buffer size. *)
Definition connect_begin_size (msg_buf_size : Z) : ClientOptions * Client.t caps os :=
  connect_begin (Some (mkClientOptions msg_buf_size 0 FLORA_CLI_DEFAULT_BEEP_INTERVAL
    FLORA_CLI_DEFAULT_NORESP_TIMEOUT)).
End Ops.
End ClientConnect.

(** ** The functions of the agent that are not callbacks

    A handle is the agent; a message is taken from its handle. *)
Module AgentApi.
Import AgentState.Agent Agent.AgentOps.
Section Ops.
Context {H K caps W : Type} `{!CapsHandles caps W}.

Definition flora_agent_create : t H K caps := new.
Definition flora_agent_config (key : Z) (ap : list vararg) : M (t H K caps) unit := config key ap.
Definition flora_agent_subscribe (name : string) (cb : H) : M (t H K caps) unit := subscribe name cb.
Definition flora_agent_unsubscribe (name : string) : M (t H K caps) unit := unsubscribe name.
Definition flora_agent_declare_method (name : string) (cb : K) : M (t H K caps) unit := declare_method name cb.
Definition flora_agent_start (block : Z) : M (t H K caps) unit := start (bool_decide (block <> 0)).
Definition flora_agent_close (from : option nat) : M (t H K caps) unit := close from.
Definition flora_agent_post (w : W) (name : string) (msg msgtype : Z) : M (t H K caps) unit :=
  post name (of_handle msg w) msgtype.
(** [flora_agent_call] up to the return of [call], and [flora_agent_call_nb]. *)
Definition flora_agent_call (w : W) (name : string) (msg : Z) (target : string) (timeout : Z)
  : M (t H K caps) unit := call name (of_handle msg w) target None timeout.
Definition flora_agent_call_nb (w : W) (name : string) (msg : Z) (target : string) (cb : nat) (timeout : Z)
  : M (t H K caps) unit := call name (of_handle msg w) target (Some cb) timeout.
Definition flora_agent_delete (from : option nat) : M (t H K caps) unit := close from.
End Ops.
End AgentApi.

Module CApi.
(** The objects the C interface allocates, by address. *)
Record heap (caps W : Type) := mkHeap {
  world : W;
  creplies : gmap nat (ReplyImpl caps);   (** [CReply] *)
  strs : gmap nat string;                 (** [char] arrays *)
  wcbs : gset nat;                        (** [WrapClientCallback] *)
  next_addr : nat
}.
Arguments mkHeap {caps W}.
Arguments world {caps W}.
Arguments creplies {caps W}.
Arguments strs {caps W}.
Arguments wcbs {caps W}.
Arguments next_addr {caps W}.

(** The client of a handle and the heap. *)
Record t (caps os W : Type) := mk {
  client : Client.t caps os;
  cheap : heap caps W
}.
Arguments mk {caps os W}.
Arguments client {caps os W}.
Arguments cheap {caps os W}.

Section Ops.
Context {caps : Type} `{!CapsOps caps, !CapsFlags} {os : Type} `{!SockOS os, !SockConnect os}.
Context `{!SteadyClock, !UriParser} {W : Type} `{!CapsHandles caps W}.

Abbreviation MA := (M (t caps os W)).

Definition on_client {A} (m : M (Client.t caps os) A) : MA A := fun s =>
  match m (client s) with
  | Done (a, c) => Done (a, mk c (cheap s))
  | Undef u => Undef u
  end.

Definition upd_heap (f : heap caps W -> heap caps W) : MA unit :=
  modify (fun s => mk (client s) (f (cheap s))).

Definition set_world (w : W) (h : heap caps W) : heap caps W :=
  mkHeap w (creplies h) (strs h) (wcbs h) (next_addr h).
Definition set_creplies (m : gmap nat (ReplyImpl caps)) (h : heap caps W) : heap caps W :=
  mkHeap (world h) m (strs h) (wcbs h) (next_addr h).
Definition set_strs (m : gmap nat string) (h : heap caps W) : heap caps W :=
  mkHeap (world h) (creplies h) m (wcbs h) (next_addr h).
Definition set_wcbs (m : gset nat) (h : heap caps W) : heap caps W :=
  mkHeap (world h) (creplies h) (strs h) m (next_addr h).
Definition set_next_addr (n : nat) (h : heap caps W) : heap caps W :=
  mkHeap (world h) (creplies h) (strs h) (wcbs h) n.

(** An address for [new]. *)
Definition alloc : MA nat :=
  n ← gets (fun s => next_addr (cheap s));
  upd_heap (set_next_addr (S n)) ;;
  mret n.

(** [Caps::convert(msg)] and [caps_destroy(cmsg)] *)
Definition convert (m : option caps) : MA Z :=
  w ← gets (fun s => world (cheap s));
  let '(h, w') := to_handle m w in
  upd_heap (set_world w') ;; mret h.

Definition convert_back (h : Z) : MA (option caps) := gets (fun s => of_handle h (world (cheap s))).

Definition destroy (h : Z) : MA unit := upd_heap (fun hp => set_world (caps_destroy h (world hp)) hp).

(** [new CReply()] with its [cxxreply] set. *)
Definition new_creply (r : ReplyImpl caps) : MA nat :=
  a ← alloc;
  upd_heap (fun hp => set_creplies (<[a := r]> (creplies hp)) hp) ;;
  mret a.

(** ** Callbacks

    What a C callback does is any computation [f] on the state. *)

(** [WrapClientCallback::recv_post]; [None]: the pointer is null. *)
Definition wrap_recv_post (f : option (string -> Z -> Z -> MA unit)) (name : string) (msgtype : Z)
    (msg : option caps) : MA unit :=
  match f with
  | None => mret tt
  | Some f => cmsg ← convert msg; f name msgtype cmsg ;; destroy cmsg
  end.

Definition wrap_recv_call (f : option (string -> Z -> nat -> MA unit)) (name : string)
    (msg : option caps) (reply : ReplyImpl caps) : MA unit :=
  match f with
  | None => mret tt
  | Some f => cmsg ← convert msg; creply ← new_creply reply; f name cmsg creply
  end.

Definition wrap_disconnected (f : option (MA unit)) : MA unit :=
  match f with None => mret tt | Some f => f end.

(** The handlers [flora_agent_subscribe] and [flora_agent_declare_method] register. *)
Definition agent_post_handler (cb : string -> Z -> Z -> MA unit) (name : string) (msg : option caps)
    (type : Z) : MA unit :=
  cmsg ← convert msg; cb name cmsg type ;; destroy cmsg.

Definition agent_call_handler (cb : string -> Z -> nat -> MA unit) (name : string) (msg : option caps)
    (reply : ReplyImpl caps) : MA unit :=
  cmsg ← convert msg; creply ← new_creply reply; cb name cmsg creply.

(** ** Connecting *)

(** [flora_cli_connect] up to [connect]: the new client and the callback object. [result]
    and [cb] say whether the pointers are not null. *)
Definition flora_cli_connect_begin (result cb : bool) (msg_buf_size : Z) : MA (Z + option nat) :=
  if negb result then mret (inl FLORA_CLI_EINVAL)
  else
    let bufsize := if bool_decide (msg_buf_size < DEFAULT_MSG_BUF_SIZE)
                   then DEFAULT_MSG_BUF_SIZE else msg_buf_size in
    modify (fun s => mk (Cli.new bufsize 0) (cheap s)) ;;
    if cb then
      a ← alloc;
      upd_heap (fun hp => set_wcbs ({[a]} ∪ wcbs hp) hp) ;;
      mret (inr (Some a))
    else mret (inr None).

(** ... and from the result [r] of [connect] on. *)
Definition flora_cli_connect_end (r : Z) : MA Z :=
  if bool_decide (r <> FLORA_CLI_SUCCESS) then mret r
  else on_client (modify (set_this_weak_ptr true)) ;; mret FLORA_CLI_SUCCESS.

(** [flora_cli_delete]: whether the handle is not 0, whether it is called in a callback
    of the client, and the client's callback object. *)
Definition flora_cli_delete (handle in_callback : bool) (wcb : option nat) : MA unit :=
  when handle
    (on_client (Cli.close in_callback false) ;;
     match wcb with
     | Some a => upd_heap (fun hp => set_wcbs (wcbs hp ∖ {[a]}) hp)
     | None => mret tt
     end).

(** ** Requests: [handle] says whether it is not 0. *)

Definition request (handle : bool) (m : M (Client.t caps os) Z) : MA Z :=
  if handle then on_client m else mret FLORA_CLI_EINVAL.

Definition flora_cli_subscribe (handle : bool) (name : option string) : MA Z :=
  request handle (Cli.subscribe name).
Definition flora_cli_unsubscribe (handle : bool) (name : option string) : MA Z :=
  request handle (Cli.unsubscribe name).
Definition flora_cli_declare_method (handle : bool) (name : option string) : MA Z :=
  request handle (Cli.declare_method name).
Definition flora_cli_remove_method (handle : bool) (name : option string) : MA Z :=
  request handle (Cli.remove_method name).

Definition flora_cli_post (handle : bool) (name : option string) (msg : Z) (msgtype : Z) : MA Z :=
  if negb handle then mret FLORA_CLI_EINVAL
  else pmsg ← convert_back msg; on_client (Cli.post name pmsg msgtype).

(** ** Calls *)

Definition cxxresp_to_cresp (resp : Response caps) : MA call_result :=
  data ← convert (rs_data resp);
  if bool_decide (rs_extra resp = EmptyString) then mret (mkCallResult (rs_ret_code resp) data None)
  else
    a ← alloc;
    upd_heap (fun hp => set_strs (<[a := c_str (rs_extra resp)]> (strs hp)) hp) ;;
    mret (mkCallResult (rs_ret_code resp) data (Some a)).

(** [flora_cli_call] up to the wait of [call]. *)
Definition flora_cli_call_begin (handle in_callback : bool) (name : option string) (msg : Z)
    (target : string) (timeout : Z) : MA (Z + nat * Z) :=
  if negb handle then mret (inl FLORA_CLI_EINVAL)
  else
    pmsg ← convert_back msg;
    on_client (Cli.call_send in_callback name pmsg target Cli.empty_response timeout).

(** ... and from the return of [call] with [r] and [resp] on. [result] is what the
    pointer points to, [None] when it is null. *)
Definition flora_cli_call_end (r : Z) (resp : Response caps) (result : option call_result)
  : MA (Z * option call_result) :=
  if bool_decide (r <> FLORA_CLI_SUCCESS) then mret (r, result)
  else
    match result with
    | None => mret (FLORA_CLI_SUCCESS, None)
    | Some _ => res ← cxxresp_to_cresp resp; mret (FLORA_CLI_SUCCESS, Some res)
    end.

Definition flora_result_delete (result : option call_result) : MA (option call_result) :=
  match result with
  | None => mret None
  | Some r =>
      match cr_extra r with
      | Some a => upd_heap (fun hp => set_strs (delete a (strs hp)) hp)
      | None => mret tt
      end ;;
      (if bool_decide (cr_data r <> 0) then destroy (cr_data r) else mret tt) ;;
      mret (Some (mkCallResult (cr_ret_code r) 0 None))
  end.

(** The function [flora_cli_call_nb] gives to [call], and the one of
    [flora_agent_call_nb]. *)
Definition call_nb_callback (cb : option (Z -> option call_result -> MA unit)) (rcode : Z)
    (resp : Response caps) : MA unit :=
  match cb with
  | None => mret tt
  | Some cb =>
      if bool_decide (rcode = FLORA_CLI_SUCCESS) then
        result ← cxxresp_to_cresp resp;
        cb rcode (Some result) ;;
        flora_result_delete (Some result) ;;
        mret tt
      else cb rcode None
  end.

Definition agent_call_nb_callback (cb : Z -> option call_result -> MA unit) (rescode : Z)
    (resp : Response caps) : MA unit :=
  if bool_decide (rescode = FLORA_CLI_SUCCESS) then
    result ← cxxresp_to_cresp resp;
    cb rescode (Some result)
  else cb rescode None.

(** [cb] names the function made of the caller's callback. *)
Definition flora_cli_call_nb (handle : bool) (name : option string) (msg : Z) (target : string)
    (cb : nat) (timeout : Z) : MA Z :=
  if negb handle then mret FLORA_CLI_EINVAL
  else pmsg ← convert_back msg; on_client (Cli.call_cb name pmsg target cb timeout).

(** ** Replies *)

(** [reinterpret_cast<CReply *>(reply)->cxxreply] *)
Definition with_creply (reply : nat) (f : ReplyImpl caps -> MA (ReplyImpl caps)) : MA unit :=
  m ← gets (fun s => creplies (cheap s));
  match m !! reply with
  | None => undefined UseAfterFree
  | Some r => r' ← f r; upd_heap (fun hp => set_creplies (<[reply := r']> (creplies hp)) hp)
  end.

Definition flora_call_reply_write_code (reply : nat) (code : Z) : MA unit :=
  with_creply reply (fun r => mret (Cli.write_code code r)).

Definition flora_call_reply_write_data (reply : nat) (data : Z) : MA unit :=
  cxxdata ← convert_back data;
  with_creply reply (fun r => mret (Cli.write_data cxxdata r)).

Definition flora_call_reply_end (reply : nat) : MA unit :=
  with_creply reply (fun r => on_client (Cli.reply_end r)) ;;
  upd_heap (fun hp => set_creplies (delete reply (creplies hp)) hp).
End Ops.
End CApi.
