(* ===== verification/CApiSpec.v ===== *)
(** * What the C interface promises

    The result of a call is made, read and deleted without leaving anything behind;
    a message handle given to a callback is destroyed after it, except by the
    callbacks of calls; and the code of a reply made through the C interface. *)
From S2P Require Import Prelude Defs Caps SerHelper SockAdap SockConn DispState CliState Cli CliSpec CApi.
Import Client Cli CApi.

Section Spec.
Context {caps : Type} `{!CapsOps caps, !CapsFlags} {os : Type} `{!SockOS os, !SockConnect os}.
Context `{!SteadyClock, !UriParser} {W : Type} `{!CapsHandles caps W, !CapsHandleLaws caps W}.
Implicit Types s : CApi.t caps os W.

(** What is allocated: handles of messages and strings. *)
Definition handles s : gset Z := live (world (cheap s)).
Definition strings s : gmap nat string := strs (cheap s).

(** Every address in use was given out. *)
Definition heap_ok s : Prop :=
  forall a, a ∈ dom (strs (cheap s)) \/ a ∈ dom (creplies (cheap s)) -> (a < next_addr (cheap s))%nat.

Lemma heap_fresh s : heap_ok s ->
  strs (cheap s) !! next_addr (cheap s) = None /\ creplies (cheap s) !! next_addr (cheap s) = None.
Proof.
  intros Hok. split; apply not_elem_of_dom; intros Hin.
  - assert (next_addr (cheap s) < next_addr (cheap s))%nat; [auto|lia].
  - assert (next_addr (cheap s) < next_addr (cheap s))%nat; [auto|lia].
Qed.

Lemma wp_convert m (Q : Z -> CApi.t caps os W -> Prop) s :
  (forall h w', to_handle m (world (cheap s)) = (h, w') -> Q h (mk (client s) (set_world w' (cheap s)))) ->
  wp (convert m) Q s.
Proof.
  intros HQ. unfold convert. wsteps. destruct (to_handle m (world (cheap s))) as [h w'] eqn:Hh.
  unfold upd_heap. wsteps. by apply HQ.
Qed.

(** What a result holds for the response it was made of. *)
Definition holds_response (resp : Response caps) (res : call_result) s : Prop :=
  cr_ret_code res = rs_ret_code resp /\
  of_handle (cr_data res) (world (cheap s)) = rs_data resp /\
  match cr_extra res with
  | None => rs_extra resp = EmptyString
  | Some a => rs_extra resp <> EmptyString /\ strings s !! a = Some (c_str (rs_extra resp))
  end.

Lemma result_made resp s :
  heap_ok s ->
  wp (cxxresp_to_cresp resp) (fun res s' =>
    heap_ok s' /\ client s' = client s /\ creplies (cheap s') = creplies (cheap s) /\
    holds_response resp res s' /\ cr_data res ∉ handles s /\
    handles s' = (if bool_decide (cr_data res = 0) then ∅ else {[cr_data res]}) ∪ handles s /\
    match cr_extra res with
    | None => strings s' = strings s
    | Some a => strings s !! a = None /\ strings s' = <[a := c_str (rs_extra resp)]> (strings s)
    end) s.
Proof.
  intros Hok. unfold cxxresp_to_cresp. wsteps. apply wp_convert. intros h w' Hh. cbn beta.
  destruct (live_new _ _ _ _ Hh) as (Hfr & Hof & Hlive). 
  destruct (decide (rs_extra resp = EmptyString)) as [He|He];
    [rewrite (bool_decide_true (rs_extra resp = _)) by done|rewrite (bool_decide_false (rs_extra resp = _)) by done];
    unfold alloc, upd_heap; wsteps.
  - split_and!; try done.
  - destruct (heap_fresh s Hok) as [Hs Hc]. split_and!; try done; simpl.
    + intros a. simpl. rewrite dom_insert_L. intros [Ha|Ha].
      * apply elem_of_union in Ha as [->%elem_of_singleton|Ha]; [lia|]. specialize (Hok a (or_introl Ha)). lia.
      * specialize (Hok a (or_intror Ha)). lia.
    + unfold holds_response. split_and!; try done. unfold strings. simpl.
      split; [done|apply lookup_insert_eq].
Qed.

Lemma result_deleted res s :
  exists s', flora_result_delete (Some res) s = Done (Some (mkCallResult (cr_ret_code res) 0 None), s') /\
    client s' = client s /\ creplies (cheap s') = creplies (cheap s) /\
    handles s' = handles s ∖ {[cr_data res]} /\
    strings s' = match cr_extra res with Some a => delete a (strings s) | None => strings s end.
Proof.
  unfold flora_result_delete, destroy, upd_heap, mbind, M_bind, modify, mret, M_ret.
  assert (handles s ∖ {[0]} = handles s) as Hz.
  { unfold handles. pose proof (live_zero (world (cheap s))). set_solver. }
  destruct (cr_extra res) as [a|]; case_bool_decide as Hd; eexists; (split; [reflexivity|]); split_and!; try done.
  all: unfold handles; simpl; try apply live_destroy.
  all: assert (cr_data res = 0) as -> by (destruct (decide (cr_data res = 0)); tauto); symmetry; apply Hz.
Qed.

(** C33. The result a call gives a C caller holds the response's code, its message and
    its callee's name (null when it is empty), and [flora_result_delete] frees exactly
    what was allocated for it and leaves nulls, so that deleting it again frees
    nothing; a failed call writes no result and allocates nothing. *)
Theorem result_lifecycle (r : Z) (resp : Response caps) (old : call_result) s :
  heap_ok s ->
  if bool_decide (r = FLORA_CLI_SUCCESS) then
    exists res s1, flora_cli_call_end r resp (Some old) s = Done ((r, Some res), s1) /\
      holds_response resp res s1 /\ heap_ok s1 /\ handles s ⊆ handles s1 /\
      exists s2, let nulls := mkCallResult (cr_ret_code res) 0 None in
        flora_result_delete (Some res) s1 = Done (Some nulls, s2) /\
        handles s2 = handles s /\ strings s2 = strings s /\
        exists s3, flora_result_delete (Some nulls) s2 = Done (Some nulls, s3) /\
          handles s3 = handles s /\ strings s3 = strings s
  else flora_cli_call_end r resp (Some old) s = Done ((r, Some old), s).
Proof.
  intros Hok. unfold flora_cli_call_end. case_bool_decide as Hr.
  - rewrite bool_decide_false by tauto. subst r.
    destruct (wp_done _ _ _ (result_made resp s Hok)) as (res & s1 & He & Hok1 & Hc & Hcr & Hh & Hfr & Hlive & Hs).
    exists res, s1. split; [unfold mbind, M_bind; by rewrite He|]. split_and!; [done|done|set_solver|].
    destruct (result_deleted res s1) as (s2 & E2 & Hc2 & Hcr2 & Hl2 & Hs2). exists s2. split; [exact E2|].
    assert (handles s2 = handles s) as Hl.
    { rewrite Hl2, Hlive. case_bool_decide; set_solver. }
    assert (strings s2 = strings s) as Hst.
    { rewrite Hs2. destruct (cr_extra res) as [a|]; [|done]. destruct Hs as [Ha ->]. by apply delete_insert_id. }
    split_and!; try done.
    destruct (result_deleted (mkCallResult (cr_ret_code res) 0 None) s2) as (s3 & E3 & _ & _ & Hl3 & Hs3).
    exists s3. split_and!; [done| |by rewrite Hs3]. rewrite Hl3, Hl. simpl.
    pose proof (live_zero (world (cheap s))) as Hz. unfold handles in *. set_solver.
  - by rewrite bool_decide_true.
Qed.

(** A C callback that keeps to its own: it destroys no handle it was not given to
    destroy and ends with the handles it began with. *)
Definition tidy (f : M (CApi.t caps os W) unit) : Prop :=
  forall s, wp f (fun _ s' => handles s' = handles s) s.

(** A message handle given to a C callback for a post is destroyed after the
    callback; one given for a call is not, neither by a client's callback nor by an
    agent's, so a tidy callback leaves one more handle for every call received. *)
Theorem callback_handles (post : string -> Z -> Z -> M (CApi.t caps os W) unit)
    (call : string -> Z -> nat -> M (CApi.t caps os W) unit) name msgtype msg reply s :
  (forall n ty h, tidy (post n ty h)) -> (forall n h r, tidy (call n h r)) ->
  let keeps m := wp m (fun _ s' => handles s' = handles s) s in
  let leaks m := wp m (fun _ s' => exists h, h ∉ handles s /\
    handles s' = (if bool_decide (h = 0) then ∅ else {[h]}) ∪ handles s) s in
  keeps (wrap_recv_post (Some post) name msgtype msg) /\
  keeps (agent_post_handler (fun n h ty => post n ty h) name msg msgtype) /\
  leaks (wrap_recv_call (Some call) name msg reply) /\
  leaks (agent_call_handler call name msg reply).
Proof.
  intros Hpost Hcall keeps leaks.
  assert (forall h w s0, to_handle msg (world (cheap s)) = (h, w) ->
    handles s0 = live w -> wp (destroy h) (fun _ s' => handles s' = handles s) s0) as Hd.
  { intros h w s0 Hh Hs0. destruct (live_new _ _ _ _ Hh) as (Hfr & _ & Hl). unfold destroy, upd_heap. wsteps.
    unfold handles in *. simpl. rewrite live_destroy, Hs0, Hl.
    pose proof (live_zero (world (cheap s))). case_bool_decide; set_solver. }
  assert (forall h w, to_handle msg (world (cheap s)) = (h, w) -> exists h, h ∉ handles s /\
    live w = (if bool_decide (h = 0) then ∅ else {[h]}) ∪ handles s) as Hn.
  { intros h w Hh. destruct (live_new _ _ _ _ Hh) as (Hfr & _ & Hl). by exists h. }
  unfold keeps, leaks, wrap_recv_post, agent_post_handler, wrap_recv_call, agent_call_handler.
  split_and!; wsteps; apply wp_convert; intros h w Hh; wsteps.
  1,2: eapply wpx_mono; [apply Hpost|]; intros [] s' Hs'; by eapply Hd.
  all: unfold new_creply, alloc, upd_heap; wsteps; (eapply wpx_mono; [apply Hcall|]); intros [] s' Hs'.
  all: rewrite Hs'; by eapply Hn.
Qed.

(** ** Replies *)

(** The reply a handle stands for. *)
Definition reply_at (a : nat) s : option (ReplyImpl caps) := creplies (cheap s) !! a.

Lemma send_reply_done id code data (c : Client.t caps os) :
  connection c <> None -> exists c', send_reply id code data c = Done (tt, c').
Proof.
  intros Hc. enough (wp (send_reply id code data) (fun _ _ => True) c) as Hwp.
  { apply wp_done in Hwp as ([] & c' & Hs & _). by exists c'. }
  unfold send_reply. wsteps. destruct (RequestSerializer.serialize_reply _ _ _ _ _) as [[|x b]|]; [by wsteps| |by wsteps].
  wsteps. by apply wp_send.
Qed.

Definition put_creply (a : nat) (r : ReplyImpl caps) s : CApi.t caps os W :=
  CApi.mk (client s) (set_creplies (<[a := r]> (creplies (cheap s))) (cheap s)).

Lemma reply_at_put a r s : reply_at a (put_creply a r s) = Some r.
Proof. apply lookup_insert_eq. Qed.

Lemma with_creply_done a f s r r' s' :
  reply_at a s = Some r -> f r s = Done (r', s') -> with_creply a f s = Done (tt, put_creply a r' s').
Proof.
  unfold reply_at, with_creply, mbind, M_bind, gets. intros -> Hf. by rewrite Hf.
Qed.

(** Ending the reply sends the message, drops the handle and touches nothing else. *)
Definition sends_reply (a : nat) (id code : Z) (data : option caps) s : Prop :=
  exists cl s', flora_call_reply_end a s = Done (tt, s') /\
    send_reply id code data (client s) = Done (tt, cl) /\
    client s' = cl /\ reply_at a s' = None /\ strings s' = strings s /\ handles s' = handles s.

(** C34. A callee that answers through the C interface always answers with code 0: the
    code it writes is overwritten by [flora_call_reply_end], which sends the message it
    wrote under the call's id and deletes the handle. *)
Theorem c_reply_code a r (code data : Z) s :
  reply_at a s = Some r -> rp_client r = true -> connection (client s) <> None ->
  exists s1 s2, flora_call_reply_write_code a code s = Done (tt, s1) /\
    flora_call_reply_write_data a data s1 = Done (tt, s2) /\
    sends_reply a (rp_callid r) 0 (of_handle data (world (cheap s))) s2.
Proof.
  intros Ha Hc Hconn.
  pose proof (with_creply_done a (fun r => mret (write_code code r) : M (CApi.t caps os W) _) s r
    (write_code code r) s Ha eq_refl) as E1.
  set (s1 := put_creply a (write_code code r) s) in E1.
  assert (reply_at a s1 = Some (write_code code r)) as Ha1 by apply reply_at_put.
  pose proof (with_creply_done a (fun r => mret (write_data (of_handle data (world (cheap s1))) r) : M (CApi.t caps os W) _)
    s1 (write_code code r) (write_data (of_handle data (world (cheap s1))) (write_code code r)) s1 Ha1 eq_refl) as E2.
  set (s2 := put_creply a _ s1) in E2. exists s1, s2. split; [exact E1|]. split; [exact E2|].
  destruct (send_reply_done (rp_callid r) 0 (of_handle data (world (cheap s))) (client s) Hconn) as [cl Hcl].
  assert (reply_at a s2 = Some (write_data (of_handle data (world (cheap s1))) (write_code code r))) as Ha2
    by apply reply_at_put.
  assert (exists r', on_client (reply_end (write_data (of_handle data (world (cheap s1))) (write_code code r))) s2
    = Done (r', CApi.mk cl (cheap s2))) as [r' Hr'].
  { unfold on_client, reply_end, reply_send.
    cbn [rp_client rp_callid rp_ret_code rp_data write_code write_data]. rewrite Hc.
    change (world (cheap s1)) with (world (cheap s)). change (client s2) with (client s).
    unfold mbind, M_bind. rewrite Hcl. by eexists. }
  pose proof (with_creply_done a (fun r => on_client (reply_end r)) _ _ _ _ Ha2 Hr') as E3.
  exists cl. eexists. split; [|split; [exact Hcl|split_and!]].
  - unfold flora_call_reply_end, mbind, M_bind. rewrite E3. reflexivity.
  - done.
  - apply lookup_delete_eq.
  - done.
  - done.
Qed.
End Spec.
