(* ===== verification/CApiScenario.v ===== *)
(** * The C interface at work

    A table of message handles, and a client of the C interface that gets the result of
    a call, a post, a call and answers it. *)
From S2P Require Import Prelude Defs Caps RefCaps SerHelper SockAdap RefSock SockConn DispState CliState Cli CliSpec.
From S2P Require Import Scenario ClientScenario CApi CApiSpec.
Import Client Cli CApi.

(** Handles are the keys of a table. *)
Abbreviation table := (gmap Z (option rcaps)).

#[export] Instance table_handles : CapsHandles rcaps table := {|
  to_handle m w := let h := fresh ({[0]} ∪ dom w : gset Z) in (h, <[h := m]> w);
  of_handle h w := default None (w !! h);
  caps_destroy h w := delete h w
|}.

#[export] Program Instance table_laws : CapsHandleLaws rcaps table := {| live w := dom w ∖ {[0]} |}.
Next Obligation.
  intros m w h w' Hh. simpl in Hh.
  pose proof (is_fresh ({[0]} ∪ dom w : gset Z)) as Hf. injection Hh as Eh Ew. rewrite Eh in Ew, Hf.
  assert (h <> 0) by set_solver. subst w'. split_and!; simpl.
  - set_solver.
  - by rewrite lookup_insert_eq.
  - rewrite dom_insert_L, bool_decide_false by done. set_solver.
Qed.
Next Obligation. intros w. set_solver. Qed.
Next Obligation. intros h w. simpl. rewrite dom_delete_L. set_solver. Qed.

Abbreviation C := (CApi.t rcaps rsock table).

Definition caller : C := CApi.mk linked (mkHeap ∅ ∅ ∅ ∅ 0).

Lemma caller_ok : heap_ok caller.
Proof. intros a [Ha|Ha]; simpl in Ha; set_solver. Qed.

Definition unset : call_result := mkCallResult 0 0 None.

Lemma result_lifecycle_witness :
  heap_ok caller /\
  exists res s1, flora_cli_call_end 0 answer (Some unset) caller = Done ((0, Some res), s1) /\
      holds_response answer res s1 /\ heap_ok s1 /\ handles caller ⊆ handles s1 /\
      exists s2, let nulls := mkCallResult (cr_ret_code res) 0 None in
        flora_result_delete (Some res) s1 = Done (Some nulls, s2) /\
        handles s2 = handles caller /\ strings s2 = strings caller /\
        exists s3, flora_result_delete (Some nulls) s2 = Done (Some nulls, s3) /\
          handles s3 = handles caller /\ strings s3 = strings caller.
Proof. split; [exact caller_ok|]. exact (result_lifecycle 0 answer unset caller caller_ok). Defined.

(** A callback that does nothing is tidy. *)
Definition ignore_post (_ : string) (_ _ : Z) : M C unit := mret tt.
Definition ignore_call (_ : string) (_ : Z) (_ : nat) : M C unit := mret tt.

Lemma callback_handles_witness :
  wp (wrap_recv_post (Some ignore_post) "news" 0 (Some payload))
    (fun _ s' => handles s' = handles caller) caller /\
  wp (wrap_recv_call (Some ignore_call) "add" (Some payload) (new_reply true 7))
    (fun _ s' => exists h, h ∉ handles caller /\
       handles s' = (if bool_decide (h = 0) then ∅ else {[h]}) ∪ handles caller) caller.
Proof.
  destruct (callback_handles ignore_post ignore_call "news" 0 (Some payload) (new_reply true 7) caller)
    as (Hp & _ & _); [done|done|].
  destruct (callback_handles ignore_post ignore_call "add" 0 (Some payload) (new_reply true 7) caller)
    as (_ & _ & Hc & _); [done|done|]. by split.
Defined.

(** A call to answer, under id 7. *)
Definition callee : C := CApi.mk linked (mkHeap {[5 := Some payload]} {[0%nat := new_reply true 7]} ∅ ∅ 1).

Lemma c_reply_code_witness :
  reply_at 0 callee = Some (new_reply true 7) /\
  exists s1 s2, flora_call_reply_write_code 0 (-42) callee = Done (tt, s1) /\
    flora_call_reply_write_data 0 5 s1 = Done (tt, s2) /\
    sends_reply 0 7 0 (Some payload) s2.
Proof.
  assert (reply_at 0 callee = Some (new_reply true 7)) as Ha by (vm_compute; reflexivity).
  split; [exact Ha|]. exact (c_reply_code 0 (new_reply true 7) (-42) 5 callee Ha eq_refl ltac:(discriminate)).
Defined.
