(* ===== verification/DispType.v ===== *)
(** * The numbers of the dispatcher

    The service ids of the pending calls are distinct and were given out, the counter of
    cleanings stays below its threshold, and the integers that come from messages stay in
    the range of the types they are read in. *)
From S2P Require Import Prelude Defs Caps RefCaps Adap Reader SerHelper Disp DispOps DispLoop.
Import Dispatcher.

(** What is read from a message has the type it is read in. *)
Class CapsTyped (caps : Type) `{!CapsOps caps} := {
  read_i32_type c z c' : caps_read_i32 c = (Some z, c') -> is_i32 z;
  read_u32_type c z c' : caps_read_u32 c = (Some z, c') -> is_u32 z
}.

#[export] Instance ref_typed : CapsTyped rcaps.
Proof.
  split; intros c z c'; simpl; unfold ref_read; destruct (rc_rest c) as [|v l]; try done;
    destruct v; simpl; try done; intros [= <- _]; auto with flora.
Qed.

Section Typed.
Context {caps : Type} `{!CapsOps caps, !CapsFlags, !CapsTyped caps} {S : Type} `{!AdapterImpl S, !SteadyClock}.
Implicit Types (s : Disp caps S) (a : aid).

Definition info_typed (i : AdapterInfo) : Prop := is_u32 (ai_id i) /\ is_i32 (ai_pid i) /\ is_u32 (ai_flags i).

(** The calls [l] have distinct numbers from 1 to [n]. *)
Definition numbered (n : Z) (l : list PendingCall) : Prop :=
  NoDup (svrid <$> l) /\ Forall (fun pc => 1 <= svrid pc <= n /\ is_i32 (cliid pc)) l.

Record typed s : Prop := {
  ty_reqseq : 0 <= reqseq s < two31;
  ty_idseq : is_u32 (idseq s);
  ty_prio : 0 <= clear_sub_prio s < CLEAR_SUBSCRIPTION_THRESHOLD;
  ty_calls : numbered (reqseq s) (pending_calls s);
  ty_infos : map_Forall (fun _ => info_typed) (adapter_infos s);
  ty_monitors : map_Forall (fun _ => info_typed) (monitors s);
  ty_tags : map_Forall (fun _ (x : Adapter S) => is_u64 (tag x)) (adapters s)
}.

(** [m] keeps the state typed, and what it returns satisfies [Q]. *)
Definition tkeeps {A} (Q : A -> Prop) (m : M (Disp caps S) A) : Prop :=
  forall s, typed s -> wlp m (fun x s' => typed s' /\ Q x) s.

Abbreviation any := (fun _ => True).

Lemma tk_ret {A} (Q : A -> Prop) x : Q x -> tkeeps Q (mret x).
Proof. intros Hx s Hs. by split. Qed.

Lemma tk_weaken {A} (Q R : A -> Prop) m : tkeeps Q m -> (forall x, Q x -> R x) -> tkeeps R m.
Proof. intros Hm Hi s Hs. eapply wpx_mono; [by apply Hm|]. intros x s' [? ?]. auto. Qed.

Lemma tk_bind {A B} (Q : A -> Prop) (R : B -> Prop) m f :
  tkeeps Q m -> (forall x, Q x -> tkeeps R (f x)) -> tkeeps R (m ≫= f).
Proof.
  intros Hm Hf s Hs. apply wpx_bind. eapply wpx_mono; [by apply Hm|]. intros x s' [Hs' Hx]. by apply (Hf x Hx).
Qed.

Lemma tk_gets {A} (f : Disp caps S -> A) : tkeeps any (gets f).
Proof. intros s Hs. by split. Qed.

Lemma tk_get : tkeeps any get.
Proof. intros s Hs. by split. Qed.

Lemma tk_undefined {A} (Q : A -> Prop) u : tkeeps Q (undefined u).
Proof. done. Qed.

Lemma tk_modify f : (forall s, typed s -> typed (f s)) -> tkeeps any (modify f).
Proof. intros Hf s Hs. split; [by apply Hf|done]. Qed.

Lemma tk_when b m : tkeeps any m -> tkeeps any (when b m).
Proof. intros Hm. destruct b; [done|]. by apply tk_ret. Qed.

Lemma tk_for_each {A} (l : list A) f : (forall x, tkeeps any (f x)) -> tkeeps any (for_each l f).
Proof.
  intros Hf. induction l; [by apply tk_ret|]. simpl. eapply tk_bind; [apply Hf|]. intros. done.
Qed.

(** ** Reading *)

Lemma tk_infos : tkeeps (map_Forall (fun _ => info_typed)) (gets adapter_infos).
Proof. intros s Hs. split; [done|apply Hs]. Qed.

Lemma tk_monitors : tkeeps (map_Forall (fun _ => info_typed)) (gets monitors).
Proof. intros s Hs. split; [done|apply Hs]. Qed.

Lemma tk_deref a : tkeeps any (deref a).
Proof. intros s Hs. unfold deref, wpx. by destruct (adapters s !! a). Qed.

Lemma tk_deref_raw a : tkeeps any (deref_raw a).
Proof. intros s Hs. unfold deref_raw, deref, wpx. by destruct (alive s a), (adapters s !! a). Qed.

Lemma tk_read_info p : tkeeps info_typed (read_info p).
Proof.
  intros s Hs. unfold read_info, wpx. destruct p as [k|k].
  - destruct (adapter_infos s !! k) eqn:Hk; [|done]. split; [done|]. by eapply (ty_infos s Hs).
  - destruct (monitors s !! k) eqn:Hk; [|done]. split; [done|]. by eapply (ty_monitors s Hs).
Qed.

(** A parser whose results satisfy [Q]. *)
Definition ptyped {A} (Q : A -> Prop) (p : P caps unit A) : Prop :=
  forall st x st', p st = (POk x, st') -> Q x.

Lemma tk_parse {A} (Q : A -> Prop) (p : P caps unit A) c :
  ptyped Q p -> tkeeps (fun r => match r with Some x => Q x | None => True end) (parse p c).
Proof.
  intros Hp. unfold parse. destruct (p (c, tt)) as [r st] eqn:He. simpl.
  destruct r; [apply tk_ret; by eapply Hp|by apply tk_ret|done|by apply tk_ret].
Qed.

Lemma pt_any {A} (p : P caps unit A) : ptyped any p.
Proof. done. Qed.

Lemma pt_ret {A} (Q : A -> Prop) x : Q x -> ptyped Q (mret x).
Proof. by intros Hx st y st' [= <- _]. Qed.

Lemma pt_bind {A B} (Q : A -> Prop) (R : B -> Prop) (p : P caps unit A) f :
  ptyped Q p -> (forall x, Q x -> ptyped R (f x)) -> ptyped R (p ≫= f).
Proof.
  intros Hp Hf st b st'. unfold mbind, P_bind. destruct (p st) as [r st1] eqn:He.
  destruct r; try done. intros Hb. eapply Hf; [by eapply Hp|done].
Qed.

Lemma pt_rd {A} (Q : A -> Prop) op : (forall c x c', op c = (Some x, c') -> Q x) -> ptyped Q (rd op).
Proof. intros Hop [c []] y st'. unfold rd. destruct (op c) as [[x|] c'] eqn:He; [|done]. intros [= <- _]. by eapply Hop. Qed.

Lemma pt_rd_default {A} (Q : A -> Prop) op d :
  (forall c x c', op c = (Some x, c') -> Q x) -> Q d -> ptyped Q (rd_default op d).
Proof.
  intros Hop Hd [c []] y st'. unfold rd_default, rd_try, mbind, P_bind. destruct (op c) as [[x|] c'] eqn:He;
    simpl; intros [= <- _]; [by eapply Hop|done].
Qed.

Lemma pt_auth : ptyped (fun r => is_i32 r.1.2 /\ is_u32 r.2) RequestParser.parse_auth.
Proof.
  unfold RequestParser.parse_auth. eapply pt_bind; [apply pt_any|]. intros v _.
  eapply pt_bind; [apply pt_any|]. intros e _.
  eapply pt_bind; [apply (pt_rd_default is_i32); [apply read_i32_type|done]|]. intros pid Hp.
  eapply pt_bind; [apply (pt_rd_default is_u32); [apply read_u32_type|done]|]. intros fl Hf.
  by apply pt_ret.
Qed.

Lemma pt_call : ptyped (fun r => is_i32 r.1.2) RequestParser.parse_call.
Proof.
  unfold RequestParser.parse_call. eapply pt_bind; [apply pt_any|]. intros n _.
  eapply pt_bind; [apply pt_any|]. intros tg _.
  eapply pt_bind; [apply (pt_rd is_i32), read_i32_type|]. intros id Hid.
  eapply pt_bind; [apply pt_any|]. intros tm _. eapply pt_bind; [apply pt_any|]. intros args _.
  by apply pt_ret.
Qed.
End Typed.

(** [typed] of an updated state, when what it reads is the same. *)
Ltac typed_same := intros ? []; split; try done.

Create HintDb typed.
#[export] Hint Resolve tk_infos tk_monitors tk_deref tk_deref_raw tk_read_info : typed.

Ltac typed_step :=
  first
    [ apply tk_ret; done
    | solve [auto with typed nocore]
    | solve [eapply tk_weaken; [solve [auto with typed nocore]|done]]
    | apply tk_undefined
    | eapply tk_bind; [first [solve [auto with typed nocore] | apply tk_gets | apply tk_get]|intros ? ?]
    | eapply (tk_bind (fun _ => True)); [|intros ? _]
    | apply tk_when
    | apply tk_for_each; intros ?
    | apply tk_gets
    | apply tk_modify; solve [typed_same]
    | case_match ].
Ltac typed_tac := repeat typed_step.

Section Ops.
Context {caps : Type} `{!CapsOps caps, !CapsFlags, !CapsTyped caps} {S : Type} `{!AdapterImpl S, !SteadyClock}.
Abbreviation tk := (tkeeps (caps:=caps) (S:=S)).
Abbreviation any := (fun _ => True).

Lemma alter_tags (m : gmap aid (Adapter S)) a f :
  map_Forall (fun _ (x : Adapter S) => is_u64 (tag x)) m ->
  (forall x, is_u64 (tag x) -> is_u64 (tag (f x))) ->
  map_Forall (fun _ (x : Adapter S) => is_u64 (tag x)) (alter f a m).
Proof.
  intros Hm Hf b x. destruct (decide (a = b)) as [<-|Hn].
  - rewrite lookup_alter_eq. destruct (m !! a) as [y|] eqn:Hy; simpl; intros [= <-]. by eapply Hf, (Hm a).
  - rewrite lookup_alter_ne by done. apply Hm.
Qed.

Lemma tk_upd_adapter a f : (forall x, is_u64 (tag x) -> is_u64 (tag (f x))) -> tk any (upd_adapter a f).
Proof. intros Hf. apply tk_modify. intros s []. split; try done. by apply alter_tags. Qed.

Lemma tk_write_adapter a b : tk any (write_adapter a b).
Proof.
  unfold write_adapter. eapply tk_bind; [apply tk_deref|]. intros x _. destruct (adap_write b (impl x)) as [r i].
  eapply tk_bind; [by apply tk_upd_adapter|]. intros _ _. by apply tk_ret.
Qed.

Lemma tk_close_adapter a : tk any (close_adapter a).
Proof. unfold close_adapter. eapply tk_bind; [apply tk_deref|]. intros x _. by apply tk_upd_adapter. Qed.

Lemma tk_now : tk any now.
Proof. unfold now. typed_tac. Qed.

Lemma tk_parse_any {A} (p : P caps unit A) c : tk any (parse p c).
Proof. eapply tk_weaken; [apply (tk_parse any), pt_any|done]. Qed.

Lemma tk_deref_info x : tk info_typed (deref_info x).
Proof. unfold deref_info. destruct (info x); [apply tk_read_info|apply tk_undefined]. Qed.
#[local] Hint Resolve tk_write_adapter tk_close_adapter tk_now tk_parse_any tk_deref_info : typed.

Lemma tk_list_remove id : tk any (write_monitor_list_remove id).
Proof. unfold write_monitor_list_remove, write_monitor_list_remove_one. typed_tac. Qed.

Lemma tk_list_add a : tk any (write_monitor_list_add a).
Proof. unfold write_monitor_list_add, write_monitor_list_add_one. typed_tac. Qed.

Lemma tk_monitor_data flags a : tk any (write_monitor_data flags a).
Proof. unfold write_monitor_data, write_monitor_list. typed_tac. Qed.

(** The counter goes up by one and is reset at the threshold. *)
Lemma tk_check_subscriptions : tk any check_subscriptions.
Proof.
  unfold check_subscriptions, clear_sub_gabages. eapply tk_bind; [apply tk_now|intros tp _].
  eapply tk_bind; [apply tk_gets|intros ? _]. intros s [T1 T2 T3 T4 T5 T6 T7].
  case_bool_decide as Hd; wsteps; (split; [split; try done; simpl in *|done]).
  rewrite bool_decide_eq_false in H1. unfold CLEAR_SUBSCRIPTION_THRESHOLD in *. revert T3 H1. unfold_ints.
  intros. rewrite !Z.mod_small in *; lia.
Qed.
#[local] Hint Resolve tk_list_remove tk_list_add tk_monitor_data tk_check_subscriptions : typed.

Lemma tk_delete_info a : tk any (modify (fun s => set_adapter_infos (delete a (adapter_infos s)) s)).
Proof. apply tk_modify. intros s []. split; try done. simpl. by apply map_Forall_delete. Qed.

Lemma tk_delete_monitor a : tk any (modify (fun s => set_monitors (delete a (monitors s)) s)).
Proof. apply tk_modify. intros s []. split; try done. simpl. by apply map_Forall_delete. Qed.
#[local] Hint Resolve tk_delete_info tk_delete_monitor : typed.

Lemma tk_do_erase a : tk any (do_erase_adapter a).
Proof. unfold do_erase_adapter. typed_tac. Qed.

Lemma tk_new_info : tk info_typed new_info.
Proof.
  unfold new_info. eapply tk_bind; [apply tk_gets|]. intros n _. simpl.
  eapply (tk_bind any); [apply tk_modify; intros s []; split; try done; simpl; auto with flora|].
  intros _ _. apply tk_ret. split_and!; simpl; auto with flora; int_lia.
Qed.

Lemma tk_set_infos a i m : map_Forall (fun _ => info_typed) m -> info_typed i ->
  tk any (modify (set_adapter_infos (<[a := i]> m))).
Proof. intros Hm Hi. apply tk_modify. intros s []. split; try done. by apply map_Forall_insert_2. Qed.

Lemma tk_set_monitors a i m : map_Forall (fun _ => info_typed) m -> info_typed i ->
  tk any (modify (set_monitors (<[a := i]> m))).
Proof. intros Hm Hi. apply tk_modify. intros s []. split; try done. by apply map_Forall_insert_2. Qed.

Lemma tk_add_adapter name flags pid a : is_u32 flags -> is_i32 pid -> tk any (add_adapter name flags pid a).
Proof.
  intros Hf Hp. unfold add_adapter. eapply tk_bind; [apply tk_gets|intros ? _]. case_match; [typed_tac|].
  eapply (tk_bind any); [typed_tac|intros _ _]. eapply tk_bind; [apply tk_new_info|intros i (Hi & _ & _)].
  eapply tk_bind; [apply tk_infos|intros m Hm]. eapply (tk_bind any); [|typed_tac]. apply tk_when.
  eapply (tk_bind any); [by apply tk_set_infos|intros _ _]. by apply tk_upd_adapter.
Qed.

Lemma tk_add_monitor name flags a : is_u32 flags -> tk any (add_monitor name flags a).
Proof.
  intros Hf. unfold add_monitor. eapply tk_bind; [apply tk_new_info|intros i (Hi & Hp & _)].
  eapply tk_bind; [apply tk_monitors|intros m Hm]. apply tk_when.
  eapply (tk_bind any); [by apply tk_set_monitors|intros _ _]. by apply tk_upd_adapter.
Qed.

Lemma tk_auth c a : tk any (handle_auth_req c a).
Proof.
  unfold handle_auth_req. eapply tk_bind; [apply (tk_parse _ _ _ pt_auth)|].
  intros [[[[version extra] pid] flags]|]; [|intros _; typed_tac]. intros [Hp Hf]. simpl in Hp, Hf.
  eapply (tk_bind any); [|intros ? _; typed_tac]. unfold auth_result. case_match; [typed_tac|].
  eapply tk_bind; [apply tk_deref|intros x _]. eapply (tk_bind any).
  { apply tk_when, tk_upd_adapter. intros y _. simpl. unfold TagHelper.create_pid. int_lia. }
  intros _ _. case_match.
  - eapply tk_bind; [apply tk_gets|intros ? _]. case_match; [typed_tac|].
    eapply (tk_bind any); [by apply tk_add_monitor|typed_tac].
  - eapply (tk_bind any); [by apply tk_add_adapter|typed_tac].
Qed.

Lemma tk_subscribe c a : tk any (handle_subscribe_req c a).
Proof. unfold handle_subscribe_req. typed_tac. Qed.

Lemma tk_unsubscribe c a : tk any (handle_unsubscribe_req c a).
Proof. unfold handle_unsubscribe_req. typed_tac. Qed.

Lemma tk_write_info p i : info_typed i -> tk any (write_info p i).
Proof.
  intros Hi. apply tk_modify. intros s []. destruct p; split; try done; by apply map_Forall_insert_2.
Qed.

Lemma tk_declare c a : tk any (handle_declare_method c a).
Proof.
  unfold handle_declare_method. eapply tk_bind; [apply tk_deref|intros x _]. case_match; [|typed_tac].
  eapply tk_bind; [apply tk_parse_any|intros r _]. case_match; [|typed_tac]. case_match; [typed_tac|].
  eapply tk_bind; [apply tk_read_info|intros j Hj]. unfold declare_method.
  eapply (tk_bind any); [by apply tk_write_info|typed_tac].
Qed.

Lemma tk_remove c a : tk any (handle_remove_method c a).
Proof.
  unfold handle_remove_method. eapply tk_bind; [apply tk_deref|intros x _]. case_match; [|typed_tac].
  eapply tk_bind; [apply tk_parse_any|intros r _]. case_match; [|typed_tac]. case_match; [typed_tac|].
  eapply tk_bind; [apply tk_read_info|intros j Hj].
  eapply (tk_bind any); [by apply tk_write_info|typed_tac].
Qed.

Lemma tk_partition l : tk any (partition_adapters l).
Proof. induction l; simpl; typed_tac. Qed.

Lemma tk_write_post name type args tg flags l sender :
  tk any (write_post_msg_to_adapters name type args tg flags l sender).
Proof. unfold write_post_msg_to_adapters. typed_tac. Qed.
#[local] Hint Resolve tk_partition tk_write_post : typed.

Lemma tk_post c a : tk any (handle_post_req c a).
Proof. unfold handle_post_req, post_msg. typed_tac. Qed.

(** ** Calls *)

Lemma insert_call_forall (Q : PendingCall -> Prop) pc l : Q pc -> Forall Q l -> Forall Q (insert_call pc l).
Proof.
  intros Hpc. induction 1 as [|x l Hx Hl IH]; simpl; [by constructor|]. case_bool_decide; by repeat constructor.
Qed.

Lemma numbered_perm n l l' : l ≡ₚ l' -> numbered n l -> numbered n l'.
Proof. unfold numbered. by intros ->. Qed.

(** A call that is recorded has a new number. *)
Lemma tk_numbered {B} svr_cli (a t : aid) timeout (k : Z -> M (Disp caps S) B) :
  is_i32 svr_cli -> (forall n, tk any (k n)) ->
  tk any (n ← next_svrid; add_pending_call n svr_cli a t timeout ;; k n).
Proof.
  intros Hc Hk s [T1 T2 T3 T4 T5 T6 T7]. unfold next_svrid. wsteps. case_bool_decide as Hn; [|done]. wsteps.
  unfold add_pending_call, now. wsteps. apply Hk. split; try done; simpl; [lia|].
  eapply numbered_perm; [symmetry; apply insert_call_perm|]. destruct T4 as [Hnd Hl]. simpl. split.
  - simpl. apply NoDup_cons. split; [|done]. intros (pc & Hpc & Hin)%list_elem_of_fmap.
    rewrite Forall_forall in Hl. apply Hl in Hin. lia.
  - constructor; simpl; [split; [lia|done]|]. eapply Forall_impl; [exact Hl|]. simpl. intros pc [? ?]. by split; [lia|].
Qed.

Lemma tk_call c a : tk any (handle_call_req c a).
Proof.
  unfold handle_call_req. eapply tk_bind; [apply tk_deref|intros x _]. case_match; [typed_tac|].
  eapply tk_bind; [apply (tk_parse _ _ _ pt_call)|].
  intros [[[[[name args] tg] id] timeout]|]; [|intros _; typed_tac]. intros Hid. simpl in Hid.
  do 2 (eapply tk_bind; [apply tk_gets|intros ? _]).
  eapply (tk_bind any); [unfold find_callee; typed_tac|intros callee _].
  destruct callee as [t|]; [|typed_tac]. apply tk_numbered; [done|]. intros n. typed_tac.
Qed.

(** A call that is answered leaves the others' numbers. *)
Lemma numbered_removed n l1 pc l2 : numbered n (l1 ++ pc :: l2) -> numbered n (l1 ++ l2).
Proof.
  intros [Hn Hl]. rewrite <- Permutation_middle in Hn, Hl. split; [by apply NoDup_cons in Hn as [_ ?]|by inversion Hl].
Qed.

(** What is read or written between looking at the pending calls and setting them. *)
Definition aside {A} (m : M (Disp caps S) A) : Prop := forall s,
  wlp m (fun _ s' => pending_calls s' = pending_calls s /\ reqseq s' = reqseq s /\ (typed s -> typed s')) s.

Lemma aside_bind {A B} (m : M (Disp caps S) A) (f : A -> M (Disp caps S) B) :
  aside m -> (forall x, aside (f x)) -> aside (m ≫= f).
Proof.
  intros Hm Hf s. wstep. eapply wpx_mono; [apply Hm|]. intros x s1 (H1 & H2 & H3).
  eapply wpx_mono; [apply Hf|]. intros y s2 (H4 & H5 & H6). split_and!; [congruence..|auto].
Qed.

Lemma aside_write a b : aside (write_adapter a b).
Proof.
  intros s. unfold write_adapter, upd_adapter. wstep. unfold deref, wpx at 1.
  destruct (adapters s !! a) as [y|]; [|done]. destruct (adap_write b (impl y)) as [r i]. wsteps. split_and!; [done..|].
  intros []. split; try done. by apply alter_tags.
Qed.

Lemma tk_reply c a : tk any (handle_reply_req c a).
Proof.
  unfold handle_reply_req. eapply tk_bind; [apply tk_deref|intros x _]. case_match; [|typed_tac].
  eapply tk_bind; [apply tk_parse_any|intros r _]. destruct r as [[[id code] data]|]; [|typed_tac].
  intros s Hs. wsteps. destruct (find_call (answers id a) (pending_calls s)) as [[pc rest]|] eqn:Hf; [|by wsteps].
  apply find_call_spec in Hf as (l1 & l2 & Hl & -> & _). wstep. unfold deref, wpx at 1.
  destruct (adapters s !! pc_sender pc) as [y|]; [|done]. destruct (adap_closed (impl y)); [by wsteps|].
  wstep. pose proof (tk_read_info i s Hs) as Hi. unfold wpx in Hi |- * at 1.
  destruct (read_info i s) as [[j s1]|] eqn:Hr; [|done].
  assert (s1 = s) as ->.
  { unfold read_info in Hr. destruct i as [k|k]; [destruct (adapter_infos s !! k)|destruct (monitors s !! k)]; by simplify_eq. }
  wsteps. case_match; [|done]. case_match; [|by wsteps]. wstep. eapply wpx_mono; [apply aside_write|].
  intros _ s2 (Hp & Hq & Ht). destruct (Ht Hs) as [T1 T2 T3 T4 T5 T6 T7]. wsteps. split; [|done]. split; try done.
  simpl. rewrite Hq. apply (numbered_removed _ _ pc). rewrite <- Hl. apply Hs.
Qed.

Lemma tk_ping c a : tk any (handle_ping_req c a).
Proof. unfold handle_ping_req. typed_tac. Qed.

Lemma tk_tail : tk any (modify (fun s => set_pending_calls (tail (pending_calls s)) s)).
Proof. apply tk_modify. intros s [T1 T2 T3 T4 T5 T6 T7]. split; try done. simpl.
  destruct (pending_calls s) as [|pc l]; [done|]. by apply (numbered_removed _ [] pc l). Qed.
#[local] Hint Resolve tk_tail : typed.

Lemma tk_discard : tk any discard_pending_calls.
Proof.
  unfold discard_pending_calls. eapply tk_bind; [apply tk_now|intros tp _].
  eapply tk_bind; [apply tk_gets|intros calls _]. generalize (length calls). clear calls.
  intros n. induction n as [|n IH]; simpl; [typed_tac|].
  eapply tk_bind; [apply tk_gets|intros calls _]. case_match; [typed_tac|]. case_match; [typed_tac|].
  eapply (tk_bind any); [unfold pending_call_timeout; typed_tac|intros _ _].
  eapply tk_bind; [apply tk_tail|intros _ _]. done.
Qed.

Lemma tk_msg_handler cmd h c a : msg_handler cmd = Some h -> tk any (h c a).
Proof.
  unfold msg_handler. case_bool_decide; [|done]. unfold msg_handlers.
  destruct (Z.to_nat cmd) as [|[|[|[|[|[|[|[|[|n]]]]]]]]]; simpl; intros Hh; simplify_eq.
  - apply tk_auth.
  - apply tk_subscribe.
  - apply tk_unsubscribe.
  - apply tk_post.
  - apply tk_reply.
  - apply tk_declare.
  - apply tk_remove.
  - apply tk_call.
  - apply tk_ping.
Qed.

Lemma tk_handle_cmd o a : tk any (handle_cmd o a).
Proof.
  unfold handle_cmd. destruct o as [c|]; [|apply tk_do_erase].
  eapply tk_bind; [apply tk_deref|intros x _]. eapply (tk_bind any); [typed_tac|intros m _].
  case_match; [typed_tac|]. destruct (caps_read_i32 c) as [[cmd|] c']; [|typed_tac].
  case_match; [typed_tac|]. destruct (msg_handler cmd) as [h|] eqn:Hh; [|done].
  eapply tk_bind; [by eapply tk_msg_handler|intros ok _]. typed_tac.
Qed.

(** ** The service *)
Import DispatcherThread.

(** Any step, of orderly clients or not. *)
Definition any_step (st st' : sys caps S) : Prop := exists lb, exec st lb = Some st'.

Definition sys_typed (st : sys caps S) : Prop :=
  match st with Running _ s => typed s | Crashed _ => True end.

Lemma result_typed {A} (Q : A -> Prop) (m : M (Disp caps S) A) f s :
  tk Q m -> typed s -> sys_typed (result (m s) f).
Proof. intros Hm Hs. specialize (Hm s Hs). unfold wpx in Hm. destruct (m s) as [[x s']|u]; [|done]. by destruct Hm. Qed.

Lemma tk_loop_locked : tk any loop_locked.
Proof.
  unfold loop_locked. eapply tk_bind; [apply tk_gets|intros w _]. case_match; [typed_tac|].
  eapply (tk_bind any); [apply tk_modify; solve [typed_same]|intros _ _].
  eapply tk_bind; [apply tk_gets|intros b _]. case_match; [|typed_tac].
  eapply tk_bind; [apply tk_discard|intros _ _]. typed_tac.
Qed.

Lemma tk_poll_delete a : tk any (poll_delete a).
Proof.
  unfold poll_delete, erase_adapter. typed_tac.
Qed.

Lemma step_typed st st' : sys_typed st -> any_step st st' -> sys_typed st'.
Proof.
  intros Hst (lb & He). destruct st as [l s|u]; [|done]. simpl in Hst.
  destruct lb as [| | |a data|a i|a|a x|]; simpl in He.
  - destruct l; try done; injection He as <-; by apply (result_typed _ _ _ _ tk_loop_locked).
  - destruct l as [| |[|p todo]|]; try done. injection He as <-. by apply (result_typed _ _ _ _ (tk_handle_cmd _ _)).
  - destruct l as [| |[|]|]; try done. injection He as <-. by destruct Hst.
  - case_bool_decide; [|done]. unfold put in He. destruct (caps_parse data); injection He as <-; by destruct Hst.
  - case_bool_decide; [|done]. injection He as <-. destruct Hst. split; try done. simpl.
    by apply alter_tags.
  - case_bool_decide; [|done]. injection He as <-. by apply (result_typed _ _ _ _ (tk_poll_delete _)).
  - case_bool_decide as Ha; [|done]. injection He as <-. destruct Hst, Ha as (_ & _ & Ht & _). split; try done.
    simpl. by apply map_Forall_insert_2.
  - injection He as <-. by destruct Hst.
Qed.

Lemma start_typed flags bufsize : sys_typed (start flags bufsize).
Proof. split; simpl; try done. split; [constructor|done]. Qed.

(** C20. At every moment of every run of the service, of orderly clients or not, the
    pending calls have distinct service ids, all of them given out before, so a reply
    settles at most one call and a call never gets the number of one that still waits;
    the number of the last call has not overflowed; and the counter of erased connections
    is below the threshold at which the subscriptions are cleaned and it starts again. *)
Theorem call_numbers flags bufsize l s :
  steps any_step (start flags bufsize) (Running l s) ->
  NoDup (svrid <$> pending_calls s) /\
  Forall (fun pc => 1 <= svrid pc <= reqseq s) (pending_calls s) /\ 0 <= reqseq s < two31 /\
  0 <= clear_sub_prio s < CLEAR_SUBSCRIPTION_THRESHOLD.
Proof.
  intros Hst. enough (typed s) as [T1 T2 T3 [T4 T5] _ _ _].
  { split_and!; try apply T1; try apply T3; [done|]. eapply Forall_impl; [exact T5|]. by intros pc [? _]. }
  change (sys_typed (Running l s)).
  eapply (steps_invariant any_step sys_typed); [|exact Hst|].
  - apply step_typed.
  - apply start_typed.
Qed.
End Ops.
