(* ===== verification/Mailbox.v ===== *)
(** * What a connection is sent: the specification

    What the service promises to each of its connections, without the dispatcher: a
    [mailbox] follows the subscriptions and posts that the service accepts and holds the
    posts its connection must have been sent. [decode_post] is what the client's parser
    makes of a message. *)
From S2P Require Import Prelude Defs Caps RefCaps Adap SerHelper SerRoundtrip.

(** A post, as a client is told of it. *)
Record post := mkPost {
  po_name : string;
  po_type : Z;
  po_content : option (list cval);
  po_tag : Z;
  po_sender : string
}.

(** What the service accepts, in the order it does. *)
Inductive event (caps : Type) : Type :=
  | Joined (a : aid) (flags : Z)                (** a connection with its byte order *)
  | Subscribed (a : aid) (name : string)
  | Unsubscribed (a : aid) (name : string)
  | Published (name : string) (type : Z) (args : option caps) (tag : Z) (sender : string).
Arguments Joined {caps}.
Arguments Subscribed {caps}.
Arguments Unsubscribed {caps}.
Arguments Published {caps}.

Record mailbox (caps : Type) := mkMailbox {
  mb_flags : Z;
  mb_names : gset string;                       (** what its connection subscribes to *)
  mb_kept : gmap string (option caps);          (** the last persistent post of each name *)
  mb_posts : list post
}.
Arguments mkMailbox {caps}.
Arguments mb_flags {caps}.
Arguments mb_names {caps}.
Arguments mb_kept {caps}.
Arguments mb_posts {caps}.

Section Mailbox.
Context {caps : Type} `{!CapsOps caps, !CapsFlags, !CapsLaws caps}.

(** ** The mailbox *)

(** A post that fits in the dispatcher's buffer of [size] bytes is sent. *)
Definition sent_post (size flags : Z) name type (args : option caps) tag sender : list post :=
  match ResponseSerializer.serialize_post (c_str name) type args tag (c_str sender) size flags with
  | Some _ => [mkPost (c_str name) type (caps_content <$> args) tag (c_str sender)]
  | None => []
  end.

(** The byte order in which posts are sent to a connection. *)
Definition wire_order (flags : Z) : Z :=
  if bool_decide (flags = CAPS_FLAG_NET_BYTEORDER) then CAPS_FLAG_NET_BYTEORDER else 0.

Definition set_names (v : gset string) (b : mailbox caps) : mailbox caps := mkMailbox (mb_flags b) v (mb_kept b) (mb_posts b).
Definition set_kept (v : gmap string (option caps)) (b : mailbox caps) : mailbox caps := mkMailbox (mb_flags b) (mb_names b) v (mb_posts b).
Definition more_posts (l : list post) (b : mailbox caps) : mailbox caps := mkMailbox (mb_flags b) (mb_names b) (mb_kept b) (mb_posts b ++ l).

(** The mailbox of [a] follows an event: a new subscription is answered with the post
    kept for its name, and a post reaches those who subscribe to its name. *)
Definition mail (size : Z) (a : aid) (b : mailbox caps) (e : event caps) : mailbox caps :=
  match e with
  | Joined a' flags => if bool_decide (a' = a) then mkMailbox flags ∅ (mb_kept b) [] else b
  | Subscribed a' n =>
      if bool_decide (a' = a /\ n ∉ mb_names b) then
        more_posts
          match mb_kept b !! n with
          | Some args => sent_post size (mb_flags b) n FLORA_MSGTYPE_PERSIST args 0 EmptyString
          | None => []
          end
          (set_names ({[n]} ∪ mb_names b) b)
      else b
  | Unsubscribed a' n => if bool_decide (a' = a) then set_names (mb_names b ∖ {[n]}) b else b
  | Published n type args tag sender =>
      set_kept (if bool_decide (type = FLORA_MSGTYPE_PERSIST) then <[n := args]> (mb_kept b) else mb_kept b)
        (if bool_decide (n ∈ mb_names b)
         then more_posts (sent_post size (wire_order (mb_flags b)) n type args tag sender) b else b)
  end.

Definition empty_mailbox : mailbox caps := mkMailbox 0 ∅ ∅ [].

Definition mailbox_of (size : Z) (a : aid) (es : list (event caps)) : mailbox caps :=
  foldl (mail size a) empty_mailbox es.

Lemma mailbox_snoc size a es e : mailbox_of size a (es ++ [e]) = mail size a (mailbox_of size a es) e.
Proof. unfold mailbox_of. by rewrite foldl_app. Qed.

(** ** What the client's parser makes of a message *)

Definition decode_post (b : bytes) : option post :=
  c ← caps_parse b;
  match (decode_response (c, (0, EmptyString))).1 with
  | POk (RespPost n t a tg cl) => Some (mkPost (c_str n) t (caps_content <$> a) tg cl)
  | _ => None
  end.

(** A message that is not a post. *)
Definition quiet (b : bytes) : Prop := decode_post b = None.

Lemma decode_post_encode size flags name type args tag sender b :
  is_u32 size -> is_u32 type -> is_u64 tag ->
  ResponseSerializer.serialize_post (c_str name) type args tag (c_str sender) size flags = Some b ->
  decode_post b = Some (mkPost (c_str name) type (caps_content <$> args) tag (c_str sender)).
Proof.
  intros Hs Ht Hg Hb.
  destruct (response_roundtrip (RespPost (c_str name) type args tag (c_str sender)) (0, EmptyString) size flags b)
    as (c & r' & c' & v' & Hp & Hd & He & _); [|done|by simpl; f_equal|].
  - simpl. split_and!; try done; apply c_str_no_nul.
  - unfold decode_post. rewrite Hp. simpl. rewrite Hd. simpl. destruct r'; try done.
    unfold erase_response in He. simpl in He. injection He as -> -> -> -> ->. by rewrite (c_str_no_nul name : c_str (c_str name) = c_str name).
Qed.

(** Only the command of a post makes a post. *)
Definition not_post (p : P caps (Z * string) (response (option caps))) : Prop :=
  forall s r s', p s = (POk r, s') -> match r with RespPost _ _ _ _ _ => False | _ => True end.

Lemma not_post_bind {A} (p : P caps (Z * string) A) f : (forall x, not_post (f x)) -> not_post (p ≫= f).
Proof. intros Hf s r s'. unfold mbind, P_bind. destruct (p s) as [[x| | |] s1]; [apply Hf|done..]. Qed.

Lemma decode_response_post c v n t a tg cl s' :
  decode_response (c, v) = (POk (RespPost n t a tg cl), s') -> (caps_read_i32 c).1 = Some CMD_POST_RESP.
Proof.
  unfold decode_response, mbind at 1, P_bind at 1, rd at 1. destruct (caps_read_i32 c) as [[cmd|] c']; [|done].
  simpl. destruct (decide (cmd = CMD_POST_RESP)) as [->|Hc]; [done|]. intros He. exfalso. revert He.
  match goal with |- ?p _ = _ -> _ => enough (not_post p) as Hn by (intros He; exact (Hn _ _ _ He)) end.
  rewrite (bool_decide_false (cmd = CMD_POST_RESP)) by done. repeat case_match;
    repeat first [apply not_post_bind; intros ? | case_match]; by intros ? ? ? [=]; subst.
Qed.

(** What is serialised under another command is quiet. *)
Lemma serialize_quiet size flags c b cmd l :
  is_u32 size -> serialize_to size flags c = Some b -> caps_content c = CInt (u32 cmd) :: l -> is_i32 cmd ->
  cmd <> CMD_POST_RESP -> quiet b.
Proof.
  intros Hs Hb Hc Hi Hne. destruct (serialize_to_parse _ _ _ _ Hs Hb) as (c' & Hp & _ & Hr).
  rewrite Hc in Hr. apply read_i32_int in Hr as (c2 & Hrd & _). rewrite i32_u32, i32_small in Hrd by done.
  unfold quiet, decode_post. rewrite Hp. simpl.
  destruct (decode_response (c', _)) as [[r| | |] s'] eqn:Hd; simpl; try done. destruct r; try done.
  apply decode_response_post in Hd. rewrite Hrd in Hd. by injection Hd as ->.
Qed.
End Mailbox.
