(* ===== verification/Legible.v ===== *)
(** * Messages that a client understands

    [legible] messages are those that the parser of an authenticated client accepts:
    posts, calls, replies and pongs, whatever values the service encoded in them. *)
From S2P Require Import Prelude Defs Caps RefCaps Adap SerHelper SerRoundtrip Disp.

Section Legible.
Context {caps : Type} `{!CapsOps caps, !CapsFlags, !CapsLaws caps}.
Implicit Types b : bytes.

Definition for_clients {A} (r : response A) : Prop := match r with RespAuth _ _ => False | _ => True end.

Definition legible b : Prop := exists c r st,
  caps_parse b = Some c /\ decode_response (c, (0, EmptyString)) = (POk r, st) /\ for_clients r.

Lemma legible_parses size flags c0 b :
  is_u32 size -> serialize_to size flags c0 = Some b ->
  (forall c, caps_rest c = caps_content c0 ->
     parses decode_response c (0, EmptyString) (fun r _ _ => for_clients r)) -> legible b.
Proof.
  intros Hs Hb Hp. destruct (serialize_to_parse _ _ _ _ Hs Hb) as (c & Hc & _ & Hr).
  destruct (Hp c Hr) as (r & c' & v & Hd & Hf). by exists c, r, (c', v).
Qed.

(** The command of a message that was encoded. *)
Ltac decode_command cmd :=
  unfold decode_response; do 2 parse_step; cbn beta iota; change (i32 (u32 cmd)) with cmd; closed_ifs.

Lemma legible_post size flags name type args tg nm b :
  is_u32 size -> no_nul name -> no_nul nm ->
  ResponseSerializer.serialize_post name type args tg nm size flags = Some b -> legible b.
Proof.
  intros Hs ? ? Hb. eapply legible_parses; [done|exact Hb|]. autorewrite with flora. intros c Hc. simpl in Hc.
  decode_command CMD_POST_RESP. unfold ResponseParser.parse_post. by parse_steps.
Qed.

Lemma legible_call size flags name args id tg nm b :
  is_u32 size -> no_nul name -> no_nul nm ->
  ResponseSerializer.serialize_call name args id tg nm size flags = Some b -> legible b.
Proof.
  intros Hs ? ? Hb. eapply legible_parses; [done|exact Hb|]. autorewrite with flora. intros c Hc. simpl in Hc.
  decode_command CMD_CALL_RESP. unfold ResponseParser.parse_call. by parse_steps.
Qed.

Lemma legible_reply size flags id code reply tg b :
  ResponseSerializer.serialize_reply id code reply tg size flags = Done (Some b) -> is_u32 size -> is_i32 code ->
  legible b.
Proof.
  intros Hb Hs Hcode. revert Hb. unfold ResponseSerializer.serialize_reply. case_bool_decide as Hok.
  - destruct reply as [r|]; [|done]. intros [= Hb]. eapply legible_parses; [done|exact Hb|]. autorewrite with flora.
    intros c Hc. simpl in Hc. decode_command CMD_REPLY_RESP. unfold ResponseParser.parse_reply. parse_steps.
    rewrite Hok. closed_ifs. by parse_steps.
  - intros [= Hb]. eapply legible_parses; [done|exact Hb|]. autorewrite with flora.
    intros c Hc. simpl in Hc. decode_command CMD_REPLY_RESP. unfold ResponseParser.parse_reply. parse_steps.
    rewrite i32_u32, i32_small, (bool_decide_false (code = _)) by done. by parse_steps.
Qed.

Lemma legible_pong size flags b :
  is_u32 size -> ResponseSerializer.serialize_pong (caps:=caps) size flags = Some b -> legible b.
Proof.
  intros Hs Hb. eapply legible_parses; [done|exact Hb|]. autorewrite with flora. intros c Hc. simpl in Hc.
  decode_command CMD_PONG_RESP. by parse_steps.
Qed.
End Legible.

Lemma empty_no_nul : no_nul EmptyString.
Proof. done. Qed.

Create HintDb legible.
#[export] Hint Resolve c_str_no_nul empty_no_nul : legible.
#[export] Hint Resolve legible_post legible_call legible_reply legible_pong : legible.
#[export] Hint Extern 1 (is_i32 _) => solve [split; [vm_compute; discriminate|vm_compute; reflexivity]] : legible.
