(* ===== verification/MailboxOps.v ===== *)
(** * The handlers that post nothing

    Answers to authentications, calls, replies, pongs and announcements to monitors are
    not posts, and no handler but those of subscriptions and posts changes who subscribes
    to what: they are [hushed]. *)
From S2P Require Import Prelude Defs Caps RefCaps Adap SerHelper SerRoundtrip Disp DispInv DispOps DispSpec Mailbox.
Import Dispatcher.

Section Hush.
Context {caps : Type} `{!CapsOps caps, !CapsFlags, !CapsLaws caps}.
Context {S : Type} `{!AdapterImpl S, !AdapterLaws S, !SteadyClock}.
Implicit Types (s : Disp caps S) (a : aid) (x : Adapter S).

(** ** Messages that are not posts *)

Lemma quiet_auth r v size flags b :
  is_u32 size -> ResponseSerializer.serialize_auth (caps:=caps) r v size flags = Some b -> quiet (caps:=caps) b.
Proof. intros Hs Hb. eapply serialize_quiet; [done|exact Hb|by autorewrite with flora|done..]. Qed.

Lemma quiet_call name args id tg cl size flags b :
  is_u32 size -> ResponseSerializer.serialize_call (caps:=caps) (c_str name) args id tg (c_str cl) size flags = Some b ->
  quiet (caps:=caps) b.
Proof. intros Hs Hb. eapply serialize_quiet; [done|exact Hb|by autorewrite with flora|done..]. Qed.

Lemma quiet_pong size flags b :
  is_u32 size -> ResponseSerializer.serialize_pong (caps:=caps) size flags = Some b -> quiet (caps:=caps) b.
Proof. intros Hs Hb. eapply serialize_quiet; [done|exact Hb|by autorewrite with flora|done..]. Qed.

Lemma quiet_reply id code reply tg size flags b :
  is_u32 size -> ResponseSerializer.serialize_reply (caps:=caps) id code reply tg size flags = Done (Some b) ->
  quiet (caps:=caps) b.
Proof.
  intros Hs. unfold ResponseSerializer.serialize_reply. case_bool_decide; [destruct reply as [r|]; [|done]|];
    intros [= Hb]; (eapply serialize_quiet; [done|exact Hb|by autorewrite with flora|done..]).
Qed.

Lemma quiet_list_remove id size flags b :
  is_u32 size -> ResponseSerializer.serialize_monitor_list_remove (caps:=caps) id size flags = Some b ->
  quiet (caps:=caps) b.
Proof. intros Hs Hb. eapply serialize_quiet; [done|exact Hb|by autorewrite with flora|done..]. Qed.

Lemma quiet_list_add i size flags b :
  is_u32 size -> ResponseSerializer.serialize_monitor_list_add (caps:=caps) i size flags = Some b ->
  quiet (caps:=caps) b.
Proof. intros Hs Hb. eapply serialize_quiet; [done|exact Hb|by autorewrite with flora|done..]. Qed.

Lemma content_writes (l : list AdapterInfo) : forall (c : caps),
  exists t, caps_content (foldl (fun p i => caps_write_caps (Some (ResponseSerializer.serialize_monitor_list_item i)) p) c l) =
    caps_content c ++ t.
Proof.
  induction l as [|i l IH]; intros c; simpl; [exists []; by rewrite app_nil_r|].
  destruct (IH (caps_write_caps (Some (ResponseSerializer.serialize_monitor_list_item i)) c)) as [t ->].
  autorewrite with flora. rewrite <- app_assoc. eauto.
Qed.

Lemma quiet_list_all infos size flags b :
  is_u32 size -> ResponseSerializer.serialize_monitor_list_all (caps:=caps) infos size flags = Some b ->
  quiet (caps:=caps) b.
Proof.
  intros Hs Hb. unfold ResponseSerializer.serialize_monitor_list_all in Hb.
  match type of Hb with serialize_to _ _ (foldl _ ?c ?l) = _ => destruct (content_writes l c) as [t Ht] end.
  eapply serialize_quiet; [done|exact Hb|rewrite Ht; autorewrite with flora; reflexivity|done..].
Qed.

(** ** What stays as it is *)

Definition is_open s a : Prop := exists x, adapters s !! a = Some x /\ open x.

Definition posts_in x : list post := omap (decode_post (caps:=caps)) (adap_sent (impl x)).

(** What the state has at the moment of a handler. *)
Record ready s : Prop := {
  rd_buf : is_u32 (buf_size s);
  rd_held a : is_open s a -> a ∈ held s
}.

(** No connection is opened or sent a post, and nobody's subscriptions change. *)
Record hush s s' : Prop := {
  hu_buf : buf_size s' = buf_size s;
  hu_held : held s' = held s;
  hu_kept : persist_msgs s' = persist_msgs s;
  hu_subs n b : b ∈ subscribers s' n -> b ∈ subscribers s n;
  hu_stay n b : b ∈ subscribers s n -> is_open s' b -> b ∈ subscribers s' n;
  hu_dom b : is_Some (adapters s !! b) -> is_Some (adapters s' !! b);
  hu_box b y : adapters s' !! b = Some y -> open y ->
    exists x, adapters s !! b = Some x /\ open x /\ serialize_flags y = serialize_flags x /\ posts_in y = posts_in x
}.

Lemma hush_open s s' b : hush s s' -> is_open s' b -> is_open s b.
Proof. intros Hh (y & Hy & Ho). destruct (hu_box _ _ Hh b y Hy Ho) as (x & ? & ? & _). by exists x. Qed.

#[export] Instance hush_preorder : PreOrder hush.
Proof.
  split.
  - intros s. split; try done. intros b y Hy Ho. by exists y.
  - intros s1 s2 s3 H12 H23. split.
    + by rewrite (hu_buf _ _ H23), (hu_buf _ _ H12).
    + by rewrite (hu_held _ _ H23), (hu_held _ _ H12).
    + by rewrite (hu_kept _ _ H23), (hu_kept _ _ H12).
    + intros n b Hb. by apply (hu_subs _ _ H12), (hu_subs _ _ H23).
    + intros n b Hb Ho. apply (hu_stay _ _ H23); [|done]. apply (hu_stay _ _ H12); [done|]. by eapply hush_open.
    + intros b Hb. by apply (hu_dom _ _ H23), (hu_dom _ _ H12).
    + intros b z Hz Ho. destruct (hu_box _ _ H23 b z Hz Ho) as (y & Hy & Hoy & -> & ->). by apply (hu_box _ _ H12).
Qed.

Definition hushed s s' : Prop := ready s -> hush s s'.

Lemma ready_hush s s' : ready s -> hush s s' -> ready s'.
Proof.
  intros [Hb Hh] Hu. split; [by rewrite (hu_buf _ _ Hu)|]. intros b Ho. rewrite (hu_held _ _ Hu).
  by eapply Hh, hush_open.
Qed.

#[export] Instance hushed_preorder : PreOrder hushed.
Proof.
  split; [by intros s _|]. intros s1 s2 s3 H12 H23 Hr. specialize (H12 Hr).
  etrans; [done|]. apply H23. by eapply ready_hush.
Qed.

(** A change of other members. *)
Lemma hush_other s s' :
  buf_size s' = buf_size s -> held s' = held s -> persist_msgs s' = persist_msgs s ->
  subscriptions s' = subscriptions s -> adapters s' = adapters s -> hush s s'.
Proof.
  intros ? ? ? Hs Ha. split; try done; unfold subscribers; rewrite ?Hs, ?Ha; try done.
  intros b y Hy Ho. by exists y.
Qed.

(** A change of one connection. *)
Lemma hush_alter s a f :
  (forall x, adapters s !! a = Some x -> open (f x) ->
     open x /\ serialize_flags (f x) = serialize_flags x /\ posts_in (f x) = posts_in x) ->
  hush s (set_adapters (alter f a (adapters s)) s).
Proof.
  intros Hf. split; try done; simpl.
  - intros b Hb. by rewrite lookup_alter_is_Some.
  - intros b y Hy Ho. destruct (decide (a = b)) as [<-|Hn].
    + rewrite lookup_alter_eq in Hy. destruct (adapters s !! a) as [x|] eqn:Hx; [|done]. injection Hy as <-.
      destruct (Hf x eq_refl Ho) as (? & ? & ?). by exists x.
    + rewrite lookup_alter_ne in Hy by done. by exists y.
Qed.

Lemma hushed_write s a d : quiet (caps:=caps) d -> wlp (write_adapter a d) (fun _ s' => hushed s s') s.
Proof.
  intros Hd. unfold write_adapter. wstep. unfold deref, wpx at 1. destruct (adapters s !! a) as [x|] eqn:Hx; [|done].
  destruct (adap_write d (impl x)) as [r i] eqn:Hw. unfold upd_adapter. wsteps. intros _.
  apply hush_alter. intros y Hy Ho. simplify_eq.
  assert (set_impl i x = receive (Some d) x) as Hi by (simpl; by rewrite Hw). rewrite Hi in *.
  apply receive_open in Ho as [Ho Hsent]. split_and!; [done..|]. unfold posts_in. rewrite Hsent, omap_app. simpl.
  by rewrite Hd, app_nil_r.
Qed.

Lemma hushed_close s a : wlp (close_adapter a) (fun _ s' => hushed s s') s.
Proof.
  unfold close_adapter. wstep. unfold deref, wpx at 1. destruct (adapters s !! a) as [x|] eqn:Hx; [|done].
  unfold upd_adapter. wsteps. intros _. apply hush_alter. intros y Hy Ho. unfold open in Ho. simpl in Ho.
  by rewrite close_closed in Ho.
Qed.

(** ** Operations that are hushed *)

Abbreviation hu := (rels (S:=Disp caps S) hushed).

Lemma hu_write a d : quiet (caps:=caps) d -> hu (write_adapter a d).
Proof. intros Hd s. by apply hushed_write. Qed.

Lemma hu_close a : hu (close_adapter a).
Proof. intros s. apply hushed_close. Qed.

Lemma hu_deref a : hu (deref a).
Proof. intros s. unfold deref, wpx. by destruct (adapters s !! a). Qed.

Lemma hu_deref_raw a : hu (deref_raw a).
Proof. intros s. unfold deref_raw, deref, wpx. by destruct (alive s a), (adapters s !! a). Qed.

Lemma hu_read_info p : hu (read_info p).
Proof. intros s. unfold read_info, wpx. destruct p as [k|k]; [by destruct (adapter_infos s !! k)|by destruct (monitors s !! k)]. Qed.

Lemma hu_deref_info x : hu (deref_info x).
Proof. unfold deref_info. destruct (info x); [apply hu_read_info|done]. Qed.

Lemma hu_write_info p i : hu (write_info p i).
Proof. apply rels_modify. intros s _. by destruct p; apply hush_other. Qed.

Lemma hu_parse {A} (p : P caps unit A) c : hu (parse p c).
Proof. unfold parse. destruct (p (c, tt)).1; by try apply (rels_ret hushed). Qed.

Lemma hu_upd a f : (forall x, serialize_flags (f x) = serialize_flags x /\ impl (f x) = impl x) -> hu (upd_adapter a f).
Proof.
  intros Hf. apply rels_modify. intros s _. apply hush_alter. intros x _. destruct (Hf x) as [? Hi].
  unfold open, posts_in. rewrite Hi. done.
Qed.

(** The size of the buffer is an [uint32_t]. *)
Lemma hu_size {A} (f : Z -> M (Disp caps S) A) : (forall size, is_u32 size -> hu (f size)) -> hu (gets buf_size ≫= f).
Proof.
  intros Hf s. do 2 wstep. unfold wpx. destruct (f (buf_size s) s) as [[x s']|] eqn:He; [|done].
  intros Hr. pose proof (Hf (buf_size s) (rd_buf _ Hr) s) as Hw. unfold wpx in Hw. rewrite He in Hw. by apply Hw.
Qed.
End Hush.

(** [hush] of an update of other members. *)
Ltac hush_same := intros ? _; by apply hush_other.

Create HintDb hush.
#[export] Hint Resolve hu_close hu_deref hu_deref_raw hu_read_info hu_deref_info hu_write_info hu_parse : hush.
#[export] Hint Resolve quiet_auth quiet_call quiet_pong quiet_reply quiet_list_remove quiet_list_add quiet_list_all : hush.
Ltac hush_step := first
  [ apply (rels_ret hushed) | apply (rels_undefined hushed)
  | solve [auto with hush nocore]
  | apply hu_write; solve [eauto with hush]
  | apply hu_size; intros ? ?
  | apply (rels_bind hushed); [|intros ?]
  | apply (rels_gets hushed) | apply (rels_when hushed) | apply (rels_for_each hushed); intros ?
  | apply rels_modify; hush_same
  | case_match ].
Ltac hush_tac := repeat hush_step.

Section Ops.
Context {caps : Type} `{!CapsOps caps, !CapsFlags, !CapsLaws caps}.
Context {S : Type} `{!AdapterImpl S, !AdapterLaws S, !SteadyClock}.
Implicit Types (s : Disp caps S) (a : aid).
Abbreviation hu := (rels (S:=Disp caps S) hushed).

Lemma hu_now : hu now.
Proof. unfold now. hush_tac. Qed.
#[local] Hint Resolve hu_now : hush.

Lemma hu_ping c a : hu (handle_ping_req c a).
Proof. unfold handle_ping_req. hush_tac. Qed.

Lemma hu_declare c a : hu (handle_declare_method c a).
Proof. unfold handle_declare_method. hush_tac. Qed.

Lemma hu_remove c a : hu (handle_remove_method c a).
Proof. unfold handle_remove_method. hush_tac. Qed.

Lemma hu_find_callee named target name : hu (find_callee named target name).
Proof. unfold find_callee. hush_tac. Qed.

Lemma hu_add_pending_call svr cli a t timeout : hu (add_pending_call svr cli a t timeout).
Proof. unfold add_pending_call. hush_tac. Qed.
#[local] Hint Resolve hu_find_callee hu_add_pending_call : hush.

Lemma hu_call c a : hu (handle_call_req c a).
Proof. unfold handle_call_req, next_svrid. hush_tac. Qed.

Lemma hu_reply c a : hu (handle_reply_req c a).
Proof. unfold handle_reply_req. hush_tac. Qed.

(** ** Registration *)

Lemma hu_new_info : hu new_info.
Proof. unfold new_info. hush_tac. Qed.

Lemma hu_add_adapter name flags pid a : hu (add_adapter name flags pid a).
Proof. unfold add_adapter. pose proof hu_new_info. hush_tac; by apply hu_upd. Qed.

Lemma hu_add_monitor name flags a : hu (add_monitor name flags a).
Proof. unfold add_monitor. pose proof hu_new_info. hush_tac; by apply hu_upd. Qed.

Lemma hu_auth_result version extra pid flags a : hu (auth_result version extra pid flags a).
Proof.
  unfold auth_result. pose proof (hu_add_adapter extra flags pid a). pose proof (hu_add_monitor extra flags a).
  hush_tac; by apply hu_upd.
Qed.

Lemma hu_list_remove id : hu (write_monitor_list_remove id).
Proof. unfold write_monitor_list_remove, write_monitor_list_remove_one. hush_tac. Qed.

Lemma hu_list_add a : hu (write_monitor_list_add a).
Proof. unfold write_monitor_list_add, write_monitor_list_add_one. hush_tac. Qed.

Lemma hu_monitor_data flags a : hu (write_monitor_data flags a).
Proof. unfold write_monitor_data, write_monitor_list. hush_tac. Qed.
#[local] Hint Resolve hu_auth_result hu_list_remove hu_list_add hu_monitor_data : hush.

Lemma hu_auth c a : hu (handle_auth_req c a).
Proof. unfold handle_auth_req. hush_tac. Qed.

(** ** Erasing *)

(** The subscribers that are forgotten are not open. *)
Lemma hu_clear : hu clear_sub_gabages.
Proof.
  apply rels_modify. intros s [_ Hh]. split; try done; unfold subscribers; simpl.
  - intros n b. rewrite lookup_omap. destruct (subscriptions s !! n) as [l|]; simpl; [|done].
    destruct (filter _ l) as [|c l'] eqn:Hf; simpl; [by intros ?%not_elem_of_nil|].
    rewrite <- Hf, list_elem_of_filter. by intros [_ ?].
  - intros n b Hb Ho. rewrite lookup_omap. destruct (subscriptions s !! n) as [l|]; simpl in *; [|done].
    assert (b ∈ filter (fun a => alive s a = true) l) as Hin.
    { apply list_elem_of_filter. split; [|done]. apply alive_spec. by left; apply Hh. }
    destruct (filter _ l) as [|c l']; simpl; done.
  - intros b y Hy Ho. by exists y.
Qed.

Lemma hu_check : hu check_subscriptions.
Proof. unfold check_subscriptions. pose proof hu_clear. hush_tac. Qed.
#[local] Hint Resolve hu_check : hush.

Lemma hu_erase a : hu (do_erase_adapter a).
Proof. unfold do_erase_adapter. hush_tac. Qed.

(** ** Timeouts *)

Lemma hu_discard : hu discard_pending_calls.
Proof.
  unfold discard_pending_calls. hush_tac. match goal with |- hu (discard_loop (length ?l) _) => generalize (length l) end.
  intros n. induction n as [|n IH]; simpl; [hush_tac|]. unfold pending_call_timeout. hush_tac.
Qed.
End Ops.
