(* ===== verification/MailboxRun.v ===== *)
(** * A connection is sent its mailbox

    Every step of the dispatcher keeps each open connection in step with the mailbox of
    [Mailbox.v] that follows what the dispatcher has accepted. *)
From S2P Require Import Prelude Defs Caps RefCaps Adap SerHelper SerRoundtrip Disp DispInv DispOps DispSafe DispSpec.
From S2P Require Import DispLoop DispType Mailbox MailboxOps.
Import Dispatcher DispatcherThread.

Section Run.
Context {caps : Type} `{!CapsOps caps, !CapsFlags, !CapsLaws caps, !CapsSmall caps, !CapsTyped caps}.
Context {S : Type} `{!AdapterImpl S, !AdapterLaws S, !SteadyClock}.
Implicit Types (s : Disp caps S) (a : aid) (x : Adapter S).

(** ** What the dispatcher accepts *)

(** The request [cmd] of the registered client [a], if it is one about posts. *)
Definition request_event x (i : AdapterInfo) a (cmd : Z) (c : caps) : option (event caps) :=
  if bool_decide (cmd = CMD_SUBSCRIBE_REQ) then
    match (RequestParser.parse_subscribe (c, tt)).1 with
    | POk n => if bool_decide (n = EmptyString) then None else Some (Subscribed a n)
    | _ => None
    end
  else if bool_decide (cmd = CMD_UNSUBSCRIBE_REQ) then
    match (RequestParser.parse_unsubscribe (c, tt)).1 with
    | POk n => if bool_decide (n = EmptyString) then None else Some (Unsubscribed a n)
    | _ => None
    end
  else if bool_decide (cmd = CMD_POST_REQ) then
    match (RequestParser.parse_post (c, tt)).1 with
    | POk (n, type, args) =>
        if bool_decide (n = EmptyString) || negb (is_valid_msgtype type) then None
        else Some (Published n type args (tag x) (ai_name i))
    | _ => None
    end
  else None.

Definition packet_event s (p : CmdPacket caps) : option (event caps) :=
  match p with
  | (None, _) => None
  | (Some c, a) =>
      match adapters s !! a, info_of s a with
      | Some x, Some i =>
          if has_flag (ai_flags i) FLORA_CLI_FLAG_MONITOR then None
          else match caps_read_i32 c with (Some cmd, c') => request_event x i a cmd c' | _ => None end
      | _, _ => None
      end
  end.

Definition label_event (st : sys caps S) (lb : label S) : option (event caps) :=
  match st, lb with
  | Running (Handling (p :: _)) s, LHandle => packet_event s p
  | Running _ _, LAccept a x => Some (Joined a (serialize_flags x))
  | _, _ => None
  end.

(** A run and what was accepted in it. *)
Inductive traced (st0 : sys caps S) : list (event caps) -> sys caps S -> Prop :=
  | traced_refl : traced st0 [] st0
  | traced_step es st lb st' :
      traced st0 es st -> exec st lb = Some st' -> orderly st lb ->
      traced st0 (es ++ option_list (label_event st lb)) st'.

(** ** The invariant *)

Record mailed (es : list (event caps)) s : Prop := {
  ma_ready : ready s;
  ma_known n b : b ∈ subscribers s n -> is_Some (adapters s !! b);
  ma_kept size a : mb_kept (mailbox_of size a es) = persist_msgs s;
  ma_box a x : adapters s !! a = Some x -> open x ->
    let m := mailbox_of (buf_size s) a es in
    mb_flags m = serialize_flags x /\ mb_posts m = posts_in (caps:=caps) x /\
    (forall n, n ∈ mb_names m <-> a ∈ subscribers s n)
}.

Lemma mailed_hush es s s' : mailed es s -> hush s s' -> mailed es s'.
Proof.
  intros [Hr Hk Hp Hb] Hu. split.
  - by eapply ready_hush.
  - intros n b Hs. apply (hu_dom _ _ Hu), (Hk n), (hu_subs _ _ Hu _ _ Hs).
  - intros size a. by rewrite Hp, (hu_kept _ _ Hu).
  - intros a y Hy Ho. destruct (hu_box _ _ Hu a y Hy Ho) as (x & Hx & Hox & -> & ->). simpl.
    rewrite (hu_buf _ _ Hu). destruct (Hb a x Hx Hox) as (? & ? & Hn). split_and!; [done..|].
    intros n. rewrite Hn. split; [|apply (hu_subs _ _ Hu)]. intros Hin. apply (hu_stay _ _ Hu); [done|]. by exists y.
Qed.

Lemma mailed_hushed {A} es (m : M (Disp caps S) A) s :
  mailed es s -> rels hushed m -> wlp m (fun _ s' => mailed es s') s.
Proof.
  intros Hm Hh. eapply wpx_mono; [apply Hh|]. intros r s' Hu. eapply mailed_hush; [done|]. apply Hu, Hm.
Qed.

Lemma posts_receive d p x :
  decode_post (caps:=caps) d = Some p -> open (receive (Some d) x) ->
  open x /\ posts_in (caps:=caps) (receive (Some d) x) = posts_in (caps:=caps) x ++ [p].
Proof.
  intros Hd Ho. apply receive_open in Ho as [Ho Hs]. split; [done|]. unfold posts_in. rewrite Hs, omap_app. simpl.
  by rewrite Hd.
Qed.

(** A connection that is sent what there is to send of a post. *)
Lemma posts_sent size flags name type args tg sender (y : Adapter S) :
  is_u32 size -> is_u32 type -> is_u64 tg ->
  let y' := receive (ResponseSerializer.serialize_post (c_str name) type args tg (c_str sender) size flags) y in
  open y' -> open y /\ serialize_flags y' = serialize_flags y /\
    posts_in (caps:=caps) y' = posts_in (caps:=caps) y ++ sent_post size flags name type args tg sender.
Proof.
  intros Hs Ht Hg y' Ho. subst y'. unfold sent_post.
  destruct (ResponseSerializer.serialize_post _ _ _ _ _ _ _) as [d|] eqn:Hd; [|by rewrite app_nil_r].
  pose proof (decode_post_encode _ _ _ _ _ _ _ _ Hs Ht Hg Hd) as Hp.
  destruct (posts_receive d _ y Hp Ho) as [? ->]. done.
Qed.

(** The type of a post is read as an [uint32_t]. *)
Lemma parse_post_type c name type (args : option caps) :
  request RequestParser.parse_post c (name, type, args) -> is_u32 type.
Proof.
  unfold request, RequestParser.parse_post, mbind at 1, P_bind at 1, rd at 1.
  destruct (caps_read_u32 c) as [[t|] c1] eqn:Ht; [|done]. apply read_u32_type in Ht. simpl.
  unfold mbind, P_bind, rd, mret, P_ret. simpl.
  destruct (caps_read_str c1) as [[?|] c2]; simpl; [|done].
  destruct (caps_read_caps c2) as [[?|] c3]; simpl; [|done]. by intros [= <- <- <-].
Qed.

(** ** The three requests *)

Section Requests.
Context (c0 : caps) (a : aid) (todo : list (CmdPacket caps)).

Lemma greeting_receive s n x :
  is_u32 (buf_size s) -> greeting s n x =
    match persist_msgs s !! n with
    | Some args => receive (ResponseSerializer.serialize_post (c_str n) FLORA_MSGTYPE_PERSIST args 0 (c_str EmptyString)
        (buf_size s) (serialize_flags x)) x
    | None => x
    end.
Proof.
  intros Hb. unfold greeting. destruct (persist_msgs s !! n) as [args|]; [|done]. change (c_str EmptyString) with EmptyString.
  destruct (ResponseSerializer.serialize_post _ _ _ _ _ _ _) as [b|] eqn:Hs; [|done].
  rewrite bool_decide_true; [done|]. intros ->. unfold ResponseSerializer.serialize_post in Hs.
  by destruct (serialize_to_bounds _ _ _ _ Hb Hs) as [[? _] _].
Qed.

Lemma subscribers_insert s n l n' :
  subscribers (set_subscriptions (<[n := l]> (subscriptions s)) s) n' = if bool_decide (n' = n) then l else subscribers s n'.
Proof. unfold subscribers. simpl. case_bool_decide; [subst; by rewrite lookup_insert_eq|by rewrite lookup_insert_ne]. Qed.

(** The connections after a new subscription: the subscriber was sent the kept post. *)
Lemma greeted_open s n b y :
  is_u32 (buf_size s) -> alter (greeting s n) a (adapters s) !! b = Some y -> open y ->
  exists x, adapters s !! b = Some x /\ open x /\ serialize_flags y = serialize_flags x /\
    posts_in (caps:=caps) y = posts_in (caps:=caps) x ++ (if bool_decide (b = a) then
      match persist_msgs s !! n with
      | Some args => sent_post (buf_size s) (serialize_flags x) n FLORA_MSGTYPE_PERSIST args 0 EmptyString
      | None => [] end else []).
Proof.
  intros Hu Hy Ho. case_bool_decide as He; [subst b; rewrite lookup_alter_eq in Hy|
    rewrite lookup_alter_ne in Hy by done; exists y; by rewrite app_nil_r].
  destruct (adapters s !! a) as [x|]; [|done]. injection Hy as <-. exists x. split; [done|].
  rewrite greeting_receive in * by done. destruct (persist_msgs s !! n) as [args|]; [|by rewrite app_nil_r]. by apply posts_sent.
Qed.

(** A subscription that was there already. *)
Lemma mailed_again es s n :
  mailed es s -> a ∈ subscribers s n ->
  mailed (es ++ [Subscribed a n]) (set_subscriptions (<[n := subscribers s n]> (subscriptions s)) s).
Proof.
  intros [Hr Hk Hp Hb] Hin. split; simpl.
  - by destruct Hr.
  - intros n' b. rewrite subscribers_insert. case_bool_decide as He; [subst; apply Hk|apply Hk].
  - intros size b. rewrite mailbox_snoc. simpl. rewrite <- (Hp size b). by case_bool_decide.
  - intros b x Hx Ho. destruct (Hb b x Hx Ho) as (? & ? & Hns). rewrite mailbox_snoc. simpl. rewrite bool_decide_false.
    2: { intros [-> Hc]. by apply Hc, Hns. }
    split_and!; [done..|]. intros n'. rewrite subscribers_insert, Hns. case_bool_decide as He; [by subst|done].
Qed.

(** A new subscription. *)
Lemma mailed_anew es s n :
  mailed es s -> is_Some (adapters s !! a) -> a ∉ subscribers s n ->
  mailed (es ++ [Subscribed a n]) (set_adapters (alter (greeting s n) a (adapters s))
    (set_subscriptions (<[n := subscribers s n ++ [a]]> (subscriptions s)) s)).
Proof.
  intros [Hr Hk Hp Hb] Hsome Hin. pose proof (rd_buf _ Hr) as Hu.
  assert (forall b y, alter (greeting s n) a (adapters s) !! b = Some y -> open y -> _) as Hold
    by exact (fun b y => greeted_open s n b y Hu).
  split; simpl.
  - destruct Hr as [? Hh]. split; [done|]. intros b (y & Hy & Ho). destruct (Hold b y Hy Ho) as (x & ? & ? & _).
    apply Hh. by exists x.
  - intros n' b. change (subscribers (set_adapters ?m ?t) n') with (subscribers t n').
    rewrite lookup_alter_is_Some, subscribers_insert. case_bool_decide; [subst n'|by apply Hk].
    rewrite elem_of_app, list_elem_of_singleton. intros [?| ->]; [by apply (Hk n)|done].
  - intros size b. rewrite mailbox_snoc. simpl. rewrite <- (Hp size b). by case_bool_decide.
  - intros b y Hy Ho. destruct (Hold b y Hy Ho) as (x & Hx & Hox & Hf & Hpo). rewrite mailbox_snoc. simpl.
    destruct (Hb b x Hx Hox) as (Hfl & Hps & Hns). rewrite Hf, Hpo, <- Hps, Hp. clear Hpo Hp.
    destruct (decide (b = a)) as [->|Hne].
    + rewrite (bool_decide_true (a = a)) by done. rewrite bool_decide_true by by rewrite Hns.
      simpl. rewrite Hfl. split_and!; [done..|]. intros n'. rewrite elem_of_union, elem_of_singleton, Hns.
      change (subscribers (set_adapters ?m ?t) n') with (subscribers t n'). rewrite subscribers_insert.
      case_bool_decide as He; [subst n'; rewrite elem_of_app, list_elem_of_singleton; naive_solver|naive_solver].
    + rewrite (bool_decide_false (b = a)) by done. rewrite bool_decide_false by (intros [? _]; done).
      rewrite app_nil_r. split_and!; [done..|]. intros n'. rewrite Hns.
      change (subscribers (set_adapters ?m ?t) n') with (subscribers t n'). rewrite subscribers_insert.
      case_bool_decide as He; [subst n'; rewrite elem_of_app, list_elem_of_singleton; naive_solver|done].
Qed.

Lemma mailed_subscribed es s c i n :
  inv s ((Some c0, a) :: todo) -> info_of s a = Some i -> request RequestParser.parse_subscribe c n -> n <> EmptyString ->
  mailed es s -> wlp (handle_subscribe_req c a) (fun _ s' => mailed (es ++ [Subscribed a n]) s') s.
Proof.
  intros Hi Hinf Hq Hn Hm. unfold wpx. rewrite (subscribe_exact c0 a todo s c i n) by done.
  case_bool_decide as Hin; [by apply mailed_again|]. apply mailed_anew; [done| |done].
  destruct (sender_deref c0 a todo s Hi) as [x ->]. by eexists.
Qed.

Lemma open_alive s b : ready s -> is_open s b -> alive s b = true.
Proof. intros [_ Hh] Ho. apply alive_spec. left. by apply Hh. Qed.

Lemma mailed_unsubscribed es s c i n :
  inv s ((Some c0, a) :: todo) -> info_of s a = Some i -> request RequestParser.parse_unsubscribe c n -> n <> EmptyString ->
  mailed es s -> wlp (handle_unsubscribe_req c a) (fun _ s' => mailed (es ++ [Unsubscribed a n]) s') s.
Proof.
  intros Hi Hinf Hq Hn [Hr Hk Hp Hb].
  destruct (unsubscribe_exact c0 a todo s c i n) as (s' & He & Hs & Hna & Hkeep & Hsub & Hoth); [done..|].
  unfold wpx. rewrite He. rewrite Hs.
  assert (forall n' b, b ∈ subscribers s' n' -> b ∈ subscribers s n') as Hless.
  { intros n' b. destruct (decide (n' = n)) as [->|Hne]; [intros Hin; by eapply elem_of_sublist|]. unfold subscribers. by rewrite Hoth. }
  split; simpl.
  - by destruct Hr.
  - intros n' b Hin. by apply (Hk n'), Hless.
  - intros size b. rewrite mailbox_snoc. simpl. rewrite <- (Hp size b). by case_bool_decide.
  - intros b x Hx Ho. rewrite mailbox_snoc. simpl. destruct (Hb b x Hx Ho) as (Hfl & Hps & Hns).
    pose proof (open_alive s b Hr (ex_intro _ x (conj Hx Ho))) as Hal.
    change (forall n', n' ∈ mb_names ?m <-> b ∈ subscribers (set_subscriptions ?l s) n') with
      (forall n', n' ∈ mb_names m <-> b ∈ subscribers s' n').
    assert (forall n', n' <> n -> b ∈ subscribers s' n' <-> b ∈ subscribers s n') as Hoth'.
    { intros n' Hne. unfold subscribers. by rewrite Hoth. }
    case_bool_decide as Hab; [subst b|]; simpl; (split_and!; [done..|]); intros n'.
    + rewrite elem_of_difference, elem_of_singleton, Hns. destruct (decide (n' = n)) as [->|Hne]; [by split; [intros [_ ?]|]|].
      rewrite Hoth' by done. naive_solver.
    + rewrite Hns. destruct (decide (n' = n)) as [->|Hne]; [by rewrite Hkeep by done|by rewrite Hoth'].
Qed.

(** Of the open connections, the recipients of a post are the subscribers. *)
Lemma recipients_open s name b y :
  ready s -> adapters s !! b = Some y -> open y -> b ∈ recipients s name <-> b ∈ subscribers s name.
Proof.
  intros Hr Hy Ho. unfold recipients, open_subscribers. rewrite list_elem_of_filter. unfold open_subscriber.
  rewrite Hy, (open_alive s b Hr (ex_intro _ y (conj Hy Ho))). unfold open in Ho. rewrite Ho. simpl. naive_solver.
Qed.

(** A post leaves its recipients as the subscribers of its name. *)
Lemma prune_subscribers s name n b :
  b ∈ default [] (prune s name !! n) <-> b ∈ (if bool_decide (n = name) then recipients s name else subscribers s n).
Proof.
  unfold prune, recipients, subscribers.
  destruct (decide (n = name)) as [->|Hnn]; [rewrite (bool_decide_true (name = name)) by done|rewrite (bool_decide_false (n = name)) by done];
    (destruct (subscriptions s !! name) as [l|] eqn:Hl; simpl; [|by rewrite ?Hl]); case_bool_decide as Hemp.
  - by rewrite lookup_delete_eq, Hemp.
  - by rewrite lookup_insert_eq.
  - by rewrite lookup_delete_ne.
  - by rewrite lookup_insert_ne.
Qed.

Lemma mailed_published es s c i x name type args :
  inv s ((Some c0, a) :: todo) -> adapters s !! a = Some x -> is_u64 (tag x) -> info_of s a = Some i ->
  request RequestParser.parse_post c (name, type, args) -> name <> EmptyString -> is_valid_msgtype type = true ->
  mailed es s ->
  wlp (handle_post_req c a) (fun _ s' => mailed (es ++ [Published name type args (tag x) (ai_name i)]) s') s.
Proof.
  intros Hi Hx Htg Hinf Hq Hn Hty [Hr Hk Hp Hb].
  destruct (handle_post_delivers c0 a todo s c x i name type args) as (m & Hm & He); [done..|].
  unfold wpx. rewrite He. pose proof (rd_buf _ Hr) as Hu.
  pose proof (parse_post_type _ _ _ _ Hq) as Hty32.
  set (send := post_to (buf_size s) name type args (tag x) (ai_name i)) in *.
  assert (forall b y, adapters s !! b = Some y -> open y -> b ∈ recipients s name <-> b ∈ subscribers s name) as Hrec
    by (intros; by eapply recipients_open).
  pose proof (fun n b => prune_subscribers s name n b) as Hprune.
  assert (forall b y', m !! b = Some y' -> open y' -> exists y, adapters s !! b = Some y /\ open y /\
    serialize_flags y' = serialize_flags y /\ posts_in (caps:=caps) y' = posts_in (caps:=caps) y ++
      (if bool_decide (b ∈ recipients s name)
       then sent_post (buf_size s) (wire_order (serialize_flags y)) name type args (tag x) (ai_name i) else [])) as Hold.
  { intros b y' Hy' Ho'. rewrite (Hm b) in Hy'. case_bool_decide; [|by exists y'; rewrite app_nil_r].
    destruct (adapters s !! b) as [y|]; [|done]. injection Hy' as <-. exists y. split; [done|]. by apply posts_sent. }
  split; simpl.
  - destruct Hr as [? Hh]. split; [done|]. intros b (y' & Hy' & Ho'). destruct (Hold b y' Hy' Ho') as (y & ? & ? & _).
    apply Hh. by exists y.
  - intros n b Hin. rewrite (Hm b).
    assert (is_Some (adapters s !! b)) as Hsome.
    { apply (Hprune n b) in Hin. revert Hin. case_bool_decide as Hnn; [subst n|apply Hk].
      intros [Hop _]%list_elem_of_filter. by apply open_subscriber_alive. }
    by case_bool_decide; [apply fmap_is_Some|].
  - intros size b. rewrite mailbox_snoc. simpl. rewrite <- (Hp size b). done.
  - intros b y' Hy' Ho'. destruct (Hold b y' Hy' Ho') as (y & Hy & Hoy & Hf & Hpo). rewrite mailbox_snoc. simpl.
    destruct (Hb b y Hy Hoy) as (Hfl & Hps & Hns). rewrite Hf, Hpo, <- Hps, <- Hfl.
    rewrite (bool_decide_ext _ _ (Hns name)), (bool_decide_ext _ _ (Hrec b y Hy Hoy)).
    clear Hpo.
    split_and!; [by case_bool_decide|by case_bool_decide; rewrite ?app_nil_r|].
    intros n. unfold subscribers at 1. simpl. rewrite (Hprune n b).
    transitivity (n ∈ mb_names (mailbox_of (buf_size s) b es)); [by case_bool_decide|]. rewrite Hns.
    case_bool_decide; [subst n; by rewrite (Hrec b y Hy Hoy)|done].
Qed.
End Requests.

(** ** One command *)

(** A request that is refused changes nothing. *)
Lemma refused_noop x i a cmd h c s :
  msg_handler cmd = Some h -> request_event x i a cmd c = None ->
  cmd = CMD_SUBSCRIBE_REQ \/ cmd = CMD_UNSUBSCRIBE_REQ \/ cmd = CMD_POST_REQ ->
  wlp (h c a) (fun _ s' => s' = s) s.
Proof.
  intros Hh He Hc. revert He. unfold request_event.
  destruct Hc as [->|[->| ->]]; injection Hh as <-;
    repeat (rewrite bool_decide_false by done); rewrite bool_decide_true by done;
    unfold handle_subscribe_req, handle_unsubscribe_req, handle_post_req; intros He; wstep;
    unfold deref, wpx at 1; (destruct (adapters s !! a) as [y|]; [|done]);
    (destruct (bool_decide (info y = None)); [by wsteps|]); wstep; unfold parse; revert He.
  - destruct (RequestParser.parse_subscribe (c, tt)).1 as [n| | |]; intros He; wsteps; try done.
    by destruct (bool_decide (n = EmptyString)); wsteps.
  - destruct (RequestParser.parse_unsubscribe (c, tt)).1 as [n| | |]; intros He; wsteps; try done.
    by destruct (bool_decide (n = EmptyString)); wsteps.
  - destruct (RequestParser.parse_post (c, tt)).1 as [[[n type] args]| | |]; intros He; wsteps; try done.
    unfold post_msg. destruct (is_valid_msgtype type); simpl; wsteps; [|done]. rewrite orb_false_r in He.
    unfold deref, wpx at 1. destruct (adapters s !! a) as [z|]; [|done]. wstep.
    destruct (bool_decide (n = EmptyString)); [|done]. unfold deref_info, read_info, undefined, wpx.
    destruct (info z) as [[k|k]|]; [destruct (adapter_infos s !! k)|destruct (monitors s !! k)|]; done.
Qed.

(** The handlers of the other requests. *)
Lemma hu_handler cmd h c a :
  msg_handler cmd = Some h ->
  ~ (cmd = CMD_SUBSCRIBE_REQ \/ cmd = CMD_UNSUBSCRIBE_REQ \/ cmd = CMD_POST_REQ) ->
  rels (S:=Disp caps S) hushed (h c a).
Proof.
  unfold msg_handler. case_bool_decide as Hz; [|done]. rewrite <- (Z2Nat.id cmd) by done.
  generalize (Z.to_nat cmd). intros k. rewrite Nat2Z.id. unfold msg_handlers, CMD_SUBSCRIBE_REQ, CMD_UNSUBSCRIBE_REQ, CMD_POST_REQ.
  destruct k as [|[|[|[|[|[|[|[|[|k]]]]]]]]]; simpl; intros Hh Hc; simplify_eq; try (exfalso; lia).
  - apply hu_auth.
  - apply hu_reply.
  - apply hu_declare.
  - apply hu_remove.
  - apply hu_call.
  - apply hu_ping.
Qed.

Lemma request_event_other x i a cmd (c : caps) :
  ~ (cmd = CMD_SUBSCRIBE_REQ \/ cmd = CMD_UNSUBSCRIBE_REQ \/ cmd = CMD_POST_REQ) -> request_event x i a cmd c = None.
Proof. intros Hc. unfold request_event. by rewrite !bool_decide_false by naive_solver. Qed.

Lemma mailed_handler c0 c a todo es s x i cmd h :
  inv s ((Some c0, a) :: todo) -> adapters s !! a = Some x -> is_u64 (tag x) -> info_of s a = Some i ->
  msg_handler cmd = Some h -> mailed es s ->
  wlp (h c a) (fun _ s' => mailed (es ++ option_list (request_event x i a cmd c)) s') s.
Proof.
  intros Hi Hx Htg Hinf Hh Hm.
  destruct (decide (cmd = CMD_SUBSCRIBE_REQ \/ cmd = CMD_UNSUBSCRIBE_REQ \/ cmd = CMD_POST_REQ)) as [Hc|Hc].
  2: { rewrite request_event_other, app_nil_r by done. apply mailed_hushed; [done|]. by eapply hu_handler. }
  destruct (request_event x i a cmd c) as [e|] eqn:He.
  2: { rewrite app_nil_r. eapply wpx_mono; [by eapply refused_noop|]. by intros ? ? ->. }
  change (option_list (Some e)) with [e]. revert He. unfold request_event. destruct Hc as [->|[->| ->]]; injection Hh as <-;
    repeat (rewrite bool_decide_false by done); rewrite bool_decide_true by done.
  - destruct (RequestParser.parse_subscribe (c, tt)).1 as [n| | |] eqn:Hq; try done.
    case_bool_decide; [done|]. intros [= <-]. by eapply mailed_subscribed.
  - destruct (RequestParser.parse_unsubscribe (c, tt)).1 as [n| | |] eqn:Hq; try done.
    case_bool_decide; [done|]. intros [= <-]. by eapply mailed_unsubscribed.
  - destruct (RequestParser.parse_post (c, tt)).1 as [[[n type] args]| | |] eqn:Hq; try done.
    case_bool_decide; [done|]. destruct (is_valid_msgtype type) eqn:Hv; [|done]. intros [= <-].
    by eapply mailed_published.
Qed.

Lemma wlp_read_info p (Q : AdapterInfo -> Disp caps S -> Prop) s :
  (forall i, match p with InAdapters k => adapter_infos s !! k | InMonitors k => monitors s !! k end = Some i -> Q i s) ->
  wlp (read_info p) Q s.
Proof.
  unfold read_info, wpx. destruct p as [k|k]; [destruct (adapter_infos s !! k)|destruct (monitors s !! k)]; auto.
Qed.

(** Handling a command, for registered senders and the others. *)
Lemma mailed_cmd es s p todo :
  inv s (p :: todo) -> map_Forall (fun _ x => is_u64 (tag x)) (adapters s) -> mailed es s ->
  wlp (handle_cmd p.1 p.2) (fun _ s' => mailed (es ++ option_list (packet_event s p)) s') s.
Proof.
  destruct p as [[c|] a]; intros Hi Htg Hm; simpl.
  2: { rewrite app_nil_r. apply mailed_hushed; [done|apply hu_erase]. }
  wstep. unfold deref, wpx at 1. destruct (adapters s !! a) as [x|] eqn:Hx; [|done]. specialize (Htg a x Hx). wstep.
  assert (forall es' s', mailed es' s' -> wlp (close_adapter a) (fun _ s2 => mailed es' s2) s') as Hclose.
  { intros es' s' ?. apply mailed_hushed; [done|apply hu_close]. }
  assert (forall ok es' s', mailed es' s' -> wlp (when (negb ok) (close_adapter a) ;; t ← now; modify (set_handle_cmd_tp t))
    (fun _ s2 => mailed es' s2) s') as Hend.
  { intros ok es' s' ?. apply mailed_hushed; [done|]. pose proof hu_now. hush_tac. }
  destruct (info x) as [p|] eqn:Hp.
  - wstep. apply wlp_read_info. intros i Hi'. wsteps.
    assert (info_of s a = Some i) as Hinf by (unfold info_of; by rewrite Hx, Hp). rewrite Hinf.
    destruct (has_flag (ai_flags i) FLORA_CLI_FLAG_MONITOR); simpl; [rewrite app_nil_r; by apply Hclose|].
    destruct (caps_read_i32 c) as [[cmd|] c'] eqn:Hr; simpl; [|rewrite app_nil_r; by apply Hclose].
    case_bool_decide as Hcmd.
    + rewrite request_event_other, app_nil_r; [by apply Hclose|].
      unfold CMD_SUBSCRIBE_REQ, CMD_UNSUBSCRIBE_REQ, CMD_POST_REQ, MSG_HANDLER_COUNT in *. lia.
    + destruct (msg_handler cmd) as [h|] eqn:Hh; [|done]. wstep.
      eapply wpx_mono; [by eapply mailed_handler|]. intros ok s' Hm'. by apply Hend.
  - assert (info_of s a = None) as -> by (unfold info_of; by rewrite Hx, Hp). rewrite app_nil_r. wsteps.
    destruct (caps_read_i32 c) as [[cmd|] c'] eqn:Hr; simpl; [|by apply Hclose].
    case_bool_decide as Hcmd; [by apply Hclose|]. destruct (msg_handler cmd) as [h|] eqn:Hh; [|done]. wstep.
    destruct (decide (cmd = CMD_AUTH_REQ)) as [->|Hne].
    + injection Hh as <-. eapply wpx_mono; [by apply mailed_hushed, hu_auth|]. intros ok s' Hm'. by apply Hend.
    + unfold wpx at 1. rewrite (unregistered_noop s a x cmd h c') by done. by apply Hend.
Qed.

(** ** The steps *)

Definition sys_mailed (es : list (event caps)) (st : sys caps S) : Prop :=
  match st with Running _ s => mailed es s | Crashed _ => True end.

Lemma result_mailed {A} es (m : M (Disp caps S) A) f s :
  wlp m (fun _ s' => mailed es s') s -> sys_mailed es (result (m s) f).
Proof. unfold wpx. by destruct (m s) as [[]|]. Qed.

Lemma hu_loop_locked : rels (S:=Disp caps S) hushed loop_locked.
Proof. unfold loop_locked. pose proof hu_discard. hush_tac. Qed.

(** A connection that is deleted is closed first. *)
Lemma mailed_delete es s a : mailed es s -> wlp (poll_delete a) (fun _ s' => mailed es s') s.
Proof.
  intros Hm. unfold poll_delete. wstep.
  eapply (wpx_mono _ _ (fun _ s' => mailed es s' /\ ~ is_open s' a)).
  - unfold close_adapter. wstep. unfold deref, wpx at 1. destruct (adapters s !! a) as [x|] eqn:Hx; [|done].
    unfold upd_adapter. wsteps. split.
    + pose proof (hushed_close s a) as Hc. unfold close_adapter, wpx, mbind, M_bind, deref in Hc. rewrite Hx in Hc.
      eapply mailed_hush; [done|]. apply Hc, Hm.
    + intros (y & Hy & Ho). simpl in Hy. rewrite lookup_alter_eq, Hx in Hy. injection Hy as <-. unfold open in Ho. simpl in Ho.
      by rewrite close_closed in Ho.
  - intros _ s1 [Hm1 Hno]. wstep.
    assert (rels (S:=Disp caps S) hush (erase_adapter a)) as He.
    { unfold erase_adapter. intros s2. clear. wstep. unfold deref, wpx at 1. destruct (adapters s2 !! a) as [x|]; [|done].
      destruct (info x); wsteps; [by apply hush_other|done]. }
    eapply wpx_mono; [apply (He s1)|]. intros ? s2 Hu.
    destruct (mailed_hush _ _ _ Hm1 Hu) as [[Hb Hh] Hk Hp Hbox]. unfold wpx. simpl. split; try done. split; [done|].
    simpl. intros b Ho. apply elem_of_difference. split; [by apply Hh|].
    rewrite elem_of_singleton. intros ->. apply Hno. exact (hush_open _ _ _ Hu Ho).
Qed.

Lemma mailed_accept es s a x :
  adapters s !! a = None -> accepted_conn x -> mailed es s ->
  mailed (es ++ [Joined a (serialize_flags x)]) (set_held ({[a]} ∪ held s) (set_adapters (<[a := x]> (adapters s)) s)).
Proof.
  intros Ha (_ & _ & Hx) [[Hb Hh] Hk Hp Hbox]. split; simpl.
  - split; [done|]. simpl. intros b (y & Hy & Ho). simpl in Hy. destruct (decide (a = b)) as [<-|Hne]; [set_solver|].
    rewrite lookup_insert_ne in Hy by done. assert (b ∈ held s) by (apply Hh; by exists y). set_solver.
  - intros n b Hin. rewrite lookup_insert_is_Some'. right. by eapply Hk.
  - intros size b. rewrite mailbox_snoc. simpl. rewrite <- (Hp size b). by case_bool_decide.
  - intros b y Hy Ho. rewrite mailbox_snoc. simpl. destruct (decide (a = b)) as [<-|Hne].
    + rewrite lookup_insert_eq in Hy. injection Hy as ->. rewrite bool_decide_true by done. simpl.
      split_and!; [done|unfold posts_in; by rewrite Hx|]. intros n. split; [set_solver|].
      intros Hin. destruct (Hk n a Hin). congruence.
    + rewrite lookup_insert_ne in Hy by done. rewrite bool_decide_false by done. by apply Hbox.
Qed.

Lemma step_mailed es st lb st' :
  sys_ok st -> sys_typed st -> sys_mailed es st -> exec st lb = Some st' ->
  sys_mailed (es ++ option_list (label_event st lb)) st'.
Proof.
  intros Hok Hty Hm He. destruct st as [l s|]; [|done]. destruct Hok as [Hi _]. simpl in Hm, Hty.
  destruct lb as [| | |a data|a i|a|a x|]; simpl in He.
  - assert (sys_mailed es (result (loop_locked s) id)) as Hgo by by apply result_mailed, mailed_hushed, hu_loop_locked.
    destruct l as [| |[|]|]; simplify_eq; simpl; by rewrite app_nil_r.
  - destruct l as [| |[|p todo]|]; simplify_eq. apply result_mailed. eapply mailed_cmd; [done|apply Hty|done].
  - destruct l as [| |[|]|]; simplify_eq. simpl. rewrite app_nil_r. eapply mailed_hush; [done|]. by apply hush_other.
  - assert (label_event (Running l s) (LPut a data) = None) as -> by by destruct l as [| |[|]|].
    rewrite app_nil_r. case_bool_decide; [|done]. unfold put in He.
    destruct (caps_parse data); simplify_eq; simpl; [|done]. eapply mailed_hush; [done|]. by apply hush_other.
  - assert (label_event (Running l s) (LRead a i) = None) as -> by by destruct l as [| |[|]|].
    rewrite app_nil_r. case_bool_decide as Ha; [|done]. destruct Ha as [_ Hr]. simplify_eq. simpl.
    eapply mailed_hush; [done|]. apply hush_alter. intros x Hx. unfold reads in Hr. rewrite Hx in Hr. injection Hr as Hs Hc.
    unfold open, posts_in. simpl. by rewrite Hs, Hc.
  - assert (label_event (Running l s) (LDelete a) = None) as -> by by destruct l as [| |[|]|].
    rewrite app_nil_r. case_bool_decide; [|done]. simplify_eq. by apply result_mailed, mailed_delete.
  - assert (label_event (Running l s) (LAccept a x) = Some (Joined a (serialize_flags x))) as -> by by destruct l as [| |[|]|].
    case_bool_decide as Ha; [|done]. destruct Ha as [Ha Hx]. simplify_eq. by apply mailed_accept.
  - assert (label_event (Running l s) LClose = None) as -> by by destruct l as [| |[|]|].
    rewrite app_nil_r. simplify_eq. simpl. eapply mailed_hush; [done|]. by apply hush_other.
Qed.

Lemma traced_mailed flags bufsize es st :
  is_u32 bufsize -> traced (start flags bufsize) es st -> sys_ok st /\ sys_typed st /\ sys_mailed es st.
Proof.
  intros Hb. induction 1 as [|es st lb st' Htr (Hok & Hty & Hm) He Ho].
  - split_and!; [by apply start_ok|apply start_typed|]. split; simpl; try done.
    + split; [|by intros a (x & Hx & _)]. simpl. unfold is_u32, DEFAULT_MSG_BUF_SIZE, two32 in *. case_bool_decide; lia.
    + intros n b. by intros ?%not_elem_of_nil.
  - split_and!; [eapply step_ok; [done|by exists lb]|eapply step_typed; [done|by exists lb]|by eapply step_mailed].
Qed.

(** C7. Every connection that is open has been sent exactly its mailbox, at every moment of
    every run of the service and however its threads interleave: the posts among what was
    written to it, as its client reads them, are those the service accepted, from all the
    clients, under the names it subscribed to at that moment, each once and in the order
    they were accepted, with the name, the type, the content, the sender's tag and name they
    were posted with; and the kept post of a name, without its sender, at each new
    subscription to it. It is a subscriber of exactly the names it asked for and has not
    given up. *)
Theorem mailbox_exact flags bufsize es l s a x :
  is_u32 bufsize -> traced (start flags bufsize) es (Running l s) ->
  adapters s !! a = Some x -> adap_closed (impl x) = false ->
  let m := mailbox_of (buf_size s) a es in
  omap decode_post (adap_sent (impl x)) = mb_posts m /\
  (forall n, n ∈ mb_names m <-> a ∈ subscribers s n).
Proof.
  intros Hb Htr Hx Ho. destruct (traced_mailed _ _ _ _ Hb Htr) as (_ & _ & Hm).
  by destruct (ma_box _ _ Hm a x Hx Ho) as (_ & Hp & ?).
Qed.
End Run.
