(* ===== verification/MailboxScenario.v ===== *)
(** * A mailbox in a run *)
From S2P Require Import Prelude Defs Caps RefCaps Adap RefSock SerHelper Disp DispSpec DispLoop DispType SockAdap Scenario.
From S2P Require Import Mailbox MailboxOps MailboxRun.
Import Dispatcher DispatcherThread.

Abbreviation rsys := (sys rcaps conn).

(** The run, and what is accepted in it. *)
Fixpoint exec_traced (st : rsys) (lbs : list (label conn)) : list (event rcaps) * rsys :=
  match lbs with
  | [] => ([], st)
  | lb :: lbs =>
      let '(es, st2) := exec_traced (default st (exec st lb)) lbs in (option_list (label_event st lb) ++ es, st2)
  end.

Lemma exec_traced_traced st0 lbs : forall es st,
  traced st0 es st -> is_Some (exec_orderly st lbs) ->
  traced st0 (es ++ (exec_traced st lbs).1) (exec_traced st lbs).2.
Proof.
  induction lbs as [|lb lbs IH]; intros es st Ht Ho; simpl in *; [by rewrite app_nil_r|].
  destruct (orderlyb st lb) eqn:Hob; [|by destruct Ho]. destruct (exec st lb) as [st1|] eqn:He; [|by destruct Ho]. simpl.
  specialize (IH (es ++ option_list (label_event st lb)) st1). destruct (exec_traced st1 lbs) as [es2 st2]. simpl in *.
  rewrite app_assoc. apply IH; [|done]. econstructor; [done..|]. by apply orderlyb_spec.
Qed.

Lemma exec_traced_start st lbs r :
  exec_traced st lbs = r -> is_Some (exec_orderly st lbs) -> traced st r.1 r.2.
Proof. intros <- Ho. apply (exec_traced_traced st lbs [] st); [constructor|done]. Qed.

(** Alice posts before and after Bob subscribes, and once more when he no longer does. *)
Definition mail_run : list (label conn) :=
  registered ++ whole [(alice, f_post "news" FLORA_MSGTYPE_PERSIST)]
  ++ whole [(bob, f_subscribe "news")]
  ++ whole [(alice, f_post "news" FLORA_MSGTYPE_INSTANT)] ++ whole [(bob, f_unsubscribe "news")]
  ++ whole [(alice, f_post "news" FLORA_MSGTYPE_INSTANT)].

Definition mail_result : list (event rcaps) * rsys := exec_traced (start 0 0) mail_run.
Definition mail_events : list (event rcaps) := mail_result.1.

Definition place_of (st : rsys) : loc rcaps := match st with Running l _ => l | Crashed _ => Top end.
Definition state_of (st : rsys) : rdisp := match st with Running _ s => s | Crashed _ => sc_state nothing end.
Definition is_running (st : rsys) : bool := match st with Running _ _ => true | Crashed _ => false end.

Lemma traced_at st0 es st :
  traced st0 es st -> is_running st = true -> traced st0 es (Running (place_of st) (state_of st)).
Proof. by destruct st. Qed.

Definition mail_place : loc rcaps := place_of mail_result.2.
Definition mail_state : rdisp := state_of mail_result.2.

Lemma mail_ran : is_running mail_result.2 = true.
Proof. vm_compute. reflexivity. Qed.

Lemma mail_orderly : is_Some (exec_orderly (start 0 0) mail_run).
Proof. vm_compute. eexists. reflexivity. Qed.

Lemma mail_reached : traced (start 0 0) mail_events (Running mail_place mail_state).
Proof.
  unfold mail_place, mail_state, mail_events. apply traced_at; [|exact mail_ran].
  apply (exec_traced_start (start 0 0) mail_run mail_result).
  - unfold mail_result. reflexivity.
  - exact mail_orderly.
Qed.

(** Bob is told of the kept post, without its sender, and of the post of his time. *)
Lemma mailbox_exact_witness :
  po_tag <$> mb_posts (mailbox_of (buf_size mail_state) bob mail_events) = [0; 77] /\
  omap (decode_post (caps:=rcaps)) (adap_sent (impl (adapter_at mail_state bob))) =
    mb_posts (mailbox_of (buf_size mail_state) bob mail_events) /\
  (forall n, n ∈ mb_names (mailbox_of (buf_size mail_state) bob mail_events) <-> bob ∈ subscribers mail_state n).
Proof.
  split; [vm_compute; reflexivity|].
  apply (mailbox_exact 0 0 mail_events mail_place mail_state bob).
  - by unfold is_u32, two32.
  - exact mail_reached.
  - vm_compute. reflexivity.
  - vm_compute. reflexivity.
Defined.
