(* ===== verification/Roles.v ===== *)
(** * Who is written to

    The dispatcher writes posts, calls and answers to registered clients only: every
    subscriber, every caller whose call is pending and everyone known by a name was
    registered as a client. A handler that registers and erases nobody is [calm]: it
    writes to clients and closes. [CalmInv] is an invariant that calm handlers keep,
    [roles] is the least of interest. *)
From S2P Require Import Prelude Defs Caps RefCaps Adap SerHelper SerRoundtrip Disp DispInv.
From S2P Require Import DispOps DispSafe DispSpec DispCalls DispLoop DispType Legible.
Import Dispatcher.

Section Calm.
Context {caps : Type} `{!CapsOps caps, !CapsFlags}.
Context {S : Type} `{!AdapterImpl S, !SteadyClock}.
Implicit Types (s : Disp caps S) (a : aid).

(** [a] was registered as a client, not as a monitor. *)
Definition is_client s a : Prop := exists k, (info <$> adapters s !! a) = Some (Some (InAdapters k)).

(** ** Calm changes *)

(** An open connection was sent legible messages. *)
Definition spoken (x y : Adapter S) : Prop :=
  open y -> open x /\ exists l, adap_sent (impl y) = adap_sent (impl x) ++ l /\ Forall (legible (caps:=caps)) l.

(** A connection was closed, or left as it was, or is a client's. *)
Definition calm1 (x y : Adapter S) : Prop :=
  info y = info x /\ serialize_flags y = serialize_flags x /\
  (~ open y \/ impl y = impl x \/ (exists k, info x = Some (InAdapters k)) /\ spoken x y).

Definition calm (m m' : gmap aid (Adapter S)) : Prop := forall a, option_Forall2 calm1 (m !! a) (m' !! a).

Lemma calm1_refl x : calm1 x x.
Proof. split_and!; auto. Qed.

Lemma calm_refl m : calm m m.
Proof. intros a. destruct (m !! a); constructor. apply calm1_refl. Qed.

Lemma calm_alter m a f : (forall x, m !! a = Some x -> calm1 x (f x)) -> calm m (alter f a m).
Proof.
  intros Hf b. destruct (decide (a = b)) as [<-|Hn].
  - rewrite lookup_alter_eq. destruct (m !! a) as [x|] eqn:Hx; constructor. by apply Hf.
  - rewrite lookup_alter_ne by done. apply calm_refl.
Qed.

Lemma calm_client s s' a : calm (adapters s) (adapters s') -> is_client s a -> is_client s' a.
Proof.
  intros Hc [k Hk]. specialize (Hc a). exists k. destruct Hc as [x y (Hi & _)|]; [|done].
  simpl in *. by rewrite Hi.
Qed.

Lemma calm_lookup m m' a y : calm m m' -> m' !! a = Some y -> exists x, m !! a = Some x /\ calm1 x y.
Proof. intros Hc Hy. specialize (Hc a). rewrite Hy in Hc. inversion Hc as [x ? Hxy Hx|]; subst. by exists x. Qed.

(** Reading a connection. *)
Lemma wlp_deref_raw m (Q : Adapter S -> Disp caps S -> Prop) s :
  (forall x, adapters s !! m = Some x -> Q x s) -> wlp (deref_raw m) Q s.
Proof.
  intros HQ. unfold deref_raw, deref, wpx. destruct (alive s m); [|done]. destruct (adapters s !! m); [by apply HQ|done].
Qed.

Lemma wlp_deref a (Q : Adapter S -> Disp caps S -> Prop) s :
  (forall x, adapters s !! a = Some x -> Q x s) -> wlp (deref a) Q s.
Proof. intros HQ. unfold deref, wpx. destruct (adapters s !! a); [by apply HQ|done]. Qed.

Lemma alter_twice (m : gmap aid (Adapter S)) a f g : alter f a (alter g a m) = alter (f ∘ g) a m.
Proof.
  apply map_eq. intros b. destruct (decide (a = b)) as [<-|Hn].
  - rewrite !lookup_alter_eq. by destruct (m !! a).
  - by rewrite !lookup_alter_ne.
Qed.

(** A connection that was not registered is nobody's. *)
Lemma not_client s a b : (info <$> adapters s !! a) = Some None -> is_client s b -> b <> a.
Proof. intros Ha [k Hk] ->. congruence. Qed.

Lemma same_infos_client s s' a : same_infos (adapters s) (adapters s') -> is_client s a -> is_client s' a.
Proof. intros Hs [k Hk]. exists k. by rewrite Hs. Qed.

End Calm.

(** ** Invariants that calm handlers keep *)
Class CalmInv {caps : Type} `{!CapsOps caps, !CapsFlags} {S : Type} `{!AdapterImpl S, !SteadyClock}
    (I : Disp caps S -> Prop) := {
  ci_size s : I s -> is_u32 (buf_size s);
  ci_subs s : I s -> map_Forall (fun _ l => Forall (is_client s) l) (subscriptions s);
  ci_calls s : I s -> Forall (fun pc => is_client s (pc_sender pc)) (pending_calls s);
  ci_named s : I s -> map_Forall (fun _ a => is_client s a) (named_adapters s);
  ci_calm s s' :
    I s -> calm (adapters s) (adapters s') ->
    map_Forall (fun _ l => Forall (is_client s') l) (subscriptions s') ->
    Forall (fun pc => is_client s' (pc_sender pc)) (pending_calls s') ->
    named_adapters s' = named_adapters s -> adapter_infos s' = adapter_infos s -> monitors s' = monitors s ->
    idseq s' = idseq s -> buf_size s' = buf_size s -> I s';
  ci_update s k i j :
    I s -> adapter_infos s !! k = Some i -> list_item j = list_item i ->
    I (set_adapter_infos (<[k := j]> (adapter_infos s)) s)
}.

Section Log.
Context {caps : Type} `{!CapsOps caps, !CapsFlags, !CapsLaws caps}.
Context {S : Type} `{!AdapterImpl S, !AdapterLaws S, !SteadyClock}.
Context {I : Disp caps S -> Prop} `{!CalmInv I}.
Implicit Types (s : Disp caps S) (a : aid).

(** ** Computations that are calm

    [L] are connections known to be clients'. *)
Definition known (L : list aid) s : Prop := I s /\ Forall (is_client s) L.

Definition mkeeps (L : list aid) {A} (Q : A -> Prop) (m : M (Disp caps S) A) : Prop :=
  forall s, known L s -> wlp m (fun x s' => known L s' /\ Q x) s.

Abbreviation any := (fun _ => True).

Lemma mk_ret L {A} (Q : A -> Prop) x : Q x -> mkeeps L Q (mret x).
Proof. intros Hx s Hs. by split. Qed.

Lemma mk_weaken L {A} (Q R : A -> Prop) m : mkeeps L Q m -> (forall x, Q x -> R x) -> mkeeps L R m.
Proof. intros Hm Hi s Hs. eapply wpx_mono; [by apply Hm|]. intros x s' [? ?]. auto. Qed.

Lemma mk_bind L {A B} (Q : A -> Prop) (R : B -> Prop) m f :
  mkeeps L Q m -> (forall x, Q x -> mkeeps L R (f x)) -> mkeeps L R (m ≫= f).
Proof.
  intros Hm Hf s Hs. apply wpx_bind. eapply wpx_mono; [by apply Hm|]. intros x s' [Hs' Hx]. by apply (Hf x Hx).
Qed.

Lemma mk_gets L {A} (f : Disp caps S -> A) : mkeeps L any (gets f).
Proof. intros s Hs. by split. Qed.

Lemma mk_get L : mkeeps L any get.
Proof. intros s Hs. by split. Qed.

Lemma mk_undefined L {A} (Q : A -> Prop) u : mkeeps L Q (undefined u).
Proof. done. Qed.

Lemma mk_modify L f : (forall s, known L s -> known L (f s)) -> mkeeps L any (modify f).
Proof. intros Hf s Hs. split; [by apply Hf|done]. Qed.

Lemma mk_when L b m : mkeeps L any m -> mkeeps L any (when b m).
Proof. intros Hm. destruct b; [done|]. by apply mk_ret. Qed.

Lemma mk_for_each L {A} (l : list A) f : (forall x, x ∈ l -> mkeeps L any (f x)) -> mkeeps L any (for_each l f).
Proof.
  induction l as [|x l IH]; intros Hf; [by apply mk_ret|]. simpl.
  eapply mk_bind; [apply Hf; by left|]. intros _ _. apply IH. intros y Hy. apply Hf. by right.
Qed.

(** Reading a container tells more clients. *)
Lemma mk_learn L {A B} (g : A -> list aid) (Q : B -> Prop) (f : Disp caps S -> A) h :
  (forall s, I s -> Forall (is_client s) (g (f s))) ->
  (forall x, mkeeps (g x ++ L) Q (h x)) -> mkeeps L Q (gets f ≫= h).
Proof.
  intros Hg Hh s [Hs HL]. do 2 wstep. eapply wpx_mono; [apply Hh; split; [done|]|].
  - apply Forall_app. auto.
  - intros x s' [[Hs' HL'] HQ]. apply Forall_app in HL' as [_ ?]. by split.
Qed.

Lemma mk_deref L a : mkeeps L any (deref a).
Proof. intros s Hs. unfold deref, wpx. by destruct (adapters s !! a). Qed.

Lemma mk_deref_raw L a : mkeeps L any (deref_raw a).
Proof. intros s Hs. unfold deref_raw, deref, wpx. by destruct (alive s a), (adapters s !! a). Qed.

Lemma mk_read_info L p : mkeeps L any (read_info p).
Proof.
  intros s Hs. unfold read_info, wpx. destruct p as [k|k]; [by destruct (adapter_infos s !! k)|by destruct (monitors s !! k)].
Qed.

Lemma mk_parse L {A} (p : P caps unit A) c : mkeeps L any (parse p c).
Proof. unfold parse. destruct (p (c, tt)).1; by try apply mk_ret. Qed.

(** A change of the connections only. *)
Lemma known_calm L s m : known L s -> calm (adapters s) m -> known L (set_adapters m s).
Proof.
  intros [Hs HL] Hc. assert (forall a, is_client s a -> is_client (set_adapters m s) a) as Hcl
    by (intros a; by apply calm_client).
  split; [|by eapply Forall_impl]. apply (ci_calm s); [done|done| | |done..].
  - intros n l Hl. eapply Forall_impl; [exact (ci_subs s Hs n l Hl)|exact Hcl].
  - eapply Forall_impl; [apply (ci_calls s Hs)|]. simpl. auto.
Qed.

(** The size of the buffer is an [uint32_t]. *)
Lemma mk_size L {A} (Q : A -> Prop) f : (forall size, is_u32 size -> mkeeps L Q (f size)) -> mkeeps L Q (gets buf_size ≫= f).
Proof. intros Hf s Hs. do 2 wstep. apply Hf; [apply ci_size, Hs|done]. Qed.

Lemma mk_write L a b : a ∈ L -> legible (caps:=caps) b -> mkeeps L any (write_adapter a b).
Proof.
  intros Ha Hb s Hs. unfold write_adapter. wstep. unfold deref, wpx at 1.
  destruct (adapters s !! a) as [x|] eqn:Hx; [|done]. destruct (adap_write b (impl x)) as [r i] eqn:Hw.
  unfold upd_adapter. wsteps. split; [|done]. apply known_calm; [done|]. apply calm_alter. intros y Hy.
  destruct Hs as [_ HL]. eapply Forall_forall in HL as [k Hk]; [|done]. rewrite Hy in Hk. injection Hk as Hk.
  simplify_eq. split_and!; [done..|]. right; right. split; [by exists k|].
  assert (set_impl i x = receive (Some b) x) as -> by (simpl; by rewrite Hw).
  intros [? ->]%receive_open. split; [done|]. exists [b]. by split; [|constructor].
Qed.

Lemma mk_close L a : mkeeps L any (close_adapter a).
Proof.
  intros s Hs. unfold close_adapter. wstep. unfold deref, wpx at 1.
  destruct (adapters s !! a) as [x|] eqn:Hx; [|done]. unfold upd_adapter. wsteps. split; [|done].
  apply known_calm; [done|]. apply calm_alter. intros y Hy. split_and!; [done..|]. left. unfold open. simpl.
  by rewrite close_closed.
Qed.

(** A change of members the invariant does not mention. *)
Definition unseen s s' : Prop :=
  subscriptions s' = subscriptions s /\ pending_calls s' = pending_calls s /\
  named_adapters s' = named_adapters s /\ adapter_infos s' = adapter_infos s /\ monitors s' = monitors s /\
  idseq s' = idseq s /\ buf_size s' = buf_size s /\ adapters s' = adapters s.

Lemma known_same L s s' : known L s -> adapters s' = adapters s -> I s' -> known L s'.
Proof.
  intros [Hs HL] Ha Hs'. split; [done|]. eapply Forall_impl; [done|]. intros a. unfold is_client. by rewrite Ha.
Qed.

Lemma inv_unseen s s' : I s -> unseen s s' -> I s'.
Proof.
  intros Hs (Es & Ep & En & Ei & Em & Eq & Eb & Ea).
  assert (forall a, is_client s a -> is_client s' a) as Hcl by (intros a; unfold is_client; by rewrite Ea).
  apply (ci_calm s); [done|rewrite Ea; apply calm_refl| | |done..].
  - rewrite Es. intros n l Hl. eapply Forall_impl; [exact (ci_subs s Hs n l Hl)|exact Hcl].
  - rewrite Ep. eapply Forall_impl; [apply (ci_calls s Hs)|]. simpl. auto.
Qed.

Lemma mk_unseen L f : (forall s, unseen s (f s)) -> mkeeps L any (modify f).
Proof.
  intros Hf. apply mk_modify. intros s Hs. eapply known_same; [done|apply Hf|].
  eapply inv_unseen; [apply Hs|done].
Qed.

(** New subscribers and new calls are clients'. *)
Lemma mk_set_subs L m :
  map_Forall (fun _ l => Forall (fun a => a ∈ L) l) m -> mkeeps L any (modify (set_subscriptions m)).
Proof.
  intros Hm. apply mk_modify. intros s Hs. eapply known_same; [done..|]. destruct Hs as [Hs HL].
  eapply ci_calm; [exact Hs|apply calm_refl| |exact (ci_calls s Hs)|done..].
  intros n l Hl. eapply Forall_impl; [by eapply Hm|]. intros a Ha. by eapply Forall_forall in HL.
Qed.

Lemma mk_set_calls L f :
  (forall s, known L s -> Forall (fun pc => is_client s (pc_sender pc)) (f s)) ->
  mkeeps L any (modify (fun s => set_pending_calls (f s) s)).
Proof.
  intros Hf. apply mk_modify. intros s Hs. eapply known_same; [done..|].
  eapply ci_calm; [apply Hs|apply calm_refl| | |done..]; [exact (ci_subs s (proj1 Hs))|exact (Hf s Hs)].
Qed.

Lemma known_elem L s a : known L s -> a ∈ L -> is_client s a.
Proof. intros [_ HL] Ha. by eapply Forall_forall in HL. Qed.
(** What a container mentions. *)
Definition subs_aids (m : gmap string (list aid)) : list aid := mjoin (map_to_list m).*2.
Definition named_aids (m : gmap string aid) : list aid := (map_to_list m).*2.
Definition calls_aids (l : list PendingCall) : list aid := pc_sender <$> l.

Lemma subs_aids_elem m n l : m !! n = Some l -> Forall (fun a => a ∈ subs_aids m) l.
Proof.
  intros Hl. apply Forall_forall. intros a Ha. apply list_elem_of_join. exists l. split; [done|].
  apply list_elem_of_fmap. exists (n, l). by rewrite elem_of_map_to_list.
Qed.

Lemma learn_subs s : I s -> Forall (is_client s) (subs_aids (subscriptions s)).
Proof.
  intros Hs. apply Forall_forall. intros a (l & Ha & Hl)%list_elem_of_join.
  apply list_elem_of_fmap in Hl as ([n l'] & -> & Hl%elem_of_map_to_list).
  pose proof (ci_subs s Hs n l' Hl) as Hf. by eapply Forall_forall in Hf.
Qed.

Lemma learn_named s : I s -> Forall (is_client s) (named_aids (named_adapters s)).
Proof.
  intros Hs. apply Forall_fmap, Forall_forall. intros [n a] Ha%elem_of_map_to_list. exact (ci_named s Hs n a Ha).
Qed.

Lemma learn_calls s : I s -> Forall (is_client s) (calls_aids (pending_calls s)).
Proof. intros Hs. apply Forall_fmap. by apply ci_calls. Qed.

(** Entries stay, or are new. *)
Lemma subs_insert (L : list aid) (m : gmap string (list aid)) n l :
  Forall (fun a => a ∈ subs_aids m ++ L) l ->
  map_Forall (fun _ l => Forall (fun a => a ∈ subs_aids m ++ L) l) (<[n := l]> m).
Proof.
  intros Hl n' l' [[_ <-]|[_ Hl']]%lookup_insert_Some; [done|].
  eapply Forall_impl; [by eapply subs_aids_elem|]. intros a Ha. apply elem_of_app. by left.
Qed.

Lemma subs_default (L : list aid) m n :
  Forall (fun a => a ∈ subs_aids m ++ L) (default [] (m !! n)).
Proof.
  destruct (m !! n) as [l|] eqn:Hl; simpl; [|constructor].
  eapply Forall_impl; [by eapply subs_aids_elem|]. intros a Ha. apply elem_of_app. by left.
Qed.

End Log.

(** ** The handlers that register and erase nobody *)

(** [unseen] of an updated state. *)
Ltac unseen_tac := intros ?; unfold unseen; split_and!; reflexivity.

Create HintDb calm.
#[export] Hint Resolve mk_deref mk_deref_raw mk_read_info mk_parse mk_close : calm.

Ltac calm_step :=
  first
    [ apply mk_ret; done
    | solve [auto with calm nocore]
    | solve [eapply mk_weaken; [solve [auto with calm nocore]|done]]
    | apply mk_undefined
    | apply (mk_learn _ subs_aids); [apply learn_subs|intros ?]
    | apply (mk_learn _ named_aids); [apply learn_named|intros ?]
    | apply (mk_learn _ calls_aids); [apply learn_calls|intros ?]
    | apply mk_size; intros ? ?
    | apply mk_write; [set_solver|solve [eauto with legible]]
    | eapply mk_bind; [first [solve [auto with calm nocore] | apply mk_gets | apply mk_get]|intros ? ?]
    | eapply (mk_bind _ (fun _ => True)); [|intros ? _]
    | apply mk_when
    | apply mk_gets
    | apply mk_unseen; solve [unseen_tac]
    | case_match ].
Ltac calm_tac := repeat calm_step.

Section Ops.
Context {caps : Type} `{!CapsOps caps, !CapsFlags, !CapsLaws caps}.
Context {S : Type} `{!AdapterImpl S, !AdapterLaws S, !SteadyClock}.
Context {I : Disp caps S -> Prop} `{!CalmInv I}.
Implicit Types (s : Disp caps S) (a : aid).
Abbreviation mk := (mkeeps (I:=I)).
Abbreviation any := (fun _ => True).

Lemma mk_now L : mk L any now.
Proof. unfold now. calm_tac. Qed.

Lemma mk_deref_info L x : mk L any (deref_info x).
Proof. unfold deref_info. calm_tac. Qed.
#[local] Hint Resolve mk_now mk_deref_info : calm.

Lemma mk_subscribe c a : mk [a] any (handle_subscribe_req c a).
Proof.
  unfold handle_subscribe_req. calm_tac.
  - apply mk_set_subs, subs_insert, subs_default.
  - apply mk_set_subs, subs_insert, Forall_app. split; [apply subs_default|]. apply Forall_singleton. set_solver.
Qed.

Lemma subs_update (L : list aid) (m : gmap string (list aid)) n l :
  Forall (fun a => a ∈ subs_aids m ++ L) l ->
  map_Forall (fun _ l => Forall (fun a => a ∈ subs_aids m ++ L) l)
    (if bool_decide (l = []) then delete n m else <[n := l]> m).
Proof.
  intros Hl. case_bool_decide; [|by apply subs_insert]. intros n' l' [_ Hl']%lookup_delete_Some.
  eapply Forall_impl; [by eapply subs_aids_elem|]. intros a Ha. apply elem_of_app. by left.
Qed.

Lemma mk_unsubscribe c a : mk [a] any (handle_unsubscribe_req c a).
Proof.
  unfold handle_unsubscribe_req. eapply mk_bind; [apply mk_deref|intros x _]. case_match; [calm_tac|].
  eapply mk_bind; [apply mk_parse|intros r _]. destruct r as [name|]; [|calm_tac].
  case_match; [calm_tac|]. apply (mk_learn _ subs_aids); [apply learn_subs|intros subs].
  destruct (subs !! name) as [l|] eqn:Hl; [|calm_tac]. eapply mk_bind; [apply mk_get|intros s _].
  eapply (mk_bind _ any); [|intros _ _; calm_tac]. apply mk_set_subs, subs_update.
  pose proof (subs_aids_elem _ _ _ Hl) as Hin. rewrite Forall_forall in Hin.
  apply Forall_forall. intros b [_ Hb]%list_elem_of_filter. set_solver.
Qed.

(** ** Posting *)

Lemma mk_partition L l : mk L (fun r => r.1.1 ⊆ l /\ r.1.2 ⊆ l /\ r.2 ⊆ l) (partition_adapters l).
Proof.
  induction l as [|a l IH]; simpl; [by apply mk_ret|].
  eapply mk_bind; [apply mk_get|intros s _].
  assert (mk L (fun r : list aid * list aid * list aid => r.1.1 ⊆ a :: l /\ r.1.2 ⊆ a :: l /\ r.2 ⊆ a :: l)
    (partition_adapters l)) as IH' by (eapply mk_weaken; [done|]; set_solver).
  case_match; [done|]. eapply mk_bind; [apply mk_deref|intros x _]. case_match; [done|].
  eapply mk_bind; [apply IH|]. intros [[kept nobo] bo] (? & ? & ?). simpl in *.
  case_match; apply mk_ret; simpl; set_solver.
Qed.

Lemma mk_write_post L name type args tg flags l sender :
  l ⊆ L -> no_nul sender -> mk L any (write_post_msg_to_adapters name type args tg flags l sender).
Proof.
  intros Hl Hn. unfold write_post_msg_to_adapters. apply mk_size. intros size Hsz.
  case_match; [|by apply mk_ret]. apply mk_for_each. intros b Hb. calm_tac.
Qed.

Lemma mk_post c a : mk [a] any (handle_post_req c a).
Proof.
  unfold handle_post_req, post_msg. eapply mk_bind; [apply mk_deref|intros x _]. case_match; [calm_tac|].
  eapply mk_bind; [apply mk_parse|intros r _]. destruct r as [[[name type] args]|]; [|calm_tac].
  case_match; [calm_tac|]. eapply mk_bind; [apply mk_deref|intros y _].
  eapply mk_bind; [apply mk_deref_info|intros i _]. case_match; [calm_tac|].
  apply (mk_learn _ subs_aids); [apply learn_subs|intros subs].
  eapply (mk_bind _ any); [|intros _ _; calm_tac]. destruct (subs !! name) as [l|] eqn:Hl; [|calm_tac].
  pose proof (subs_aids_elem _ _ _ Hl) as Hin. rewrite Forall_forall in Hin.
  eapply mk_bind; [apply mk_partition|]. intros [[kept nobo] bo] (Hk & Hn & Hb). simpl in *.
  eapply (mk_bind _ any); [apply mk_when, mk_write_post; [set_solver|apply c_str_no_nul]|intros _ _].
  eapply (mk_bind _ any); [apply mk_when, mk_write_post; [set_solver|apply c_str_no_nul]|intros _ _].
  apply mk_set_subs, subs_update, Forall_forall. set_solver.
Qed.
(** ** Calls *)

Lemma mk_find_callee L named target name :
  mk L (fun o => match o with Some t => t ∈ named_aids named | None => True end) (find_callee named target name).
Proof.
  unfold find_callee. destruct (named !! target) as [t|] eqn:Ht; [|by apply mk_ret].
  eapply mk_bind; [apply mk_deref|intros y _]. eapply mk_bind; [apply mk_deref_info|intros i _].
  apply mk_ret. destruct (has_method name i); [|done]. apply list_elem_of_fmap. exists (target, t). by rewrite elem_of_map_to_list.
Qed.

Lemma mk_add_pending_call L svr cli a t timeout : a ∈ L -> mk L any (add_pending_call svr cli a t timeout).
Proof.
  intros Ha. unfold add_pending_call. eapply mk_bind; [apply mk_now|intros tm _].
  apply (mk_set_calls L (fun s => insert_call _ (pending_calls s))). intros s Hs. apply insert_call_forall.
  - simpl. by eapply known_elem.
  - apply ci_calls, Hs.
Qed.

Lemma mk_call c a : mk [a] any (handle_call_req c a).
Proof.
  unfold handle_call_req. eapply mk_bind; [apply mk_deref|intros x _]. case_match; [calm_tac|].
  eapply mk_bind; [apply mk_parse|intros r _]. destruct r as [[[[[name args] tg] id] timeout]|]; [|calm_tac].
  apply (mk_learn _ named_aids); [apply learn_named|intros named].
  apply mk_size. intros size Hsz. eapply mk_bind; [apply mk_find_callee|intros o Ho].
  destruct o as [t|]; [|calm_tac].
  eapply (mk_bind _ any); [unfold next_svrid; calm_tac|intros n _].
  eapply mk_bind; [apply mk_add_pending_call; set_solver|intros _ _]. calm_tac.
Qed.

Lemma mk_set_rest L calls rest :
  (forall pc, pc ∈ rest -> pc ∈ calls) -> mk (calls_aids calls ++ L) any (modify (set_pending_calls rest)).
Proof.
  intros Hr. apply (mk_set_calls _ (fun _ => rest)). intros s Hs. apply Forall_forall. intros pc Hpc.
  eapply known_elem; [done|]. apply elem_of_app. left. by apply list_elem_of_fmap_2, Hr.
Qed.

Lemma mk_reply c a : mk [a] any (handle_reply_req c a).
Proof.
  unfold handle_reply_req. eapply mk_bind; [apply mk_deref|intros x _]. case_match; [|calm_tac].
  eapply mk_bind; [apply mk_parse|intros r _]. destruct r as [[[id code] data]|]; [|calm_tac].
  apply (mk_learn _ calls_aids); [apply learn_calls|intros calls].
  destruct (find_call _ calls) as [[pc rest]|] eqn:Hf; [|calm_tac].
  apply find_call_spec in Hf as (l1 & l2 & -> & -> & _).
  eapply mk_bind; [apply mk_deref|intros y _]. case_match; [calm_tac|].
  eapply mk_bind; [apply mk_read_info|intros j _]. apply mk_size. intros sz Hsz.
  assert (pc_sender pc ∈ calls_aids (l1 ++ pc :: l2)) as Hpc by (apply list_elem_of_fmap_2; set_solver).
  case_match; [|calm_tac]. case_match; [|calm_tac].
  eapply mk_bind; [apply mk_write; [set_solver|eauto with legible]|intros _ _].
  eapply mk_bind; [apply mk_set_rest; set_solver|calm_tac].
Qed.

Lemma mk_ping c a : mk [a] any (handle_ping_req c a).
Proof. unfold handle_ping_req. calm_tac. Qed.

Lemma mk_discard L : mk L any discard_pending_calls.
Proof.
  unfold discard_pending_calls. eapply mk_bind; [apply mk_now|intros tp _].
  eapply mk_bind; [apply mk_gets|intros calls _]. generalize (length calls). clear calls.
  intros n. revert L. induction n as [|n IH]; intros L; simpl; [calm_tac|].
  apply (mk_learn _ calls_aids); [apply learn_calls|intros calls].
  destruct calls as [|pc calls]; [calm_tac|]. case_match; [calm_tac|].
  eapply (mk_bind _ any); [unfold pending_call_timeout; calm_tac|intros _ _].
  eapply (mk_bind _ any); [|intros _ _; apply IH].
  apply (mk_set_calls _ (fun s => tail (pending_calls s))). intros s Hs.
  pose proof (ci_calls s (proj1 Hs)) as Hc. by destruct Hc.
Qed.

(** ** Methods *)

Lemma client_info_ptr s a x : is_client s a -> adapters s !! a = Some x -> exists k, info x = Some (InAdapters k).
Proof. intros [k Hk] Hx. rewrite Hx in Hk. injection Hk as Hk. by exists k. Qed.

(** The sender's entry is replaced in the two handlers of methods. *)
Lemma mk_write_entry (f : AdapterInfo -> AdapterInfo) k (b : bool) s L :
  (forall i, list_item (f i) = list_item i) -> known (I:=I) L s ->
  wlp (i ← read_info (InAdapters k); write_info (InAdapters k) (f i) ;; mret b) (fun _ s' => known (I:=I) L s' /\ True) s.
Proof.
  intros Hf Hs. wstep. unfold read_info, wpx at 1. destruct (adapter_infos s !! k) as [i|] eqn:Hk; [|done].
  unfold write_info. wsteps. split; [|done]. eapply known_same; [done..|]. eapply ci_update; [apply Hs|done..].
Qed.

Lemma mk_remove c a : mk [a] any (handle_remove_method c a).
Proof.
  intros s Hs. unfold handle_remove_method. wstep. unfold deref, wpx at 1.
  destruct (adapters s !! a) as [x|] eqn:Hx; [|done].
  destruct (client_info_ptr s a x) as [k ->]; [eapply known_elem; [done|by left]|done|].
  wstep. eapply wpx_mono; [by apply (mk_parse (I:=I) [a])|]. intros r s1 [Hs1 _].
  destruct r as [name|]; [|by wsteps]. case_match; [by wsteps|]. by apply mk_write_entry.
Qed.

Lemma mk_declare c a : mk [a] any (handle_declare_method c a).
Proof.
  intros s Hs. unfold handle_declare_method. wstep. unfold deref, wpx at 1.
  destruct (adapters s !! a) as [x|] eqn:Hx; [|done].
  destruct (client_info_ptr s a x) as [k ->]; [eapply known_elem; [done|by left]|done|].
  wstep. eapply wpx_mono; [by apply (mk_parse (I:=I) [a])|]. intros r s1 [Hs1 _].
  destruct r as [name|]; [|by wsteps]. case_match; [by wsteps|].
  wstep. unfold read_info, wpx at 1. destruct (adapter_infos s1 !! k) as [i|] eqn:Hk; [|done].
  unfold declare_method, write_info. wsteps. split; [|done]. eapply known_same; [done..|].
  eapply ci_update; [apply Hs1|done..].
Qed.

(** ** The handlers, by number *)

Lemma mk_handler cmd h c a : msg_handler cmd = Some h -> cmd <> CMD_AUTH_REQ -> mk [a] any (h c a).
Proof.
  unfold msg_handler. case_bool_decide; [|done]. unfold msg_handlers. intros Hh Hc.
  assert (Z.to_nat cmd <> 0%nat) by (unfold CMD_AUTH_REQ in *; lia).
  destruct (Z.to_nat cmd) as [|[|[|[|[|[|[|[|[|n]]]]]]]]]; simpl in Hh; simplify_eq.
  - apply mk_subscribe.
  - apply mk_unsubscribe.
  - apply mk_post.
  - apply mk_reply.
  - apply mk_declare.
  - apply mk_remove.
  - apply mk_call.
  - apply mk_ping.
Qed.
(** The last part of an erasure forgets dead subscribers only. *)
Lemma mk_check_subscriptions L : mk L (fun _ => True) check_subscriptions.
Proof.
  unfold check_subscriptions.
  assert (mk L (fun _ => True) clear_sub_gabages) as Hc.
  { apply mk_modify. intros s Hs. eapply known_same; [done..|]. destruct Hs as [Hs _].
    apply (ci_calm s); [done|apply calm_refl| |exact (ci_calls s Hs)|done..]. simpl.
    intros n l Hl. rewrite lookup_omap in Hl. destruct (subscriptions s !! n) as [l0|] eqn:Hl0; [|done].
    pose proof (ci_subs s Hs n l0 Hl0) as Hf. simpl in Hl.
    destruct (filter _ l0) eqn:Hfl; [done|]. injection Hl as <-. rewrite <- Hfl.
    apply Forall_forall. intros b [_ Hb]%list_elem_of_filter. by eapply Forall_forall in Hf. }
  eapply mk_bind; [unfold now; calm_tac|intros t _]. eapply mk_bind; [apply mk_gets|intros tp _].
  case_match; [eapply mk_bind; [apply Hc|intros _ _; calm_tac]|].
  eapply (mk_bind _ (fun _ => True)); [calm_tac|intros _ _]. eapply mk_bind; [apply mk_gets|intros p _].
  apply mk_when. eapply mk_bind; [apply Hc|intros _ _; calm_tac].
Qed.

(** A connection that is closed is no longer a monitor's. *)
Lemma close_altered s a f :
  I s -> (forall y : Adapter S, info (f y) = info y /\ serialize_flags (f y) = serialize_flags y) ->
  wlp (close_adapter a) (fun _ s' => I s') (set_adapters (alter f a (adapters s)) s).
Proof.
  intros Hs Hf. unfold close_adapter, upd_adapter. wstep. apply wlp_deref. intros y Hy. wstep.
  change (I (set_adapters (alter (set_impl (adap_close (impl y))) a (alter f a (adapters s))) s)).
  rewrite alter_twice. eapply (fun H => proj1 (known_calm (I:=I) [] s _ (conj Hs (Forall_nil_2 _)) H)), calm_alter. intros z Hz. destruct (Hf z).
  split_and!; [simpl; congruence|simpl; congruence|]. left. unfold open. simpl. by rewrite close_closed.
Qed.

(** ** The thread and the polls *)
Import DispatcherThread.

Lemma mk_loop_locked : mk [] (fun _ => True) loop_locked.
Proof.
  unfold loop_locked. eapply mk_bind; [apply mk_gets|intros w _]. case_match; [calm_tac|].
  eapply (mk_bind _ (fun _ => True)); [calm_tac|intros _ _].
  eapply mk_bind; [apply mk_gets|intros b _]. case_match; [|calm_tac].
  eapply mk_bind; [apply mk_discard|intros _ _]. calm_tac.
Qed.

Lemma mk_poll_delete a : mk [] (fun _ => True) (poll_delete a).
Proof.
  unfold poll_delete, erase_adapter. eapply (mk_bind _ any); [apply mk_close|intros _ _]. calm_tac.
Qed.

Definition sys_holds (st : sys caps S) : Prop := match st with Running _ s => I s | Crashed _ => True end.

Lemma result_calm {A} (Q : A -> Prop) (m : M (Disp caps S) A) f s :
  mk [] Q m -> I s -> sys_holds (result (m s) f).
Proof.
  intros Hm Hs. specialize (Hm s). unfold wpx in Hm. destruct (m s) as [[x s']|u]; [|done].
  destruct Hm as [[? _] _]; [by split|done].
Qed.

(** A step keeps the invariant if a command, a read and an arrival do. *)
Lemma step_calm st lb st' :
  sys_holds st -> exec st lb = Some st' -> (lb = LHandle -> sys_holds st') ->
  (forall s a i, I s -> reads a i s -> I (set_adapters (alter (set_impl i) a (adapters s)) s)) ->
  (forall s a x, I s -> adapters s !! a = None -> accepted_conn x ->
     I (set_held ({[a]} ∪ held s) (set_adapters (<[a := x]> (adapters s)) s))) ->
  sys_holds st'.
Proof.
  intros Hs He Hh Hr Ha. destruct st as [l s|u]; [|done]. simpl in Hs.
  assert (forall s', unseen s s' -> I s') as Hun by (intros s'; by apply inv_unseen).
  destruct lb as [| | |a data|a i|a|a x|]; simpl in He.
  - destruct l; try done; injection He as <-; by apply (result_calm _ _ _ _ mk_loop_locked).
  - by apply Hh.
  - destruct l as [| |[|]|]; try done. injection He as <-. apply Hun. by unfold unseen; split_and!.
  - case_bool_decide; [|done]. unfold put in He. destruct (caps_parse data); injection He as <-; [|done].
    apply Hun. by unfold unseen; split_and!.
  - case_bool_decide as Hc; [|done]. injection He as <-. by apply Hr; [|apply Hc].
  - case_bool_decide; [|done]. injection He as <-. by apply (result_calm _ _ _ _ (mk_poll_delete a)).
  - case_bool_decide as Hc; [|done]. injection He as <-. destruct Hc. by apply Ha.
  - injection He as <-. apply Hun. by unfold unseen; split_and!.
Qed.
End Ops.
Arguments sys_holds {caps S} I.
