(* ===== verification/Announce.v ===== *)
(** * Arrivals, departures and what is announced of them

    The exact effect of the handler of authentications and of the announcements to the
    monitors: who is registered, and what is put into whose connection. *)
From S2P Require Import Prelude Defs Caps RefCaps Adap SerHelper SerRoundtrip SockAdap SockConn Disp DispInv.
From S2P Require Import DispOps DispSafe DispSpec DispCalls DispAuth DispLoop DispType CliState Cli CliSpec.
From S2P Require Import EndToEnd Monitor MonitorPeer Roles.
Import Dispatcher.

Section Announce.
Context {caps : Type} `{!CapsOps caps, !CapsFlags, !CapsLaws caps, !CapsSmall caps}.
Context {S : Type} `{!AdapterImpl S, !AdapterLaws S, !SteadyClock}.
Implicit Types (s : Disp caps S) (a : aid).

(** ** Announcing *)

Definition announce (size : Z) (n : announcement) (x : Adapter S) : Adapter S :=
  receive (encode (caps:=caps) size (serialize_flags x) n) x.

Lemma announce_info size n x : info (announce size n x) = info x.
Proof. unfold announce. by destruct (encode _ _ _). Qed.

Lemma announce_flags size n x : serialize_flags (announce size n x) = serialize_flags x.
Proof. unfold announce. by destruct (encode _ _ _). Qed.

(** A loop that announces to each of a list of connections. *)
Lemma each_announce (f : aid -> M (Disp caps S) unit) n l : forall s,
  NoDup l ->
  (forall m mm, m ∈ l -> same_infos (adapters s) mm ->
     wlp (f m) (fun _ s' => s' = set_adapters (alter (announce (buf_size s) n) m mm) s) (set_adapters mm s)) ->
  wlp (for_each l f) (fun _ s' => exists mm, s' = set_adapters mm s /\
    delivered l (announce (buf_size s) n) (adapters s) mm) s.
Proof.
  induction l as [|a l IH]; intros s Hnd Hf; simpl.
  { wsteps. exists (adapters s). split; [by destruct s|]. intros b.
    by rewrite bool_decide_false by apply not_elem_of_nil. }
  apply NoDup_cons in Hnd as [Ha Hnd]. wstep.
  pose proof (Hf a (adapters s) ltac:(left) ltac:(done)) as Hfa. rewrite set_adapters_id in Hfa.
  eapply wpx_mono; [exact Hfa|]. intros [] s1 ->. set (m1 := alter _ a (adapters s)).
  assert (same_infos (adapters s) m1) as Hm1 by (apply same_infos_alter; intros; apply announce_info).
  eapply wpx_mono; [apply IH; [done|]|].
  - intros m mm Hm Hmm. apply (Hf m mm); [by right|by etrans].
  - intros [] s2 (mm & -> & Hmm). exists mm. split; [done|]. intros b. rewrite (Hmm b). simpl. subst m1.
    destruct (decide (a = b)) as [<-|Hne].
    + rewrite bool_decide_false by done. rewrite bool_decide_true by (by left). by rewrite lookup_alter_eq.
    + rewrite lookup_alter_ne by done. by rewrite (bool_decide_ext (b ∈ l) (b ∈ a :: l))
        by (rewrite elem_of_cons; naive_solver).
Qed.

Lemma monitors_NoDup (m : gmap aid AdapterInfo) : NoDup (map_to_list m).*1.
Proof. apply NoDup_fst_map_to_list. Qed.

Lemma monitors_elem (m : gmap aid AdapterInfo) a : a ∈ (map_to_list m).*1 <-> is_Some (m !! a).
Proof.
  rewrite list_elem_of_fmap. split.
  - intros ([b i] & -> & Hi%elem_of_map_to_list). by exists i.
  - intros [i Hi]. exists (a, i). by rewrite elem_of_map_to_list.
Qed.

(** What follows once the connection and the size are known. *)
Lemma wlp_write_announcement m mm n s (ob : option bytes) :
  (forall x, mm !! m = Some x -> ob = encode (caps:=caps) (buf_size s) (serialize_flags x) n) ->
  is_Some (mm !! m) ->
  wlp (match ob with None => mret tt | Some b => write_adapter m b ;; mret tt end)
    (fun _ s' => s' = set_adapters (alter (announce (buf_size s) n) m mm) s) (set_adapters mm s).
Proof.
  intros Hob [x Hx]. rewrite (alter_at _ _ _ x Hx). unfold announce. rewrite <- (Hob x Hx).
  destruct ob as [b|]; wsteps; [|by rewrite insert_id].
  eapply wpx_weaken; [eapply wp_write_adapter; [done|]|done]. wsteps. simpl. by rewrite (alter_at _ _ _ x Hx).
Qed.

Definition watching s : list aid := (map_to_list (monitors s)).*1.

Lemma wlp_list_remove id s :
  wlp (write_monitor_list_remove id) (fun _ s' => exists mm, s' = set_adapters mm s /\
    delivered (watching s) (announce (buf_size s) (ClientRemoved id)) (adapters s) mm) s.
Proof.
  unfold write_monitor_list_remove. do 2 wstep. apply each_announce; [apply monitors_NoDup|].
  intros m mm Hm Hmm. unfold write_monitor_list_remove_one. wstep. apply wlp_deref_raw. intros x Hx. do 2 wstep.
  apply wlp_write_announcement; [|by exists x]. intros y Hy. simpl in Hx. by simplify_eq.
Qed.

Lemma wlp_list_add a i s :
  (info <$> adapters s !! a) = Some (Some (InAdapters a)) -> adapter_infos s !! a = Some i ->
  wlp (write_monitor_list_add a) (fun _ s' => exists mm, s' = set_adapters mm s /\
    delivered (watching s) (announce (buf_size s) (ClientAdded i)) (adapters s) mm) s.
Proof.
  intros Ha Hi. unfold write_monitor_list_add. do 2 wstep. apply each_announce; [apply monitors_NoDup|].
  intros m mm Hm Hmm. unfold write_monitor_list_add_one. wstep. apply wlp_deref. intros n Hn. wstep.
  specialize (Hmm a). rewrite Ha in Hmm. simpl in Hn. rewrite Hn in Hmm. injection Hmm as Hni.
  unfold deref_info. rewrite Hni. eapply wpx_weaken; [eapply wp_read_info; [exact Hi|]|done].
  wstep. apply wlp_deref_raw. intros x Hx. do 2 wstep.
  apply wlp_write_announcement; [|by exists x]. intros y Hy. simpl in Hx. by simplify_eq.
Qed.
Lemma delivered_infos l sz n (m mm : gmap aid (Adapter S)) : delivered l (announce sz n) m mm -> same_infos m mm.
Proof.
  intros Hd a. rewrite (Hd a). case_bool_decide; [|done]. destruct (m !! a); simpl; [|done]. by rewrite announce_info.
Qed.


(** The name of a client that leaves is forgotten. *)
Lemma wlp_forget_name s i (m : M (Disp caps S) unit) (Q : unit -> Disp caps S -> Prop) :
  (forall named, named ⊆ named_adapters s -> wlp m Q (set_named_adapters named s)) ->
  wlp (when (bool_decide (ai_name i <> EmptyString))
    (modify (fun s => set_named_adapters (delete (ai_name i) (named_adapters s)) s)) ;; m) Q s.
Proof.
  intros Hm. wstep. destruct (bool_decide _); simpl; [wstep|wstep].
  - apply Hm, delete_subseteq.
  - specialize (Hm (named_adapters s) ltac:(done)). by replace (set_named_adapters (named_adapters s) s) with s in Hm by (by destruct s).
Qed.

(** ** Arriving *)

(** [a] was registered under [p]; its connection is as it was. *)
Record joined s a (p : InfoPtr) s' : Prop := {
  jo_subs : subscriptions s' = subscriptions s;
  jo_calls : pending_calls s' = pending_calls s;
  jo_idseq : idseq s' = u32 (idseq s + 1);
  jo_buf : buf_size s' = buf_size s;
  jo_adapters : exists f : Adapter S -> Adapter S, adapters s' = alter f a (adapters s) /\
    forall x, info (f x) = Some p /\ serialize_flags (f x) = serialize_flags x /\ impl (f x) = impl x
}.

(** What an accepted authentication does. *)
Definition accepted s (flags : Z) a s' : Prop :=
  if has_flag flags FLORA_CLI_FLAG_MONITOR then
    joined s a (InMonitors a) s' /\ adapter_infos s' = adapter_infos s /\ named_adapters s' = named_adapters s /\
    exists i, monitors s' = <[a := i]> (monitors s)
  else
    joined s a (InAdapters a) s' /\ monitors s' = monitors s /\
    (exists i, ai_id i = u32 (idseq s + 1) /\ adapter_infos s' = <[a := i]> (adapter_infos s)) /\
    (named_adapters s' = named_adapters s \/ exists n, named_adapters s' = <[n := a]> (named_adapters s)).

Lemma wlp_auth_result s version extra pid flags a :
  adapter_infos s !! a = None -> monitors s !! a = None ->
  wlp (auth_result version extra pid flags a) (fun r s' => r = auth_code s version extra flags /\
    (r = FLORA_CLI_SUCCESS -> accepted s flags a s')) s.
Proof.
  intros Hai Ham. unfold auth_result, auth_code. case_bool_decide; [by wsteps|]. wstep. apply wlp_deref. intros x Hx.
  assert (forall s1, (exists f : Adapter S -> Adapter S, s1 = set_adapters (alter f a (adapters s)) s /\
      forall y, info (f y) = info y /\ serialize_flags (f y) = serialize_flags y /\ impl (f y) = impl y) ->
    wlp (if has_flag flags FLORA_CLI_FLAG_MONITOR then
       df ← gets disp_flags;
       if negb (has_flag df FLORA_DISP_FLAG_MONITOR) then mret FLORA_CLI_EAUTH
       else add_monitor extra flags a ;; mret FLORA_CLI_SUCCESS
     else
       ok ← add_adapter extra flags pid a;
       mret (if ok : bool then FLORA_CLI_SUCCESS else FLORA_CLI_EDUPID))
     (fun r s' => r = (if has_flag flags FLORA_CLI_FLAG_MONITOR then
         if has_flag (disp_flags s) FLORA_DISP_FLAG_MONITOR then FLORA_CLI_SUCCESS else FLORA_CLI_EAUTH
       else if bool_decide (extra <> EmptyString /\ is_Some (named_adapters s !! extra))
       then FLORA_CLI_EDUPID else FLORA_CLI_SUCCESS) /\
       (r = FLORA_CLI_SUCCESS -> accepted s flags a s')) s1) as Hgo.
  { intros s1 (f & -> & Hf). unfold accepted. destruct (has_flag flags FLORA_CLI_FLAG_MONITOR).
    - do 2 wstep. simpl. destruct (has_flag (disp_flags s) _); simpl; [|by wsteps]. unfold add_monitor, new_info, upd_adapter. wsteps; simpl; wsteps.
      2: { match goal with H : bool_decide _ = false |- _ => by rewrite bool_decide_true in H end. }
      split; [done|]. intros _. split_and!; [|done|done|by eexists]. split; try done. simpl.
      exists (set_info (Some (InMonitors a)) ∘ f). split; [by rewrite alter_twice|].
      intros y. destruct (Hf y) as (? & ? & ?). by split_and!.
    - unfold add_adapter, new_info, upd_adapter. do 3 wstep. simpl.
      destruct (bool_decide (extra <> EmptyString /\ _)); [by wsteps|].
      wsteps; simpl; wsteps;
        try (match goal with H : bool_decide (_ = None) = false |- _ => by rewrite bool_decide_true in H end);
        (split; [done|]; intros _; split_and!; [|done|by eexists; split; [|reflexivity]|by eauto]); split; try done; simpl;
        exists (set_info (Some (InAdapters a)) ∘ f); (split; [by rewrite alter_twice|]);
        intros y; destruct (Hf y) as (? & ? & ?); by split_and!. }
  wstep. wstep; apply Hgo.
  - eexists. split; [reflexivity|done].
  - exists id. split; [|done]. destruct s. simpl. f_equal. by rewrite alter_id.
Qed.


(** ** The answer *)

(** The rest of [handle_auth_req], when the authentication was accepted. *)
Definition answered (flags : Z) a : M (Disp caps S) bool :=
  x ← deref a;
  size ← gets buf_size;
  match ResponseSerializer.serialize_auth (caps:=caps) FLORA_CLI_SUCCESS FLORA_VERSION size (serialize_flags x) with
  | None => mret false
  | Some b =>
      write_adapter a b ;;
      if bool_decide (FLORA_CLI_SUCCESS = FLORA_CLI_SUCCESS) then
        write_monitor_data flags a ;;
        when (negb (has_flag flags FLORA_CLI_FLAG_MONITOR)) (write_monitor_list_add a) ;;
        mret true
      else mret false
  end.

(** The answer is sent; what follows sees the connection after it. *)
Lemma wlp_answered flags a y b (Q : bool -> Disp caps S -> Prop) s1 :
  adapters s1 !! a = Some y ->
  ResponseSerializer.serialize_auth (caps:=caps) FLORA_CLI_SUCCESS FLORA_VERSION (buf_size s1) (serialize_flags y) = Some b ->
  wlp (write_monitor_data flags a ;;
       when (negb (has_flag flags FLORA_CLI_FLAG_MONITOR)) (write_monitor_list_add a) ;; mret true)
    Q (set_adapters (<[a := receive (Some b) y]> (adapters s1)) s1) ->
  wlp (answered flags a) Q s1.
Proof.
  intros Hy Hb HQ. unfold answered. wstep. apply wlp_deref. intros y' Hy'. simplify_eq. do 2 wstep. rewrite Hb. cbv iota.
  wstep. eapply wpx_weaken; [eapply wp_write_receive; [by exists y|]|done]. intros _.
  rewrite bool_decide_true by done. by rewrite (alter_at _ _ _ y Hy).
Qed.

Lemma joined_at s a p s1 x :
  joined s a p s1 -> adapters s !! a = Some x ->
  exists y, adapters s1 !! a = Some y /\ info y = Some p /\ serialize_flags y = serialize_flags x /\
    impl y = impl x /\ adapters s1 = <[a := y]> (adapters s).
Proof.
  intros [_ _ _ _ (f & Hf & Hfx)] Hx. exists (f x). destruct (Hfx x) as (? & ? & ?).
  rewrite Hf, lookup_alter_eq, Hx. split_and!; try done. by apply alter_at.
Qed.

(** ** Invariants and commands

    An invariant that calm handlers keep is kept by a command if it is by what an
    authentication that is accepted, and an erasure, do; [Q] is what is to hold after. *)
Section Commands.
Context (I : Disp caps S -> Prop) `{!CalmInv I} (Q : Disp caps S -> Prop) (HIQ : forall s, I s -> Q s).

Lemma erase_calm s a todo :
  inv s ((None, a) :: todo) -> I s ->
  (forall i mm named, adapter_infos s !! a = Some i -> named ⊆ named_adapters s ->
     delivered (watching s) (announce (buf_size s) (ClientRemoved (ai_id i))) (adapters s) mm ->
     I (set_adapter_infos (delete a (adapter_infos s)) (set_adapters mm (set_named_adapters named s)))) ->
  (forall named, named ⊆ named_adapters s -> I (set_monitors (delete a (monitors s)) (set_named_adapters named s))) ->
  wlp (do_erase_adapter a) (fun _ s' => I s') s.
Proof.
  intros Hi Hs Hclient Hmon. unfold do_erase_adapter. wstep. apply wlp_deref. intros x Hx.
  destruct (inv_sender _ _ _ _ Hi) as (x' & Hx' & Hp). simplify_eq.
  assert (forall s1, I s1 -> wlp check_subscriptions (fun _ s' => I s') s1) as Hend.
  { intros s1 Hs1. eapply wpx_mono; [apply (mk_check_subscriptions (I:=I) []); by split|]. by intros ? ? [[? _] _]. }
  destruct (info x) as [[k|k]|]; [destruct Hp as [-> [i Hai]]..|by wsteps];
    wstep; (eapply wpx_weaken; [eapply wp_read_info; [exact Hai|]|done]); apply wlp_forget_name; intros named Hn.
  - pose proof (wf_infos _ (inv_wf _ _ Hi) a i Hai) as [_ ->]. do 2 wstep.
    eapply wpx_mono; [apply wlp_list_remove|]. intros [] s2 (mm & -> & Hmm). wstep. apply Hend. simpl.
    by apply (Hclient i).
  - pose proof (wf_monitors _ (inv_wf _ _ Hi) a i Hai) as [_ ->]. do 2 wstep. by apply Hend, Hmon.
Qed.

Lemma auth_calm s c0 c a x todo :
  inv s ((Some c0, a) :: todo) -> I s -> adapters s !! a = Some x -> info x = None ->
  (forall b flags s1, adapter_infos s !! a = None ->
    ResponseSerializer.serialize_auth (caps:=caps) FLORA_CLI_SUCCESS FLORA_VERSION (buf_size s) (serialize_flags x) = Some b ->
    accepted s flags a s1 -> wlp (answered flags a) (fun ok s' => ok = true /\ Q s') s1) ->
  wlp (handle_auth_req c a) (fun ok s' => if ok : bool then Q s' else wlp (close_adapter a) (fun _ s'' => Q s'') s') s.
Proof.
  intros Hi Hs Hx Hnone Hans. destruct (inv_sender _ _ _ _ Hi) as (x' & Hx' & Hp). simplify_eq. rewrite Hnone in Hp.
  destruct Hp as [Hai Ham].
  assert (forall f, (forall y : Adapter S, info (f y) = info y /\ serialize_flags (f y) = serialize_flags y) ->
    wlp (close_adapter a) (fun _ s'' => Q s'') (set_adapters (alter f a (adapters s)) s)) as Hclose.
  { intros f Hf. eapply wpx_mono; [by apply (close_altered (I:=I))|]. auto. }
  unfold wpx at 1. destruct (RequestParser.parse_auth (c, tt)) as [[[[[version extra] pid] flags]| |u|] st] eqn:Hr.
  2-4: unfold handle_auth_req, parse, mbind, M_bind; rewrite Hr; try done;
    (pose proof (Hclose id ltac:(done)) as Hc; by rewrite alter_id, set_adapters_id in Hc by done).
  assert (request RequestParser.parse_auth c (version, extra, pid, flags)) as Hreq by (unfold request; by rewrite Hr).
  destruct (decide (auth_code s version extra flags = FLORA_CLI_SUCCESS)) as [Hcode|Hcode].
  2: { destruct (auth_refused c0 a todo s c x _ _ _ _ Hi Hx Hreq Hcode) as (b & _ & ->).
       apply Hclose. intros y. simpl. unfold tagged. by repeat case_match. }
  change (wlp (handle_auth_req c a) (fun ok s' =>
    if ok : bool then Q s' else wlp (close_adapter a) (fun _ s'' => Q s'') s') s).
  unfold handle_auth_req. wstep. eapply wpx_weaken; [eapply wp_request; [exact Hreq|]|done].
  cbn beta iota. wstep. eapply wpx_mono; [by apply wlp_auth_result|]. intros r s1 [-> Hacc]. rewrite Hcode in *. specialize (Hacc eq_refl).
  destruct (auth_reply_fits (buf_size s) (serialize_flags x) FLORA_CLI_SUCCESS) as [b Hb]; [apply Hi|].
  eapply wpx_mono; [by eapply (Hans b flags s1)|]. by intros ok s' [-> ?].
Qed.

Lemma handle_cmd_calm s p todo :
  inv s (p :: todo) -> packet_ok s p -> I s ->
  (forall s1 s2, Q s1 -> s2 = set_handle_cmd_tp (handle_cmd_tp s2) (set_ticks (ticks s2) s1) -> Q s2) ->
  (p.1 = None -> wlp (do_erase_adapter p.2) (fun _ s' => Q s') s) ->
  (forall x b flags s1, adapters s !! p.2 = Some x -> info x = None -> adapter_infos s !! p.2 = None ->
    ResponseSerializer.serialize_auth (caps:=caps) FLORA_CLI_SUCCESS FLORA_VERSION (buf_size s) (serialize_flags x) = Some b ->
    accepted s flags p.2 s1 -> wlp (answered flags p.2) (fun ok s' => ok = true /\ Q s') s1) ->
  wlp (handle_cmd p.1 p.2) (fun _ s' => Q s') s.
Proof.
  intros Hi Hok Hs Htp Herase Hauth. destruct p as [[c|] a]; simpl in *; [|by apply Herase].
  destruct (inv_sender _ _ _ _ Hi) as (x & Hx & Hp).
  assert (forall s1, I s1 -> wlp (close_adapter a) (fun _ s' => Q s') s1) as Hclose.
  { intros s1 Hs1. eapply wpx_mono; [apply (mk_close (I:=I) []); by split|]. intros ? ? [[? _] _]. auto. }
  assert (forall s1, Q s1 -> wlp (t ← now; modify (set_handle_cmd_tp t)) (fun _ s' => Q s') s1) as Hend.
  { intros s1 Hs1. unfold now. wsteps. by eapply Htp. }
  wstep. apply wlp_deref. intros x' Hx'. simplify_eq.
  destruct (info x) as [[k|k]|] eqn:Hinf; [destruct Hp as [-> [i Hai]]..|].
  - do 2 wstep. eapply wpx_weaken; [eapply wp_read_info; [exact Hai|]|done]. wstep.
    destruct (has_flag _ _); [by apply Hclose|]. destruct (caps_read_i32 c) as [[cmd|] c'] eqn:Hr; [|by apply Hclose].
    destruct (Hok cmd c' eq_refl) as [Hpos [Hna _]]. case_bool_decide; [by apply Hclose|].
    destruct (msg_handler cmd) as [h|] eqn:Hh; [|done].
    assert (cmd <> CMD_AUTH_REQ) as Hne by (intros ->; specialize (Hna eq_refl); rewrite Hx in Hna; simpl in Hna; congruence).
    wstep. eapply wpx_mono; [apply (mk_handler (I:=I) cmd h c' a Hh Hne)|].
    + split; [done|]. apply Forall_singleton. exists a. by rewrite Hx, <- Hinf.
    + intros ok s1 [[Hs1 _] _]. wstep. wstep; [|by apply Hend, HIQ].
      eapply wpx_mono; [by apply Hclose|]. intros [] s2 Hs2. by apply Hend.
  - do 2 wstep. eapply wpx_weaken; [eapply wp_read_info; [exact Hai|]|done]. wstep.
    destruct (wf_monitors _ (inv_wf _ _ Hi) a i Hai) as [_ ->]. by apply Hclose.
  - do 2 wstep. destruct (caps_read_i32 c) as [[cmd|] c'] eqn:Hr; [|by apply Hclose].
    case_bool_decide; [by apply Hclose|]. destruct (msg_handler cmd) as [h|] eqn:Hh; [|done].
    destruct (decide (cmd = CMD_AUTH_REQ)) as [->|Hne].
    + injection Hh as <-. wstep. eapply wpx_mono; [eapply auth_calm; try done; intros b flags s1 ?; by apply (Hauth x)|].
      intros [|] s1 Hs1; cbn [negb when]; wstep; [by wstep; apply Hend|].
      eapply wpx_mono; [exact Hs1|]. intros [] s2 Hs2. by apply Hend.
    + wstep. unfold wpx at 1. rewrite (unregistered_noop s a x cmd h c') by done. cbn [negb when]. wstep.
      eapply wpx_mono; [by apply Hclose|]. intros [] s2 Hs2. by apply Hend.
Qed.
End Commands.
End Announce.
