(* ===== verification/Voice.v ===== *)
(** * What is said to whom

    A connection that is not registered has been sent nothing, and the connection of a
    client was sent the answer to its authentication and then legible messages only:
    [vocal], which every step of the dispatcher keeps. *)
From S2P Require Import Prelude Defs Caps RefCaps Adap SerHelper SerRoundtrip SockAdap SockConn Disp DispInv.
From S2P Require Import DispOps DispSafe DispSpec DispCalls DispAuth DispLoop DispType Legible CliState Cli CliSpec.
From S2P Require Import EndToEnd Monitor MonitorPeer Roles Announce.
Import Dispatcher DispatcherThread.

Section Voice.
Context {caps : Type} `{!CapsOps caps, !CapsFlags, !CapsLaws caps, !CapsSmall caps}.
Context {S : Type} `{!AdapterImpl S, !AdapterLaws S, !SteadyClock}.
Implicit Types (s : Disp caps S) (a : aid) (x y : Adapter S).

(** ** The invariant *)

Definition heard (size : Z) x : Prop := exists b l,
  ResponseSerializer.serialize_auth (caps:=caps) FLORA_CLI_SUCCESS FLORA_VERSION size (serialize_flags x) = Some b /\
  adap_sent (impl x) = b :: l /\ Forall (legible (caps:=caps)) l.

Record vocal s : Prop := {
  vo_size : is_u32 (buf_size s);
  vo_monitors m : is_Some (monitors s !! m) -> (info <$> adapters s !! m) = Some (Some (InMonitors m));
  vo_subs : map_Forall (fun _ l => Forall (is_client s) l) (subscriptions s);
  vo_calls : Forall (fun pc => is_client s (pc_sender pc)) (pending_calls s);
  vo_named : map_Forall (fun _ a => is_client s a) (named_adapters s);
  vo_fresh a x : adapters s !! a = Some x -> info x = None -> open x -> adap_sent (impl x) = [];
  vo_heard a x k : adapters s !! a = Some x -> info x = Some (InAdapters k) -> open x -> heard (buf_size s) x
}.

(** ** Changes that keep it *)

Definition tame1 x y : Prop :=
  info y = info x /\ serialize_flags y = serialize_flags x /\
  match info x with
  | None => open y -> open x /\ adap_sent (impl y) = adap_sent (impl x)
  | Some (InAdapters _) => spoken (caps:=caps) x y
  | Some (InMonitors _) => True
  end.

Definition tame (m m' : gmap aid (Adapter S)) : Prop := forall a, option_Forall2 tame1 (m !! a) (m' !! a).

Lemma spoken_same x y : (open y -> open x /\ adap_sent (impl y) = adap_sent (impl x)) -> spoken (caps:=caps) x y.
Proof. intros Hs Ho. destruct (Hs Ho) as [? ->]. split; [done|]. exists []. by rewrite app_nil_r. Qed.

(** Nothing was said. *)
Lemma tame1_same x y :
  info y = info x -> serialize_flags y = serialize_flags x ->
  (open y -> open x /\ adap_sent (impl y) = adap_sent (impl x)) -> tame1 x y.
Proof. intros Hi Hf Hs. split_and!; [done..|]. destruct (info x) as [[]|]; [by apply spoken_same|done..]. Qed.

Lemma tame1_calm x y : calm1 (caps:=caps) x y -> tame1 x y.
Proof.
  intros (Hi & Hf & [Hc|[He|[[k Hk] Hs]]]).
  - by apply tame1_same.
  - apply tame1_same; [done..|]. unfold open. by rewrite He.
  - split_and!; [done..|]. by rewrite Hk.
Qed.

Lemma calm_tame m m' : calm (caps:=caps) m m' -> tame m m'.
Proof. intros Hc a. specialize (Hc a). destruct Hc; constructor. by apply tame1_calm. Qed.

Lemma tame_alter m a f : (forall x, m !! a = Some x -> tame1 x (f x)) -> tame m (alter f a m).
Proof.
  intros Hf b. destruct (decide (a = b)) as [<-|Hn].
  - rewrite lookup_alter_eq. destruct (m !! a) as [x|] eqn:Hx; constructor. by apply Hf.
  - rewrite lookup_alter_ne by done. destruct (m !! b); constructor. by apply tame1_same.
Qed.

Lemma tame_infos m m' : tame m m' -> same_infos m m'.
Proof. intros Ht a. destruct (Ht a) as [x y (Hi & _)|]; [|done]. simpl. by rewrite Hi. Qed.

Lemma tame_lookup m m' a y : tame m m' -> m' !! a = Some y -> exists x, m !! a = Some x /\ tame1 x y.
Proof. intros Ht Hy. specialize (Ht a). rewrite Hy in Ht. inversion Ht as [x ? Hxy Hx|]; subst. by exists x. Qed.

Lemma vocal_tame s s' :
  vocal s -> tame (adapters s) (adapters s') ->
  map_Forall (fun _ l => Forall (is_client s') l) (subscriptions s') ->
  Forall (fun pc => is_client s' (pc_sender pc)) (pending_calls s') ->
  named_adapters s' ⊆ named_adapters s -> monitors s' ⊆ monitors s -> buf_size s' = buf_size s -> vocal s'.
Proof.
  intros [Hz Hm _ _ Hn Hf Hh] Ht Hs Hp En Em Eb. pose proof (tame_infos _ _ Ht) as Hi.
  split; rewrite ?Eb; try done.
  - intros m Hmm. rewrite Hi. apply Hm. destruct Hmm as [j Hj]. exists j. by eapply lookup_weaken.
  - intros n a Ha. eapply same_infos_client; [exact Hi|]. apply (Hn n a). by eapply lookup_weaken.
  - intros a y Hy Hnone Ho. destruct (tame_lookup _ _ _ _ Ht Hy) as (x & Hx & Hxi & _ & Hsp).
    rewrite <- Hxi, Hnone in Hsp. destruct (Hsp Ho) as [Hox ->]. apply (Hf a x); [done|congruence|done].
  - intros a y k Hy Hk Ho. destruct (tame_lookup _ _ _ _ Ht Hy) as (x & Hx & Hxi & Hxf & Hsp).
    rewrite <- Hxi, Hk in Hsp. destruct (Hsp Ho) as (Hox & l & Hse & Hl).
    destruct (Hh a x k Hx) as (b & l0 & Hb & Hs0 & Hl0); [congruence|done|]. exists b, (l0 ++ l).
    rewrite Hxf, Hse, Hs0. split_and!; [done|done|]. by apply Forall_app.
Qed.

#[export] Instance vocal_calm_inv : CalmInv vocal.
Proof.
  split; try (by intros s []).
  - intros s s' Hs Hc Hsub Hp En Ei Em Eq Eb. eapply vocal_tame; [done|by apply calm_tame|done..| | |done]; by rewrite ?En, ?Em.
  - intros s k i j [] Hk Hj. by split.
Qed.

(** Other members, as the connections change. *)
Lemma vocal_connections s m : vocal s -> tame (adapters s) m -> vocal (set_adapters m s).
Proof.
  intros Hs Ht. pose proof (tame_infos _ _ Ht) as Hi.
  assert (forall a, is_client s a -> is_client (set_adapters m s) a) as Hcl by (intros a; by apply same_infos_client).
  apply (vocal_tame s); try done.
  - intros n l Hl. eapply Forall_impl; [exact (vo_subs s Hs n l Hl)|exact Hcl].
  - eapply Forall_impl; [exact (vo_calls s Hs)|]. simpl. auto.
Qed.

Lemma vocal_read s a i : reads a i s -> vocal s -> vocal (set_adapters (alter (set_impl i) a (adapters s)) s).
Proof.
  intros Hq Hs. apply vocal_connections; [done|]. apply tame_alter. intros x Hx. apply tame1_same; [done..|].
  unfold reads in Hq. rewrite Hx in Hq. injection Hq as Hse Hc. unfold open. simpl. by rewrite Hse, Hc.
Qed.

Lemma vocal_accept s a x :
  adapters s !! a = None -> accepted_conn x -> vocal s ->
  vocal (set_held ({[a]} ∪ held s) (set_adapters (<[a := x]> (adapters s)) s)).
Proof.
  intros Ha (Hx & _ & He) [Hz Hm Hsub Hp Hn Hf Hh]. set (s' := set_held _ _).
  assert (forall b, is_Some (adapters s !! b) -> a <> b) as Hne by (intros b [? Hb] ->; congruence).
  assert (forall b, is_client s b -> is_client s' b) as Hcl.
  { intros b [k Hk]. exists k. simpl. rewrite lookup_insert_ne; [done|]. apply Hne. destruct (adapters s !! b); [by eexists|done]. }
  split; try done; simpl.
  - intros m Hmm. specialize (Hm m Hmm). rewrite lookup_insert_ne; [done|]. intros ->. by rewrite Ha in Hm.
  - intros n l Hl. eapply Forall_impl; [exact (Hsub n l Hl)|exact Hcl].
  - eapply Forall_impl; [exact Hp|]. simpl. auto.
  - intros n b Hb. apply Hcl. exact (Hn n b Hb).
  - intros b y [[<- <-]|[_ Hy]]%lookup_insert_Some; [done|]. by apply (Hf b y).
  - intros b y k [[<- <-]|[_ Hy]]%lookup_insert_Some; [congruence|]. by apply (Hh b y k).
Qed.

(** Announcements go to monitors. *)
Lemma tame_announced s n mm :
  vocal s -> delivered (watching s) (announce (caps:=caps) (buf_size s) n) (adapters s) mm -> tame (adapters s) mm.
Proof.
  intros Hs Hd a. rewrite (Hd a). case_bool_decide as Ha.
  - apply monitors_elem, (vo_monitors s Hs) in Ha. destruct (adapters s !! a) as [x|]; constructor.
    simpl in Ha. split_and!; [apply announce_info|apply announce_flags|]. by replace (info x) with (Some (InMonitors a)) by congruence.
  - destruct (adapters s !! a); constructor. by apply tame1_same.
Qed.

(** ** Leaving *)

Lemma vocal_left s a mm id named :
  vocal s -> named ⊆ named_adapters s ->
  delivered (watching s) (announce (caps:=caps) (buf_size s) (ClientRemoved id)) (adapters s) mm ->
  vocal (set_adapter_infos (delete a (adapter_infos s)) (set_adapters mm (set_named_adapters named s))).
Proof.
  intros Hs Hn Hmm. pose proof (vocal_connections s mm Hs (tame_announced s _ _ Hs Hmm)) as Hs2.
  apply (vocal_tame _ _ Hs2); [intros b; simpl; destruct (mm !! b); constructor; by apply tame1_same| | |done..]; apply Hs2.
Qed.

Lemma vocal_monitor_left s a named :
  vocal s -> named ⊆ named_adapters s -> vocal (set_monitors (delete a (monitors s)) (set_named_adapters named s)).
Proof.
  intros Hs Hn. apply (vocal_tame s _ Hs); [apply calm_tame, calm_refl| | |done|apply delete_subseteq|done]; apply Hs.
Qed.

(** ** Arriving *)

Section Accepted.
Context s a x (b : bytes) (flags : Z) s1 (Hs : vocal s) (Hx : adapters s !! a = Some x) (Hnone : info x = None).
Context (Hb : ResponseSerializer.serialize_auth (caps:=caps) FLORA_CLI_SUCCESS FLORA_VERSION (buf_size s)
  (serialize_flags x) = Some b) (Hacc : accepted s flags a s1).

(** The connection of a new client starts with the answer. *)
Lemma vocal_joined y :
  adapters s1 !! a = Some y -> vocal (set_adapters (<[a := receive (Some b) y]> (adapters s1)) s1).
Proof.
  intros Hy. set (s2 := set_adapters _ _). pose proof Hs as [Hz Hm Hsub Hp Hn Hf Hh].
  assert (exists p, joined s a p s1 /\ (p = InMonitors a \/ p = InAdapters a)) as (p & J & Hcases).
  { unfold accepted in Hacc. destruct (has_flag flags _); destruct Hacc as (? & _); eauto. }
  destruct (joined_at _ _ _ _ _ J Hx) as (y' & Hy' & Hyi & Hyf & Hyx & Ea). simplify_eq. destruct J as [Es Ep _ Eb _].
  assert ((info <$> adapters s !! a) = Some None) as Ha by by rewrite Hx, <- Hnone.
  assert (forall c z, adapters s2 !! c = Some z -> c <> a -> adapters s !! c = Some z) as Hoth.
  { intros c z Hc Hca. simpl in Hc. by rewrite Ea, !lookup_insert_ne in Hc by done. }
  assert (forall c, is_client s c -> is_client s2 c) as Hcl.
  { intros c Hc. pose proof (not_client s a c Ha Hc). destruct Hc as [k Hk]. exists k. simpl. by rewrite Ea, !lookup_insert_ne. }
  assert ((info <$> adapters s2 !! a) = Some (Some p)) as Hpa by (simpl; by rewrite lookup_insert_eq, <- Hyi).
  split; simpl; rewrite ?Es, ?Ep, ?Eb; try done.
  - intros m Hmm. assert (m = a /\ p = InMonitors a \/ is_Some (monitors s !! m)) as [[-> ->]|Hmm'].
    { unfold accepted in Hacc. destruct (has_flag flags _).
      - destruct Hacc as ([_ _ _ _ (f & Hfa & Hff)] & _ & _ & i & Em). rewrite Em, lookup_insert_is_Some' in Hmm.
        destruct Hmm as [<-|]; [left|by right]. split; [done|]. rewrite Hfa, lookup_alter_eq, Hx in Hy. injection Hy as <-.
        destruct (Hff x). congruence.
      - destruct Hacc as (_ & Em & _). rewrite Em in Hmm. by right. }
    + exact Hpa.
    + pose proof (Hm m Hmm') as Hi. assert (m <> a) by (intros ->; congruence). by rewrite Ea, !lookup_insert_ne.
  - intros n l Hl. eapply Forall_impl; [exact (Hsub n l Hl)|exact Hcl].
  - eapply Forall_impl; [exact Hp|]. simpl. auto.
  - unfold accepted in Hacc. destruct (has_flag flags _).
    + destruct Hacc as (_ & _ & -> & _). intros n c Hc. apply Hcl. exact (Hn n c Hc).
    + destruct Hacc as ([_ _ _ _ (f & Hfa & Hff)] & _ & _ & En).
      assert (p = InAdapters a) as ->.
      { rewrite Hfa, lookup_alter_eq, Hx in Hy. injection Hy as <-. destruct (Hff x). congruence. }
      assert (map_Forall (fun _ c => is_client s2 c) (named_adapters s)) as Hold by (intros n c Hc; apply Hcl; exact (Hn n c Hc)).
      destruct En as [->|[n ->]]; [done|]. apply map_Forall_insert_2; [by exists a|done].
  - intros c z Hc Hzn Ho. destruct (decide (c = a)) as [->|Hca]; [|by apply (Hf c z); [apply Hoth|..]].
    change (adapters s2 !! a = Some z) in Hc. rewrite Hc in Hpa. simpl in Hpa. congruence.
  - intros c z k Hc Hzk Ho. destruct (decide (c = a)) as [->|Hca]; [|by apply (Hh c z k); [apply Hoth|..]].
    rewrite lookup_insert_eq in Hc. injection Hc as <-. destruct (receive_open _ _ Ho) as [Hoy Hse].
    assert (adap_sent (impl y) = []) as Hnil by (rewrite Hyx; apply (Hf a x Hx Hnone); unfold open in *; by rewrite <- Hyx).
    rewrite Hnil in Hse. exists b, []. split_and!; [by rewrite <- Hb, <- Hyf|exact Hse|constructor].
Qed.

(** What follows the answer is for monitors. *)
Lemma answered_vocal : adapter_infos s !! a = None ->
  wlp (answered (caps:=caps) flags a) (fun ok s' => ok = true /\ vocal s') s1.
Proof.
  intros Hai. assert (exists y, adapters s1 !! a = Some y /\ serialize_flags y = serialize_flags x /\
    info y = Some (if has_flag flags FLORA_CLI_FLAG_MONITOR then InMonitors a else InAdapters a) /\
    buf_size s1 = buf_size s) as (y & Hy & Hyf & Hyi & Eb).
  { unfold accepted in Hacc. destruct (has_flag flags _); destruct Hacc as (J & _);
      destruct (joined_at _ _ _ _ _ J Hx) as (y & ? & ? & ? & _ & _); exists y; split_and!; try done; apply J. }
  pose proof (vocal_joined y Hy) as Hs2. set (s2 := set_adapters _ _) in Hs2.
  eapply wlp_answered; [exact Hy|by rewrite Eb, Hyf|]. fold s2.
  assert (adapters s2 !! a = Some (receive (Some b) y)) as Hy2 by apply lookup_insert_eq.
  unfold write_monitor_data. unfold accepted in Hacc. destruct (has_flag flags FLORA_CLI_FLAG_MONITOR) eqn:Hfl; cbn [negb when].
  - wstep. unfold write_monitor_list. wstep. apply wlp_deref. intros y2 Hy2'. simplify_eq. do 4 wstep.
    destruct (ResponseSerializer.serialize_monitor_list_all _ _ _) as [d|]; wsteps; [|done].
    eapply wpx_weaken; [eapply wp_write_receive; [by eexists|]|done]. intros _. do 3 wstep. split; [done|].
    apply vocal_connections; [done|]. apply tame_alter. intros z Hz. rewrite Hy2 in Hz. injection Hz as <-.
    unfold tame1. simpl. by rewrite Hyi.
  - do 3 wstep. destruct Hacc as (_ & _ & (i & _ & Ei) & _).
    eapply wpx_mono; [apply (wlp_list_add a i)|].
    + rewrite Hy2. simpl. by rewrite Hyi.
    + change (adapter_infos s1 !! a = Some i). by rewrite Ei, lookup_insert_eq.
    + intros [] s3 (mm & -> & Hmm). wstep. split; [done|]. apply vocal_connections; [done|].
      by eapply tame_announced.
Qed.
End Accepted.

(** ** The service *)

Lemma vocal_stamp s1 s2 :
  vocal s1 -> s2 = set_handle_cmd_tp (handle_cmd_tp s2) (set_ticks (ticks s2) s1) -> vocal s2.
Proof. intros Hs ->. eapply (inv_unseen (I:=vocal)); [exact Hs|by unfold unseen; split_and!]. Qed.

Lemma handle_cmd_vocal s p todo :
  inv s (p :: todo) -> packet_ok s p -> vocal s -> wlp (handle_cmd p.1 p.2) (fun _ s' => vocal s') s.
Proof.
  intros Hi Hok Hs. eapply (handle_cmd_calm vocal); [auto|exact Hi|exact Hok|exact Hs|apply vocal_stamp| |].
  - intros Hp. destruct p as [o a]. simpl in *. subst o. eapply (erase_calm vocal); [exact Hi|exact Hs|intros; by eapply vocal_left|intros; by apply vocal_monitor_left].
  - intros x b flags s1 Hx Hnone Hai Hb Hacc. by eapply answered_vocal.
Qed.

Lemma step_vocal st lb st' :
  sys_ok st -> sys_holds vocal st -> exec st lb = Some st' -> orderly st lb -> sys_holds vocal st'.
Proof.
  intros Hok Hs He Ho. eapply step_calm; [exact Hs|exact He| |intros; by apply vocal_read|intros; by apply vocal_accept].
  intros ->. destruct st as [[| |[|p todo]|] s|]; try done. injection He as <-. destruct Hok as [Hi _].
  pose proof (handle_cmd_vocal s p todo Hi Ho Hs) as Hw. unfold wpx in Hw. by destruct (handle_cmd p.1 p.2 s) as [[[] s']|].
Qed.

Lemma start_vocal flags bufsize : is_u32 bufsize -> sys_holds vocal (start (caps:=caps) (S:=S) flags bufsize).
Proof.
  intros Hb. split; simpl; try done; [|by intros m [? ?]]. unfold is_u32, DEFAULT_MSG_BUF_SIZE, two32 in *.
  case_bool_decide; lia.
Qed.
End Voice.
