(* ===== verification/MonitorLog.v ===== *)
(** * What the service announces to its monitors

    The dispatcher keeps every monitor's connection in step with the clients that are
    registered: the messages put into it, decoded in order, say which clients there
    are. [mirror] is that invariant; a handler that registers and erases nobody keeps
    it because it writes to clients only. *)
From S2P Require Import Prelude Defs Caps RefCaps Adap SerHelper SerRoundtrip Disp DispInv.
From S2P Require Import DispOps DispSafe DispSpec DispCalls DispAuth DispLoop DispType CliState Cli Monitor MonitorPeer Roles Voice.
Import Dispatcher.

Section Log.
Context {caps : Type} `{!CapsOps caps, !CapsFlags, !CapsLaws caps, !CapsSmall caps}.
Context {S : Type} `{!AdapterImpl S, !AdapterLaws S, !SteadyClock}.
Implicit Types (s : Disp caps S) (a : aid).

(** ** The invariant *)

(** What was put into the connection shows the clients of [infos]. *)
Definition logged (size : Z) (infos : gmap aid AdapterInfo) (x : Adapter S) : Prop :=
  exists ns, monitor_log (caps:=caps) size (serialize_flags x) ns (adap_sent (impl x)) /\
    view_of (caps:=caps) ns ≡ₚ clients infos.

(** The monitors are shown the clients, whose ids are distinct. *)
Record listed s : Prop := {
  li_ids : map_Forall (fun _ i => ai_id i <= idseq s) (adapter_infos s);
  li_distinct : ids_distinct (adapter_infos s);
  li_logs m x : is_Some (monitors s !! m) -> adapters s !! m = Some x -> open x ->
    logged (buf_size s) (adapter_infos s) x
}.

Record mirror s : Prop := { mi_vocal : vocal s; mi_listed : listed s }.

(** Nobody was registered or erased. *)
Lemma listed_calm s s' :
  vocal s -> listed s -> calm (caps:=caps) (adapters s) (adapters s') ->
  adapter_infos s' = adapter_infos s -> monitors s' = monitors s ->
  idseq s' = idseq s -> buf_size s' = buf_size s -> listed s'.
Proof.
  intros Hv [Hi Hd Hl] Hc Ei Em Eq Eb. split; rewrite ?Ei, ?Em, ?Eq, ?Eb; try done.
  intros m y Hmm Hy Ho. destruct (calm_lookup _ _ _ _ Hc Hy) as (x & Hx & Hxi & Hsf & Hcases).
  pose proof (vo_monitors s Hv m Hmm) as Hm. rewrite Hx in Hm. simpl in Hm.
  destruct Hcases as [?|[Him|[[k Hk] _]]]; [done| |congruence].
  unfold open, logged in *. rewrite Him, Hsf in *. by apply (Hl m x).
Qed.

(** An entry was replaced by one that a monitor is shown in the same way. *)
Lemma clients_update (infos : gmap aid AdapterInfo) k i j :
  infos !! k = Some i -> list_item j = list_item i -> clients (<[k := j]> infos) ≡ₚ clients infos.
Proof.
  intros Hk Hj. unfold clients. rewrite <- (insert_delete_id infos k i) at 2 by done.
  rewrite <- insert_delete_eq, !map_to_list_insert by apply lookup_delete_eq. simpl.
  unfold shown_client. by rewrite Hj.
Qed.

Lemma listed_update s k i j :
  listed s -> adapter_infos s !! k = Some i -> list_item j = list_item i ->
  listed (set_adapter_infos (<[k := j]> (adapter_infos s)) s).
Proof.
  intros [Hi Hd Hl] Hk Hj. assert (ai_id j = ai_id i) as Hid by (unfold list_item in Hj; congruence).
  split; simpl.
  - intros k' i' [[<- <-]|[_ Hk']]%lookup_insert_Some; [rewrite Hid; by apply (Hi k)|by apply (Hi k')].
  - assert (forall k' i', <[k:=j]> (adapter_infos s) !! k' = Some i' ->
      exists i0, adapter_infos s !! k' = Some i0 /\ ai_id i0 = ai_id i') as Hold.
    { intros k' i' [[<- <-]|[_ Hk']]%lookup_insert_Some; eauto. }
    intros k1 k2 i1 i2 (j1 & H1 & E1)%Hold (j2 & H2 & E2)%Hold He. eapply Hd; [done..|congruence].
  - intros m x Hmm Hx Ho. destruct (Hl m x Hmm Hx Ho) as (ns & Hlog & Hv). exists ns. split; [done|].
    rewrite Hv. symmetry. by eapply clients_update.
Qed.

#[export] Instance mirror_calm_inv : CalmInv mirror.
Proof.
  split; try (by intros s [[] _]).
  - intros s s' [Hv Hl] Hc Hsub Hp En Ei Em Eq Eb. split; [by eapply (ci_calm s)|by eapply listed_calm].
  - intros s k i j [Hv Hl] Hk Hj. split; [by eapply ci_update|by eapply listed_update].
Qed.
End Log.

