(* ===== verification/MonitorRun.v ===== *)
(** * A monitor shows who is connected

    The announcements of arrivals, departures and new monitors keep [mirror], and with
    them every step of the service does: a monitor's view is the list of registered
    clients at every moment of every run. *)
From S2P Require Import Prelude Defs Caps RefCaps Adap SerHelper SerRoundtrip SockAdap SockConn Disp DispInv.
From S2P Require Import DispOps DispSafe DispSpec DispCalls DispAuth DispLoop DispType CliState Cli CliSpec.
From S2P Require Import EndToEnd Monitor MonitorPeer Roles Announce Voice MonitorLog.
Import Dispatcher.

Section Run.
Context {caps : Type} `{!CapsOps caps, !CapsFlags, !CapsLaws caps, !CapsSmall caps}.
Context {S : Type} `{!AdapterImpl S, !AdapterLaws S, !SteadyClock}.
Implicit Types (s : Disp caps S) (a : aid).

(** ** Announcing *)

(** The view follows an announcement. *)
Lemma logged_announce size infos infos' n x :
  ann_wf n -> is_Some (encode (caps:=caps) size (serialize_flags x) n) ->
  (forall v, v ≡ₚ clients infos -> step_list v (callback (caps:=caps) n) ≡ₚ clients infos') ->
  (open x -> logged (caps:=caps) size infos x) -> open (announce size n x) ->
  logged (caps:=caps) size infos' (announce size n x).
Proof.
  intros Hn [d Hd] Hv Hlog. unfold announce. rewrite Hd. intros Ho.
  destruct (receive_open _ _ Ho) as [Hx Hsent]. destruct (Hlog Hx) as (ns & (b & bs & Hb & Hauth & Hns) & Hvn).
  exists (ns ++ [n]). split; [|rewrite view_of_snoc; by apply Hv].
  exists b, (bs ++ [d]). rewrite Hsent, Hb. split_and!; [done|done|].
  apply Forall2_app; [done|]. by repeat constructor.
Qed.

(** ** States whose clients can be listed

    Every name is a C string and every list and entry fits in the dispatcher's buffer;
    the counter of the ids has not wrapped around. *)
Record listable s : Prop := {
  ls_few : Z.of_nat (size (adapter_infos s)) < two31;
  ls_ids : idseq s < two32 - 1;
  ls_names : map_Forall (fun _ i => no_nul (ai_name i)) (adapter_infos s);
  ls_all flags : is_Some (encode (caps:=caps) (buf_size s) flags (AllClients (adapter_infos s)));
  ls_added flags : map_Forall (fun _ i => is_Some (encode (caps:=caps) (buf_size s) flags (ClientAdded i))) (adapter_infos s)
}.

Lemma listable_wf s : typed s -> listable s -> map_Forall (fun _ => info_wf) (adapter_infos s).
Proof.
  intros Ht Hl k i Hk. destruct (ty_infos s Ht k i Hk) as (? & ? & ?). split_and!; try done.
  exact (ls_names s Hl k i Hk).
Qed.

(** A change of the clients that is announced to every monitor. *)
Lemma listed_announced s s' n :
  listed s -> monitors s' = monitors s -> buf_size s' = buf_size s ->
  delivered (watching s) (announce (buf_size s) n) (adapters s) (adapters s') ->
  map_Forall (fun _ i => ai_id i <= idseq s') (adapter_infos s') -> ids_distinct (adapter_infos s') ->
  ann_wf n -> (forall flags, is_Some (encode (caps:=caps) (buf_size s) flags n)) ->
  (forall v, v ≡ₚ clients (adapter_infos s) ->
     step_list v (callback (caps:=caps) n) ≡ₚ clients (adapter_infos s')) ->
  listed s'.
Proof.
  intros [_ _ Hl] Em Eb Hdel Hi Hd Hwf Henc Hv. split; rewrite ?Em; try done.
  intros m y Hmm Hy Ho. rewrite (Hdel m), bool_decide_true in Hy by by apply monitors_elem.
  destruct (adapters s !! m) as [x|] eqn:Hx; [|done]. simpl in Hy. injection Hy as <-. rewrite Eb.
  eapply logged_announce; [done|apply Henc|exact Hv| |done]. by apply (Hl m x).
Qed.

(** ** Leaving *)

Lemma remove_fits sz flags id :
  DEFAULT_MSG_BUF_SIZE <= sz < two32 -> is_Some (encode (caps:=caps) sz flags (ClientRemoved id)).
Proof.
  intros Hs. simpl. unfold ResponseSerializer.serialize_monitor_list_remove, serialize_to. set (c := caps_write_u32 _ _).
  assert (caps_content c = [CInt (u32 CMD_MONITOR_RESP); CInt (u32 MONITOR_LIST_REMOVE); CInt (u32 id)])
    as Hc by (subst c; by autorewrite with flora).
  pose proof (serialize_small c flags sz) as Hsm. rewrite Hc in Hsm. unfold DEFAULT_MSG_BUF_SIZE in Hs.
  destruct (caps_serialize c flags sz) as [r b] eqn:Hser. simpl in Hsm.
  assert (0 <= r <= sz) as Hr by (apply Hsm; [repeat constructor; simpl; int_lia|lia..]).
  rewrite bool_decide_false by lia. rewrite bool_decide_false by (rewrite u32_small by (unfold is_u32; lia); lia). eauto.
Qed.

Lemma listed_left s mm a i named :
  listed s -> DEFAULT_MSG_BUF_SIZE <= buf_size s < two32 -> is_u32 (ai_id i) -> adapter_infos s !! a = Some i ->
  delivered (watching s) (announce (buf_size s) (ClientRemoved (ai_id i))) (adapters s) mm ->
  listed (set_adapter_infos (delete a (adapter_infos s)) (set_adapters mm (set_named_adapters named s))).
Proof.
  intros Hs Hb Hid Hi Hd. eapply listed_announced; [exact Hs|done..|exact Hd| | |done| |]; simpl.
  - intros k j [_ Hk]%lookup_delete_Some. exact (li_ids s Hs k j Hk).
  - intros k k' j j' [_ Hk]%lookup_delete_Some [_ Hk']%lookup_delete_Some. by eapply li_distinct.
  - intros flags. by apply remove_fits.
  - intros v Hv. by apply view_remove; [apply Hs|..].
Qed.

Lemma listed_monitor_left s a named :
  listed s -> listed (set_monitors (delete a (monitors s)) (set_named_adapters named s)).
Proof. intros [Hi Hd Hl]. split; try done. simpl. intros m y Hmm. apply Hl. by apply lookup_delete_is_Some in Hmm as [_ ?]. Qed.

Lemma erase_mirror s a todo :
  inv s ((None, a) :: todo) -> typed s -> mirror s -> wlp (do_erase_adapter a) (fun _ s' => mirror s') s.
Proof.
  intros Hi Ht Hs. pose proof Hs as [Hv Hl]. eapply (erase_calm mirror); [exact Hi|exact Hs|..].
  - intros i mm named Hai Hn Hmm. split; [by eapply vocal_left|]. apply (listed_left s mm a i named); try done; [apply Hi|].
    by destruct (ty_infos s Ht a i Hai).
  - intros named Hn. split; [by apply vocal_monitor_left|by apply listed_monitor_left].
Qed.

(** ** Arriving *)

Lemma not_watched s a m : vocal s -> (info <$> adapters s !! a) = Some None -> is_Some (monitors s !! m) -> m <> a.
Proof. intros Hs Ha Hm ->. apply (vo_monitors s Hs) in Hm. congruence. Qed.

(** The ids do not wrap around. *)
Lemma next_id s : typed s -> listable s -> u32 (idseq s + 1) = idseq s + 1.
Proof.
  intros Ht Hl. apply u32_small. pose proof (ty_idseq s Ht) as Hq. pose proof (ls_ids s Hl). unfold is_u32, two32 in *. lia.
Qed.

Lemma listed_becomes_client s a f :
  vocal s -> listed s -> (info <$> adapters s !! a) = Some None -> listed (set_adapters (alter f a (adapters s)) s).
Proof.
  intros Hv [Hi Hd Hl] Ha. split; try done. simpl. intros m x Hmm. pose proof (not_watched s a m Hv Ha Hmm).
  rewrite lookup_alter_ne by done. by apply Hl.
Qed.

Lemma listed_client_joined s a i f s' :
  vocal s -> listed s -> (info <$> adapters s !! a) = Some None -> adapter_infos s !! a = None ->
  typed s -> listable s -> typed s' -> listable s' -> idseq s' = u32 (idseq s + 1) ->
  buf_size s' = buf_size s -> monitors s' = monitors s -> ai_id i = u32 (idseq s + 1) ->
  adapter_infos s' = <[a := i]> (adapter_infos s) ->
  delivered (watching s) (announce (buf_size s) (ClientAdded i)) (alter f a (adapters s)) (adapters s') ->
  listed s'.
Proof.
  intros Hv Hs Ha Hai Ht Hl Ht' Hl' Eq Eb Em Hi Ei Hd. pose proof (next_id s Ht Hl) as Hu.
  pose proof (listed_becomes_client s a f Hv Hs Ha) as Hs0.
  assert (adapter_infos s' !! a = Some i) as Hin by by rewrite Ei, lookup_insert_eq.
  eapply listed_announced; [exact Hs0|done..|exact Hd| | | | |].
  - rewrite Ei, Eq, Hu. apply map_Forall_insert_2; [lia|]. intros k j Hk. pose proof (li_ids s Hs k j Hk). simpl in *. lia.
  - assert (forall k j, adapter_infos s !! k = Some j -> ai_id j <> ai_id i) as Hfresh.
    { intros k j Hk. pose proof (li_ids s Hs k j Hk). simpl in *. lia. }
    rewrite Ei. intros k k' j j' [[<- <-]|[_ Hk]]%lookup_insert_Some [[<- <-]|[_ Hk']]%lookup_insert_Some He.
    + done.
    + by destruct (Hfresh _ _ Hk').
    + by destruct (Hfresh _ _ Hk).
    + by eapply li_distinct.
  - exact (listable_wf s' Ht' Hl' a i Hin).
  - intros flags. simpl. rewrite <- Eb. exact (ls_added s' Hl' flags a i Hin).
  - intros v Hvv. rewrite Ei, clients_insert by done. simpl. by rewrite Hvv.
Qed.

(** The log of a new monitor. *)
Lemma logged_new sz infos (x : Adapter S) b :
  map_Forall (fun _ => info_wf) infos -> Z.of_nat (size infos) < two31 ->
  is_Some (encode (caps:=caps) sz (serialize_flags x) (AllClients infos)) ->
  ResponseSerializer.serialize_auth (caps:=caps) FLORA_CLI_SUCCESS FLORA_VERSION sz (serialize_flags x) = Some b ->
  (open x -> adap_sent (impl x) = []) ->
  open (announce sz (AllClients infos) (receive (Some b) x)) ->
  logged (caps:=caps) sz infos (announce sz (AllClients infos) (receive (Some b) x)).
Proof.
  intros Hwf Hn [d Hd] Hb Hx. set (y := receive (Some b) x).
  assert (announce sz (AllClients infos) y = receive (Some d) y) as -> by (unfold announce; change (serialize_flags y) with (serialize_flags x); by rewrite Hd).
  intros Ho. destruct (receive_open _ _ Ho) as [Hoy Hs]. destruct (receive_open _ _ Hoy) as [Hox Hsy].
  exists [AllClients infos]. split; [|by rewrite view_all].
  fold y in Hsy. exists b, [d]. rewrite Hs, Hsy, (Hx Hox). split_and!; [done|done|].
  constructor; [by split|constructor].
Qed.

Lemma listed_monitor_joined s a x y i b s' :
  vocal s -> listed s -> typed s -> listable s -> adapters s !! a = Some x -> info x = None ->
  serialize_flags y = serialize_flags x -> impl y = impl x ->
  ResponseSerializer.serialize_auth (caps:=caps) FLORA_CLI_SUCCESS FLORA_VERSION (buf_size s) (serialize_flags x) = Some b ->
  idseq s' = u32 (idseq s + 1) -> buf_size s' = buf_size s -> adapter_infos s' = adapter_infos s ->
  monitors s' = <[a := i]> (monitors s) ->
  adapters s' = <[a := announce (buf_size s) (AllClients (adapter_infos s)) (receive (Some b) y)]> (adapters s) ->
  listed s'.
Proof.
  intros Hv [Hid Hd Hlog] Ht Hl Hx Hnone Hyf Hyx Hb Eq Eb Ei Em Ea. pose proof (next_id s Ht Hl) as Hu.
  split; rewrite ?Ei, ?Eb, ?Eq, ?Hu; try done.
  - intros k j Hk. pose proof (Hid k j Hk). simpl in *. lia.
  - rewrite Em, Ea. intros m z. rewrite lookup_insert_is_Some'. intros Hmm.
    intros [[<- <-]|[Hne Hz]]%lookup_insert_Some Ho.
    + apply logged_new; [by apply listable_wf|apply Hl|apply Hl|by rewrite Hyf| |done].
      unfold open. rewrite Hyx. by apply (vo_fresh s Hv a x).
    + destruct Hmm as [->|Hmm]; [done|]. by apply (Hlog m).
Qed.

(** ** The handler *)

Section Accepted.
Context s a (x : Adapter S) (b : bytes) (flags : Z) s1 (Hv : vocal s) (Hs : listed s) (Ht : typed s) (Hl : listable s).
Context (Hx : adapters s !! a = Some x) (Hnone : info x = None).
Context (Hb : ResponseSerializer.serialize_auth (caps:=caps) FLORA_CLI_SUCCESS FLORA_VERSION (buf_size s)
  (serialize_flags x) = Some b) (Hacc : accepted s flags a s1).

(** A monitor gets the whole list. *)
Lemma monitor_answered : has_flag flags FLORA_CLI_FLAG_MONITOR = true ->
  wlp (answered flags a) (fun ok s' => ok = true /\ listed s') s1.
Proof.
  intros Hfl. unfold accepted in Hacc. rewrite Hfl in Hacc. destruct Hacc as (J & Ei & En & i & Em).
  destruct (joined_at _ _ _ _ _ J Hx) as (y & Hy & Hyi & Hyf & Hyx & Ea). destruct J as [Es Ep Eq Eb _].
  eapply wlp_answered; [exact Hy|by rewrite Eb, Hyf|]. unfold write_monitor_data. rewrite Hfl. cbn [negb when]. wstep.
  unfold write_monitor_list. wstep. apply wlp_deref. intros y2 Hy2. simpl in Hy2. rewrite lookup_insert_eq in Hy2.
  injection Hy2 as <-. do 4 wstep. simpl. rewrite Eb, Ei.
  destruct (ls_all s Hl (serialize_flags y)) as [d Hd]. pose proof Hd as Hd'. simpl in Hd'. rewrite Hd'.
  wstep. eapply wpx_weaken; [eapply wp_write_receive; [eexists; apply lookup_insert_eq|]|done]. intros _. do 3 wstep.
  split; [done|]. eapply (listed_monitor_joined s a x y i b); try done. simpl.
  rewrite (alter_at _ a _ (receive (Some b) y)), insert_insert_eq by (by rewrite lookup_insert_eq).
  rewrite Ea, insert_insert_eq. apply (f_equal (fun z => <[a := z]> (adapters s))). unfold announce.
  replace (encode _ _ _) with (Some d) by (symmetry; exact Hd). done.
Qed.

(** The monitors are told of a client. *)
Lemma client_answered : has_flag flags FLORA_CLI_FLAG_MONITOR = false -> adapter_infos s !! a = None ->
  wlp (answered flags a) (fun ok s' => ok = true /\ (typed s' -> listable s' -> listed s')) s1.
Proof.
  intros Hfl Hai. unfold accepted in Hacc. rewrite Hfl in Hacc. destruct Hacc as (J & Em & (i & Hid & Ei) & En).
  destruct (joined_at _ _ _ _ _ J Hx) as (y & Hy & Hyi & Hyf & Hyx & Ea). destruct J as [Es Ep Eq Eb _].
  eapply wlp_answered; [exact Hy|by rewrite Eb, Hyf|]. unfold write_monitor_data. rewrite Hfl. cbn [negb when]. do 3 wstep.
  eapply wpx_mono; [apply (wlp_list_add a i); simpl; [by rewrite lookup_insert_eq; simpl; rewrite <- Hyi|by rewrite Ei, lookup_insert_eq]|].
  intros [] s3 (mm & -> & Hmm). wstep. split; [done|]. intros Ht' Hl'. unfold watching in Hmm. simpl in Hmm. rewrite Em, Eb in Hmm.
  eapply (listed_client_joined s a i (fun _ => receive (Some b) y)); try done; [by rewrite Hx, <- Hnone|].
  rewrite Ea, insert_insert_eq in Hmm. by rewrite (alter_at (adapters s) a _ x Hx).
Qed.
End Accepted.

(** Two things that hold after a computation. *)
Lemma wlp_and {A} (m : M (Disp caps S) A) (Q R : A -> Disp caps S -> Prop) s :
  wlp m Q s -> wlp m R s -> wlp m (fun x s' => Q x s' /\ R x s') s.
Proof. unfold wpx. destruct (m s) as [[]|]; auto. Qed.

(** One command keeps every monitor in step. *)
Lemma handle_cmd_mirror s p todo :
  inv s (p :: todo) -> packet_ok s p -> typed s -> listable s -> mirror s ->
  wlp (handle_cmd p.1 p.2) (fun _ s' => typed s' -> listable s' -> mirror s') s.
Proof.
  intros Hi Hok Ht Hl Hs. pose proof Hs as [Hv Hli].
  eapply (handle_cmd_calm mirror); [auto|exact Hi|exact Hok|exact Hs|..].
  - intros s1 s2 Hs1 -> [] []. eapply (inv_unseen (I:=mirror)); [apply Hs1; by split|by unfold unseen; split_and!].
  - intros Hp. destruct p as [o a]. simpl in *. subst o. eapply wpx_mono; [by eapply erase_mirror|auto].
  - intros x b flags s1 Hx Hnone Hai Hb Hacc. set (a := p.2) in *.
    eapply wpx_mono; [apply wlp_and; [by eapply (answered_vocal s a x b flags s1)|]|].
    + instantiate (1 := fun ok s' => typed s' -> listable s' -> listed s').
      destruct (Bool.bool_dec (has_flag flags FLORA_CLI_FLAG_MONITOR) true) as [Hfl|Hfl%not_true_is_false].
      * eapply wpx_mono; [by eapply (monitor_answered s a x b flags s1)|]. by intros ok s' [_ ?].
      * eapply wpx_mono; [by eapply (client_answered s a x b flags s1)|]. by intros ok s' [_ ?].
    + intros ok s' [[-> ?] ?]. split; [done|]. intros. split; auto.
Qed.

(** ** The service *)
Import DispatcherThread.

Definition sys_listable (st : sys caps S) : Prop := match st with Running _ s => listable s | Crashed _ => True end.

(** A step of the service; the clients can be listed before and after a command. *)
Definition mon_step (st st' : sys caps S) : Prop :=
  exists lb, exec st lb = Some st' /\ orderly st lb /\ (lb = LHandle -> sys_listable st /\ sys_listable st').

Context `{!CapsTyped caps}.

(** What holds of every reachable state. *)
Definition mon_ok (st : sys caps S) : Prop := sys_ok st /\ sys_typed st /\ sys_holds mirror st.

(** A read changes neither the log nor, but for closing, the state of a connection. *)
Lemma read_listed s a i :
  reads a i s -> listed s -> listed (set_adapters (alter (set_impl i) a (adapters s)) s).
Proof.
  intros Hq [Hid Hd Hlog]. split; try done. simpl. intros m y Hmm Hy Ho. destruct (decide (a = m)) as [<-|Hne].
  - rewrite lookup_alter_eq in Hy. destruct (adapters s !! a) as [x|] eqn:Hx; [|done]. simpl in Hy. injection Hy as <-.
    unfold reads in Hq. rewrite Hx in Hq. injection Hq as Hse Hclo. unfold open, logged in *. simpl in *. rewrite <- Hse.
    apply (Hlog a x); [done..|]. congruence.
  - rewrite lookup_alter_ne in Hy by done. by apply (Hlog m).
Qed.

Lemma accept_listed s a x :
  adapters s !! a = None -> vocal s -> listed s ->
  listed (set_held ({[a]} ∪ held s) (set_adapters (<[a := x]> (adapters s)) s)).
Proof.
  intros Ha Hv [Hid Hd Hlog]. split; try done. simpl. intros m y Hmm.
  assert (a <> m) as Hne by (intros ->; apply (vo_monitors s Hv) in Hmm; by rewrite Ha in Hmm).
  rewrite lookup_insert_ne by done. by apply (Hlog m).
Qed.

Lemma mon_step_ok st st' : mon_ok st -> mon_step st st' -> mon_ok st'.
Proof.
  intros (Hok & Hty & Hmi) (lb & He & Ho & Hl). split_and!; [eapply step_ok; [done|by exists lb]|eapply step_typed; [done|by exists lb]|].
  assert (sys_typed st') as Hty' by (eapply step_typed; [exact Hty|by exists lb]).
  eapply step_calm; [exact Hmi|exact He|..].
  - intros ->. destruct (Hl eq_refl) as [Hl1 Hl2]. destruct st as [[| |[|p todo]|] s|]; try done. injection He as <-.
    destruct Hok as [Hi _]. pose proof (handle_cmd_mirror s p todo Hi Ho Hty Hl1 Hmi) as Hw. unfold wpx in Hw.
    destruct (handle_cmd p.1 p.2 s) as [[[] s']|]; [|done]. by apply Hw.
  - intros s a i [] ?. split; [by apply vocal_read|by apply read_listed].
  - intros s a x [] ? ?. split; [by apply vocal_accept|by apply accept_listed].
Qed.

Lemma start_mirror flags bufsize : is_u32 bufsize -> sys_holds mirror (start (caps:=caps) (S:=S) flags bufsize).
Proof. intros Hb. split; [by apply start_vocal|]. by split. Qed.

(** A monitor's client that handles what was put into the monitor's connection shows
    the clients. *)
Lemma mirror_shows {os} `{!SockOS os, !SockConnect os, !UriParser, !CapsSized caps} s todo m x (cl : Client.t caps os) :
  inv s todo -> mirror s -> is_Some (monitors s !! m) -> adapters s !! m = Some x -> open x ->
  authenticating cl -> Client.events cl = [] ->
  exists cl', handle_frames (adap_sent (impl x)) cl = Done (true, cl') /\
    list_after (Client.events cl') ≡ₚ clients (adapter_infos s).
Proof.
  intros Hi Hs Hm Hx Ho Hcl He. destruct (li_logs s (mi_listed s Hs) m x Hm Hx Ho) as (ns & Hlog & Hv).
  destruct (frames_log (buf_size s) (serialize_flags x) ns (adap_sent (impl x)) cl) as (cl' & Hf & Hev); [..|done|done|].
  { by eapply buf_u32. }
  exists cl'. split; [done|]. rewrite Hev, He. exact Hv.
Qed.

(** The polls' steps need no list. *)
Lemma poll_mon_step st st' : poll_step st st' -> mon_step st st'.
Proof. intros (lb & He & Ho & Hl). exists lb. split_and!; [done..|]. by intros ->. Qed.

Lemma mon_reachable flags bufsize st :
  is_u32 bufsize -> steps mon_step (start flags bufsize) st -> mon_ok st.
Proof.
  intros Hb Hst. eapply (steps_invariant mon_step mon_ok); [apply mon_step_ok|exact Hst|].
  split_and!; [by apply start_ok|apply start_typed|by apply start_mirror].
Qed.
End Run.
