(* ===== verification/ServiceMonitor.v ===== *)
(** * What the monitors of a service show

    [MonitorRun.v] shows that each step of the dispatcher keeps the monitors' logs true
    to the list of clients. Here that is put together with the polls: the service of
    [Service.v], the bytes that went into a monitor's connection, the client that
    receives them and the list that the monitor tool keeps. *)
From S2P Require Import Prelude Defs Caps Adap SockAdap SerHelper SockConn Disp DispInv DispLoop DispType.
From S2P Require Import SockPoll SockPollSpec PollRun BeepPoll BeepPollSpec Service.
From S2P Require Import CliState Cli CliSpec Monitor MonitorPeer MonitorLog MonitorRun.
Import Dispatcher DispatcherThread.

Section Composed.
Context {caps : Type} `{!CapsOps caps, !CapsFlags} {os : Type} `{!SockOS os, !SteadyClock}.
Context {W : Type} `{!PollOS os W}.
Context `{!CapsLaws caps, !CapsSmall caps, !CapsFraming caps, !CapsTyped caps}.
Context `{!SockLaws os, !PollLaws os W, !FdLimit os W}.
Implicit Types (sv : Service.t caps os W).

(** Names are C strings, the lists of clients fit in the dispatcher's buffer and the
    ids have not wrapped around. *)
Definition lists_fit (st : Service.sys caps os W) : Prop :=
  match st with Service.Up sv => listable (Service.sv_disp sv) | Service.Down _ => True end.

Definition fit_step (st st' : Service.sys caps os W) : Prop :=
  Service.step st st' /\ lists_fit st /\ lists_fit st'.

Lemma moved_mon sv sv' :
  moved sv sv' -> listable (Service.sv_disp sv) -> listable (Service.sv_disp sv') ->
  steps mon_step (disp_sys sv) (disp_sys sv').
Proof.
  intros [Hp|(lb & He & Ho)] Hl Hl'.
  - induction Hp as [|? ? ? ?%poll_mon_step _ IH]; [constructor|by econstructor].
  - eapply steps_step; [|constructor]. by exists lb.
Qed.

(** A run of the service is a run of the dispatcher whose monitors are in step. *)
Lemma fit_reachable flags bufsize ps w st :
  is_u32 bufsize -> Forall (fun p => idle (base p)) ps ->
  steps fit_step (Service.start flags bufsize ps w) st ->
  exists sv, st = Service.Up sv /\ service_ok sv /\
    steps mon_step (DispatcherThread.start flags bufsize) (disp_sys sv).
Proof.
  intros Hb Hps Hst. pattern st. eapply (steps_invariant fit_step); [|exact Hst|].
  - intros s1 s2 (sv & -> & Hok & Hs) (Hstep & Hl & Hl').
    destruct (service_step_ok sv s2 Hok Hstep) as (sv' & -> & Hok' & Hs'). exists sv'. split_and!; try done.
    eapply steps_trans; [exact Hs|by apply moved_mon].
  - eexists. split; [done|]. split; [by eapply service_start_ok|constructor].
Qed.

(** C5. A monitor shows who is connected. Take any run of a service with any number of
    polls in which the lists of clients fit in the dispatcher's buffer, and a monitor
    whose connection is open. A monitor's client that handles the messages written to
    that connection, from the answer to its authentication on, accepts all of them, and
    the list its view then shows is, up to order, the list of the registered clients
    with their ids, process ids, names and flags: every arrival and departure reached
    it, once, whatever else was sent and whichever polls the clients came from. *)
Theorem monitor_shows_clients {os'} `{!SockOS os', !SockConnect os', !UriParser, !CapsSized caps}
    flags bufsize ps w sv m x (cl : Client.t caps os') :
  is_u32 bufsize -> Forall (fun p => idle (base p)) ps ->
  steps fit_step (Service.start flags bufsize ps w) (Service.Up sv) ->
  is_Some (monitors (Service.sv_disp sv) !! m) -> adapters (Service.sv_disp sv) !! m = Some x ->
  SocketAdapter.closed (impl x) = false -> authenticating cl -> Client.events cl = [] ->
  exists cl', handle_frames (SocketAdapter.sent (impl x)) cl = Done (true, cl') /\
    list_after (Client.events cl') ≡ₚ clients (adapter_infos (Service.sv_disp sv)).
Proof.
  intros Hb Hps Hst Hm Hx Ho Hcl He.
  destruct (fit_reachable _ _ _ _ _ Hb Hps Hst) as (sv' & [= <-] & _ & Hs).
  destruct (mon_reachable _ _ _ Hb Hs) as ([Hi _] & _ & Hmi).
  exact (mirror_shows _ _ m x cl Hi Hmi Hm Hx Ho Hcl He).
Qed.
End Composed.
