(* ===== verification/Told.v ===== *)
(** * What a client makes of legible messages

    An authenticated client accepts every legible message, whichever it is, and tells its
    callback of the posts among them. *)
From S2P Require Import Prelude Defs Caps RefCaps Adap SerHelper SerRoundtrip Mailbox MailboxOps Legible.
From S2P Require Import SockConn DispState Cli CliSpec Peers Monitor MonitorPeer Roles Voice.
Import Client.

Section Told.
Context {caps : Type} `{!CapsOps caps, !CapsFlags, !CapsLaws caps}.
Context {os : Type} `{!SockOS os, !SockConnect os, !SteadyClock, !UriParser}.
Implicit Types (s : t caps os) (b : bytes).

Definition told_post (e : Client.event caps) : option post :=
  match e with
  | recv_post n t a tg nm => Some (mkPost n t (caps_content <$> a) tg nm)
  | _ => None
  end.
Definition told_posts (es : list (Client.event caps)) : list post := omap told_post es.

(** A client whose connection is authenticated, and that has a callback. *)
Definition attending s : Prop := cmd_handler s = handle_cmd_after_auth /\ cli_callback s = true.

(** The outcome of a message of which the client is told the posts [ps]. *)
Definition tells (ps : list post) s (o : outcome (bool * t caps os)) : Prop :=
  exists s', o = Done (true, s') /\ attending s' /\ told_posts (events s') = told_posts (events s) ++ ps.

Lemma tells_same s : attending s -> tells [] s (Done (true, s)).
Proof. intros Ha. exists s. by rewrite app_nil_r. Qed.

Lemma tells_wp ps s m :
  wp m (fun ok s' => ok = true /\ attending s' /\ told_posts (events s') = told_posts (events s) ++ ps) s ->
  tells ps s (m s).
Proof. intros Hw. destruct (wp_done _ _ _ Hw) as (ok & s' & -> & -> & ?). by exists s'. Qed.

(** ** The parsers, from whatever the client's variables are *)

Lemma parse_post_vars c (v : Z * string) x st v' :
  ResponseParser.parse_post (caps:=caps) set_fst set_snd (c, v) = (POk x, st) ->
  exists c', ResponseParser.parse_post (caps:=caps) Cli.put_tag Cli.put_name (c, v') = (POk x, (c', st.2)).
Proof.
  unfold ResponseParser.parse_post, mbind, P_bind, rd, assign, mret, P_ret.
  destruct (caps_read_u32 c) as [[ty|] c1]; simpl; [|done]. destruct (caps_read_str c1) as [[n|] c2]; simpl; [|done].
  destruct (caps_read_caps c2) as [[a|] c3]; simpl; [|done]. destruct (caps_read_u64 c3) as [[tg|] c4]; simpl; [|done].
  destruct (caps_read_str c4) as [[nm|] c5]; simpl; [|done]. intros [= <- <-]. eauto.
Qed.

Lemma parse_call_vars c (v : Z * string) x st v' :
  ResponseParser.parse_call (caps:=caps) set_fst set_snd (c, v) = (POk x, st) ->
  exists c', ResponseParser.parse_call (caps:=caps) Cli.put_tag Cli.put_name (c, v') = (POk x, (c', st.2)).
Proof.
  unfold ResponseParser.parse_call, mbind, P_bind, rd, assign, mret, P_ret.
  destruct (caps_read_i32 c) as [[id|] c1]; simpl; [|done]. destruct (caps_read_str c1) as [[n|] c2]; simpl; [|done].
  destruct (caps_read_caps c2) as [[a|] c3]; simpl; [|done]. destruct (caps_read_u64 c3) as [[tg|] c4]; simpl; [|done].
  destruct (caps_read_str c4) as [[nm|] c5]; simpl; [|done]. intros [= <- <-]. eauto.
Qed.

Lemma parse_reply_vars c (v : Z * string) r0 x st r0' v' :
  ResponseParser.parse_reply (caps:=caps) set_fst r0 (c, v) = (POk x, st) ->
  exists x' c' w, ResponseParser.parse_reply (caps:=caps) Cli.put_tag r0' (c, v') = (POk x', (c', w)).
Proof.
  unfold ResponseParser.parse_reply, mbind, P_bind, rd, assign, mret, P_ret.
  destruct (caps_read_i32 c) as [[id|] c1]; simpl; [|done]. destruct (caps_read_i32 c1) as [[code|] c2]; simpl; [|done].
  case_bool_decide; simpl.
  - destruct (caps_read_i32 c2) as [[rc|] c3]; simpl; [|done]. destruct (caps_read_caps c3) as [[a|] c4]; simpl; [|done].
    destruct (caps_read_str c4) as [[nm|] c5]; simpl; [|done]. destruct (caps_read_u64 c5) as [[tg|] c6]; simpl; [|done]. eauto.
  - destruct (caps_read_u64 c2) as [[tg|] c6]; simpl; [|done]. eauto.
Qed.

Lemma wp_parsed {A} (p : P caps (Z * string) A) c x c' v s (Q : option A -> t caps os -> Prop) :
  p (c, (tag s, sender_name s)) = (POk x, (c', v)) -> Q (Some x) (set_sender_name v.2 (set_tag v.1 s)) ->
  wp (Cli.parse p c) Q s.
Proof. intros Hp HQ. unfold wpx, Cli.parse. rewrite Hp. by destruct v. Qed.

(** ** One message *)

Lemma told_more es ps : told_posts (es ++ ps) = told_posts es ++ told_posts ps.
Proof. apply omap_app. Qed.

Lemma frame_legible b s :
  legible (caps:=caps) b -> attending s -> tells (option_list (decode_post (caps:=caps) b)) s (Cli.handle_frame b s).
Proof.
  intros (c & r & st & Hp & Hd & Hr) [Hh Hcb]. unfold decode_post, Cli.handle_frame. rewrite Hp. simpl. rewrite Hd. cbn [fst].
  revert Hd. unfold decode_response, mbind at 1, P_bind at 1, rd at 1.
  destruct (caps_read_i32 c) as [[cmd|] c1]; [|done]. simpl. intros Hd. apply tells_wp.
  unfold Cli.handle_cmd. do 2 wstep. rewrite Hh. unfold Cli.after_auth.
  destruct (bool_decide (cmd = CMD_AUTH_RESP)).
  { exfalso. revert Hd. unfold mbind, P_bind. destruct (ResponseParser.parse_auth _) as [[[x v]| | |] st1]; [|done..].
    by intros [= <- _]. }
  destruct (bool_decide (cmd = CMD_POST_RESP)).
  { revert Hd. unfold mbind at 1, P_bind at 1.
    destruct (ResponseParser.parse_post set_fst set_snd (c1, (0, EmptyString))) as [[[[n ty] a]| | |] [c2 v]] eqn:He; [|done..].
    intros [= <- _]. destruct (parse_post_vars _ _ _ _ (tag s, sender_name s) He) as [c' He']. wstep.
    eapply wp_parsed; [exact He'|]. wsteps; [|simpl in *; congruence]. unfold Cli.emit. wsteps.
    split; [done|]. split; [done|]. simpl. by rewrite told_more. }
  destruct (bool_decide (cmd = CMD_CALL_RESP)).
  { revert Hd. unfold mbind at 1, P_bind at 1.
    destruct (ResponseParser.parse_call set_fst set_snd (c1, (0, EmptyString))) as [[[[n a] id]| | |] [c2 v]] eqn:He; [|done..].
    intros [= <- _]. destruct (parse_call_vars _ _ _ _ (tag s, sender_name s) He) as [c' He']. wstep.
    eapply wp_parsed; [exact He'|]. wsteps; [|simpl in *; congruence]. unfold Cli.emit. wsteps.
    split; [done|]. split; [done|]. simpl. by rewrite told_more. }
  destruct (bool_decide (cmd = CMD_REPLY_RESP)).
  { revert Hd. unfold mbind at 1, P_bind at 1.
    destruct (ResponseParser.parse_reply set_fst (mkResponse 0 None EmptyString) (c1, (0, EmptyString))) as [[[[id rc] rp]| | |] [c2 v]] eqn:He; [|done..].
    intros [= <- _]. destruct (parse_reply_vars _ _ _ _ _ Cli.empty_response (tag s, sender_name s) He) as ([[id' rc'] rp'] & c' & w & He').
    wstep. eapply wp_parsed; [exact He'|]. unfold Cli.handle_reply. wsteps.
    destruct (Cli.take_reply _ _ _ _) as [l [f|]]; unfold Cli.emit; wsteps;
      (split; [done|]; split; [done|]); simpl; [|by rewrite app_nil_r]. by rewrite told_more. }
  destruct (bool_decide (cmd = CMD_PONG_RESP)) eqn:Hpong; [|done]. injection Hd as <- _.
  apply bool_decide_eq_true in Hpong as ->. wsteps. split; [done|]. split; [done|]. by rewrite app_nil_r.
Qed.

(** ** A whole connection *)

Lemma frames_legible bs : Forall (legible (caps:=caps)) bs -> forall s, attending s ->
  tells (omap (decode_post (caps:=caps)) bs) s (CliSpec.handle_frames bs s).
Proof.
  induction 1 as [|b bs Hb _ IH]; intros s Ha; [by apply tells_same|].
  destruct (frame_legible b s Hb Ha) as (s1 & He & Ha1 & Ht1). simpl. unfold mbind at 1, M_bind at 1. rewrite He.
  destruct (IH s1 Ha1) as (s2 & He2 & Ha2 & Ht2). exists s2. split; [done|]. split; [done|].
  rewrite Ht2, Ht1, <- app_assoc. f_equal. by destruct (decode_post b).
Qed.

(** A client that waits for the answer to its authentication. *)
Definition awaiting s : Prop :=
  cmd_handler s = handle_cmd_before_auth /\ is_Some (auth_result s) /\ cli_callback s = true.

Context {S : Type} `{!AdapterImpl S}.

Lemma heard_told size (x : Adapter S) s :
  is_u32 size -> heard (caps:=caps) size x -> awaiting s ->
  tells (omap (decode_post (caps:=caps)) (adap_sent (impl x))) s (CliSpec.handle_frames (adap_sent (impl x)) s).
Proof.
  intros Hz (b & l & Hb & -> & Hl) (Hh & [r0 Ha] & Hc). simpl.
  unfold mbind at 1, M_bind at 1. rewrite (frame_auth _ _ _ _ _ r0 Hz Hb Hh Ha).
  assert (decode_post (caps:=caps) b = None) as -> by exact (quiet_auth _ _ _ _ _ Hz Hb).
  destruct (frames_legible l Hl (set_cmd_handler handle_cmd_after_auth (set_auth_result (Some FLORA_CLI_SUCCESS) s)))
    as (s' & He & ? & Ht); [done|]. by exists s'.
Qed.
End Told.
