(* ===== verification/ServiceMailbox.v ===== *)
(** * What the clients of a service are told

    The mailboxes of [Mailbox.v], which [MailboxRun.v] follows through the dispatcher, put
    together with the polls of [Service.v], what is said to a client ([Voice.v]) and what a
    client makes of it ([Told.v]). *)
From S2P Require Import Prelude Defs Caps Adap SockAdap SerHelper SockConn Disp DispInv DispSpec DispLoop DispType.
From S2P Require Import Mailbox MailboxOps MailboxRun Legible SockPoll SockPollSpec PollRun BeepPoll BeepPollSpec Service.
From S2P Require Import CliState Cli CliSpec Roles Voice Told.
Import Dispatcher DispatcherThread.

Section Traces.
Context {caps : Type} `{!CapsOps caps, !CapsFlags, !CapsLaws caps, !CapsSmall caps, !CapsTyped caps}.
Context {S : Type} `{!AdapterImpl S, !AdapterLaws S, !SteadyClock}.

(** Every run accepts something. *)
Lemma traced_steps st0 st st' : steps (step (caps:=caps) (S:=S)) st st' -> forall es,
  traced st0 es st -> exists es', traced st0 es' st'.
Proof.
  induction 1 as [|st st1 st' (lb & He & Ho) _ IH]; intros es Ht; [by exists es|].
  eapply IH. by econstructor.
Qed.

Lemma traced_vocal flags bufsize es st :
  is_u32 bufsize -> traced (caps:=caps) (S:=S) (start flags bufsize) es st -> sys_holds vocal st.
Proof.
  intros Hb Ht. enough (sys_ok st /\ sys_holds vocal st) as [_ ?] by done.
  induction Ht as [|es st lb st' _ [Hok Hv] He Ho]; [split; [by apply start_ok|by apply start_vocal]|].
  split; [eapply step_ok; [done|by exists lb]|by eapply step_vocal].
Qed.
End Traces.

Section Composed.
Context {caps : Type} `{!CapsOps caps, !CapsFlags} {os : Type} `{!SockOS os, !SteadyClock}.
Context {W : Type} `{!PollOS os W}.
Context `{!CapsLaws caps, !CapsSmall caps, !CapsFraming caps, !CapsTyped caps}.
Context `{!SockLaws os, !PollLaws os W, !FdLimit os W}.
Implicit Types (sv : Service.t caps os W).

(** A run of the service is a run of the dispatcher. *)
Lemma service_traced flags bufsize ps w st :
  is_u32 bufsize -> Forall (fun p => idle (base p)) ps ->
  steps Service.step (Service.start flags bufsize ps w) st ->
  exists sv es, st = Service.Up sv /\ service_ok sv /\ traced (DispatcherThread.start flags bufsize) es (disp_sys sv).
Proof.
  intros Hb Hps Hst. pattern st. eapply (steps_invariant Service.step); [|exact Hst|].
  - intros s1 s2 (sv & es & -> & Hok & Ht) Hstep. destruct (service_step_ok sv s2 Hok Hstep) as (sv' & -> & Hok' & Hm).
    destruct (traced_steps _ _ _ (moved_steps _ _ Hm) es Ht) as [es' Ht']. by exists sv', es'.
  - eexists _, []. split; [done|]. split; [by eapply service_start_ok|constructor].
Qed.

(** C6. A client is told of exactly the posts for it. Take any run of a service with any
    number of polls: there is an order in which the service accepted the connections, the
    subscriptions and the posts of all its clients such that every client whose connection
    is open and that handles the messages written to it, from the answer to its
    authentication on, accepts all of them, whatever they are, and its callback is told of
    exactly the posts of its mailbox: those under a name it subscribed to at that moment,
    each once and in that order, and the kept post of a name at a new subscription. *)
Theorem posts_told {os'} `{!SockOS os', !SockConnect os', !UriParser} flags bufsize ps w sv :
  is_u32 bufsize -> Forall (fun p => idle (base p)) ps ->
  steps Service.step (Service.start flags bufsize ps w) (Service.Up sv) ->
  exists es, traced (DispatcherThread.start flags bufsize) es (disp_sys sv) /\
    forall a x k (cl : Client.t caps os'),
      adapters (Service.sv_disp sv) !! a = Some x -> info x = Some (InAdapters k) ->
      SocketAdapter.closed (impl x) = false -> awaiting cl -> Client.events cl = [] ->
      let m := mailbox_of (buf_size (Service.sv_disp sv)) a es in
      (forall n, n ∈ mb_names m <-> a ∈ subscribers (Service.sv_disp sv) n) /\
      exists cl', handle_frames (SocketAdapter.sent (impl x)) cl = Done (true, cl') /\
        told_posts (Client.events cl') = mb_posts m.
Proof.
  intros Hb Hps Hst. destruct (service_traced _ _ _ _ _ Hb Hps Hst) as (sv' & es & [= <-] & _ & Ht). exists es.
  split; [done|]. intros a x k cl Hx Hk Ho Hcl He.
  destruct (traced_mailed _ _ _ _ Hb Ht) as (_ & _ & Hm). pose proof (traced_vocal _ _ _ _ Hb Ht) as Hv.
  destruct (ma_box _ _ Hm a x Hx Ho) as (_ & Hp & Hn). split; [exact Hn|].
  destruct (heard_told _ x cl (vo_size _ Hv) (vo_heard _ Hv a x k Hx Hk Ho) Hcl) as (cl' & Hf & _ & Hto).
  exists cl'. split; [exact Hf|]. rewrite Hto, He. symmetry. exact Hp.
Qed.
End Composed.
