(* ===== verification/MailboxService.v ===== *)
(** * What a client is told in a run of the service

    Alice posts, through the unix poll, before and after Bob, at the keepalive poll,
    subscribes. *)
From S2P Require Import Prelude Defs Caps RefCaps Adap SerHelper SockAdap RefSock Disp DispInv DispSpec.
From S2P Require Import DispLoop DispType SockConn CliState Cli CliSpec Scenario ClientScenario.
From S2P Require Import Mailbox MailboxRun Legible SockPoll SockPollSpec PollRun BeepPoll BeepPollSpec Service PollScenario.
From S2P Require Import Voice Told ServiceMailbox.
Import Client Dispatcher DispatcherThread.

Definition news_world : rworld :=
  mkRworld ∅ [[3]; [4]; [5]; [6]; [5]; [6]; [5]]
    [peer [f_auth "alice" 0; f_post "news" FLORA_MSGTYPE_PERSIST; f_post "news" FLORA_MSGTYPE_INSTANT];
     peer [f_auth "bob" 0; f_subscribe "news"]] 1000000000.

Definition news_day : list (Service.label rsock) :=
  connects ++ round 0 6 ++ round 1 7 ++ handle 2 ++ round 0 6 ++ handle 1 ++ round 1 7 ++ handle 1 ++
  round 0 6 ++ handle 1.

Definition news_start : rsys := Service.start 0 0 the_polls news_world.
Definition up_or (d : rservice) (st : option rsys) : rservice :=
  match st with Some (Service.Up sv) => sv | _ => d end.
Definition is_up (st : option rsys) : bool := match st with Some (Service.Up _) => true | _ => false end.
Definition news_end : rservice :=
  up_or (Service.mk [] Top (new 0 0) news_world) (run_service news_start news_day).
Definition news_state : rdisp := Service.sv_disp news_end.

(** The second connection that was accepted, and its client, which has sent its
    authentication. *)
Definition bob_conn : aid := 2%positive.
Definition bob_log : list bytes := SocketAdapter.sent (impl (adapter_at news_state bob_conn)).

Definition bobs_client : rclient :=
  set_cli_callback true (set_auth_result (Some 0)
    (set_connection (Some (SocketConn.mk (Some (7, RefSock.quiet)) 0 true [])) (Cli.new 1024 0))).

Definition bobs_posts : list post :=
  match CliSpec.handle_frames bob_log bobs_client with Done (_, c) => told_posts (Client.events c) | _ => [] end.

Lemma up_or_some d st : is_up st = true -> st = Some (Service.Up (up_or d st)).
Proof. destruct st as [[sv|]|]; intros Hu; [reflexivity|discriminate Hu|discriminate Hu]. Qed.

Lemma news_up : is_up (run_service news_start news_day) = true.
Proof. vm_compute. reflexivity. Qed.

Lemma news_reached : steps Service.step news_start (Service.Up news_end).
Proof. exact (run_service_steps news_day news_start _ (up_or_some _ _ news_up)). Qed.

Lemma bob_connected : adapters (Service.sv_disp news_end) !! bob_conn = Some (adapter_at news_state bob_conn).
Proof. apply adapter_at_some. apply (bool_decide_unpack _). vm_compute. exact I. Qed.

Lemma bob_registered : info (adapter_at news_state bob_conn) = Some (InAdapters bob_conn).
Proof. vm_compute. reflexivity. Qed.

(** Bob is told of two posts: the kept one, and the one that came after. *)
Lemma posts_told_witness :
  po_type <$> bobs_posts = [FLORA_MSGTYPE_PERSIST; FLORA_MSGTYPE_INSTANT] /\
  exists es, traced (DispatcherThread.start 0 0) es (disp_sys news_end) /\
    exists cl', CliSpec.handle_frames bob_log bobs_client = Done (true, cl') /\
      told_posts (Client.events cl') = mb_posts (mailbox_of (buf_size news_state) bob_conn es).
Proof.
  split; [vm_compute; reflexivity|].
  destruct (posts_told (os':=rsock) 0 0 the_polls news_world news_end) as (es & Ht & Hc).
  - vm_compute. by split.
  - exact the_polls_idle.
  - exact news_reached.
  - exists es. split; [exact Ht|].
    apply (Hc bob_conn (adapter_at news_state bob_conn) bob_conn bobs_client).
    + exact bob_connected.
    + exact bob_registered.
    + vm_compute. reflexivity.
    + split; [reflexivity|]. split; [by eexists|reflexivity].
    + reflexivity.
Defined.
