(* ===== verification/MonitorScenario.v ===== *)
(** * A monitor in a run of the service

    Alice, a client of the unix poll, and Carol, a monitor at the keepalive poll, are
    connected; Bob arrives and Alice leaves. The run is evaluated, with the size of the
    lists of clients checked at every step, and the theorems about monitors are applied
    to it. *)
From S2P Require Import Prelude Defs Caps RefCaps Adap SerHelper SockAdap RefSock Disp DispInv.
From S2P Require Import DispLoop DispType SockConn CliState Cli CliSpec Monitor MonitorPeer MonitorLog MonitorRun.
From S2P Require Import Scenario ClientScenario SockPoll SockPollSpec PollRun BeepPoll BeepPollSpec Service.
From S2P Require Import PollScenario ServiceMonitor.
Import Client Dispatcher DispatcherThread.

(** ** Deciding what the steps ask *)

(** With the reference format the size of an announcement does not depend on the flags. *)
Lemma ref_encode_flags size flags n :
  is_Some (encode (caps:=rcaps) size 0 n) -> is_Some (encode (caps:=rcaps) size flags n).
Proof.
  assert (forall c : rcaps, is_Some (serialize_to size 0 c) -> is_Some (serialize_to size flags c)) as Hs.
  { intros c. unfold serialize_to. simpl. unfold ref_serialize. case_bool_decide; [|done].
    repeat (case_bool_decide; [by intros []|]). by eexists. }
  destruct n; apply Hs.
Qed.

Definition listableb (s : rdisp) : bool :=
  bool_decide (Z.of_nat (size (adapter_infos s)) < two31) && bool_decide (idseq s < two32 - 1) &&
  forallb (fun p => bool_decide (c_str (ai_name p.2) = ai_name p.2) &&
                    bool_decide (is_Some (encode (caps:=rcaps) (buf_size s) 0 (ClientAdded p.2))))
    (map_to_list (adapter_infos s)) &&
  bool_decide (is_Some (encode (caps:=rcaps) (buf_size s) 0 (AllClients (adapter_infos s)))).

Lemma listableb_spec s : listableb s = true -> listable s.
Proof.
  unfold listableb. rewrite !andb_true_iff. intros [[[Hn Hi] Hl] Ha].
  apply bool_decide_eq_true in Hn, Hi, Ha. rewrite forallb_forall in Hl.
  assert (forall k i, adapter_infos s !! k = Some i -> c_str (ai_name i) = ai_name i /\
    is_Some (encode (caps:=rcaps) (buf_size s) 0 (ClientAdded i))) as Hl'.
  { intros k i Hk%elem_of_map_to_list%list_elem_of_In. specialize (Hl _ Hk).
    apply andb_true_iff in Hl as [H1 H2]. by apply bool_decide_eq_true in H1, H2. }
  split; [done|done| | |].
  - intros k i Hk. by apply (Hl' k).
  - intros flags. by apply ref_encode_flags.
  - intros flags k i Hk. apply ref_encode_flags. by apply (Hl' k).
Qed.

Definition lists_fitb (st : rsys) : bool :=
  match st with Service.Up sv => listableb (Service.sv_disp sv) | Service.Down _ => true end.

Lemma lists_fitb_spec st : lists_fitb st = true -> lists_fit st.
Proof. destruct st; [apply listableb_spec|done]. Qed.

(** Runs the service while the lists fit. *)
Fixpoint run_fit (st : rsys) (lbs : list (Service.label rsock)) : option rsys :=
  match lbs with
  | [] => Some st
  | lb :: lbs =>
      match run_service st [lb] with
      | Some st' => if lists_fitb st && lists_fitb st' then run_fit st' lbs else None
      | None => None
      end
  end.

Lemma run_fit_steps lbs : forall st st', run_fit st lbs = Some st' -> steps fit_step st st'.
Proof.
  induction lbs as [|lb lbs IH]; intros st st' Hr; simpl in Hr; [simplify_eq; constructor|].
  destruct (run_service st [lb]) as [st1|] eqn:H1; [|simpl in H1; by rewrite H1 in Hr].
  simpl in H1. rewrite H1 in Hr.
  destruct (lists_fitb st && lists_fitb st1) eqn:Hf; [|done]. apply andb_true_iff in Hf as [? ?].
  econstructor; [|by apply IH]. destruct st as [sv|]; [|done].
  destruct (Service.exec sv lb) as [st2|] eqn:He; [|done]. destruct (orderly_svb sv lb st2) eqn:Ho; simplify_eq.
  split; [|split; by apply lists_fitb_spec]. exists lb. split; [done|]. by apply orderly_svb_spec.
Qed.

Lemma run_fit_up flags bufsize ps w lbs :
  is_u32 bufsize -> Forall (fun p => idle (base p)) ps ->
  bool_decide (is_Some (run_fit (Service.start flags bufsize ps w) lbs)) = true ->
  exists sv, run_fit (Service.start flags bufsize ps w) lbs = Some (Service.Up sv) /\
    steps fit_step (Service.start flags bufsize ps w) (Service.Up sv).
Proof.
  intros Hb Hps [st Hst]%bool_decide_eq_true. pose proof (run_fit_steps _ _ _ Hst) as Hs.
  destruct (fit_reachable _ _ _ _ _ Hb Hps Hs) as (sv & -> & _). by exists sv.
Qed.

(** ** The run *)

Definition watched_world : rworld :=
  mkRworld ∅ [[3]; [4]; [5]; [6]; [3]; [7]; [5]]
    [peer [f_auth "alice" 0]; peer [f_auth "watcher" FLORA_CLI_FLAG_MONITOR]; peer [f_auth "bob" 0]] 1000000000.

Definition watched : list (Service.label rsock) :=
  connects ++ round 0 6 ++ round 1 7 ++ handle 2 ++ round 0 8 ++ round 0 8 ++ handle 1 ++ round 0 8 ++ handle 1.

Definition watched_start : rsys := Service.start FLORA_DISP_FLAG_MONITOR 0 the_polls watched_world.
Definition watched_end : rservice :=
  match run_fit watched_start watched with
  | Some (Service.Up sv) => sv
  | _ => Service.mk [] Top (new 0 0) watched_world
  end.
Definition watched_state : rdisp := Service.sv_disp watched_end.

(** Carol's client, which has sent its authentication. *)
Definition watcher : rclient :=
  set_mon_callback true (set_auth_result (Some 0)
    (set_connection (Some (SocketConn.mk (Some (7, RefSock.quiet)) 0 true []))
      (Cli.new 1024 FLORA_CLI_FLAG_MONITOR))).

(** The second connection that was accepted. *)
Definition watcher_conn : aid := 2%positive.

Definition watcher_log : list bytes := SocketAdapter.sent (impl (adapter_at watched_state watcher_conn)).

(** The calls of her view's functions. *)
Definition watcher_events : list (Client.event rcaps) :=
  match CliSpec.handle_frames watcher_log watcher with Done (_, c) => Client.events c | _ => [] end.

Lemma watched_reached : steps fit_step watched_start (Service.Up watched_end).
Proof.
  destruct (run_fit_up FLORA_DISP_FLAG_MONITOR 0 the_polls watched_world watched) as (sv & Hr & Hs).
  - split; reflexivity || discriminate.
  - exact the_polls_idle.
  - vm_compute. reflexivity.
  - unfold watched_end, watched_start. rewrite Hr. exact Hs.
Qed.

Lemma watcher_registered : is_Some (monitors (Service.sv_disp watched_end) !! watcher_conn).
Proof. apply (bool_decide_unpack _). vm_compute. exact I. Qed.

Lemma watcher_connected :
  adapters (Service.sv_disp watched_end) !! watcher_conn = Some (adapter_at watched_state watcher_conn).
Proof.
  apply adapter_at_some. apply (bool_decide_unpack _). vm_compute. exact I.
Qed.

Lemma watched_clients :
  clients (adapter_infos (Service.sv_disp watched_end)) = [MonitorView.mkClientInfo 3 77 "bob" 0].
Proof. vm_compute. reflexivity. Qed.

(** Four announcements later the view shows Bob. *)
Lemma monitor_shows_clients_witness :
  length watcher_log = 4%nat /\
  exists cl', CliSpec.handle_frames watcher_log watcher = Done (true, cl') /\
    list_after (Client.events cl') ≡ₚ [MonitorView.mkClientInfo 3 77 "bob" 0].
Proof.
  split; [vm_compute; reflexivity|]. rewrite <- watched_clients.
  apply (monitor_shows_clients FLORA_DISP_FLAG_MONITOR 0 the_polls watched_world watched_end watcher_conn
    (adapter_at watched_state watcher_conn) watcher).
  - vm_compute. by split.
  - exact the_polls_idle.
  - exact watched_reached.
  - exact watcher_registered.
  - exact watcher_connected.
  - vm_compute. reflexivity.
  - split; [reflexivity|]. split; [by eexists|reflexivity].
  - reflexivity.
Defined.

(** The screen after those calls. *)
Lemma screen_up_to_date_witness :
  length watcher_events = 3%nat /\
  exists v, for_each watcher_events MonitorView.on_event MonitorView.new = Done (tt, v) /\
    MonitorView.floraClients v = [MonitorView.mkClientInfo 3 77 "bob" 0] /\ up_to_date v.
Proof.
  split; [vm_compute; reflexivity|].
  destruct (screen_up_to_date watcher_events) as (v & Hd & Hl & Hu).
  - assert (watcher_events = [Client.list_all [mkMonitorListItem 1 77 "alice" 0];
      Client.list_add (mkMonitorListItem 3 77 "bob" 0); Client.list_remove 1]) as -> by (vm_compute; reflexivity).
    repeat first [done|by apply Forall_nil|apply Forall_cons; split]; vm_compute; by split.
  - exists v. split; [exact Hd|]. split; [|exact Hu]. rewrite Hl. vm_compute. reflexivity.
Defined.
