(* ===== verification/DispTypeScenario.v ===== *)
(** * The dispatcher's numbers in a run *)
From S2P Require Import Prelude Defs Caps RefCaps Adap RefSock Disp DispLoop DispType SockAdap Scenario.
Import Dispatcher DispatcherThread.

Lemma execs_any_steps (lbs : list (label conn)) : forall st st',
  execs st lbs = Some st' -> steps (any_step (caps:=rcaps)) st st'.
Proof.
  induction lbs as [|lb lbs IH]; intros st st'; simpl; [intros [= <-]; constructor|].
  destruct (exec st lb) as [st1|] eqn:He; [|done]. intros Hx.
  eapply steps_step; [by exists lb|by apply IH].
Qed.

(** The run of a call that waits for its answer. *)
Lemma call_numbers_witness :
  reqseq waiting_state = 1 /\ NoDup (svrid <$> pending_calls waiting_state).
Proof.
  split; [vm_compute; reflexivity|].
  apply (call_numbers 0 0 (Waiting (Some waiting_deadline) false)).
  apply (execs_any_steps waiting_run); vm_compute; reflexivity.
Defined.
