(* ===== verification/Deviations.v ===== *)
(** * Where the dispatcher goes wrong

    Runs of the model that leave what the theorems on orderly clients promise: each
    step is one the code takes for the bytes a client sends and the order in which the
    threads run. *)
From S2P Require Import Prelude Defs Caps RefCaps Adap RefSock Disp DispLoop SerHelper SockAdap Scenario.
Import Dispatcher DispatcherThread.

(** ** A negative command *)

(** A message whose command is negative, from any connection that is not a monitor's,
    indexes the table of handlers out of bounds. *)
Lemma negative_command_crashes {caps} `{!CapsOps caps, !CapsFlags} {S} `{!AdapterImpl S, !SteadyClock}
    (c c' : caps) (cmd : Z) (a : aid) (x : Adapter S) (s : Disp caps S) :
  adapters s !! a = Some x -> info x = None -> caps_read_i32 c = (Some cmd, c') -> cmd < 0 ->
  handle_cmd (Some c) a s = Undef HandlerIndex.
Proof.
  intros Ha Hi Hr Hc. unfold handle_cmd, deref, mbind, M_bind, mret, M_ret. rewrite Ha, Hi. simpl.
  rewrite Hr. rewrite bool_decide_false by (unfold MSG_HANDLER_COUNT; lia).
  unfold msg_handler. by rewrite bool_decide_false by lia.
Qed.

(** ** The last service id *)

(** The counter of the calls is never reset: the call after the one that got the largest
    [int32_t] is a signed overflow, before anything is recorded or sent. *)
Lemma numbers_run_out {caps S} (s : Disp caps S) :
  reqseq s = two31 - 1 -> next_svrid s = Undef SignedOverflow.
Proof. intros H. unfold next_svrid, mbind, M_bind, gets. rewrite H. reflexivity. Qed.

(** ** Runs *)

Definition state_at (lbs : list (label conn)) : option rdisp :=
  match execs (start 1 0) lbs with Some (Running _ s) => Some s | _ => None end.

(** Alice is a client called "alice"; Carol, a monitor that calls itself "alice" too,
    comes and goes. *)
Definition monitor_leaves : list (label conn) :=
  arrivals ++ whole [(alice, f_auth "alice" 0)] ++ whole [(carol, f_auth "alice" 1)] ++
  [LDelete carol; LLock; LHandle; LBatchDone].

Lemma monitor_erases_name :
  (fun s => (named_adapters s !! "alice", ai_name <$> adapter_infos s !! alice)) <$> state_at monitor_leaves
    = Some (None, Some "alice").
Proof. vm_compute. reflexivity. Qed.

(** Bob authenticates twice, as "bob" and as "bert", and leaves; Alice calls "bert". *)
Definition reauthenticated : list (label conn) :=
  arrivals ++ whole [(alice, f_auth "alice" 0)] ++ whole [(bob, f_auth "bob" 0)] ++
  whole [(bob, f_auth "bert" 0)] ++ [LDelete bob; LLock; LHandle; LBatchDone] ++
  [LPut alice (f_call "add" "bert" 9 500); LLock; LHandle].

Lemma reauthentication_dangles :
  execs (start 0 0) reauthenticated = Some (Crashed DanglingInfo).
Proof. vm_compute. reflexivity. Qed.

(** Bob's connection is deleted between the arrival of his authentication and its
    handling: his registration stays, with nothing queued to erase it. *)
Definition deleted_early : list (label conn) :=
  arrivals ++ [LPut bob (f_auth "bob" 0); LLock; LDelete bob; LHandle; LBatchDone].

Lemma registration_survives :
  (fun s => (ai_name <$> adapter_infos s !! bob, named_adapters s !! "bob",
             bool_decide (bob ∈ held s), length (cmd_packets s))) <$> state_at deleted_early
    = Some (Some "bob", Some bob, false, 0%nat).
Proof. vm_compute. reflexivity. Qed.
